(** * deps-tree: dependency-ordered start-up and shutdown of modules

    A shallow embedding of [DepsTree] (the class of the repository's main
    source file) and of [types.ts], followed by the properties of the
    specification that were checked against it.

    How the program is modelled.

    - The [modules] object of the class is an association list in the
      enumeration order of [for ... in]; a JavaScript object has no two equal
      keys, so the lists handed to the constructor have distinct names
      ([NoDup]).  Names that collide with members of [Object.prototype] are
      outside the model.
    - [number] fields are [Z]; the counters are only ever incremented,
      decremented and compared with zero.
    - The class is an [EventEmitter]: every [emit], every [console.error] and
      every invocation of a module operation is recorded, newest first, in
      the [trace] of the tree.
    - A module operation ([init], [deinit]) is caller-supplied code.  Calling
      it yields a value or a promise ([SyncOrAsync]); the [await] on it
      suspends the enclosing [async] function, and the operation's outcome is
      delivered later.  The suspended continuations are the [pendingInit] and
      [pendingDeinit] lists, and the outcome of an operation is chosen by the
      environment (an [Action]).
    - [Promise.resolve().then(callback)] in [init()] queues [callback]; the
      flag [initCallback] says that it is queued and not yet run.
    - One JavaScript turn runs to completion, so every [Action] is one atomic
      step of the tree. *)

From Stdlib Require Import List String ZArith Bool Lia Arith PeanoNat.
Import ListNotations.

Local Open Scope string_scope.
Local Open Scope Z_scope.

(** ** types.ts *)

Module State.

(** [export enum State]. *)
Inductive t : Set :=
| off
| initializing
| up
| deinitializing
| down
| error.

Definition eqb (a b : t) : bool :=
  match a, b with
  | off, off | initializing, initializing | up, up
  | deinitializing, deinitializing | down, down | error, error => true
  | _, _ => false
  end.

End State.

(** JavaScript values as far as the tree looks at them: it stores the [data]
    of a module and tests it for truthiness. *)
Inductive value : Set :=
| VUndefined
| VNull
| VBoolean (b : bool)
| VNumber (z : Z)
| VString (s : string)
| VObject (ref : nat).

(** ToBoolean. *)
Definition truthy (v : value) : bool :=
  match v with
  | VUndefined | VNull => false
  | VBoolean b => b
  | VNumber z => negb (z =? 0)
  | VString s => negb (s =? "")%string
  | VObject _ => true
  end.

(** [a || b]. *)
Definition js_or (a b : value) : value := if truthy a then a else b.

(** What is thrown.  [BrokenDependencyError d] is
    [new Error(`Broken dependency "${d}"`)], [InvalidStateError] is
    [new Error('I can\'t init tree')], [StateError] is
    [new Error('State error')], [TypeError] is what a property access on
    [undefined] throws, and [OperationError] is whatever a module operation
    throws or rejects with. *)
Inductive Error : Set :=
| BrokenDependencyError (depName : string)
| InvalidStateError
| StateError
| TypeError
| OperationError (reason : string).

(** A caller-supplied operation, or the default [() => {}]. *)
Inductive Operation : Set :=
| External
| Noop.

(** [export interface ModuleDescription]; an optional field that is absent is
    [None] (for [data]: [VUndefined]). *)
Record ModuleDescription : Set := {
  deps : option (list string);
  init : Operation;
  deinit : option Operation;
  data : value;
  needed : option bool
}.

(** The result of running a piece of code that may throw; [Diverge] is the
    result of a recursion that ran out of fuel. *)
Inductive Completion (A : Type) : Type :=
| Normal (a : A)
| Throw (e : Error)
| Diverge.

Arguments Normal {A} a.
Arguments Throw {A} e.
Arguments Diverge {A}.

Definition bind {A B : Type} (c : Completion A) (k : A -> Completion B)
  : Completion B :=
  match c with
  | Normal a => k a
  | Throw e => Throw e
  | Diverge => Diverge
  end.

(** A [for] loop whose body may throw. *)
Fixpoint for_each {A B : Type} (body : A -> B -> Completion A) (l : list B)
  (a : A) : Completion A :=
  match l with
  | [] => Normal a
  | x :: l' => bind (body a x) (for_each body l')
  end.

(** ** The entries of [this.modules] *)

Module Mod.

Record t : Set := {
  dependencies : list string;
  dependenciesToLoad : Z;
  dependants : list string;
  state : State.t;
  dependantsToUnload : Z;
  needed : bool;
  data : value;
  init : Operation;
  deinit : Operation;
  error : option Error
}.

Definition with_dependenciesToLoad (n : Z) (m : t) : t :=
  {| dependencies := dependencies m; dependenciesToLoad := n;
     dependants := dependants m; state := state m;
     dependantsToUnload := dependantsToUnload m; needed := needed m;
     data := data m; init := init m; deinit := deinit m; error := error m |}.

Definition with_dependants (l : list string) (m : t) : t :=
  {| dependencies := dependencies m;
     dependenciesToLoad := dependenciesToLoad m;
     dependants := l; state := state m;
     dependantsToUnload := dependantsToUnload m; needed := needed m;
     data := data m; init := init m; deinit := deinit m; error := error m |}.

Definition with_state (s : State.t) (m : t) : t :=
  {| dependencies := dependencies m;
     dependenciesToLoad := dependenciesToLoad m;
     dependants := dependants m; state := s;
     dependantsToUnload := dependantsToUnload m; needed := needed m;
     data := data m; init := init m; deinit := deinit m; error := error m |}.

Definition with_dependantsToUnload (n : Z) (m : t) : t :=
  {| dependencies := dependencies m;
     dependenciesToLoad := dependenciesToLoad m;
     dependants := dependants m; state := state m;
     dependantsToUnload := n; needed := needed m;
     data := data m; init := init m; deinit := deinit m; error := error m |}.

Definition with_needed (b : bool) (m : t) : t :=
  {| dependencies := dependencies m;
     dependenciesToLoad := dependenciesToLoad m;
     dependants := dependants m; state := state m;
     dependantsToUnload := dependantsToUnload m; needed := b;
     data := data m; init := init m; deinit := deinit m; error := error m |}.

Definition with_data (v : value) (m : t) : t :=
  {| dependencies := dependencies m;
     dependenciesToLoad := dependenciesToLoad m;
     dependants := dependants m; state := state m;
     dependantsToUnload := dependantsToUnload m; needed := needed m;
     data := v; init := init m; deinit := deinit m; error := error m |}.

Definition with_error (e : option Error) (m : t) : t :=
  {| dependencies := dependencies m;
     dependenciesToLoad := dependenciesToLoad m;
     dependants := dependants m; state := state m;
     dependantsToUnload := dependantsToUnload m; needed := needed m;
     data := data m; init := init m; deinit := deinit m; error := e |}.

End Mod.

(** [this.modules]: name-keyed, in enumeration order. *)
Definition Modules : Set := list (string * Mod.t).

(** [modules[name]]. *)
Fixpoint find_module (name : string) (ms : Modules) : option Mod.t :=
  match ms with
  | [] => None
  | (n, m) :: ms' => if (n =? name)%string then Some m else find_module name ms'
  end.

(** A mutation of the object [modules[name]]. *)
Fixpoint update_module (name : string) (f : Mod.t -> Mod.t) (ms : Modules)
  : Modules :=
  match ms with
  | [] => []
  | (n, m) :: ms' =>
      (n, if (n =? name)%string then f m else m) :: update_module name f ms'
  end.

Definition names (ms : Modules) : list string := map fst ms.

Definition dependencies_of (name : string) (ms : Modules) : list string :=
  match find_module name ms with
  | Some m => Mod.dependencies m
  | None => []
  end.

Definition dependants_of (name : string) (ms : Modules) : list string :=
  match find_module name ms with
  | Some m => Mod.dependants m
  | None => []
  end.

(** ** The constructor *)

(** The object literal of the first loop of the constructor. *)
Definition new_module (module : ModuleDescription) : Mod.t :=
  let dependencies :=
    match deps module with Some l => l | None => [] end in
  {| Mod.dependencies := dependencies;
     Mod.dependenciesToLoad := Z.of_nat (List.length dependencies);
     Mod.dependants := [];
     Mod.state := State.off;
     Mod.dependantsToUnload := 0;
     Mod.needed := match needed module with Some b => b | None => false end;
     Mod.data := data module;
     Mod.init := init module;
     Mod.deinit := match deinit module with Some op => op | None => Noop end;
     Mod.error := None |}.

(** The body of the inner loop of the second loop: look the dependency up and
    push the module onto its [dependants]. *)
Definition link_dependency (moduleName : string) (ms : Modules)
  (depName : string) : Completion Modules :=
  match find_module depName ms with
  | None => Throw (BrokenDependencyError depName)
  | Some _ =>
      Normal (update_module depName
                (fun dependency =>
                   Mod.with_dependants
                     (Mod.dependants dependency ++ [moduleName]) dependency)
                ms)
  end.

Definition link_module (ms : Modules) (moduleName : string)
  : Completion Modules :=
  for_each (link_dependency moduleName) (dependencies_of moduleName ms) ms.

Definition link_modules (ms : Modules) : Completion Modules :=
  for_each link_module (names ms) ms.

(** [fillNeeded(modules[name])].  The recursion of the source is on nothing
    that decreases structurally; [fuel] bounds its depth, and
    [fillNeeded_terminates] shows that the fuel the constructor passes is
    enough. *)
Fixpoint fillNeeded (fuel : nat) (ms : Modules) (name : string)
  : Completion Modules :=
  match fuel with
  | O => Diverge
  | S fuel' =>
      for_each
        (fun ms dependencyName =>
           match find_module dependencyName ms with
           | None => Throw TypeError
           | Some dependency =>
               if Mod.needed dependency then Normal ms
               else fillNeeded fuel' ms dependencyName
           end)
        (dependencies_of name ms)
        (update_module name (Mod.with_needed true) ms)
  end.

(** The third loop of the constructor. *)
Definition fill_all_needed (ms : Modules) : Completion Modules :=
  for_each
    (fun ms moduleName =>
       match find_module moduleName ms with
       | None => Throw TypeError
       | Some module =>
           if Mod.needed module then fillNeeded (S (List.length ms)) ms moduleName
           else Normal ms
       end)
    (names ms) ms.

(** The first loop of the constructor. *)
Definition new_modules (descriptions : list (string * ModuleDescription))
  : Modules :=
  map (fun d => (fst d, new_module (snd d))) descriptions.

Definition build_modules (descriptions : list (string * ModuleDescription))
  : Completion Modules :=
  bind (link_modules (new_modules descriptions)) fill_all_needed.

(** ** The class *)

(** What [defer()] returns: a promise, identified by the number of the
    [defer()] call that made it, and whether [resolve] was called on it. *)
Record Deferred : Set := {
  promise : nat;
  resolved : bool
}.

(** The promises [init()] and [deinit()] return: [Promise.resolve()], or the
    promise of a [Deferred]. *)
Inductive Promise : Set :=
| ResolvedPromise
| DeferredPromise (id : nat).

(** What the tree does to the outside, and what the outside does to the tree
    (the outcome of an operation reaching its [await]). *)
Inductive Event : Set :=
| Emit_module_state (name : string) (st : State.t)
| Emit_state (st : State.t)
| Emit_started
| Emit_stopped
| Emit_error (err : Error) (name : string)
| Console_error (err : Error)
| Invoke_init (name : string) (dependenciesObject : list (string * value))
| Invoke_deinit (name : string)
| Init_returned (name : string) (data : value)
| Init_failed (name : string) (err : Error)
| Deinit_returned (name : string)
| Deinit_failed (name : string) (err : Error).

Module DepsTree.

(** The fields of the class, then the part of the runtime the class depends
    on: whether an ['error'] listener is registered, the number of [defer()]
    calls so far, the queued callback of [init()], the suspended [async]
    functions, and the record of effects. *)
Record t : Set := {
  state : State.t;
  _modulesToUnload : Z;
  errors : list Error;
  modules : Modules;
  _modulesToLoad : Z;
  _initDefer : option Deferred;
  _deinitDefer : option Deferred;
  errorListeners : bool;
  defers : nat;
  initCallback : bool;
  pendingInit : list string;
  pendingDeinit : list string;
  trace : list Event
}.

Definition with_state (x : State.t) (t : t) : DepsTree.t :=
  {| state := x; _modulesToUnload := _modulesToUnload t; errors := errors t;
     modules := modules t; _modulesToLoad := _modulesToLoad t;
     _initDefer := _initDefer t; _deinitDefer := _deinitDefer t;
     errorListeners := errorListeners t; defers := defers t;
     initCallback := initCallback t; pendingInit := pendingInit t;
     pendingDeinit := pendingDeinit t; trace := trace t |}.

Definition with_modulesToUnload (x : Z) (t : t) : DepsTree.t :=
  {| state := state t; _modulesToUnload := x; errors := errors t;
     modules := modules t; _modulesToLoad := _modulesToLoad t;
     _initDefer := _initDefer t; _deinitDefer := _deinitDefer t;
     errorListeners := errorListeners t; defers := defers t;
     initCallback := initCallback t; pendingInit := pendingInit t;
     pendingDeinit := pendingDeinit t; trace := trace t |}.

Definition with_errors (x : list Error) (t : t) : DepsTree.t :=
  {| state := state t; _modulesToUnload := _modulesToUnload t; errors := x;
     modules := modules t; _modulesToLoad := _modulesToLoad t;
     _initDefer := _initDefer t; _deinitDefer := _deinitDefer t;
     errorListeners := errorListeners t; defers := defers t;
     initCallback := initCallback t; pendingInit := pendingInit t;
     pendingDeinit := pendingDeinit t; trace := trace t |}.

Definition with_modules (x : Modules) (t : t) : DepsTree.t :=
  {| state := state t; _modulesToUnload := _modulesToUnload t;
     errors := errors t;
     modules := x; _modulesToLoad := _modulesToLoad t;
     _initDefer := _initDefer t; _deinitDefer := _deinitDefer t;
     errorListeners := errorListeners t; defers := defers t;
     initCallback := initCallback t; pendingInit := pendingInit t;
     pendingDeinit := pendingDeinit t; trace := trace t |}.

Definition with_modulesToLoad (x : Z) (t : t) : DepsTree.t :=
  {| state := state t; _modulesToUnload := _modulesToUnload t;
     errors := errors t;
     modules := modules t; _modulesToLoad := x;
     _initDefer := _initDefer t; _deinitDefer := _deinitDefer t;
     errorListeners := errorListeners t; defers := defers t;
     initCallback := initCallback t; pendingInit := pendingInit t;
     pendingDeinit := pendingDeinit t; trace := trace t |}.

Definition with_initDefer (x : option Deferred) (t : t) : DepsTree.t :=
  {| state := state t; _modulesToUnload := _modulesToUnload t;
     errors := errors t;
     modules := modules t; _modulesToLoad := _modulesToLoad t;
     _initDefer := x; _deinitDefer := _deinitDefer t;
     errorListeners := errorListeners t; defers := defers t;
     initCallback := initCallback t; pendingInit := pendingInit t;
     pendingDeinit := pendingDeinit t; trace := trace t |}.

Definition with_deinitDefer (x : option Deferred) (t : t) : DepsTree.t :=
  {| state := state t; _modulesToUnload := _modulesToUnload t;
     errors := errors t;
     modules := modules t; _modulesToLoad := _modulesToLoad t;
     _initDefer := _initDefer t; _deinitDefer := x;
     errorListeners := errorListeners t; defers := defers t;
     initCallback := initCallback t; pendingInit := pendingInit t;
     pendingDeinit := pendingDeinit t; trace := trace t |}.

Definition with_errorListeners (x : bool) (t : t) : DepsTree.t :=
  {| state := state t; _modulesToUnload := _modulesToUnload t;
     errors := errors t;
     modules := modules t; _modulesToLoad := _modulesToLoad t;
     _initDefer := _initDefer t; _deinitDefer := _deinitDefer t;
     errorListeners := x; defers := defers t;
     initCallback := initCallback t; pendingInit := pendingInit t;
     pendingDeinit := pendingDeinit t; trace := trace t |}.

Definition with_defers (x : nat) (t : t) : DepsTree.t :=
  {| state := state t; _modulesToUnload := _modulesToUnload t;
     errors := errors t;
     modules := modules t; _modulesToLoad := _modulesToLoad t;
     _initDefer := _initDefer t; _deinitDefer := _deinitDefer t;
     errorListeners := errorListeners t; defers := x;
     initCallback := initCallback t; pendingInit := pendingInit t;
     pendingDeinit := pendingDeinit t; trace := trace t |}.

Definition with_initCallback (x : bool) (t : t) : DepsTree.t :=
  {| state := state t; _modulesToUnload := _modulesToUnload t;
     errors := errors t;
     modules := modules t; _modulesToLoad := _modulesToLoad t;
     _initDefer := _initDefer t; _deinitDefer := _deinitDefer t;
     errorListeners := errorListeners t; defers := defers t;
     initCallback := x; pendingInit := pendingInit t;
     pendingDeinit := pendingDeinit t; trace := trace t |}.

Definition with_pendingInit (x : list string) (t : t) : DepsTree.t :=
  {| state := state t; _modulesToUnload := _modulesToUnload t;
     errors := errors t;
     modules := modules t; _modulesToLoad := _modulesToLoad t;
     _initDefer := _initDefer t; _deinitDefer := _deinitDefer t;
     errorListeners := errorListeners t; defers := defers t;
     initCallback := initCallback t; pendingInit := x;
     pendingDeinit := pendingDeinit t; trace := trace t |}.

Definition with_pendingDeinit (x : list string) (t : t) : DepsTree.t :=
  {| state := state t; _modulesToUnload := _modulesToUnload t;
     errors := errors t;
     modules := modules t; _modulesToLoad := _modulesToLoad t;
     _initDefer := _initDefer t; _deinitDefer := _deinitDefer t;
     errorListeners := errorListeners t; defers := defers t;
     initCallback := initCallback t; pendingInit := pendingInit t;
     pendingDeinit := x; trace := trace t |}.

Definition with_trace (x : list Event) (t : t) : DepsTree.t :=
  {| state := state t; _modulesToUnload := _modulesToUnload t;
     errors := errors t;
     modules := modules t; _modulesToLoad := _modulesToLoad t;
     _initDefer := _initDefer t; _deinitDefer := _deinitDefer t;
     errorListeners := errorListeners t; defers := defers t;
     initCallback := initCallback t; pendingInit := pendingInit t;
     pendingDeinit := pendingDeinit t; trace := x |}.

(** [new DepsTree(modules)]: the field initialisers, then the three loops. *)
Definition constructor (descriptions : list (string * ModuleDescription))
  : Completion t :=
  bind (build_modules descriptions)
       (fun ms =>
          Normal {| state := State.off; _modulesToUnload := 0; errors := [];
                    modules := ms; _modulesToLoad := 0;
                    _initDefer := None; _deinitDefer := None;
                    errorListeners := false; defers := 0%nat;
                    initCallback := false; pendingInit := [];
                    pendingDeinit := []; trace := [] |}).

(** [this.emit(...)], [console.error(...)] and the other recorded effects. *)
Definition record (e : Event) (t : t) : DepsTree.t :=
  with_trace (e :: trace t) t.

Definition find (name : string) (t : t) : option Mod.t :=
  find_module name (modules t).

Definition update (name : string) (f : Mod.t -> Mod.t) (t : t) : DepsTree.t :=
  with_modules (update_module name f (modules t)) t.

Definition _changeModuleState (name : string) (st : State.t) (t : t)
  : DepsTree.t :=
  record (Emit_module_state name st) (update name (Mod.with_state st) t).

Definition _changeState (st : State.t) (t : t) : DepsTree.t :=
  record (Emit_state st) (with_state st t).

(** [defer()]. *)
Definition defer (t : t) : Deferred * DepsTree.t :=
  ({| promise := defers t; resolved := false |}, with_defers (S (defers t)) t).

(** [d.resolve()]; resolving twice changes nothing. *)
Definition resolve (d : option Deferred) : option Deferred :=
  match d with
  | Some d => Some {| promise := promise d; resolved := true |}
  | None => None
  end.

(** [d.promise]; reading it off [undefined] throws. *)
Definition promise_of (d : option Deferred) : Completion Promise :=
  match d with
  | Some d => Normal (DeferredPromise (promise d))
  | None => Throw TypeError
  end.

(** [_deinitModule(name)] up to its [await]: the module is marked, its
    [deinit] operation is invoked and the function is suspended. *)
Definition _deinitModule (name : string) (t : t) : DepsTree.t :=
  let t := _changeModuleState name State.deinitializing t in
  let t := record (Invoke_deinit name) t in
  with_pendingDeinit (pendingDeinit t ++ [name]) t.

(** The body of the loop of [deinit()]. *)
Definition deinit_module_if_free (t : t) (moduleName : string) : DepsTree.t :=
  match find moduleName t with
  | Some module =>
      if State.eqb (Mod.state module) State.up
         && (Mod.dependantsToUnload module =? 0)
      then _deinitModule moduleName t
      else t
  | None => t
  end.

(** [deinit()]. *)
Definition deinit (t : t) : Completion Promise * DepsTree.t :=
  match state t with
  | State.off => (Normal ResolvedPromise, _changeState State.down t)
  | State.error | State.down => (Normal ResolvedPromise, t)
  | State.initializing | State.up =>
      let t := _changeState State.deinitializing t in
      let (d, t) := defer t in
      let t := with_deinitDefer (Some d) t in
      let t := fold_left deinit_module_if_free (names (modules t)) t in
      (promise_of (_deinitDefer t), t)
  | State.deinitializing => (promise_of (_deinitDefer t), t)
  end.

(** [_error(err, name)]; [name] is [None] when the argument is omitted. *)
Definition _error (err : Error) (name : option string) (t : t) : DepsTree.t :=
  let t :=
    if errorListeners t
    then record (Emit_error err match name with Some n => n | None => "" end) t
    else record (Console_error err) t in
  let t := with_errors (errors t ++ [err]) t in
  snd (deinit t).

(** The body of the loop of [_deinitModule]: one dependant less to unload,
    and the dependency is unloaded when none is left. *)
Definition unload_dependency (t : t) (dependencyName : string) : DepsTree.t :=
  let t :=
    update dependencyName
      (fun m => Mod.with_dependantsToUnload (Mod.dependantsToUnload m - 1) m)
      t in
  match find dependencyName t with
  | Some dependency =>
      if Mod.dependantsToUnload dependency <=? 0
      then _deinitModule dependencyName t
      else t
  | None => t
  end.

(** [_deinitModule(name)] from its [await] on: [outcome] is [None] when the
    operation completed and [Some err] when it failed. *)
Definition _deinitModule_resume (name : string) (outcome : option Error)
  (t : t) : DepsTree.t :=
  let t :=
    match outcome with
    | None => _changeModuleState name State.down t
    | Some err =>
        let t := _changeModuleState name State.error t in
        let t := update name (Mod.with_error (Some err)) t in
        _error err (Some name) t
    end in
  let t := with_modulesToUnload (_modulesToUnload t - 1) t in
  if _modulesToUnload t <=? 0 then
    let t := with_deinitDefer (resolve (_deinitDefer t)) t in
    let t := _changeState State.down t in
    record Emit_stopped t
  else
    fold_left unload_dependency (dependencies_of name (modules t)) t.

(** [_initModule(name)] up to its [await]. *)
Definition _initModule (name : string) (t : t) : DepsTree.t :=
  let t := _changeModuleState name State.initializing t in
  let t := with_modulesToUnload (_modulesToUnload t + 1) t in
  let dependenciesObject :=
    map (fun dependencyName =>
           (dependencyName,
            match find dependencyName t with
            | Some dependency => Mod.data dependency
            | None => VUndefined
            end))
        (dependencies_of name (modules t)) in
  let t := record (Invoke_init name dependenciesObject) t in
  with_pendingInit (pendingInit t ++ [name]) t.

(** The body of the first loop of [_moduleInited]: the dependency has one
    more dependant to unload. *)
Definition count_dependant (t : t) (dependencyName : string) : DepsTree.t :=
  update dependencyName
    (fun m => Mod.with_dependantsToUnload (Mod.dependantsToUnload m + 1) m) t.

(** The body of the second loop of [_moduleInited]: the dependant has one
    dependency less to load, and is initialised when none is left. *)
Definition load_dependant (t : t) (depentantName : string) : DepsTree.t :=
  let t :=
    update depentantName
      (fun m => Mod.with_dependenciesToLoad (Mod.dependenciesToLoad m - 1) m)
      t in
  match find depentantName t with
  | Some dependant =>
      if Mod.dependenciesToLoad dependant =? 0
      then _initModule depentantName t
      else t
  | None => t
  end.

(** [_moduleInited(name)]; the error of its [default] branch is caught by
    the outer [catch] of [_initModule] and printed. *)
Definition _moduleInited (name : string) (t : t) : DepsTree.t :=
  match state t with
  | State.initializing =>
      let dependencies := dependencies_of name (modules t) in
      let dependants := dependants_of name (modules t) in
      let t := _changeModuleState name State.up t in
      let t := fold_left count_dependant dependencies t in
      let t := with_modulesToLoad (_modulesToLoad t - 1) t in
      if _modulesToLoad t =? 0 then
        let t := with_initDefer (resolve (_initDefer t)) t in
        let t := _changeState State.up t in
        record Emit_started t
      else
        fold_left load_dependant dependants t
  | State.deinitializing => _deinitModule name t
  | _ => record (Console_error StateError) t
  end.

(** [_initModule(name)] from its [await] on. *)
Definition _initModule_resume (name : string) (outcome : value + Error)
  (t : t) : DepsTree.t :=
  match outcome with
  | inl data =>
      let t :=
        update name (fun module => Mod.with_data (js_or (Mod.data module) data)
                                     module) t in
      _moduleInited name t
  | inr err =>
      let t := with_modulesToUnload (_modulesToUnload t - 1) t in
      let t := _changeModuleState name State.error t in
      let t := update name (Mod.with_error (Some err)) t in
      _error err (Some name) t
  end.

(** The body of the loop of the callback [init()] queues. *)
Definition init_module_if_ready (t : t) (name : string) : DepsTree.t :=
  match find name t with
  | Some module =>
      if Mod.needed module then
        let t := with_modulesToLoad (_modulesToLoad t + 1) t in
        if Mod.dependenciesToLoad module =? 0
        then _initModule name t
        else t
      else t
  | None => t
  end.

(** The callback [init()] queues with [Promise.resolve().then]. *)
Definition init_callback (t : t) : DepsTree.t :=
  fold_left init_module_if_ready (names (modules t)) t.

(** [init()]. *)
Definition init (t : t) : Completion Promise * DepsTree.t :=
  match state t with
  | State.off =>
      let t := _changeState State.initializing t in
      let (d, t) := defer t in
      let t := with_initDefer (Some d) t in
      let t := with_modulesToLoad 0 t in
      let t := with_initCallback true t in
      (promise_of (_initDefer t), t)
  | State.initializing => (promise_of (_initDefer t), t)
  | State.up => (Normal ResolvedPromise, t)
  | _ => (Throw InvalidStateError, t)
  end.

End DepsTree.

(** ** Runs *)

(** What can happen to a tree: its user calls [init()] or [deinit()] or
    registers an ['error'] listener, the queued callback of [init()] runs, or
    an operation that is in flight completes. *)
Inductive Action : Set :=
| call_init
| call_deinit
| on_error
| run_init_callback
| init_settles (name : string) (outcome : value + Error)
| deinit_settles (name : string) (outcome : option Error).

Fixpoint mem (name : string) (l : list string) : bool :=
  match l with
  | [] => false
  | x :: l' => (x =? name)%string || mem name l'
  end.

Fixpoint remove_first (name : string) (l : list string) : list string :=
  match l with
  | [] => []
  | x :: l' => if (x =? name)%string then l' else x :: remove_first name l'
  end.

(** The default [deinit] of a module that supplies none cannot fail. *)
Definition can_fail (name : string) (t : DepsTree.t) : bool :=
  match DepsTree.find name t with
  | Some m => match Mod.deinit m with External => true | Noop => false end
  | None => false
  end.

(** One turn; [None] when the action cannot happen in this state. *)
Definition step (a : Action) (t : DepsTree.t) : option DepsTree.t :=
  match a with
  | call_init => Some (snd (DepsTree.init t))
  | call_deinit => Some (snd (DepsTree.deinit t))
  | on_error => Some (DepsTree.with_errorListeners true t)
  | run_init_callback =>
      if DepsTree.initCallback t
      then Some (DepsTree.init_callback (DepsTree.with_initCallback false t))
      else None
  | init_settles name outcome =>
      if mem name (DepsTree.pendingInit t) then
        let t :=
          DepsTree.with_pendingInit
            (remove_first name (DepsTree.pendingInit t)) t in
        let t :=
          DepsTree.record
            match outcome with
            | inl data => Init_returned name data
            | inr err => Init_failed name err
            end t in
        Some (DepsTree._initModule_resume name outcome t)
      else None
  | deinit_settles name outcome =>
      if mem name (DepsTree.pendingDeinit t)
         && match outcome with Some _ => can_fail name t | None => true end
      then
        let t :=
          DepsTree.with_pendingDeinit
            (remove_first name (DepsTree.pendingDeinit t)) t in
        let t :=
          DepsTree.record
            match outcome with
            | None => Deinit_returned name
            | Some err => Deinit_failed name err
            end t in
        Some (DepsTree._deinitModule_resume name outcome t)
      else None
  end.

Fixpoint run (actions : list Action) (t : DepsTree.t) : option DepsTree.t :=
  match actions with
  | [] => Some t
  | a :: actions' =>
      match step a t with
      | Some t' => run actions' t'
      | None => None
      end
  end.

(** ** Examples *)

Definition module_ (deps : list string) (needed : bool) : ModuleDescription :=
  {| deps := Some deps; init := External; deinit := Some External;
     data := VUndefined; needed := Some needed |}.

(** A diamond: B and C depend on A, D on both. *)
Definition diamond : list (string * ModuleDescription) :=
  [("A", module_ [] true); ("B", module_ ["A"] true);
   ("C", module_ ["A"] true); ("D", module_ ["B"; "C"] true)].

Definition started (descriptions : list (string * ModuleDescription))
  (actions : list Action) : option DepsTree.t :=
  match DepsTree.constructor descriptions with
  | Normal t => run actions t
  | _ => None
  end.

(** * Vocabulary of the specification *)

(** ** The construction input *)

Definition declared_deps (d : ModuleDescription) : list string :=
  match deps d with Some l => l | None => [] end.

Definition marked_needed (d : ModuleDescription) : bool :=
  match needed d with Some b => b | None => false end.

(** A well-formed input: an object has no two properties of one name. *)
Definition distinct_names (descriptions : list (string * ModuleDescription))
  : Prop :=
  NoDup (map fst descriptions).

(** Some module lists a dependency that is not a module of the input. *)
Definition broken (descriptions : list (string * ModuleDescription)) : Prop :=
  exists name d dep,
    In (name, d) descriptions /\ In dep (declared_deps d) /\
    ~ In dep (map fst descriptions).

(** [required descriptions name]: the module is marked needed, or a chain of
    [deps] edges leads to it from a module that is. *)
Inductive required (descriptions : list (string * ModuleDescription))
  : string -> Prop :=
| required_marked name d :
    In (name, d) descriptions -> marked_needed d = true ->
    required descriptions name
| required_dependency name d dep :
    required descriptions name ->
    In (name, d) descriptions -> In dep (declared_deps d) ->
    required descriptions dep.

(** ** Reading a set of modules *)

Definition is_needed (ms : Modules) (name : string) : bool :=
  match find_module name ms with
  | Some m => Mod.needed m
  | None => false
  end.

Definition unneeded (ms : Modules) : nat :=
  List.length (filter (fun p => negb (Mod.needed (snd p))) ms).

(** Every dependency names a module. *)
Definition deps_closed (ms : Modules) : Prop :=
  forall name dep,
    In name (names ms) -> In dep (dependencies_of name ms) ->
    In dep (names ms).

(** [required], read off the modules [ms0] the third loop of the constructor
    starts from. *)
Inductive required_in (ms0 : Modules) : string -> Prop :=
| required_in_marked name :
    is_needed ms0 name = true -> required_in ms0 name
| required_in_dependency name dep :
    required_in ms0 name -> In name (names ms0) ->
    In dep (dependencies_of name ms0) ->
    required_in ms0 dep.

(** The modules with one field blanked: two sets of modules that agree after
    [erase] differ in that field only. *)
Definition erase (e : Mod.t -> Mod.t) (ms : Modules) : Modules :=
  map (fun p => (fst p, e (snd p))) ms.

Definition no_needed (m : Mod.t) : Mod.t := Mod.with_needed false m.

Definition no_dependants (m : Mod.t) : Mod.t := Mod.with_dependants [] m.

(** Names and dependency lists only. *)
Definition skeleton (ms : Modules) : list (string * list string) :=
  map (fun p => (fst p, Mod.dependencies (snd p))) ms.

(** Every needed module outside [P] has needed dependencies only. *)
Definition closed_except (P : string -> Prop) (ms : Modules) : Prop :=
  forall name dep,
    is_needed ms name = true -> ~ P name ->
    In dep (dependencies_of name ms) -> is_needed ms dep = true.

(** What the third loop keeps of the modules [ms0] it starts from, and that
    it marks required modules only. *)
Definition marking (ms0 ms : Modules) : Prop :=
  erase no_needed ms = erase no_needed ms0 /\
  forall n, is_needed ms n = true -> required_in ms0 n.

(** Marks are only added. *)
Definition more_needed (ms ms' : Modules) : Prop :=
  (forall n, is_needed ms n = true -> is_needed ms' n = true) /\
  (unneeded ms' <= unneeded ms)%nat.

(** ** Runs of a tree *)

(** The trees the program can be in: made by the constructor, then moved by
    any actions. *)
Definition reachable (descriptions : list (string * ModuleDescription))
  (t : DepsTree.t) : Prop :=
  exists actions, started descriptions actions = Some t.

(** [f] assigns nothing but the two counters of a module. *)
Definition counters_only (f : Mod.t -> Mod.t) : Prop :=
  forall m,
    Mod.with_dependenciesToLoad 0 (Mod.with_dependantsToUnload 0 (f m))
    = Mod.with_dependenciesToLoad 0 (Mod.with_dependantsToUnload 0 m).

(** A property of trees that the unwinding of single modules cannot change:
    it survives every assignment of a counter of a module, every
    [_changeModuleState], every invocation of a [deinit] operation and every
    change of the functions suspended in [_deinitModule]. *)
Definition unload_level (P : DepsTree.t -> Prop) : Prop :=
  (forall t name f, counters_only f -> P t -> P (DepsTree.update name f t)) /\
  (forall t name st, P t -> P (DepsTree._changeModuleState name st t)) /\
  (forall t name, P t -> P (DepsTree.record (Invoke_deinit name) t)) /\
  (forall t l, P t -> P (DepsTree.with_pendingDeinit l t)).

(** A property of trees that the bookkeeping of single modules cannot
    change at all: it moreover survives every invocation of an [init]
    operation, and every change of the functions suspended in [_initModule]
    and of the two global counters. *)
Definition module_level (P : DepsTree.t -> Prop) : Prop :=
  unload_level P /\
  (forall t name o, P t -> P (DepsTree.record (Invoke_init name o) t)) /\
  (forall t l, P t -> P (DepsTree.with_pendingInit l t)) /\
  (forall t z, P t -> P (DepsTree.with_modulesToUnload z t)) /\
  (forall t z, P t -> P (DepsTree.with_modulesToLoad z t)).

(** The values [_changeState] is called with. *)
Definition assigned_state (st : State.t) : Prop :=
  st = State.initializing \/ st = State.up \/ st = State.deinitializing \/
  st = State.down.

Definition state_event_assigned (e : Event) : Prop :=
  match e with
  | Emit_state st => assigned_state st
  | _ => True
  end.

(** A property that, moreover, the tree-level code cannot change except
    through [init()]: it survives the assignments of [data] and [error],
    every state assignment, every notification (of an assigned state, when
    it is a ['state'] notification), and the other field updates [deinit()]
    and the resumed functions make. *)
Definition tree_level (P : DepsTree.t -> Prop) : Prop :=
  module_level P /\
  (forall t name v,
     P t ->
     P (DepsTree.update name
          (fun module => Mod.with_data (js_or (Mod.data module) v) module)
          t)) /\
  (forall t name e, P t -> P (DepsTree.update name (Mod.with_error e) t)) /\
  (forall e t, state_event_assigned e -> P t -> P (DepsTree.record e t)) /\
  (forall st t, assigned_state st -> P t -> P (DepsTree.with_state st t)) /\
  (forall l t, P t -> P (DepsTree.with_errors l t)) /\
  (forall d t, P t -> P (DepsTree.with_deinitDefer d t)) /\
  (forall n t, P t -> P (DepsTree.with_defers n t)) /\
  (forall t, P t ->
     P (DepsTree.with_initDefer (DepsTree.resolve (DepsTree._initDefer t)) t)) /\
  (forall t, P t -> P (DepsTree.with_initCallback false t)) /\
  (forall t, P t -> P (DepsTree.with_errorListeners true t)).

(** The tree state is [off] or was assigned, and so was every state a
    ['state'] notification carried. *)
Definition never_error (t : DepsTree.t) : Prop :=
  (DepsTree.state t = State.off \/ assigned_state (DepsTree.state t)) /\
  Forall state_event_assigned (DepsTree.trace t).

(** The tree has left [off], and its [_initDefer] holds promise [h]. *)
Definition init_handle (h : nat) (t : DepsTree.t) : Prop :=
  DepsTree.state t <> State.off /\
  option_map promise (DepsTree._initDefer t) = Some h.

(** ** Notifications *)

(** The state of a module, when there is such a module. *)
Definition mstate (name : string) (t : DepsTree.t) : option State.t :=
  option_map Mod.state (DepsTree.find name t).

(** What one turn from [t] to [t'] recorded. *)
Definition fired (t t' : DepsTree.t) (events : list Event) : Prop :=
  DepsTree.trace t' = (events ++ DepsTree.trace t)%list.

Definition started_fired (t t' : DepsTree.t) (events : list Event) : Prop :=
  DepsTree.state t <> State.up -> DepsTree.state t' = State.up ->
  In Emit_started events.

Definition stopped_fired (t t' : DepsTree.t) (events : list Event) : Prop :=
  DepsTree.state t <> State.down -> DepsTree.state t' = State.down ->
  In Emit_stopped events.

Definition module_states_fired (t t' : DepsTree.t) (events : list Event)
  : Prop :=
  forall name st,
    mstate name t' = Some st -> mstate name t <> Some st ->
    In (Emit_module_state name st) events.

(** Every change of the turn was announced. *)
Definition announced (t t' : DepsTree.t) : Prop :=
  exists events,
    fired t t' events /\ started_fired t t' events /\
    stopped_fired t t' events /\ module_states_fired t t' events.

(** The same, but for a tree that leaves [off]; and no tree returns to
    [off]. *)
Definition told (t t' : DepsTree.t) : Prop :=
  exists events,
    fired t t' events /\ started_fired t t' events /\
    (DepsTree.state t <> State.off -> stopped_fired t t' events) /\
    module_states_fired t t' events /\
    (DepsTree.state t' = State.off -> DepsTree.state t = State.off).

(** ** Rollback *)


(** Nothing is in flight and nothing is queued: no turn but a call of the
    user can happen. *)
Definition quiescent (t : DepsTree.t) : Prop :=
  DepsTree.pendingInit t = [] /\ DepsTree.pendingDeinit t = [] /\
  DepsTree.initCallback t = false.

(** The tree is shutting down, nothing can complete the shutdown, and the
    promise of [deinit()] is pending. *)
Definition stuck_deinitializing (t : DepsTree.t) : Prop :=
  DepsTree.state t = State.deinitializing /\ quiescent t /\
  option_map resolved (DepsTree._deinitDefer t) = Some false.


Definition single_example : list (string * ModuleDescription) :=
  [("a", module_ [] true)].

Definition seeded_example : list (string * ModuleDescription) :=
  [("a", {| deps := None; init := External; deinit := None;
            data := VNumber 0; needed := Some true |})].

Definition data_of (name : string) (t : DepsTree.t) : option value :=
  option_map Mod.data (DepsTree.find name t).

(** ** What the loops leave alone *)

(** The fields no loop over modules assigns. *)
Definition control (t : DepsTree.t)
  : State.t * list Error * option Deferred * option Deferred * bool * nat
    * bool :=
  (DepsTree.state t, DepsTree.errors t, DepsTree._initDefer t,
   DepsTree._deinitDefer t, DepsTree.errorListeners t, DepsTree.defers t,
   DepsTree.initCallback t).

(** The trace of [t'] continues the trace of [t]. *)
Definition extends (t t' : DepsTree.t) : Prop :=
  exists events, fired t t' events.

(** The tree is shutting down or has shut down. *)
Definition shutting_down (t : DepsTree.t) : Prop :=
  DepsTree.state t = State.deinitializing \/ DepsTree.state t = State.down.

(** ** A failing [deinit] *)



(** The [deinit] operations invoked, newest first. *)
Fixpoint deinit_invocations (tr : list Event) : list string :=
  match tr with
  | [] => []
  | Invoke_deinit name :: tr' => name :: deinit_invocations tr'
  | _ :: tr' => deinit_invocations tr'
  end.


(** Nothing is in flight for [deinit], or the tree is shutting down. *)
Definition deinit_in_shutdown (t : DepsTree.t) : Prop :=
  DepsTree.pendingDeinit t = [] \/ shutting_down t.

(** ** Start-up *)

(** Reading a module of the tree; a name that is no module reads as a
    module that was never touched. *)
Definition state_of (t : DepsTree.t) (n : string) : State.t :=
  match DepsTree.find n t with
  | Some m => Mod.state m
  | None => State.off
  end.

Definition toLoad (t : DepsTree.t) (n : string) : Z :=
  match DepsTree.find n t with
  | Some m => Mod.dependenciesToLoad m
  | None => 0
  end.

Definition datum (t : DepsTree.t) (n : string) : value :=
  match DepsTree.find n t with
  | Some m => Mod.data m
  | None => VUndefined
  end.

Definition is_up (t : DepsTree.t) (d : string) : bool :=
  State.eqb (state_of t d) State.up.

(** How many of the dependencies [l], counted as often as they are listed,
    are not up. *)
Definition waiting (t : DepsTree.t) (l : list string) : Z :=
  Z.of_nat (List.length (filter (fun d => negb (is_up t d)) l)).

(** How many modules are not up. *)
Definition not_up (t : DepsTree.t) : Z :=
  waiting t (names (DepsTree.modules t)).

(** How often the [init] operation of [n] was invoked. *)
Fixpoint invoked (n : string) (tr : list Event) : nat :=
  match tr with
  | [] => O
  | Invoke_init m _ :: tr' =>
      ((if (m =? n)%string then 1 else 0) + invoked n tr')%nat
  | _ :: tr' => invoked n tr'
  end.

(** In the events [past], the [init] operation of [d] returned and [d]
    reported [up]. *)
Definition completed (d : string) (past : list Event) : Prop :=
  In (Emit_module_state d State.up) past /\
  exists v, In (Init_returned d v) past.

(** Every invocation of an [init] operation in the trace (newest first) comes
    after the completion of each dependency of its module. *)
Fixpoint init_after_deps (deps_of : string -> list string) (tr : list Event)
  : Prop :=
  match tr with
  | [] => True
  | e :: past =>
      match e with
      | Invoke_init m _ => forall d, In d (deps_of m) -> completed d past
      | _ => True
      end /\ init_after_deps deps_of past
  end.

(** The promise [init()] returned is resolved. *)
Definition init_resolved (t : DepsTree.t) : Prop :=
  option_map resolved (DepsTree._initDefer t) = Some true.

(** Every module is needed. *)
Definition all_needed (ms : Modules) : Prop :=
  forall n m, find_module n ms = Some m -> Mod.needed m = true.

(** The dependencies of a module, as its description declares them. *)
Fixpoint description_of (name : string)
  (descriptions : list (string * ModuleDescription))
  : option ModuleDescription :=
  match descriptions with
  | [] => None
  | (n, d) :: rest =>
      if (n =? name)%string then Some d else description_of name rest
  end.

Definition deps_in (descriptions : list (string * ModuleDescription))
  (name : string) : list string :=
  match description_of name descriptions with
  | Some d => declared_deps d
  | None => []
  end.

Definition seed_in (descriptions : list (string * ModuleDescription))
  (name : string) : value :=
  match description_of name descriptions with
  | Some d => data d
  | None => VUndefined
  end.

(** A module with everything the run of the tree assigns blanked. *)
Definition shape (m : Mod.t) : Mod.t :=
  Mod.with_state State.off
    (Mod.with_dependenciesToLoad 0
       (Mod.with_dependantsToUnload 0
          (Mod.with_data VUndefined (Mod.with_error None m)))).

(** The tree has the modules [ms0] the constructor made, but for what the
    run assigns. *)
Definition same_graph (ms0 : Modules) (t : DepsTree.t) : Prop :=
  erase shape (DepsTree.modules t) = erase shape ms0.

Definition seed (ms0 : Modules) (n : string) : value :=
  match find_module n ms0 with
  | Some m => Mod.data m
  | None => VUndefined
  end.

(** What the constructor leaves: the names are distinct, [dependants] is
    the inverse of [dependencies] (a module is a dependant of [d] as often
    as it lists [d]), and nothing has run. *)
Definition fresh (ms0 : Modules) : Prop :=
  NoDup (names ms0) /\
  (forall d x,
     count_occ string_dec (dependants_of d ms0) x
     = count_occ string_dec (dependencies_of x ms0) d) /\
  forall n m,
    find_module n ms0 = Some m ->
    Mod.state m = State.off /\
    Mod.dependenciesToLoad m = Z.of_nat (List.length (Mod.dependencies m)).

(** The invariant of the start-up.  What is in flight are the modules in
    state [initializing], each once; every invocation came after the
    completion of the dependencies; and for every module: it is [off],
    [initializing] or [up]; its counter [dependenciesToLoad] is the number of
    its dependencies that are not up, plus [extra] (the decrements that the
    running loop still owes it); once it has left [off] the counter is zero;
    its [init] was invoked once if it has left [off] and never if not; if
    it is up, its [init] returned and it reported [up]; and until it is up
    its [data] is its seed. *)
Definition loading (ms0 : Modules) (extra : string -> nat) (t : DepsTree.t)
  : Prop :=
  NoDup (DepsTree.pendingInit t) /\
  (forall n, In n (DepsTree.pendingInit t) -> In n (names ms0)) /\
  init_after_deps (fun n => dependencies_of n ms0) (DepsTree.trace t) /\
  forall n,
    In n (names ms0) ->
    (state_of t n = State.off \/ state_of t n = State.initializing \/
     state_of t n = State.up) /\
    toLoad t n = waiting t (dependencies_of n ms0) + Z.of_nat (extra n) /\
    (state_of t n <> State.off -> toLoad t n = 0) /\
    (state_of t n = State.initializing <-> In n (DepsTree.pendingInit t)) /\
    invoked n (DepsTree.trace t)
    = (if State.eqb (state_of t n) State.off then 0 else 1)%nat /\
    (state_of t n = State.up -> completed n (DepsTree.trace t)) /\
    (state_of t n <> State.up -> datum t n = seed ms0 n).

(** What is left of the invariant once the start-up is over: no [init] is
    invoked any more. *)
Definition loaded (ms0 : Modules) (t : DepsTree.t) : Prop :=
  NoDup (DepsTree.pendingInit t) /\
  (forall n, In n (DepsTree.pendingInit t) -> In n (names ms0)) /\
  init_after_deps (fun n => dependencies_of n ms0) (DepsTree.trace t) /\
  (forall n, In n (DepsTree.pendingInit t) -> datum t n = seed ms0 n) /\
  (all_needed ms0 -> init_resolved t ->
   forall n, In n (names ms0) -> invoked n (DepsTree.trace t) = 1%nat).

Definition none (n : string) : nat := O.

Definition occurrences (l : list string) (n : string) : nat :=
  count_occ string_dec l n.

(** The same modules are up, and as many modules are still to load. *)
Definition steady (t t' : DepsTree.t) : Prop :=
  (forall d, is_up t' d = is_up t d) /\
  DepsTree._modulesToLoad t' = DepsTree._modulesToLoad t.

(** [_modulesToLoad] is the number of modules that are not up. *)
Definition counted (t : DepsTree.t) : Prop :=
  DepsTree._modulesToLoad t = not_up t.

(** The tree when [_moduleInited(n)] has run up to its test of
    [_modulesToLoad], after the [init] of [n] returned [v]. *)
Definition inited (n : string) (v : value) (t : DepsTree.t) : DepsTree.t :=
  let t0 :=
    DepsTree.update n
      (fun module => Mod.with_data (js_or (Mod.data module) v) module)
      (DepsTree.record (Init_returned n v)
         (DepsTree.with_pendingInit
            (remove_first n (DepsTree.pendingInit t)) t)) in
  let tb :=
    fold_left DepsTree.count_dependant
      (dependencies_of n (DepsTree.modules t0))
      (DepsTree._changeModuleState n State.up t0) in
  DepsTree.with_modulesToLoad (DepsTree._modulesToLoad tb - 1) tb.

(** ** After the start-up *)

Definition is_invoke_init (e : Event) : Prop :=
  match e with
  | Invoke_init _ _ => True
  | _ => False
  end.

(** A property that the code of the shutdown cannot change: besides the
    unwinding of single modules it survives every recorded event that is no
    invocation of an [init] operation, and the field updates of [deinit()],
    [_error] and [_deinitModule]. *)
Definition shutdown_level (P : DepsTree.t -> Prop) : Prop :=
  unload_level P /\
  (forall e t, ~ is_invoke_init e -> P t -> P (DepsTree.record e t)) /\
  (forall st t, P t -> P (DepsTree.with_state st t)) /\
  (forall l t, P t -> P (DepsTree.with_errors l t)) /\
  (forall d t, P t -> P (DepsTree.with_deinitDefer d t)) /\
  (forall n t, P t -> P (DepsTree.with_defers n t)) /\
  (forall z t, P t -> P (DepsTree.with_modulesToUnload z t)) /\
  (forall t name e, P t -> P (DepsTree.update name (Mod.with_error e) t)).

(** From [t] to [t'] nothing happened to the start-up: the same [init]
    operations are in flight and were invoked, in the same order with respect
    to the completions, every module has the same [data], and the promise of
    [init()] is the same. *)
Definition no_init (t t' : DepsTree.t) : Prop :=
  DepsTree.pendingInit t' = DepsTree.pendingInit t /\
  (forall n, datum t' n = datum t n) /\
  (forall n, invoked n (DepsTree.trace t') = invoked n (DepsTree.trace t)) /\
  (forall deps_of,
     init_after_deps deps_of (DepsTree.trace t) ->
     init_after_deps deps_of (DepsTree.trace t')) /\
  DepsTree._initDefer t' = DepsTree._initDefer t.

(** The tree is up, or shutting down. *)
Definition started_up (t : DepsTree.t) : Prop :=
  DepsTree.state t = State.up \/ shutting_down t.

(** ** The invariant of a run *)

(** Before the queued callback of [init()] has run, nothing has happened to
    the modules. *)
Definition untouched (ms0 : Modules) (t : DepsTree.t) : Prop :=
  (forall n,
     state_of t n = State.off /\
     (In n (names ms0) ->
      toLoad t n = Z.of_nat (List.length (dependencies_of n ms0)) /\
      datum t n = seed ms0 n)) /\
  DepsTree.pendingInit t = [] /\ DepsTree.pendingDeinit t = [] /\
  (forall n, invoked n (DepsTree.trace t) = O) /\
  init_after_deps (fun n => dependencies_of n ms0) (DepsTree.trace t) /\
  ~ init_resolved t /\
  (DepsTree.initCallback t = true ->
   DepsTree._modulesToLoad t = 0 /\
   (DepsTree.state t = State.initializing \/
    DepsTree.state t = State.deinitializing) /\
   DepsTree._initDefer t <> None).

(** While the tree is [initializing], after the callback. *)
Definition starting (ms0 : Modules) (t : DepsTree.t) : Prop :=
  loading ms0 none t /\ ~ init_resolved t /\
  DepsTree.pendingDeinit t = [] /\
  (all_needed ms0 -> counted t) /\
  DepsTree._initDefer t <> None.

(** A run is in one of three phases. *)
Definition phases (ms0 : Modules) (t : DepsTree.t) : Prop :=
  ((DepsTree.state t = State.off \/ DepsTree.initCallback t = true) /\
   untouched ms0 t) \/
  (DepsTree.state t = State.initializing /\
   DepsTree.initCallback t = false /\ starting ms0 t) \/
  (started_up t /\ DepsTree.initCallback t = false /\ loaded ms0 t).

(** A tree that is up has resolved the promise of [init()]. *)
Definition up_resolved (t : DepsTree.t) : Prop :=
  DepsTree.state t = State.up -> init_resolved t.

(** The tree has left [off] and the promise of [init()] is resolved. *)
Definition resolved_for_good (t : DepsTree.t) : Prop :=
  DepsTree.state t <> State.off /\ init_resolved t.

Definition invariant (ms0 : Modules) (t : DepsTree.t) : Prop :=
  never_error t /\ deinit_in_shutdown t /\ same_graph ms0 t /\
  phases ms0 t /\ up_resolved t.

(** The tree has left [off] and no callback of [init()] is queued. *)
Definition callback_done (t : DepsTree.t) : Prop :=
  DepsTree.state t <> State.off /\ DepsTree.initCallback t = false.


Definition chain_example : list (string * ModuleDescription) :=
  [("A", module_ [] false); ("B", module_ ["A"] false);
   ("C", module_ ["B"] true); ("D", module_ ["A"] false)].


(** ** Further vocabulary *)



(** ** The tree as a whole *)

(** The events of the tree and of the operations' outcomes, as opposed to
    the bookkeeping of single modules. *)
Definition tree_event (e : Event) : bool :=
  match e with
  | Emit_module_state _ _ | Invoke_init _ _ | Invoke_deinit _ => false
  | _ => true
  end.

(** What no loop over modules changes: the fields of [control] and the
    events of the tree. *)
Definition outline (t : DepsTree.t)
  : State.t * list Error * option Deferred * option Deferred * bool * nat
    * bool * list Event :=
  (control t, filter tree_event (DepsTree.trace t)).

(** [deinit()] up to its loop. *)
Definition deinit_head (t : DepsTree.t) : DepsTree.t :=
  match DepsTree.state t with
  | State.off => DepsTree._changeState State.down t
  | State.initializing | State.up =>
      DepsTree.with_deinitDefer
        (Some {| promise := DepsTree.defers t; resolved := false |})
        (DepsTree.with_defers (S (DepsTree.defers t))
           (DepsTree._changeState State.deinitializing t))
  | _ => t
  end.

(** [_error(err, name)] up to the loop of [deinit()]. *)
Definition error_head (err : Error) (name : option string) (t : DepsTree.t)
  : DepsTree.t :=
  let t :=
    if DepsTree.errorListeners t
    then DepsTree.record
           (Emit_error err match name with Some n => n | None => "" end) t
    else DepsTree.record (Console_error err) t in
  deinit_head (DepsTree.with_errors (DepsTree.errors t ++ [err]) t).

(** The branch of [_moduleInited] that completes the start-up, without its
    loop. *)
Definition started_head (t : DepsTree.t) : DepsTree.t :=
  DepsTree.record Emit_started
    (DepsTree._changeState State.up
       (DepsTree.with_initDefer (DepsTree.resolve (DepsTree._initDefer t)) t)).

(** The branch of [_deinitModule] that completes the shutdown. *)
Definition stopped_head (t : DepsTree.t) : DepsTree.t :=
  DepsTree.record Emit_stopped
    (DepsTree._changeState State.down
       (DepsTree.with_deinitDefer
          (DepsTree.resolve (DepsTree._deinitDefer t)) t)).

(** What a turn does to the outline of the tree. *)
Definition outline_step (a : Action) (t t' : DepsTree.t) : Prop :=
  match a with
  | call_init => t' = snd (DepsTree.init t)
  | call_deinit => outline t' = outline (deinit_head t)
  | on_error => t' = DepsTree.with_errorListeners true t
  | run_init_callback =>
      DepsTree.initCallback t = true /\
      outline t' = outline (DepsTree.with_initCallback false t)
  | init_settles name (inl v) =>
      In name (DepsTree.pendingInit t) /\
      let t1 := DepsTree.record (Init_returned name v) t in
      match DepsTree.state t with
      | State.initializing =>
          outline t' = outline t1 \/ outline t' = outline (started_head t1)
      | State.deinitializing => outline t' = outline t1
      | _ => outline t' = outline (DepsTree.record (Console_error StateError) t1)
      end
  | init_settles name (inr err) =>
      In name (DepsTree.pendingInit t) /\
      outline t'
      = outline (error_head err (Some name)
                   (DepsTree.record (Init_failed name err) t))
  | deinit_settles name outcome =>
      In name (DepsTree.pendingDeinit t) /\
      let t1 :=
        match outcome with
        | None => DepsTree.record (Deinit_returned name) t
        | Some err =>
            error_head err (Some name)
              (DepsTree.record (Deinit_failed name err) t)
        end in
      outline t' = outline t1 \/ outline t' = outline (stopped_head t1)
  end.




Definition count_events (p : Event -> bool) (tr : list Event) : nat :=
  List.length (filter p tr).

Definition is_started (e : Event) : bool :=
  match e with
  | Emit_started => true
  | _ => false
  end.

(** How often ['started'] was fired. *)
Definition started_count (t : DepsTree.t) : nat :=
  count_events is_started (DepsTree.trace t).


(** A [deinit] operation is in flight, or the tree is [deinitializing],
    only when [deinit()] has made its promise. *)
Definition promise_made (t : DepsTree.t) : Prop :=
  DepsTree._deinitDefer t = None ->
  DepsTree.pendingDeinit t = [] /\
  DepsTree.state t <> State.deinitializing.

(** When the tree is [initializing], [init()] has made its promise; when
    it is [up], that promise is resolved; and ['started'] was fired once if
    the promise is resolved, and never if not. *)
Definition started_once (t : DepsTree.t) : Prop :=
  (DepsTree.state t = State.initializing ->
   DepsTree._initDefer t <> None) /\
  (DepsTree.state t = State.off \/ DepsTree.state t = State.initializing ->
   started_count t = O) /\
  (DepsTree.state t = State.up -> init_resolved t) /\
  (init_resolved t -> started_count t = 1%nat) /\
  (~ init_resolved t -> started_count t = O).


(** ** Scheduling *)

(** The [init] operation of every module was invoked at most once. *)
Definition at_most_once (ms0 : Modules) (t : DepsTree.t) : Prop :=
  forall n, In n (names ms0) -> (invoked n (DepsTree.trace t) <= 1)%nat.

(** In a tree that is [up], every module is [up]. *)
Definition all_up (ms0 : Modules) (t : DepsTree.t) : Prop :=
  DepsTree.state t = State.up ->
  forall n, In n (names ms0) -> state_of t n = State.up.

(** No module of the input is marked needed. *)
Definition nothing_needed (descriptions : list (string * ModuleDescription))
  : Prop :=
  forall n d, In (n, d) descriptions -> marked_needed d = false.

Definition is_state_event (e : Event) : Prop :=
  match e with
  | Emit_state _ => True
  | _ => False
  end.

(** Nothing has happened to the modules [ms0], nothing is in flight, only
    changes of the tree state were notified, and the tree has not
    started. *)
Definition idle (ms0 : Modules) (t : DepsTree.t) : Prop :=
  DepsTree.modules t = ms0 /\
  DepsTree.pendingInit t = [] /\ DepsTree.pendingDeinit t = [] /\
  Forall is_state_event (DepsTree.trace t) /\
  ~ init_resolved t /\ DepsTree.state t <> State.up.

(** Three modules, none of them needed. *)
Definition optional_example : list (string * ModuleDescription) :=
  [("A", module_ [] false); ("B", module_ ["A"] false);
   ("C", {| deps := None; init := External; deinit := None;
            data := VUndefined; needed := None |})].

(** A module that is still [off] waits for a dependency, or it is a
    module without dependencies that is not needed. *)
Definition prompt_at (ms0 : Modules) (t : DepsTree.t) (n : string) : Prop :=
  state_of t n = State.off ->
  0 < toLoad t n \/
  is_needed ms0 n = false /\ dependencies_of n ms0 = [].

Definition prompt (ms0 : Modules) (t : DepsTree.t) : Prop :=
  forall n, In n (names ms0) -> prompt_at ms0 t n.

(** The start-up is under way: no module waits without need, and when all
    modules are needed, some are still to load. *)
Definition ready (ms0 : Modules) (t : DepsTree.t) : Prop :=
  prompt ms0 t /\
  (all_needed ms0 -> ms0 <> [] -> 0 < DepsTree._modulesToLoad t).

(** While the tree is [initializing], once the callback of [init()] has
    run. *)
Definition under_way (ms0 : Modules) (t : DepsTree.t) : Prop :=
  DepsTree.state t = State.initializing ->
  DepsTree.initCallback t = false -> ready ms0 t.



(** ** Cycles *)

Definition is_returned (e : Event) : bool :=
  match e with
  | Init_returned _ _ => true
  | _ => false
  end.

(** The returns of [init] operations, newest first. *)
Definition returned (t : DepsTree.t) : list Event :=
  filter is_returned (DepsTree.trace t).

(** Every return of an [init] operation in the trace comes after an
    invocation of that operation. *)
Fixpoint returns_after_invoke (tr : list Event) : Prop :=
  match tr with
  | [] => True
  | e :: past =>
      match e with
      | Init_returned d _ => (1 <= invoked d past)%nat
      | _ => True
      end /\ returns_after_invoke past
  end.

(** What is in flight was invoked. *)
Definition pending_invoked (t : DepsTree.t) : Prop :=
  forall n, In n (DepsTree.pendingInit t) ->
            (1 <= invoked n (DepsTree.trace t))%nat.

(** [m] declares the dependency [d]. *)
Definition depends (descriptions : list (string * ModuleDescription))
  (m d : string) : Prop :=
  In d (deps_in descriptions m).

(** A chain of one or more dependencies leads from [m] to [d]. *)
Inductive reaches (descriptions : list (string * ModuleDescription))
  : string -> string -> Prop :=
| reaches_step m d : depends descriptions m d -> reaches descriptions m d
| reaches_more m d e :
    depends descriptions m d -> reaches descriptions d e ->
    reaches descriptions m e.

(** [n] is on a cycle of dependencies, or depends on a module that is. *)
Definition blocked (descriptions : list (string * ModuleDescription))
  (n : string) : Prop :=
  exists c,
    (n = c \/ reaches descriptions n c) /\ reaches descriptions c c.

(** A module on top of two modules that need each other. *)
Definition blocked_example : list (string * ModuleDescription) :=
  [("A", module_ ["B"] true); ("B", module_ ["A"] true);
   ("C", module_ ["A"] true)].

(** ** What [init] receives *)

(** An entry of the object handed to an [init] operation holds the data of
    the dependency: its seed when that is truthy, and else what the [init]
    operation of the dependency returned before. *)
Definition entry_ok (seed_of : string -> value) (past : list Event)
  (entry : string * value) : Prop :=
  exists v,
    In (Init_returned (fst entry) v) past /\
    snd entry = js_or (seed_of (fst entry)) v.



(** The start-up is over. *)
Definition after_start_up (t : DepsTree.t) : Prop :=
  started_up t /\ DepsTree.initCallback t = false.


(** ** The counters of the shutdown *)

Definition toUnload (t : DepsTree.t) (n : string) : Z :=
  match DepsTree.find n t with
  | Some m => Mod.dependantsToUnload m
  | None => 0
  end.

(** How many of the entries of [l] satisfy [f]. *)
Definition tally (f : string -> bool) (l : list string) : Z :=
  Z.of_nat (List.length (filter f l)).

(** The module has left [off]. *)
Definition has_begun (t : DepsTree.t) (d : string) : bool :=
  negb (State.eqb (state_of t d) State.off).

(** The [deinit] operation of the module has completed or failed. *)
Definition is_done (t : DepsTree.t) (d : string) : bool :=
  State.eqb (state_of t d) State.down || State.eqb (state_of t d) State.error.

Definition still_loaded (t : DepsTree.t) (d : string) : bool :=
  negb (is_done t d).

(** How often the [deinit] operation of [n] was invoked. *)
Definition deinit_invoked (n : string) (tr : list Event) : nat :=
  count_occ string_dec (deinit_invocations tr) n.

(** While the tree starts, [dependantsToUnload] counts the dependants of a
    module that are up, as often as they list it, [_modulesToUnload] counts
    the modules that have left [off], and no [deinit] operation has been
    invoked. *)
Definition counting (ms0 : Modules) (t : DepsTree.t) : Prop :=
  (forall n,
     In n (names ms0) ->
     toUnload t n = tally (is_up t) (dependants_of n ms0)) /\
  DepsTree._modulesToUnload t = tally (has_begun t) (names ms0) /\
  DepsTree.pendingDeinit t = [] /\
  deinit_invocations (DepsTree.trace t) = [].

(** A tree that is up and at rest: every module is up, the counters hold
    the numbers of dependants and of modules, nothing is in flight and no
    [deinit] operation has been invoked. *)
Definition settled (ms0 : Modules) (t : DepsTree.t) : Prop :=
  (forall n,
     In n (names ms0) ->
     state_of t n = State.up /\
     toUnload t n = Z.of_nat (List.length (dependants_of n ms0))) /\
  DepsTree._modulesToUnload t = Z.of_nat (List.length ms0) /\
  DepsTree.pendingInit t = [] /\
  DepsTree.pendingDeinit t = [] /\
  deinit_invocations (DepsTree.trace t) = [].

(** The counters of the shutdown are kept until the tree is up, and a tree
    that is up is at rest. *)
Definition tallied (ms0 : Modules) (t : DepsTree.t) : Prop :=
  (after_start_up t \/ counting ms0 t) /\
  (DepsTree.state t = State.up -> settled ms0 t).

(** ** The order of the shutdown *)

(** In the events [past], the [deinit] operation of [d] completed or
    failed. *)
Definition deinit_completed (d : string) (past : list Event) : Prop :=
  In (Deinit_returned d) past \/ exists err, In (Deinit_failed d err) past.

(** Every invocation of a [deinit] operation in the trace (newest first)
    comes after the [deinit] operation of each dependant of its module has
    completed or failed. *)
Fixpoint deinit_after_dependants (dependant : string -> string -> Prop)
  (tr : list Event) : Prop :=
  match tr with
  | [] => True
  | e :: past =>
      match e with
      | Invoke_deinit m => forall x, dependant x m -> deinit_completed x past
      | _ => True
      end /\ deinit_after_dependants dependant past
  end.

(** The dependants the constructor recorded. *)
Definition recorded_dependant (ms0 : Modules) (x m : string) : Prop :=
  In x (dependants_of m ms0).

(** The invariant of a shutdown that began when the tree was up:
    [dependantsToUnload] counts the dependants of a module whose [deinit]
    has not settled, plus the decrements [extra] that a loop under way still
    owes; a module is unloaded once, when that counter is zero. *)
Definition unloading (ms0 : Modules) (extra : string -> nat) (t : DepsTree.t)
  : Prop :=
  NoDup (DepsTree.pendingDeinit t) /\
  (forall n, In n (DepsTree.pendingDeinit t) -> In n (names ms0)) /\
  deinit_after_dependants (recorded_dependant ms0) (DepsTree.trace t) /\
  forall n,
    In n (names ms0) ->
    (state_of t n = State.up \/ state_of t n = State.deinitializing \/
     state_of t n = State.down \/ state_of t n = State.error) /\
    toUnload t n
    = tally (still_loaded t) (dependants_of n ms0) + Z.of_nat (extra n) /\
    (state_of t n <> State.up -> toUnload t n = 0) /\
    (state_of t n = State.deinitializing <-> In n (DepsTree.pendingDeinit t)) /\
    deinit_invoked n (DepsTree.trace t)
    = (if State.eqb (state_of t n) State.up then 0 else 1)%nat /\
    (is_done t n = true -> deinit_completed n (DepsTree.trace t)).

(** A module that is up still has a dependant to wait for. *)
Definition held (t : DepsTree.t) (n : string) : Prop :=
  state_of t n = State.up -> 0 < toUnload t n.

(** The same modules are still loaded, as many are still to unload, and the
    same [init] operations are in flight. *)
Definition unwinding (t t' : DepsTree.t) : Prop :=
  (forall d, still_loaded t' d = still_loaded t d) /\
  DepsTree._modulesToUnload t' = DepsTree._modulesToUnload t /\
  DepsTree.pendingInit t' = DepsTree.pendingInit t.

(** A tree that shuts down after it was up. *)
Definition draining (ms0 : Modules) (t : DepsTree.t) : Prop :=
  unloading ms0 none t /\
  DepsTree._modulesToUnload t = tally (still_loaded t) (names ms0) /\
  (forall n, In n (names ms0) -> held t n) /\
  DepsTree.pendingInit t = [].

(** A tree that has shut down after it was up. *)
Definition unloaded (ms0 : Modules) (t : DepsTree.t) : Prop :=
  (forall n,
     In n (names ms0) ->
     is_done t n = true /\
     deinit_invoked n (DepsTree.trace t) = 1%nat /\
     deinit_completed n (DepsTree.trace t)) /\
  deinit_after_dependants (recorded_dependant ms0) (DepsTree.trace t) /\
  DepsTree.pendingInit t = [] /\
  DepsTree.pendingDeinit t = [].

(** Once the promise of [init()] is resolved, the shutdown is orderly. *)
Definition orderly (ms0 : Modules) (t : DepsTree.t) : Prop :=
  init_resolved t ->
  (DepsTree.state t = State.deinitializing -> draining ms0 t) /\
  (DepsTree.state t = State.down -> unloaded ms0 t).

(** [_deinitModule(n)] from its [await] on, up to its test of
    [_modulesToUnload]. *)
Definition marked (n : string) (outcome : option Error) (t : DepsTree.t)
  : DepsTree.t :=
  let t0 :=
    DepsTree.record
      match outcome with
      | None => Deinit_returned n
      | Some err => Deinit_failed n err
      end
      (DepsTree.with_pendingDeinit
         (remove_first n (DepsTree.pendingDeinit t)) t) in
  let t1 :=
    match outcome with
    | None => DepsTree._changeModuleState n State.down t0
    | Some err =>
        let t := DepsTree._changeModuleState n State.error t0 in
        let t := DepsTree.update n (Mod.with_error (Some err)) t in
        let t :=
          if DepsTree.errorListeners t
          then DepsTree.record (Emit_error err n) t
          else DepsTree.record (Console_error err) t in
        DepsTree.with_errors (DepsTree.errors t ++ [err]) t
    end in
  DepsTree.with_modulesToUnload (DepsTree._modulesToUnload t1 - 1) t1.

(** * Properties *)

(** Split the conjunctions of the goal, and nothing else. *)
Ltac splits := repeat match goal with |- _ /\ _ => split end.

(** ** Association lists *)

Lemma mem_In (name : string) (l : list string) :
  mem name l = true <-> In name l.
Proof.
  induction l as [|x l IH]; simpl.
  - split; [discriminate | tauto].
  - rewrite orb_true_iff, String.eqb_eq, IH. tauto.
Qed.

Lemma find_module_None (name : string) (ms : Modules) :
  find_module name ms = None <-> ~ In name (names ms).
Proof.
  induction ms as [|[n m] ms IH]; simpl.
  - tauto.
  - destruct (String.eqb_spec n name) as [->|Hne].
    + split; [discriminate | tauto].
    + rewrite IH. tauto.
Qed.

Lemma find_module_Some_In (name : string) (ms : Modules) (m : Mod.t) :
  find_module name ms = Some m -> In (name, m) ms.
Proof.
  induction ms as [|[n m'] ms IH]; simpl; [discriminate|].
  destruct (String.eqb_spec n name) as [->|Hne].
  - intros [= ->]. now left.
  - intros H. right. now apply IH.
Qed.

Lemma find_module_In (name : string) (ms : Modules) :
  In name (names ms) -> exists m, find_module name ms = Some m.
Proof.
  intros H. destruct (find_module name ms) as [m|] eqn:E; eauto.
  apply find_module_None in E. contradiction.
Qed.

Lemma In_find_module (name : string) (m : Mod.t) (ms : Modules) :
  NoDup (names ms) -> In (name, m) ms -> find_module name ms = Some m.
Proof.
  induction ms as [|[n m'] ms IH]; simpl; [tauto|].
  intros Hnd [H|H].
  - injection H as -> ->. now rewrite String.eqb_refl.
  - inversion Hnd as [|? ? Hn Hnd']; subst.
    destruct (String.eqb_spec n name) as [->|Hne].
    + exfalso. apply Hn. change (In (fst (name, m)) (map fst ms)).
      now apply in_map.
    + now apply IH.
Qed.

Lemma names_update (name : string) (f : Mod.t -> Mod.t) (ms : Modules) :
  names (update_module name f ms) = names ms.
Proof.
  induction ms as [|[n m] ms IH]; simpl; [reflexivity|].
  now rewrite <- IH.
Qed.

Lemma length_update (name : string) (f : Mod.t -> Mod.t) (ms : Modules) :
  List.length (update_module name f ms) = List.length ms.
Proof.
  induction ms as [|[n m] ms IH]; simpl; [reflexivity|].
  now rewrite IH.
Qed.

Lemma find_update_same (name : string) (f : Mod.t -> Mod.t) (ms : Modules) :
  find_module name (update_module name f ms)
  = option_map f (find_module name ms).
Proof.
  induction ms as [|[n m] ms IH]; simpl; [reflexivity|].
  destruct (String.eqb_spec n name); [reflexivity | exact IH].
Qed.

Lemma find_update_other (name other : string) (f : Mod.t -> Mod.t)
  (ms : Modules) :
  other <> name ->
  find_module other (update_module name f ms) = find_module other ms.
Proof.
  intros Hne. induction ms as [|[n m] ms IH]; simpl; [reflexivity|].
  destruct (String.eqb_spec n other) as [->|?]; [|exact IH].
  destruct (String.eqb_spec other name); [contradiction | reflexivity].
Qed.

Lemma find_update (name other : string) (f : Mod.t -> Mod.t) (ms : Modules) :
  find_module other (update_module name f ms)
  = if (other =? name)%string then option_map f (find_module other ms)
    else find_module other ms.
Proof.
  destruct (String.eqb_spec other name) as [->|Hne].
  - apply find_update_same.
  - now apply find_update_other.
Qed.

Lemma erase_update (e f : Mod.t -> Mod.t) (name : string) (ms : Modules) :
  (forall m, e (f m) = e m) ->
  erase e (update_module name f ms) = erase e ms.
Proof.
  intros H. induction ms as [|[n m] ms IH]; simpl; [reflexivity|].
  rewrite IH. destruct (n =? name)%string; simpl; now rewrite ?H.
Qed.

Lemma erase_names (e : Mod.t -> Mod.t) (ms ms' : Modules) :
  erase e ms = erase e ms' -> names ms = names ms'.
Proof.
  revert ms'. induction ms as [|[n m] ms IH]; intros [|[n' m'] ms'];
    simpl; try discriminate; [reflexivity|].
  intros [= -> _ H]. f_equal. now apply IH.
Qed.

Lemma erase_find (e : Mod.t -> Mod.t) (ms ms' : Modules) (name : string) :
  erase e ms = erase e ms' ->
  option_map e (find_module name ms) = option_map e (find_module name ms').
Proof.
  revert ms'. induction ms as [|[n m] ms IH]; intros [|[n' m'] ms'];
    simpl; try discriminate; [reflexivity|].
  intros [= -> He H].
  destruct (n' =? name)%string; simpl; [now rewrite He | now apply IH].
Qed.

Lemma skeleton_update (f : Mod.t -> Mod.t) (name : string) (ms : Modules) :
  (forall m, Mod.dependencies (f m) = Mod.dependencies m) ->
  skeleton (update_module name f ms) = skeleton ms.
Proof.
  intros H. induction ms as [|[n m] ms IH]; simpl; [reflexivity|].
  rewrite IH. destruct (n =? name)%string; simpl; now rewrite ?H.
Qed.

Lemma skeleton_names (ms ms' : Modules) :
  skeleton ms = skeleton ms' -> names ms = names ms'.
Proof.
  revert ms'. induction ms as [|[n m] ms IH]; intros [|[n' m'] ms'];
    simpl; try discriminate; [reflexivity|].
  intros [= -> _ H]. f_equal. now apply IH.
Qed.

Lemma skeleton_dependencies (ms ms' : Modules) (name : string) :
  skeleton ms = skeleton ms' ->
  dependencies_of name ms = dependencies_of name ms'.
Proof.
  unfold dependencies_of.
  revert ms'. induction ms as [|[n m] ms IH]; intros [|[n' m'] ms'];
    simpl; try discriminate; [reflexivity|].
  intros [= -> Hd H].
  destruct (n' =? name)%string; [exact Hd | now apply IH].
Qed.

Lemma erase_skeleton (e : Mod.t -> Mod.t) (ms ms' : Modules) :
  (forall m, Mod.dependencies (e m) = Mod.dependencies m) ->
  erase e ms = erase e ms' -> skeleton ms = skeleton ms'.
Proof.
  intros He. revert ms'.
  induction ms as [|[n m] ms IH]; intros [|[n' m'] ms'];
    simpl; try discriminate; [reflexivity|].
  intros [= -> Hm H]. f_equal; [|now apply IH].
  f_equal. rewrite <- (He m), <- (He m'). now rewrite Hm.
Qed.

(** ** Loops that may throw *)

Lemma for_each_app {A B : Type} (body : A -> B -> Completion A)
  (l1 l2 : list B) (a : A) :
  for_each body (l1 ++ l2) a = bind (for_each body l1 a) (for_each body l2).
Proof.
  revert a. induction l1 as [|x l1 IH]; intros a; simpl; [reflexivity|].
  destruct (body a x); simpl; auto.
Qed.

(** A loop whose body keeps [I], moves along the preorder [R] and
    establishes [Q x] for its element [x], runs to its end, keeps [I], moves
    along [R] and establishes every [Q x]. *)
Lemma for_each_normal {A B : Type} (body : A -> B -> Completion A)
  (I : A -> Prop) (R : A -> A -> Prop) (Q : B -> A -> Prop) (l : list B) :
  (forall a, R a a) ->
  (forall a b c, R a b -> R b c -> R a c) ->
  (forall x a b, Q x a -> I a -> R a b -> Q x b) ->
  (forall a x, In x l -> I a ->
     exists a', body a x = Normal a' /\ I a' /\ R a a' /\ Q x a') ->
  forall a, I a ->
    exists a', for_each body l a = Normal a' /\ I a' /\ R a a' /\
               forall x, In x l -> Q x a'.
Proof.
  intros Hrefl Htrans Hstable.
  induction l as [|x l IH]; intros Hbody a Ha; simpl.
  - exists a. repeat split; auto. intros ? [].
  - destruct (Hbody a x (or_introl eq_refl) Ha) as (a1 & E1 & I1 & R1 & Q1).
    rewrite E1. simpl.
    destruct (IH (fun a x Hx => Hbody a x (or_intror Hx)) a1 I1)
      as (a' & E' & I' & R' & Q').
    exists a'. repeat split; eauto.
    intros y [<-|Hy]; eauto.
Qed.

(** ** The second loop of the constructor: [dependants] *)

Lemma link_dependency_normal (moduleName depName : string) (ms ms' : Modules) :
  link_dependency moduleName ms depName = Normal ms' ->
  In depName (names ms) /\ erase no_dependants ms' = erase no_dependants ms.
Proof.
  unfold link_dependency.
  destruct (find_module depName ms) eqn:E; [|discriminate].
  intros [= <-]. split.
  - destruct (in_dec string_dec depName (names ms)) as [H|H]; [exact H|].
    apply find_module_None in H. congruence.
  - apply erase_update. reflexivity.
Qed.

Lemma link_dependency_throw (moduleName depName : string) (ms : Modules)
  (e : Error) :
  link_dependency moduleName ms depName = Throw e ->
  e = BrokenDependencyError depName /\ ~ In depName (names ms).
Proof.
  unfold link_dependency.
  destruct (find_module depName ms) eqn:E; [discriminate|].
  intros [= <-]. split; [reflexivity|]. now apply find_module_None.
Qed.

Lemma link_dependency_converges (moduleName depName : string) (ms : Modules) :
  link_dependency moduleName ms depName <> Diverge.
Proof.
  unfold link_dependency. destruct (find_module depName ms); discriminate.
Qed.

(** The inner loop either links every dependency or throws at the first one
    that is no module. *)
Lemma link_dependencies_result (moduleName : string) (l : list string)
  (ms : Modules) :
  (exists ms', for_each (link_dependency moduleName) l ms = Normal ms' /\
               erase no_dependants ms' = erase no_dependants ms /\
               forall d, In d l -> In d (names ms)) \/
  (exists d, for_each (link_dependency moduleName) l ms
             = Throw (BrokenDependencyError d) /\
             In d l /\ ~ In d (names ms)).
Proof.
  revert ms. induction l as [|x l IH]; intros ms; simpl.
  - left. exists ms. repeat split; auto. intros ? [].
  - destruct (link_dependency moduleName ms x) as [ms1|e|] eqn:E; simpl.
    + apply link_dependency_normal in E as [Hx He].
      destruct (IH ms1) as [(ms' & E' & He' & Hall)|(d & E' & Hd & Hnot)].
      * left. exists ms'. repeat split; auto; [congruence|].
        intros d [<-|Hd]; [exact Hx|].
        rewrite <- (erase_names _ _ _ He). auto.
      * right. exists d. repeat split; auto.
        now rewrite <- (erase_names _ _ _ He).
    + apply link_dependency_throw in E as [-> Hx].
      right. exists x. auto.
    + now apply link_dependency_converges in E.
Qed.

Lemma no_dependants_skeleton (ms ms' : Modules) :
  erase no_dependants ms = erase no_dependants ms' ->
  skeleton ms = skeleton ms'.
Proof. apply erase_skeleton. reflexivity. Qed.

(** The second loop either links every module or throws at the first
    dependency that is no module. *)
Lemma link_loop_result (l : list string) (ms : Modules) :
  (exists ms', for_each link_module l ms = Normal ms' /\
               erase no_dependants ms' = erase no_dependants ms /\
               forall name d, In name l -> In d (dependencies_of name ms) ->
                              In d (names ms)) \/
  (exists name d, for_each link_module l ms
                  = Throw (BrokenDependencyError d) /\
                  In name l /\ In d (dependencies_of name ms) /\
                  ~ In d (names ms)).
Proof.
  revert ms. induction l as [|x l IH]; intros ms; cbn [for_each bind].
  - left. exists ms. repeat split; auto. intros ? ? [].
  - change (link_module ms x)
      with (for_each (link_dependency x) (dependencies_of x ms) ms).
    destruct (link_dependencies_result x (dependencies_of x ms) ms)
      as [(ms1 & E & He & Hall)|(d & E & Hd & Hnot)]; rewrite E; cbn [bind].
    + pose proof (no_dependants_skeleton _ _ He) as Hs.
      destruct (IH ms1) as [(ms' & E' & He' & Hall')|(n & d & E' & Hn & Hd & Hnot)].
      * left. exists ms'. repeat split; auto; [congruence|].
        intros name d [<-|Hn] Hd; [auto|].
        rewrite <- (skeleton_names _ _ Hs).
        apply (Hall' name d Hn).
        now rewrite (skeleton_dependencies _ _ name Hs).
      * right. exists n, d. split; [exact E'|]. split; [now right|]. split.
        -- now rewrite <- (skeleton_dependencies _ _ n Hs).
        -- now rewrite <- (skeleton_names _ _ Hs).
    + right. exists x, d. split; [reflexivity|]. split; [now left|]. auto.
Qed.

Lemma link_modules_result (ms : Modules) :
  (exists ms', link_modules ms = Normal ms' /\
               erase no_dependants ms' = erase no_dependants ms /\
               deps_closed ms) \/
  (exists name d, link_modules ms = Throw (BrokenDependencyError d) /\
                  In name (names ms) /\ In d (dependencies_of name ms) /\
                  ~ In d (names ms)).
Proof.
  unfold link_modules.
  destruct (link_loop_result (names ms) ms)
    as [(ms' & E & He & Hall)|(n & d & E & Hn & Hd & Hnot)].
  - left. exists ms'. repeat split; auto.
  - right. exists n, d. auto.
Qed.

(** ** The input and the modules made of it *)

Lemma names_new_modules (descriptions : list (string * ModuleDescription)) :
  names (new_modules descriptions) = map fst descriptions.
Proof.
  unfold names, new_modules. rewrite map_map. reflexivity.
Qed.

Lemma find_new_modules (descriptions : list (string * ModuleDescription))
  (name : string) (d : ModuleDescription) :
  distinct_names descriptions -> In (name, d) descriptions ->
  find_module name (new_modules descriptions) = Some (new_module d).
Proof.
  intros Hnd Hin. apply In_find_module.
  - now rewrite names_new_modules.
  - unfold new_modules.
    change (name, new_module d)
      with ((fun d => (fst d, new_module (snd d))) (name, d)).
    now apply in_map.
Qed.

Lemma find_new_modules_inv (descriptions : list (string * ModuleDescription))
  (name : string) (m : Mod.t) :
  find_module name (new_modules descriptions) = Some m ->
  exists d, In (name, d) descriptions /\ m = new_module d.
Proof.
  intros H. apply find_module_Some_In in H.
  unfold new_modules in H. apply in_map_iff in H as ([n d] & [= -> <-] & Hin).
  eauto.
Qed.

(** ** The third loop of the constructor: [needed] *)

Lemma is_needed_update (name other : string) (ms : Modules) :
  is_needed (update_module name (Mod.with_needed true) ms) other = true <->
  (other = name /\ In name (names ms)) \/ is_needed ms other = true.
Proof.
  unfold is_needed. rewrite find_update.
  destruct (String.eqb_spec other name) as [->|Hne].
  - destruct (find_module name ms) as [m|] eqn:E; simpl.
    + split; [|reflexivity]. intros _. left. split; [reflexivity|].
      destruct (in_dec string_dec name (names ms)) as [H|H]; [exact H|].
      apply find_module_None in H. congruence.
    + split; [discriminate|]. intros [[_ H]|H]; [|discriminate].
      apply find_module_None in E. contradiction.
  - split; [tauto|]. intros [[H _]|H]; [contradiction | exact H].
Qed.

Lemma unneeded_le_length (ms : Modules) : (unneeded ms <= List.length ms)%nat.
Proof. apply filter_length_le. Qed.

Lemma unneeded_update_le (name : string) (ms : Modules) :
  (unneeded (update_module name (Mod.with_needed true) ms) <= unneeded ms)%nat.
Proof.
  unfold unneeded. induction ms as [|[n m] ms IH]; simpl; [lia|].
  destruct (n =? name)%string; simpl.
  - destruct (Mod.needed m); simpl; lia.
  - destruct (Mod.needed m); simpl; lia.
Qed.

Lemma unneeded_update_lt (name : string) (ms : Modules) :
  In name (names ms) -> is_needed ms name = false ->
  (unneeded (update_module name (Mod.with_needed true) ms) < unneeded ms)%nat.
Proof.
  unfold unneeded, is_needed.
  induction ms as [|[n m] ms IH]; simpl; [tauto|].
  destruct (String.eqb_spec n name) as [->|Hne]; simpl.
  - intros _ ->. simpl.
    pose proof (unneeded_update_le name ms) as H. unfold unneeded in H. lia.
  - intros [H|H] E; [contradiction|].
    specialize (IH H E). destruct (Mod.needed m); simpl; lia.
Qed.

Lemma closed_except_weaken (P Q : string -> Prop) (ms : Modules) :
  (forall n, P n -> Q n) -> closed_except P ms -> closed_except Q ms.
Proof.
  intros HPQ H name dep Hn HQ Hd. apply (H name dep); auto.
Qed.

Section FillNeeded.

(** The modules the third loop starts from. *)
Variable ms0 : Modules.
Hypothesis ms0_closed : deps_closed ms0.

Lemma more_needed_refl (ms : Modules) : more_needed ms ms.
Proof. split; auto. Qed.

Lemma more_needed_trans (a b c : Modules) :
  more_needed a b -> more_needed b c -> more_needed a c.
Proof. intros [H1 H2] [H3 H4]. split; [auto | lia]. Qed.

Lemma marking_names (ms : Modules) : marking ms0 ms -> names ms = names ms0.
Proof. intros [H _]. exact (erase_names _ _ _ H). Qed.

Lemma marking_dependencies (ms : Modules) (name : string) :
  marking ms0 ms -> dependencies_of name ms = dependencies_of name ms0.
Proof.
  intros [H _]. apply skeleton_dependencies.
  apply (erase_skeleton no_needed); [reflexivity | exact H].
Qed.

Lemma marking_update (ms : Modules) (name : string) :
  marking ms0 ms -> required_in ms0 name ->
  marking ms0 (update_module name (Mod.with_needed true) ms).
Proof.
  intros [He Hs] Hreq. split.
  - rewrite erase_update; [exact He | reflexivity].
  - intros n Hn. apply is_needed_update in Hn as [[-> _]|Hn]; auto.
Qed.

Lemma more_needed_update (ms : Modules) (name : string) :
  more_needed ms (update_module name (Mod.with_needed true) ms).
Proof.
  split.
  - intros n Hn. apply is_needed_update. now right.
  - apply unneeded_update_le.
Qed.

(** [fillNeeded] returns when its fuel exceeds the number of modules not yet
    marked; it marks the module, leaves its dependencies marked, and every
    module it marked is closed when it returns. *)
Lemma fillNeeded_spec (fuel : nat) :
  forall (ms : Modules) (name : string) (P : string -> Prop),
    marking ms0 ms -> In name (names ms0) -> required_in ms0 name ->
    (unneeded (update_module name (Mod.with_needed true) ms) < fuel)%nat ->
    closed_except P ms ->
    exists ms',
      fillNeeded fuel ms name = Normal ms' /\ marking ms0 ms' /\
      more_needed ms ms' /\ is_needed ms' name = true /\
      closed_except (fun n => P n /\ n <> name) ms'.
Proof.
  induction fuel as [|fuel IH]; intros ms name P Hm Hin Hreq Hfuel Hclosed;
    [lia|].
  cbn [fillNeeded].
  set (ms1 := update_module name (Mod.with_needed true) ms) in *.
  assert (Hm1 : marking ms0 ms1) by now apply marking_update.
  assert (Hr1 : more_needed ms ms1) by apply more_needed_update.
  assert (Hc1 : closed_except (fun n => P n \/ n = name) ms1).
  { intros n dep Hn HP Hd.
    apply is_needed_update in Hn as [[-> _]|Hn]; [tauto|].
    apply is_needed_update. right.
    apply (Hclosed n dep); auto.
    now rewrite (marking_dependencies _ _ Hm), <- (marking_dependencies _ _ Hm1). }
  destruct
    (for_each_normal
       (fun ms dependencyName =>
          match find_module dependencyName ms with
          | None => Throw TypeError
          | Some dependency =>
              if Mod.needed dependency then Normal ms
              else fillNeeded fuel ms dependencyName
          end)
       (fun a => marking ms0 a /\ closed_except (fun n => P n \/ n = name) a /\
                 (unneeded a <= fuel)%nat)
       more_needed
       (fun x a => is_needed a x = true)
       (dependencies_of name ms)
       more_needed_refl more_needed_trans)
    with (a := ms1) as (ms' & E & (Hm' & Hc' & _) & Hr' & Hq').
  - intros x a b Hx _ [Hmono _]. auto.
  - intros a x Hx (Hma & Hca & Hfa). cbv beta.
    assert (Hxin : In x (names ms0)).
    { apply (ms0_closed name x Hin).
      now rewrite <- (marking_dependencies _ _ Hm). }
    destruct (find_module x a) as [dependency|] eqn:Ef.
    2:{ apply find_module_None in Ef. rewrite (marking_names _ Hma) in Ef.
        contradiction. }
    destruct (Mod.needed dependency) eqn:En.
    + exists a. splits; auto using more_needed_refl.
      unfold is_needed. now rewrite Ef.
    + assert (Hun : is_needed a x = false) by (unfold is_needed; now rewrite Ef).
      assert (Hxa : In x (names a)) by now rewrite (marking_names _ Hma).
      pose proof (unneeded_update_lt x a Hxa Hun) as Hlt.
      destruct (IH a x (fun n => P n \/ n = name)) as (b & Eb & Hmb & Hrb & Hnb & Hcb);
        auto.
      * apply (required_in_dependency ms0 name x); auto.
        now rewrite <- (marking_dependencies _ _ Hm).
      * lia.
      * exists b. cbv beta. splits; auto.
        -- eapply closed_except_weaken; [|exact Hcb]. intros n Hn; apply Hn.
        -- destruct Hrb as [_ Hle]. lia.
  - cbv beta. splits; auto. lia.
  - exists ms'. splits; auto.
    + eapply more_needed_trans; eauto.
    + apply Hr'. apply is_needed_update. left. split; [reflexivity|].
      now rewrite (marking_names _ Hm).
    + intros n dep Hn HP Hd.
      destruct (string_dec n name) as [->|Hne].
      * apply Hq'.
        now rewrite (marking_dependencies _ _ Hm), <- (marking_dependencies _ _ Hm').
      * apply (Hc' n dep); auto. tauto.
Qed.

(** The third loop returns; what it marks are the required modules. *)
Lemma fill_all_needed_spec :
  exists ms',
    fill_all_needed ms0 = Normal ms' /\
    erase no_needed ms' = erase no_needed ms0 /\
    forall n, is_needed ms' n = true <-> required_in ms0 n.
Proof.
  unfold fill_all_needed.
  destruct
    (for_each_normal
       (fun ms moduleName =>
          match find_module moduleName ms with
          | None => Throw TypeError
          | Some module =>
              if Mod.needed module
              then fillNeeded (S (List.length ms)) ms moduleName
              else Normal ms
          end)
       (fun a => marking ms0 a /\ more_needed ms0 a /\
                 closed_except (fun n => is_needed ms0 n = true) a)
       more_needed
       (fun x a => is_needed ms0 x = true ->
                   forall dep, In dep (dependencies_of x ms0) ->
                               is_needed a dep = true)
       (names ms0)
       more_needed_refl more_needed_trans)
    with (a := ms0) as (ms' & E & (Hm' & Hr0 & Hc') & _ & Hq').
  - intros x a b Hx _ [Hmono _] Hmark dep Hd. auto.
  - intros a x Hx (Hma & Hra & Hca). cbv beta.
    destruct (find_module x a) as [module|] eqn:Ef.
    2:{ apply find_module_None in Ef. rewrite (marking_names _ Hma) in Ef.
        contradiction. }
    destruct (Mod.needed module) eqn:En.
    + assert (Hna : is_needed a x = true) by (unfold is_needed; now rewrite Ef).
      destruct (fillNeeded_spec (S (List.length a)) a x
                  (fun n => is_needed ms0 n = true))
        as (b & Eb & Hmb & Hrb & Hnb & Hcb); auto.
      * now apply Hma.
      * pose proof (unneeded_le_length (update_module x (Mod.with_needed true) a)).
        rewrite length_update in *. lia.
      * exists b. cbv beta. splits; auto.
        -- eapply more_needed_trans; eauto.
        -- eapply closed_except_weaken; [|exact Hcb]. intros n Hn; apply Hn.
        -- intros _ dep Hd. apply (Hcb x dep); auto; [tauto|].
           now rewrite (marking_dependencies _ _ Hmb).
    + exists a. cbv beta. splits; auto using more_needed_refl.
      intros Hmark. apply Hra in Hmark. unfold is_needed in Hmark.
      rewrite Ef in Hmark. congruence.
  - cbv beta. splits; auto using more_needed_refl.
    + split; [reflexivity|]. intros n Hn. now apply required_in_marked.
    + intros n dep Hn HP. contradiction.
  - exists ms'. split; [exact E|]. split; [apply Hm'|].
    intros n. split; [apply Hm'|].
    induction 1 as [n Hn|n dep Hreq IHreq Hin Hd].
    + now apply Hr0.
    + destruct (is_needed ms0 n) eqn:Emark.
      * apply (Hq' n); auto.
      * apply (Hc' n dep); auto; [congruence|].
        now rewrite (marking_dependencies _ _ Hm').
Qed.

End FillNeeded.

(** ** The constructor as a whole *)

Lemma erase_find_Some (e : Mod.t -> Mod.t) (ms ms' : Modules) (name : string)
  (m : Mod.t) :
  erase e ms = erase e ms' -> find_module name ms = Some m ->
  exists m', find_module name ms' = Some m' /\ e m = e m'.
Proof.
  intros He Hf. pose proof (erase_find e ms ms' name He) as H.
  rewrite Hf in H. destruct (find_module name ms') as [m'|]; [|discriminate].
  injection H as H. eauto.
Qed.

Lemma deps_closed_skeleton (ms ms' : Modules) :
  skeleton ms = skeleton ms' -> deps_closed ms -> deps_closed ms'.
Proof.
  intros Hs H name dep Hn Hd.
  rewrite <- (skeleton_names _ _ Hs) in *.
  rewrite <- (skeleton_dependencies _ _ name Hs) in Hd. eauto.
Qed.

Lemma dependencies_new_modules (descriptions : list (string * ModuleDescription))
  (name : string) (d : ModuleDescription) :
  distinct_names descriptions -> In (name, d) descriptions ->
  dependencies_of name (new_modules descriptions) = declared_deps d.
Proof.
  intros Hnd Hin. unfold dependencies_of.
  now rewrite (find_new_modules _ _ _ Hnd Hin).
Qed.

Lemma In_names_descriptions (descriptions : list (string * ModuleDescription))
  (name : string) :
  In name (map fst descriptions) -> exists d, In (name, d) descriptions.
Proof.
  intros H. apply in_map_iff in H as ([n d] & <- & H). eauto.
Qed.

(** [required_in], read off modules that differ from the fresh ones in their
    [dependants] only, is [required]. *)
Lemma required_in_required (descriptions : list (string * ModuleDescription))
  (ms : Modules) (name : string) :
  distinct_names descriptions ->
  erase no_dependants ms = erase no_dependants (new_modules descriptions) ->
  required_in ms name <-> required descriptions name.
Proof.
  intros Hnd He.
  pose proof (no_dependants_skeleton _ _ He) as Hs.
  assert (Hmark : forall n, is_needed ms n = true <->
                    exists d, In (n, d) descriptions /\ marked_needed d = true).
  { intros n. unfold is_needed. split.
    - destruct (find_module n ms) as [m|] eqn:E; [|discriminate].
      destruct (erase_find_Some _ _ _ _ _ He E) as (m' & E' & Hmm).
      apply find_new_modules_inv in E' as (d & Hin & ->).
      intros H. exists d. split; [exact Hin|].
      apply (f_equal Mod.needed) in Hmm. simpl in Hmm.
      unfold marked_needed. congruence.
    - intros (d & Hin & H).
      pose proof (find_new_modules _ _ _ Hnd Hin) as E'.
      symmetry in He.
      destruct (erase_find_Some _ _ _ _ _ He E') as (m & E & Hmm).
      rewrite E. apply (f_equal Mod.needed) in Hmm. simpl in Hmm.
      unfold marked_needed in H. congruence. }
  assert (Hdep : forall n d, In (n, d) descriptions ->
                   dependencies_of n ms = declared_deps d).
  { intros n d Hin. rewrite (skeleton_dependencies _ _ n Hs).
    now apply dependencies_new_modules. }
  split.
  - induction 1 as [n Hn|n dep Hreq IH Hin Hd].
    + apply Hmark in Hn as (d & Hin & Hd). now apply (required_marked _ n d).
    + rewrite (skeleton_names _ _ Hs), names_new_modules in Hin.
      apply In_names_descriptions in Hin as (d & Hin).
      apply (required_dependency _ n d dep); auto.
      now rewrite <- (Hdep n d Hin).
  - induction 1 as [n d Hin Hd|n d dep Hreq IH Hin Hd].
    + apply required_in_marked. apply Hmark. eauto.
    + apply (required_in_dependency _ n dep); auto.
      * rewrite (skeleton_names _ _ Hs), names_new_modules.
        change n with (fst (n, d)). now apply in_map.
      * now rewrite (Hdep n d Hin).
Qed.

(** Either some dependency is broken and the constructor throws, or none is
    and it returns modules that differ from the fresh ones in [dependants]
    and [needed] only. *)
Lemma build_modules_result (descriptions : list (string * ModuleDescription)) :
  distinct_names descriptions ->
  (broken descriptions /\
   exists dep, build_modules descriptions = Throw (BrokenDependencyError dep) /\
               ~ In dep (map fst descriptions)) \/
  (~ broken descriptions /\
   exists ms1 ms2,
     link_modules (new_modules descriptions) = Normal ms1 /\
     build_modules descriptions = Normal ms2 /\
     erase no_dependants ms1 = erase no_dependants (new_modules descriptions) /\
     erase no_needed ms2 = erase no_needed ms1 /\
     deps_closed ms2 /\
     forall n, is_needed ms2 n = true <-> required descriptions n).
Proof.
  intros Hnd. unfold build_modules.
  destruct (link_modules_result (new_modules descriptions))
    as [(ms1 & E & He & Hclosed)|(name & dep & E & Hn & Hd & Hnot)];
    rewrite E; cbn [bind].
  - right. split.
    + intros (name & d & dep & Hin & Hd & Hnot). apply Hnot.
      rewrite <- names_new_modules. apply (Hclosed name dep).
      * rewrite names_new_modules. change name with (fst (name, d)).
        now apply in_map.
      * now rewrite (dependencies_new_modules _ _ _ Hnd Hin).
    + pose proof (no_dependants_skeleton _ _ He) as Hs. symmetry in Hs.
      pose proof (deps_closed_skeleton _ _ Hs Hclosed) as Hclosed1.
      destruct (fill_all_needed_spec ms1 Hclosed1) as (ms2 & E2 & He2 & Hn2).
      exists ms1, ms2. splits; auto.
      * apply (deps_closed_skeleton ms1); auto.
        symmetry. apply (erase_skeleton no_needed); [reflexivity | exact He2].
      * intros n. rewrite Hn2. now apply required_in_required.
  - left. rewrite names_new_modules in *.
    assert (Hb : broken descriptions).
    { apply In_names_descriptions in Hn as (d & Hin).
      exists name, d, dep. splits; auto.
      now rewrite <- (dependencies_new_modules _ _ _ Hnd Hin). }
    split; [exact Hb|]. exists dep. auto.
Qed.

Lemma constructor_Normal (descriptions : list (string * ModuleDescription))
  (t : DepsTree.t) :
  DepsTree.constructor descriptions = Normal t ->
  build_modules descriptions = Normal (DepsTree.modules t) /\
  DepsTree.state t = State.off /\ DepsTree._modulesToUnload t = 0 /\
  DepsTree.errors t = [] /\ DepsTree._initDefer t = None /\
  DepsTree._deinitDefer t = None /\ DepsTree.initCallback t = false /\
  DepsTree.pendingInit t = [] /\ DepsTree.pendingDeinit t = [] /\
  DepsTree.trace t = [].
Proof.
  unfold DepsTree.constructor.
  destruct (build_modules descriptions); cbn [bind]; try discriminate.
  intros [= <-]. simpl. splits; reflexivity.
Qed.

(** The fuel the constructor gives [fillNeeded] is enough: construction
    returns a tree or throws. *)
Theorem fillNeeded_terminates
  (descriptions : list (string * ModuleDescription)) :
  distinct_names descriptions ->
  DepsTree.constructor descriptions <> Diverge.
Proof.
  intros Hnd. unfold DepsTree.constructor.
  destruct (build_modules_result descriptions Hnd)
    as [(_ & dep & E & _)|(_ & ms1 & ms2 & _ & E & _)];
    rewrite E; discriminate.
Qed.



(** C9.  After a construction that succeeded, the [needed] flag of a module
    is set exactly when the module is marked needed in its description or a
    chain of [deps] edges leads to it from a module that is. *)
Theorem needed_iff_required
  (descriptions : list (string * ModuleDescription)) (t : DepsTree.t)
  (name : string) (m : Mod.t) :
  distinct_names descriptions ->
  DepsTree.constructor descriptions = Normal t ->
  DepsTree.find name t = Some m ->
  Mod.needed m = true <-> required descriptions name.
Proof.
  intros Hnd Hc Hf. apply constructor_Normal in Hc as (Hb & _).
  destruct (build_modules_result descriptions Hnd)
    as [(_ & dep & E & _)|(_ & ms1 & ms2 & _ & E & _ & _ & _ & Hn)];
    [congruence|].
  rewrite Hb in E. injection E as <-.
  rewrite <- Hn. unfold is_needed. unfold DepsTree.find in Hf.
  now rewrite Hf.
Qed.

Lemma needed_iff_required_witness :
  exists t m,
    distinct_names chain_example /\
    DepsTree.constructor chain_example = Normal t /\
    DepsTree.find "A" t = Some m /\
    (Mod.needed m = true <-> required chain_example "A").
Proof.
  assert (Hnd : distinct_names chain_example).
  { unfold distinct_names. simpl.
    repeat constructor; simpl; intuition discriminate. }
  destruct (DepsTree.constructor chain_example) as [t| |] eqn:E;
    try (vm_compute in E; discriminate).
  destruct (DepsTree.find "A" t) as [m|] eqn:Ef.
  2:{ vm_compute in E. injection E as <-. vm_compute in Ef. discriminate. }
  exists t, m. split; [exact Hnd|]. split; [reflexivity|].
  split; [exact Ef|].
  exact (needed_iff_required chain_example t "A" m Hnd E Ef).
Defined.

(** ** [dependants] is the inverse of [dependencies] *)

Lemma count_occ_snoc (l : list string) (x y : string) :
  count_occ string_dec (l ++ [y]) x
  = (count_occ string_dec l x + if string_dec y x then 1 else 0)%nat.
Proof.
  rewrite count_occ_app. simpl. destruct (string_dec y x); lia.
Qed.

Lemma dependants_of_link (moduleName dep d : string) (ms : Modules) :
  find_module dep ms <> None ->
  dependants_of d
    (update_module dep
       (fun dependency =>
          Mod.with_dependants (Mod.dependants dependency ++ [moduleName])
            dependency) ms)
  = if string_dec d dep then (dependants_of d ms ++ [moduleName])%list
    else dependants_of d ms.
Proof.
  intros Hf. unfold dependants_of. rewrite find_update.
  destruct (string_dec d dep) as [->|Hne].
  - rewrite String.eqb_refl.
    destruct (find_module dep ms); [reflexivity | contradiction].
  - destruct (String.eqb_spec d dep); [contradiction | reflexivity].
Qed.

Lemma link_dependencies_count (moduleName : string) (l : list string) :
  forall ms ms',
    for_each (link_dependency moduleName) l ms = Normal ms' ->
    forall d x,
      count_occ string_dec (dependants_of d ms') x
      = (count_occ string_dec (dependants_of d ms) x
         + if string_dec moduleName x then count_occ string_dec l d else 0)%nat.
Proof.
  induction l as [|dep l IH]; intros ms ms'; simpl.
  - intros [= <-] d x. destruct (string_dec moduleName x); lia.
  - unfold link_dependency at 1.
    destruct (find_module dep ms) as [m|] eqn:Ef; [|discriminate].
    cbn [bind]. intros H d x. rewrite (IH _ _ H d x).
    rewrite dependants_of_link by congruence.
    destruct (string_dec d dep) as [->|Hne].
    + rewrite count_occ_snoc.
      destruct (string_dec dep dep); [|contradiction].
      destruct (string_dec moduleName x); lia.
    + destruct (string_dec dep d); [congruence|].
      destruct (string_dec moduleName x); lia.
Qed.

Lemma link_modules_count (l : list string) :
  forall ms ms',
    NoDup l ->
    for_each link_module l ms = Normal ms' ->
    forall d x,
      count_occ string_dec (dependants_of d ms') x
      = (count_occ string_dec (dependants_of d ms) x
         + if in_dec string_dec x l
           then count_occ string_dec (dependencies_of x ms) d else 0)%nat.
Proof.
  induction l as [|n l IH]; intros ms ms' Hnd; cbn [for_each].
  - intros [= <-] d x. simpl. lia.
  - inversion Hnd as [|? ? Hn Hnd']; subst.
    destruct (link_module ms n) as [ms1| |] eqn:E1; cbn [bind];
      try discriminate.
    intros H d x. rewrite (IH _ _ Hnd' H d x).
    unfold link_module in E1.
    rewrite (link_dependencies_count n _ _ _ E1 d x).
    assert (Hs : skeleton ms1 = skeleton ms).
    { destruct (link_dependencies_result n (dependencies_of n ms) ms)
        as [(ms1' & E & He & _)|(d' & E & _)]; [|congruence].
      rewrite E1 in E. injection E as <-.
      now apply no_dependants_skeleton. }
    rewrite (skeleton_dependencies _ _ x Hs).
    destruct (string_dec n x) as [->|Hne].
    + destruct (in_dec string_dec x l); [contradiction|].
      destruct (in_dec string_dec x (x :: l)) as [_|Hout];
        [lia | exfalso; apply Hout; now left].
    + destruct (in_dec string_dec x l) as [Hin|Hout];
        destruct (in_dec string_dec x (n :: l)) as [Hin'|Hout']; try lia.
      * exfalso. apply Hout'. now right.
      * destruct Hin' as [->|Hin']; [contradiction|]. contradiction.
Qed.

Lemma dependants_new_modules (descriptions : list (string * ModuleDescription))
  (d : string) :
  dependants_of d (new_modules descriptions) = [].
Proof.
  unfold dependants_of.
  destruct (find_module d (new_modules descriptions)) as [m|] eqn:E;
    [|reflexivity].
  apply find_new_modules_inv in E as (desc & _ & ->). reflexivity.
Qed.

Lemma erase_dependants (e : Mod.t -> Mod.t) (ms ms' : Modules) (d : string) :
  (forall m, Mod.dependants (e m) = Mod.dependants m) ->
  erase e ms = erase e ms' -> dependants_of d ms = dependants_of d ms'.
Proof.
  intros He H. pose proof (erase_find e _ _ d H) as Hf.
  unfold dependants_of.
  destruct (find_module d ms) as [m|], (find_module d ms') as [m'|];
    simpl in Hf; try discriminate; [|reflexivity].
  assert (Hm : e m = e m') by congruence.
  rewrite <- (He m), <- (He m'). now rewrite Hm.
Qed.

(** What the constructor returns is [fresh]. *)
Lemma constructor_fresh (descriptions : list (string * ModuleDescription))
  (t : DepsTree.t) :
  distinct_names descriptions ->
  DepsTree.constructor descriptions = Normal t ->
  fresh (DepsTree.modules t) /\
  names (DepsTree.modules t) = map fst descriptions /\
  (forall n, dependencies_of n (DepsTree.modules t) = deps_in descriptions n) /\
  (forall n, seed (DepsTree.modules t) n = seed_in descriptions n).
Proof.
  intros Hnd Hc. apply constructor_Normal in Hc as (Hb & _).
  destruct (build_modules_result descriptions Hnd)
    as [(_ & dep & E & _)|(_ & ms1 & ms2 & E1 & E2 & He1 & He2 & _)];
    [congruence|].
  rewrite Hb in E2. injection E2 as <-.
  set (ms0 := new_modules descriptions) in *.
  set (ms2 := DepsTree.modules t) in *.
  assert (Hs1 : skeleton ms1 = skeleton ms0)
    by now apply no_dependants_skeleton.
  assert (Hs2 : skeleton ms2 = skeleton ms1)
    by (apply (erase_skeleton no_needed); [reflexivity | exact He2]).
  assert (Hn : names ms2 = map fst descriptions).
  { rewrite (skeleton_names _ _ Hs2), (skeleton_names _ _ Hs1).
    apply names_new_modules. }
  assert (Hdep : forall n, dependencies_of n ms2 = dependencies_of n ms0).
  { intros n. now rewrite (skeleton_dependencies _ _ n Hs2),
                (skeleton_dependencies _ _ n Hs1). }
  assert (Hfind : forall n m,
             find_module n ms2 = Some m ->
             exists d, find_module n ms0 = Some (new_module d) /\
                       In (n, d) descriptions /\
                       no_dependants (no_needed m)
                       = no_dependants (no_needed (new_module d))).
  { intros n m Hf.
    destruct (erase_find_Some _ _ _ _ _ He2 Hf) as (m1 & Hf1 & Hm1).
    destruct (erase_find_Some _ _ _ _ _ He1 Hf1) as (m0 & Hf0 & Hm0).
    destruct (find_new_modules_inv _ _ _ Hf0) as (d & Hin & ->).
    exists d. splits; auto.
    apply (f_equal no_dependants) in Hm1.
    apply (f_equal no_needed) in Hm0.
    unfold no_dependants, no_needed, Mod.with_dependants, Mod.with_needed
      in *.
    destruct m, m1. simpl in *. congruence. }
  assert (Hdesc : forall n d, In (n, d) descriptions ->
                    description_of n descriptions = Some d).
  { clear -Hnd. unfold distinct_names in Hnd.
    induction descriptions as [|[n' d'] rest IH]; simpl; [tauto|].
    intros n d [H|H].
    - injection H as -> ->. now rewrite String.eqb_refl.
    - inversion Hnd as [|? ? Hn' Hnd']; subst.
      destruct (String.eqb_spec n' n) as [->|Hne]; [|now apply IH].
      exfalso. apply Hn'. change n with (fst (n, d)). now apply in_map. }
  assert (Hnone : forall n, find_module n ms2 = None ->
                    description_of n descriptions = None).
  { intros n Hf. apply find_module_None in Hf. rewrite Hn in Hf.
    clear -Hf. induction descriptions as [|[n' d'] rest IH]; simpl;
      [reflexivity|].
    simpl in Hf. destruct (String.eqb_spec n' n); [tauto|].
    apply IH. tauto. }
  splits.
  - unfold fresh. splits.
    + rewrite Hn. exact Hnd.
    + intros d x.
      rewrite (erase_dependants no_needed ms2 ms1 d (fun m => eq_refl) He2).
      rewrite Hdep.
      unfold link_modules in E1.
      assert (Hnd0 : NoDup (names ms0))
        by (unfold ms0; rewrite names_new_modules; exact Hnd).
      rewrite (link_modules_count _ _ _ Hnd0 E1 d x).
      unfold ms0 at 1. rewrite dependants_new_modules. simpl.
      destruct (in_dec string_dec x (names ms0)) as [Hin|Hout];
        [reflexivity|].
      apply find_module_None in Hout. unfold dependencies_of.
      now rewrite Hout.
    + intros n m Hf. destruct (Hfind n m Hf) as (d & _ & _ & Hm).
      split.
      * apply (f_equal Mod.state) in Hm. exact Hm.
      * pose proof (f_equal Mod.dependenciesToLoad Hm) as H1.
        pose proof (f_equal Mod.dependencies Hm) as H2.
        simpl in H1, H2. rewrite H1, H2. reflexivity.
  - exact Hn.
  - intros n. rewrite Hdep. unfold deps_in, dependencies_of.
    destruct (find_module n ms0) as [m|] eqn:Ef.
    + destruct (find_new_modules_inv _ _ _ Ef) as (d & Hin & ->).
      now rewrite (Hdesc n d Hin).
    + destruct (find_module n ms2) as [m2|] eqn:Ef2.
      * destruct (Hfind n m2 Ef2) as (d & Hf0 & _). congruence.
      * now rewrite (Hnone n Ef2).
  - intros n. unfold seed, seed_in.
    destruct (find_module n ms2) as [m|] eqn:Ef.
    + destruct (Hfind n m Ef) as (d & _ & Hin & Hm).
      rewrite (Hdesc n d Hin).
      exact (f_equal Mod.data Hm).
    + now rewrite (Hnone n Ef).
Qed.

(** ** Loops of the class *)

Lemma fold_left_inv {A B : Type} (f : A -> B -> A) (P : A -> Prop)
  (l : list B) (a : A) :
  P a -> (forall a x, In x l -> P a -> P (f a x)) -> P (fold_left f l a).
Proof.
  revert a. induction l as [|x l IH]; intros a Ha Hf; simpl; [exact Ha|].
  apply IH.
  - apply Hf; [now left | exact Ha].
  - intros a' y Hy. apply Hf. now right.
Qed.

Lemma counters_only_state (f : Mod.t -> Mod.t) (m : Mod.t) :
  counters_only f -> Mod.state (f m) = Mod.state m.
Proof. intros H. exact (f_equal Mod.state (H m)). Qed.

Lemma counters_only_data (f : Mod.t -> Mod.t) (m : Mod.t) :
  counters_only f -> Mod.data (f m) = Mod.data m.
Proof. intros H. exact (f_equal Mod.data (H m)). Qed.

Section UnloadLevel.

Variable P : DepsTree.t -> Prop.
Hypothesis HP : unload_level P.

Lemma ul_update (name : string) (f : Mod.t -> Mod.t) (t : DepsTree.t) :
  counters_only f -> P t -> P (DepsTree.update name f t).
Proof. apply HP. Qed.

Lemma ul_changeModuleState (name : string) (st : State.t) (t : DepsTree.t) :
  P t -> P (DepsTree._changeModuleState name st t).
Proof. apply HP. Qed.

Lemma ul_invoke_deinit (name : string) (t : DepsTree.t) :
  P t -> P (DepsTree.record (Invoke_deinit name) t).
Proof. apply HP. Qed.

Lemma ul_pendingDeinit (l : list string) (t : DepsTree.t) :
  P t -> P (DepsTree.with_pendingDeinit l t).
Proof. apply HP. Qed.

Lemma unload_level_deinitModule (name : string) (t : DepsTree.t) :
  P t -> P (DepsTree._deinitModule name t).
Proof.
  intros H. unfold DepsTree._deinitModule.
  apply ul_pendingDeinit. apply ul_invoke_deinit.
  now apply ul_changeModuleState.
Qed.

Lemma unload_level_deinit_module_if_free (t : DepsTree.t) (name : string) :
  P t -> P (DepsTree.deinit_module_if_free t name).
Proof.
  intros H. unfold DepsTree.deinit_module_if_free.
  destruct (DepsTree.find name t) as [m|]; [|exact H].
  destruct (_ && _); [|exact H]. now apply unload_level_deinitModule.
Qed.

Lemma unload_level_unload_dependency (t : DepsTree.t) (name : string) :
  P t -> P (DepsTree.unload_dependency t name).
Proof.
  intros H. unfold DepsTree.unload_dependency.
  match goal with |- context [DepsTree.update ?n ?f t] =>
    assert (H1 : P (DepsTree.update n f t))
      by (apply ul_update; [intros m; reflexivity | exact H])
  end.
  destruct (DepsTree.find name _) as [m|]; [|exact H1].
  destruct (_ <=? _); [|exact H1]. now apply unload_level_deinitModule.
Qed.

Lemma unload_level_loops (l : list string) (t : DepsTree.t) :
  P t ->
  P (fold_left DepsTree.deinit_module_if_free l t) /\
  P (fold_left DepsTree.unload_dependency l t).
Proof.
  intros H. splits; apply fold_left_inv; auto; intros a x _ Ha.
  - now apply unload_level_deinit_module_if_free.
  - now apply unload_level_unload_dependency.
Qed.

End UnloadLevel.

Section ModuleLevel.

Variable P : DepsTree.t -> Prop.
Hypothesis HP : module_level P.

Lemma module_level_unload : unload_level P.
Proof. apply HP. Qed.

Lemma ml_update (name : string) (f : Mod.t -> Mod.t) (t : DepsTree.t) :
  counters_only f -> P t -> P (DepsTree.update name f t).
Proof. apply module_level_unload. Qed.

Lemma ml_invoke_init (name : string) (o : list (string * value))
  (t : DepsTree.t) :
  P t -> P (DepsTree.record (Invoke_init name o) t).
Proof. apply HP. Qed.

Lemma ml_pendingInit (l : list string) (t : DepsTree.t) :
  P t -> P (DepsTree.with_pendingInit l t).
Proof. apply HP. Qed.

Lemma ml_pendingDeinit (l : list string) (t : DepsTree.t) :
  P t -> P (DepsTree.with_pendingDeinit l t).
Proof. apply module_level_unload. Qed.

Lemma ml_modulesToUnload (z : Z) (t : DepsTree.t) :
  P t -> P (DepsTree.with_modulesToUnload z t).
Proof. apply HP. Qed.

Lemma ml_modulesToLoad (z : Z) (t : DepsTree.t) :
  P t -> P (DepsTree.with_modulesToLoad z t).
Proof. apply HP. Qed.

Lemma module_level_changeModuleState (name : string) (st : State.t)
  (t : DepsTree.t) :
  P t -> P (DepsTree._changeModuleState name st t).
Proof. apply module_level_unload. Qed.

Lemma module_level_deinitModule (name : string) (t : DepsTree.t) :
  P t -> P (DepsTree._deinitModule name t).
Proof. now apply (unload_level_deinitModule _ module_level_unload). Qed.

Lemma module_level_initModule (name : string) (t : DepsTree.t) :
  P t -> P (DepsTree._initModule name t).
Proof.
  intros H. unfold DepsTree._initModule.
  apply ml_pendingInit. apply ml_invoke_init. apply ml_modulesToUnload.
  now apply module_level_changeModuleState.
Qed.

Lemma module_level_count_dependant (t : DepsTree.t) (name : string) :
  P t -> P (DepsTree.count_dependant t name).
Proof.
  intros H. unfold DepsTree.count_dependant.
  apply ml_update; [intros m; reflexivity | exact H].
Qed.

Lemma module_level_load_dependant (t : DepsTree.t) (name : string) :
  P t -> P (DepsTree.load_dependant t name).
Proof.
  intros H. unfold DepsTree.load_dependant.
  match goal with |- context [DepsTree.update ?n ?f t] =>
    assert (H1 : P (DepsTree.update n f t))
      by (apply ml_update; [intros m; reflexivity | exact H])
  end.
  destruct (DepsTree.find name _) as [m|]; [|exact H1].
  destruct (_ =? _); [|exact H1]. now apply module_level_initModule.
Qed.

Lemma module_level_init_module_if_ready (t : DepsTree.t) (name : string) :
  P t -> P (DepsTree.init_module_if_ready t name).
Proof.
  intros H. unfold DepsTree.init_module_if_ready.
  destruct (DepsTree.find name t) as [m|]; [|exact H].
  destruct (Mod.needed m); [|exact H].
  assert (H1 : P (DepsTree.with_modulesToLoad (DepsTree._modulesToLoad t + 1) t))
    by now apply ml_modulesToLoad.
  destruct (_ =? _); [|exact H1]. now apply module_level_initModule.
Qed.

Lemma module_level_loops (l : list string) (t : DepsTree.t) :
  P t ->
  P (fold_left DepsTree.deinit_module_if_free l t) /\
  P (fold_left DepsTree.unload_dependency l t) /\
  P (fold_left DepsTree.count_dependant l t) /\
  P (fold_left DepsTree.load_dependant l t) /\
  P (fold_left DepsTree.init_module_if_ready l t).
Proof.
  intros H. splits; try (now apply (unload_level_loops _ module_level_unload));
    apply fold_left_inv; auto; intros a x _ Ha.
  - now apply module_level_count_dependant.
  - now apply module_level_load_dependant.
  - now apply module_level_init_module_if_ready.
Qed.

Lemma module_level_init_callback (t : DepsTree.t) :
  P t -> P (DepsTree.init_callback t).
Proof. intros H. unfold DepsTree.init_callback. now apply module_level_loops. Qed.

End ModuleLevel.

(** ** What every turn keeps *)

Section TreeLevel.

Variable P : DepsTree.t -> Prop.
Hypothesis HP : tree_level P.

Lemma tree_level_module : module_level P.
Proof. apply HP. Qed.

Lemma tl_data (name : string) (v : value) (t : DepsTree.t) :
  P t ->
  P (DepsTree.update name
       (fun module => Mod.with_data (js_or (Mod.data module) v) module) t).
Proof. apply HP. Qed.

Lemma tl_error (name : string) (e : option Error) (t : DepsTree.t) :
  P t -> P (DepsTree.update name (Mod.with_error e) t).
Proof. apply HP. Qed.

Lemma tl_record (e : Event) (t : DepsTree.t) :
  state_event_assigned e -> P t -> P (DepsTree.record e t).
Proof. apply HP. Qed.

Lemma tl_state (st : State.t) (t : DepsTree.t) :
  assigned_state st -> P t -> P (DepsTree.with_state st t).
Proof. apply HP. Qed.

Lemma tl_errors (l : list Error) (t : DepsTree.t) :
  P t -> P (DepsTree.with_errors l t).
Proof. apply HP. Qed.

Lemma tl_deinitDefer (d : option Deferred) (t : DepsTree.t) :
  P t -> P (DepsTree.with_deinitDefer d t).
Proof. apply HP. Qed.

Lemma tl_defers (n : nat) (t : DepsTree.t) :
  P t -> P (DepsTree.with_defers n t).
Proof. apply HP. Qed.

Lemma tl_resolve (t : DepsTree.t) :
  P t -> P (DepsTree.with_initDefer (DepsTree.resolve (DepsTree._initDefer t)) t).
Proof. apply HP. Qed.

Lemma tl_initCallback (t : DepsTree.t) :
  P t -> P (DepsTree.with_initCallback false t).
Proof. apply HP. Qed.

Lemma tl_errorListeners (t : DepsTree.t) :
  P t -> P (DepsTree.with_errorListeners true t).
Proof. apply HP. Qed.

Lemma tl_changeState (st : State.t) (t : DepsTree.t) :
  assigned_state st -> P t -> P (DepsTree._changeState st t).
Proof.
  intros Hst H. unfold DepsTree._changeState.
  apply tl_record; [exact Hst|]. now apply tl_state.
Qed.

Lemma tree_level_deinit (t : DepsTree.t) :
  P t -> P (snd (DepsTree.deinit t)).
Proof.
  intros H. unfold DepsTree.deinit.
  destruct (DepsTree.state t) eqn:E; cbn [snd DepsTree.defer]; auto;
    try (apply tl_changeState; [unfold assigned_state; tauto | exact H]);
    apply (module_level_loops _ tree_level_module);
    apply tl_deinitDefer; apply tl_defers;
    (apply tl_changeState; [unfold assigned_state; tauto | exact H]).
Qed.

Lemma tree_level_error (err : Error) (name : option string) (t : DepsTree.t) :
  P t -> P (DepsTree._error err name t).
Proof.
  intros H. unfold DepsTree._error. apply tree_level_deinit.
  apply tl_errors.
  destruct (DepsTree.errorListeners t); apply tl_record; auto; exact I.
Qed.

Lemma tree_level_moduleInited (name : string) (t : DepsTree.t) :
  P t -> P (DepsTree._moduleInited name t).
Proof.
  intros H. unfold DepsTree._moduleInited.
  destruct (DepsTree.state t) eqn:E;
    try (apply tl_record; [exact I | exact H]);
    [|now apply (module_level_deinitModule _ tree_level_module)].
  match goal with |- context [fold_left DepsTree.count_dependant ?l ?a] =>
    assert (H1 : P (fold_left DepsTree.count_dependant l a))
      by (apply (module_level_loops _ tree_level_module);
          now apply (module_level_changeModuleState _ tree_level_module));
    set (t1 := fold_left DepsTree.count_dependant l a) in *
  end.
  assert (H2 : P (DepsTree.with_modulesToLoad (DepsTree._modulesToLoad t1 - 1) t1))
    by now apply (ml_modulesToLoad _ tree_level_module).
  cbv zeta.
  destruct (_ =? 0).
  - apply tl_record; [exact I|].
    apply tl_changeState; [unfold assigned_state; tauto|].
    now apply tl_resolve.
  - now apply (module_level_loops _ tree_level_module).
Qed.

Lemma tree_level_initModule_resume (name : string) (outcome : value + Error)
  (t : DepsTree.t) :
  P t -> P (DepsTree._initModule_resume name outcome t).
Proof.
  intros H. unfold DepsTree._initModule_resume. destruct outcome as [v|err].
  - apply tree_level_moduleInited. now apply tl_data.
  - apply tree_level_error. apply tl_error.
    apply (module_level_changeModuleState _ tree_level_module).
    now apply (ml_modulesToUnload _ tree_level_module).
Qed.

Lemma tree_level_deinitModule_resume (name : string) (outcome : option Error)
  (t : DepsTree.t) :
  P t -> P (DepsTree._deinitModule_resume name outcome t).
Proof.
  intros H. unfold DepsTree._deinitModule_resume.
  match goal with |- context [DepsTree.with_modulesToUnload _ ?a] =>
    assert (H1 : P a);
    [|set (t1 := a) in *]
  end.
  { destruct outcome as [err|].
    - apply tree_level_error. apply tl_error.
      now apply (module_level_changeModuleState _ tree_level_module).
    - now apply (module_level_changeModuleState _ tree_level_module). }
  assert (H2 : P (DepsTree.with_modulesToUnload
                    (DepsTree._modulesToUnload t1 - 1) t1))
    by now apply (ml_modulesToUnload _ tree_level_module).
  cbv zeta.
  destruct (_ <=? 0).
  - apply tl_record; [exact I|].
    apply tl_changeState; [unfold assigned_state; tauto|].
    now apply tl_deinitDefer.
  - now apply (module_level_loops _ tree_level_module).
Qed.

(** A tree-level property that [init()] keeps is kept by every turn. *)
Lemma tree_level_step (a : Action) (t t' : DepsTree.t) :
  (forall t, P t -> P (snd (DepsTree.init t))) ->
  step a t = Some t' -> P t -> P t'.
Proof.
  intros Hinit.
  destruct a as [| | | |name outcome|name outcome]; simpl.
  - intros [= <-]. apply Hinit.
  - intros [= <-]. apply tree_level_deinit.
  - intros [= <-]. apply tl_errorListeners.
  - destruct (DepsTree.initCallback t); [|discriminate].
    intros [= <-] H. apply (module_level_init_callback _ tree_level_module).
    now apply tl_initCallback.
  - destruct (mem name _); [|discriminate].
    intros [= <-] H. apply tree_level_initModule_resume.
    apply tl_record; [now destruct outcome|].
    now apply (ml_pendingInit _ tree_level_module).
  - destruct (_ && _); [|discriminate].
    intros [= <-] H. apply tree_level_deinitModule_resume.
    apply tl_record; [now destruct outcome|].
    now apply (ml_pendingDeinit _ tree_level_module).
Qed.

End TreeLevel.

Lemma run_inv (P : DepsTree.t -> Prop) :
  (forall a t t', step a t = Some t' -> P t -> P t') ->
  forall actions t t', run actions t = Some t' -> P t -> P t'.
Proof.
  intros Hstep. induction actions as [|a actions IH]; intros t t'; simpl.
  - now intros [= <-].
  - destruct (step a t) as [t1|] eqn:E; [|discriminate].
    intros Hrun Ht. apply (IH t1 t' Hrun). now apply (Hstep a t).
Qed.

(** ** The tree state is never [error] *)

Lemma never_error_tree_level : tree_level never_error.
Proof.
  unfold tree_level, module_level, unload_level, never_error.
  splits; intros; simpl; try tauto;
    repeat match goal with H : _ /\ _ |- _ => destruct H end;
    (split; [solve [auto]|]); try assumption; constructor; simpl; auto.
Qed.

Lemma never_error_init (t : DepsTree.t) :
  never_error t -> never_error (snd (DepsTree.init t)).
Proof.
  intros H. unfold DepsTree.init.
  destruct (DepsTree.state t) eqn:E; simpl; auto.
  destruct H as [_ H]. split; simpl; [unfold assigned_state; tauto|].
  constructor; simpl; unfold assigned_state; auto.
Qed.

Lemma never_error_step (a : Action) (t t' : DepsTree.t) :
  step a t = Some t' -> never_error t -> never_error t'.
Proof.
  apply (tree_level_step _ never_error_tree_level), never_error_init.
Qed.

(** C10.  The tree state never takes the value [error]: in every tree the
    program can reach the state is [off], [initializing], [up],
    [deinitializing] or [down], every state that was ever assigned (and
    announced by a ['state'] notification) is one of the last four, and so
    [deinit()] never takes its [error] branch. *)
Theorem tree_state_never_error
  (descriptions : list (string * ModuleDescription)) (t : DepsTree.t) :
  reachable descriptions t ->
  DepsTree.state t <> State.error /\
  (forall st, In (Emit_state st) (DepsTree.trace t) -> assigned_state st) /\
  (DepsTree.state t = State.off \/ assigned_state (DepsTree.state t)).
Proof.
  intros (actions & Hrun). unfold started in Hrun.
  destruct (DepsTree.constructor descriptions) as [t0| |] eqn:Ec;
    try discriminate.
  apply constructor_Normal in Ec as (_ & Hst & _ & _ & _ & _ & _ & _ & _ & Htr).
  assert (H0 : never_error t0).
  { split; [now left|]. rewrite Htr. constructor. }
  pose proof (run_inv never_error never_error_step actions t0 t Hrun H0)
    as [H1 H2].
  splits; auto.
  - unfold assigned_state in H1. intros E. rewrite E in H1.
    intuition discriminate.
  - intros st Hin. rewrite Forall_forall in H2. apply (H2 _ Hin).
Qed.

Lemma tree_state_never_error_witness :
  exists t,
    reachable diamond t /\
    DepsTree.state t <> State.error /\
    (forall st, In (Emit_state st) (DepsTree.trace t) -> assigned_state st) /\
    (DepsTree.state t = State.off \/ assigned_state (DepsTree.state t)).
Proof.
  destruct (started diamond
              [call_init; run_init_callback;
               init_settles "A" (inr (OperationError "boom"))])
    as [t|] eqn:E; [|vm_compute in E; discriminate].
  assert (Hr : reachable diamond t) by (eexists; exact E).
  exists t. split; [exact Hr|].
  exact (tree_state_never_error diamond t Hr).
Defined.

(** ** What the loops leave alone *)

Lemma control_module_level
  (c : State.t * list Error * option Deferred * option Deferred * bool * nat
       * bool) :
  module_level (fun t => control t = c).
Proof. unfold module_level, unload_level. splits; intros; assumption. Qed.


Lemma extends_record (t0 t : DepsTree.t) (e : Event) :
  extends t0 t -> extends t0 (DepsTree.record e t).
Proof.
  intros (events & H). exists (e :: events). unfold fired in *. simpl.
  now rewrite H.
Qed.

Lemma extends_same (t0 t t' : DepsTree.t) :
  DepsTree.trace t' = DepsTree.trace t -> extends t0 t -> extends t0 t'.
Proof. intros E (events & H). exists events. unfold fired in *. congruence. Qed.

Lemma extends_trans (a b c : DepsTree.t) :
  extends a b -> extends b c -> extends a c.
Proof.
  intros (e1 & H1) (e2 & H2). exists (e2 ++ e1)%list. unfold fired in *.
  rewrite H2, H1. now rewrite app_assoc.
Qed.

Lemma extends_module_level (t0 : DepsTree.t) : module_level (extends t0).
Proof.
  unfold module_level, unload_level. splits; intros;
    try (eapply extends_same; [|eassumption]; reflexivity);
    try (apply extends_record; assumption).
Qed.

(** The loops of the shutdown leave the state of the tree alone. *)
Lemma state_loops (l : list string) (t : DepsTree.t) :
  DepsTree.state (fold_left DepsTree.deinit_module_if_free l t)
  = DepsTree.state t /\
  DepsTree.state (fold_left DepsTree.unload_dependency l t)
  = DepsTree.state t /\
  DepsTree.state (fold_left DepsTree.count_dependant l t)
  = DepsTree.state t /\
  DepsTree.state (fold_left DepsTree.load_dependant l t)
  = DepsTree.state t /\
  DepsTree.state (fold_left DepsTree.init_module_if_ready l t)
  = DepsTree.state t.
Proof.
  pose proof (control_module_level (control t)) as HM.
  pose proof (module_level_loops _ HM l t eq_refl) as (H1 & H2 & H3 & H4 & H5).
  unfold control in *.
  splits; congruence.
Qed.

(** [deinit()] on a tree that is shutting down returns a promise and does
    nothing else. *)
Lemma deinit_shutting_down (t : DepsTree.t) :
  shutting_down t -> snd (DepsTree.deinit t) = t.
Proof. intros [E|E]; unfold DepsTree.deinit; now rewrite E. Qed.

Lemma shutting_down_deinit (t : DepsTree.t) :
  DepsTree.state t <> State.error -> shutting_down (snd (DepsTree.deinit t)).
Proof.
  intros Hne. unfold DepsTree.deinit, shutting_down.
  destruct (DepsTree.state t) eqn:E; cbn [snd DepsTree.defer];
    try (simpl; tauto); try contradiction.
  all: left; now rewrite (proj1 (state_loops _ _)).
Qed.

(** The loops of the start-up leave alone what is in flight for [deinit]. *)
Lemma pendingDeinit_initModule (name : string) (t : DepsTree.t) :
  DepsTree.pendingDeinit (DepsTree._initModule name t)
  = DepsTree.pendingDeinit t.
Proof. reflexivity. Qed.

Lemma pendingDeinit_init_loops (l : list string) (t : DepsTree.t) :
  DepsTree.pendingDeinit (fold_left DepsTree.count_dependant l t)
  = DepsTree.pendingDeinit t /\
  DepsTree.pendingDeinit (fold_left DepsTree.load_dependant l t)
  = DepsTree.pendingDeinit t /\
  DepsTree.pendingDeinit (fold_left DepsTree.init_module_if_ready l t)
  = DepsTree.pendingDeinit t.
Proof.
  splits;
    apply (fold_left_inv _
             (fun a => DepsTree.pendingDeinit a = DepsTree.pendingDeinit t));
    auto; intros a x _ <-.
  - unfold DepsTree.load_dependant.
    destruct (DepsTree.find x _); [|reflexivity].
    now destruct (_ =? _).
  - unfold DepsTree.init_module_if_ready.
    destruct (DepsTree.find x a) as [m|]; [|reflexivity].
    destruct (Mod.needed m); [|reflexivity].
    now destruct (_ =? _).
Qed.

Lemma pendingDeinit_moduleInited (name : string) (t : DepsTree.t) :
  DepsTree.state t = State.initializing ->
  DepsTree.pendingDeinit (DepsTree._moduleInited name t)
  = DepsTree.pendingDeinit t.
Proof.
  intros E. unfold DepsTree._moduleInited. rewrite E. cbv zeta.
  match goal with |- context [fold_left DepsTree.count_dependant ?l ?a] =>
    assert (H1 : DepsTree.pendingDeinit (fold_left DepsTree.count_dependant l a)
                 = DepsTree.pendingDeinit t)
      by (rewrite (proj1 (pendingDeinit_init_loops _ _)); reflexivity);
    set (t1 := fold_left DepsTree.count_dependant l a) in *
  end.
  destruct (_ =? 0).
  - exact H1.
  - rewrite (proj1 (proj2 (pendingDeinit_init_loops _ _))). exact H1.
Qed.

(** ** Once shutting down, always shutting down *)

Lemma shutting_down_moduleInited (name : string) (t : DepsTree.t) :
  shutting_down t -> shutting_down (DepsTree._moduleInited name t).
Proof.
  intros [E|E]; unfold DepsTree._moduleInited; rewrite E;
    [left | right]; exact E.
Qed.

Lemma state_deinitModule_resume (name : string) (outcome : option Error)
  (t : DepsTree.t) :
  shutting_down t ->
  shutting_down (DepsTree._deinitModule_resume name outcome t).
Proof.
  intros H. unfold DepsTree._deinitModule_resume.
  match goal with |- context [DepsTree.with_modulesToUnload _ ?a] =>
    assert (H1 : shutting_down a); [|set (t1 := a) in *]
  end.
  { destruct outcome as [err|]; [|exact H].
    unfold DepsTree._error.
    rewrite deinit_shutting_down; destruct (DepsTree.errorListeners _);
      exact H. }
  cbv zeta. destruct (_ <=? 0).
  - now right.
  - unfold shutting_down. rewrite (proj1 (proj2 (state_loops _ _))).
    exact H1.
Qed.

Lemma shutting_down_step (a : Action) (t t' : DepsTree.t) :
  step a t = Some t' -> shutting_down t -> shutting_down t'.
Proof.
  intros Hstep H.
  destruct a as [| | | |name outcome|name outcome]; simpl in Hstep.
  - injection Hstep as <-. unfold DepsTree.init.
    destruct H as [E|E]; rewrite E; [left | right]; exact E.
  - injection Hstep as <-. now rewrite deinit_shutting_down.
  - injection Hstep as <-. exact H.
  - destruct (DepsTree.initCallback t); [|discriminate].
    injection Hstep as <-. unfold shutting_down, DepsTree.init_callback.
    rewrite (proj2 (proj2 (proj2 (proj2 (state_loops _ _))))). exact H.
  - destruct (mem name _); [|discriminate]. injection Hstep as <-.
    unfold DepsTree._initModule_resume. destruct outcome as [v|err].
    + apply shutting_down_moduleInited. exact H.
    + unfold DepsTree._error.
      rewrite deinit_shutting_down; destruct (DepsTree.errorListeners _);
        exact H.
  - destruct (_ && _); [|discriminate]. injection Hstep as <-.
    apply state_deinitModule_resume. exact H.
Qed.

Lemma deinit_in_shutdown_step (a : Action) (t t' : DepsTree.t) :
  DepsTree.state t <> State.error ->
  step a t = Some t' -> deinit_in_shutdown t -> deinit_in_shutdown t'.
Proof.
  intros Hne Hstep [Hp|Hs]; [|right; now apply (shutting_down_step a t)].
  destruct a as [| | | |name outcome|name outcome]; simpl in Hstep.
  - injection Hstep as <-. left. unfold DepsTree.init.
    destruct (DepsTree.state t); exact Hp.
  - injection Hstep as <-. right. now apply shutting_down_deinit.
  - injection Hstep as <-. left. exact Hp.
  - destruct (DepsTree.initCallback t); [|discriminate].
    injection Hstep as <-. left. unfold DepsTree.init_callback.
    rewrite (proj2 (proj2 (pendingDeinit_init_loops _ _))). exact Hp.
  - destruct (mem name _); [|discriminate]. injection Hstep as <-.
    unfold DepsTree._initModule_resume. destruct outcome as [v|err].
    + destruct (State.eqb (DepsTree.state t) State.initializing) eqn:E.
      * left. rewrite pendingDeinit_moduleInited; [exact Hp|].
        simpl. now destruct (DepsTree.state t).
      * unfold DepsTree._moduleInited.
        cbn [DepsTree.state DepsTree.update DepsTree.record
             DepsTree.with_trace DepsTree.with_modules
             DepsTree.with_pendingInit].
        destruct (DepsTree.state t) eqn:E'; try discriminate;
          try (left; exact Hp).
        right. left. exact E'.
    + right. unfold DepsTree._error. apply shutting_down_deinit.
      destruct (DepsTree.errorListeners _); exact Hne.
  - rewrite Hp in Hstep. discriminate.
Qed.


(** ** The state table of [init()] *)

Lemma init_handle_tree_level (h : nat) : tree_level (init_handle h).
Proof.
  unfold tree_level, module_level, unload_level, init_handle.
  splits; intros; simpl; try tauto.
  - match goal with H : assigned_state _ |- _ =>
      unfold assigned_state in H
    end.
    split; [|tauto]. intros E. subst. intuition discriminate.
  - match goal with t : DepsTree.t |- _ =>
      destruct (DepsTree._initDefer t); simpl in *; tauto
    end.
Qed.

Lemma init_handle_init (h : nat) (t : DepsTree.t) :
  init_handle h t -> init_handle h (snd (DepsTree.init t)).
Proof.
  intros [Hs Hd]. unfold DepsTree.init.
  destruct (DepsTree.state t) eqn:E; simpl; try (split; congruence).
Qed.

Lemma init_handle_run (h : nat) (actions : list Action) (t t' : DepsTree.t) :
  run actions t = Some t' -> init_handle h t -> init_handle h t'.
Proof.
  apply run_inv. intros a t1 t2.
  apply (tree_level_step _ (init_handle_tree_level h)), init_handle_init.
Qed.

(** C3.  [init()] follows the tree state table.  On a tree that is [off] it
    makes the tree [initializing] and returns the promise of a new
    [defer()], still pending.  On a tree that is [up] it returns an already
    resolved promise.  On a tree that is [deinitializing], [down] or [error]
    it throws and leaves the tree as it is.  And when a call on an [off] tree
    has returned a promise, every later call that finds the tree
    [initializing] returns that same promise and changes nothing. *)
Theorem init_state_table :
  (forall t,
     DepsTree.state t = State.off ->
     exists t',
       DepsTree.init t = (Normal (DeferredPromise (DepsTree.defers t)), t') /\
       DepsTree.state t' = State.initializing /\
       DepsTree._initDefer t'
       = Some {| promise := DepsTree.defers t; resolved := false |}) /\
  (forall t,
     DepsTree.state t = State.up ->
     DepsTree.init t = (Normal ResolvedPromise, t)) /\
  (forall t,
     DepsTree.state t = State.deinitializing \/
     DepsTree.state t = State.down \/ DepsTree.state t = State.error ->
     DepsTree.init t = (Throw InvalidStateError, t)) /\
  (forall t0 p t1 actions t,
     DepsTree.state t0 = State.off ->
     DepsTree.init t0 = (Normal p, t1) ->
     run actions t1 = Some t ->
     DepsTree.state t = State.initializing ->
     DepsTree.init t = (Normal p, t)).
Proof.
  splits.
  - intros t E. unfold DepsTree.init. rewrite E. simpl. eauto.
  - intros t E. unfold DepsTree.init. now rewrite E.
  - intros t [E|[E|E]]; unfold DepsTree.init; now rewrite E.
  - intros t0 p t1 actions t E0 Hinit Hrun E.
    unfold DepsTree.init in Hinit. rewrite E0 in Hinit. simpl in Hinit.
    injection Hinit as <- <-.
    assert (H1 : init_handle (DepsTree.defers t0)
                   (DepsTree.with_initCallback true
                      (DepsTree.with_modulesToLoad 0
                         (DepsTree.with_initDefer
                            (Some {| promise := DepsTree.defers t0;
                                     resolved := false |})
                            (DepsTree.with_defers (S (DepsTree.defers t0))
                               (DepsTree._changeState State.initializing t0)))))).
    { split; simpl; [discriminate | reflexivity]. }
    destruct (init_handle_run _ _ _ _ Hrun H1) as [_ Hd].
    unfold DepsTree.init. rewrite E.
    destruct (DepsTree._initDefer t) as [d|]; simpl in *; [|discriminate].
    now injection Hd as ->.
Qed.

Lemma init_state_table_witness :
  exists t0 p t1 t,
    DepsTree.state t0 = State.off /\
    DepsTree.init t0 = (Normal p, t1) /\
    run [run_init_callback; init_settles "A" (inl (VNumber 1)); on_error] t1
    = Some t /\
    DepsTree.state t = State.initializing /\
    DepsTree.init t = (Normal p, t).
Proof.
  destruct (DepsTree.constructor diamond) as [t0| |] eqn:E0;
    try (vm_compute in E0; discriminate).
  assert (Hoff : DepsTree.state t0 = State.off)
    by (vm_compute in E0; injection E0 as <-; reflexivity).
  destruct (DepsTree.init t0) as [[p| |] t1] eqn:E1;
    try (vm_compute in E0; injection E0 as <-; vm_compute in E1; discriminate).
  destruct (run [run_init_callback; init_settles "A" (inl (VNumber 1)); on_error]
              t1) as [t|] eqn:E2.
  2:{ vm_compute in E0; injection E0 as <-. vm_compute in E1.
      injection E1 as <- <-. vm_compute in E2. discriminate. }
  assert (Hst : DepsTree.state t = State.initializing).
  { vm_compute in E0; injection E0 as <-. vm_compute in E1.
    injection E1 as <- <-. vm_compute in E2. injection E2 as <-.
    reflexivity. }
  exists t0, p, t1, t. splits; auto.
  destruct init_state_table as (_ & _ & _ & H).
  exact (H t0 p t1 _ t Hoff E1 E2 Hst).
Defined.

(** ** Notifications *)

Lemma told_refl (t : DepsTree.t) : told t t.
Proof.
  exists []. unfold fired, started_fired, stopped_fired, module_states_fired.
  splits; auto; intros; congruence.
Qed.

Lemma told_trans (a b c : DepsTree.t) : told a b -> told b c -> told a c.
Proof.
  intros (e1 & F1 & U1 & D1 & M1 & O1) (e2 & F2 & U2 & D2 & M2 & O2).
  exists (e2 ++ e1)%list.
  unfold fired, started_fired, stopped_fired, module_states_fired in *.
  splits.
  - rewrite F2, F1. now rewrite app_assoc.
  - intros Ha Hc. apply in_or_app.
    destruct (State.eqb (DepsTree.state b) State.up) eqn:E.
    + right. apply U1; auto. now destruct (DepsTree.state b).
    + left. apply U2; auto. intros Hb. now rewrite Hb in E.
  - intros Hoff Ha Hc. apply in_or_app.
    destruct (State.eqb (DepsTree.state b) State.down) eqn:E.
    + right. apply D1; auto. now destruct (DepsTree.state b).
    + left. apply D2;
        [intros Hb; apply Hoff, O1, Hb | intros Hb; now rewrite Hb in E
        | exact Hc].
  - intros name st Hc Ha. apply in_or_app.
    destruct (mstate name b) as [sb|] eqn:Eb.
    + destruct (State.eqb sb st) eqn:E.
      * right. apply M1; auto. rewrite Eb. f_equal.
        now destruct sb, st.
      * left. apply M2; auto. rewrite Eb. intros [= ->].
        now destruct st.
    + left. apply M2; auto. now rewrite Eb.
  - auto.
Qed.

(** A change that touches neither the tree state nor the state of a module
    has nothing to announce. *)
Lemma told_silent (t t' : DepsTree.t) (events : list Event) :
  DepsTree.trace t' = (events ++ DepsTree.trace t)%list ->
  DepsTree.state t' = DepsTree.state t ->
  (forall name, mstate name t' = mstate name t) ->
  told t t'.
Proof.
  intros Ht Hs Hm. exists events.
  unfold fired, started_fired, stopped_fired, module_states_fired.
  splits; auto; try congruence;
    try (intros name st; rewrite Hm; congruence).
Qed.

Lemma mstate_update (name other : string) (f : Mod.t -> Mod.t)
  (t : DepsTree.t) :
  (forall m, Mod.state (f m) = Mod.state m) ->
  mstate other (DepsTree.update name f t) = mstate other t.
Proof.
  intros Hf. unfold mstate, DepsTree.find, DepsTree.update. simpl.
  rewrite find_update. destruct (other =? name)%string; [|reflexivity].
  destruct (find_module other (DepsTree.modules t)); simpl; [|reflexivity].
  now rewrite Hf.
Qed.

Lemma mstate_changeModuleState (name other : string) (st : State.t)
  (t : DepsTree.t) :
  mstate other (DepsTree._changeModuleState name st t)
  = if (other =? name)%string
    then option_map (fun _ => st) (mstate other t)
    else mstate other t.
Proof.
  unfold mstate, DepsTree.find, DepsTree._changeModuleState, DepsTree.update.
  simpl. rewrite find_update. destruct (other =? name)%string; [|reflexivity].
  now destruct (find_module other (DepsTree.modules t)).
Qed.

Lemma told_changeModuleState (name : string) (st : State.t) (t : DepsTree.t) :
  told t (DepsTree._changeModuleState name st t).
Proof.
  exists [Emit_module_state name st].
  unfold fired, started_fired, stopped_fired, module_states_fired.
  splits; auto; try (simpl; congruence).
  intros other st'. rewrite mstate_changeModuleState.
  destruct (String.eqb_spec other name) as [->|Hne]; [|congruence].
  destruct (mstate name t); simpl; [|discriminate].
  intros [= <-] _. now left.
Qed.

Lemma told_module_level (t0 : DepsTree.t) : module_level (told t0).
Proof.
  unfold module_level, unload_level. splits; intros; (eapply told_trans; [eassumption|]);
    try apply told_changeModuleState;
    try (eapply told_silent with (events := []); [reflexivity..|];
         intros; try reflexivity; apply mstate_update;
         intros; now apply counters_only_state);
    (eapply told_silent with (events := [_]); reflexivity).
Qed.

(** An assignment of the tree state to [initializing] or [deinitializing]. *)
Lemma told_changeState (st : State.t) (t : DepsTree.t) :
  st = State.initializing \/ st = State.deinitializing ->
  told t (DepsTree._changeState st t).
Proof.
  intros Hst. exists [Emit_state st].
  unfold fired, started_fired, stopped_fired, module_states_fired, mstate,
    DepsTree.find.
  splits; auto; simpl; intros; subst;
    try (destruct Hst; congruence); try congruence.
Qed.

(** The three ways the tree state is set to [up] or [down]. *)
Lemma told_up (t : DepsTree.t) :
  told t (DepsTree.record Emit_started
            (DepsTree._changeState State.up
               (DepsTree.with_initDefer
                  (DepsTree.resolve (DepsTree._initDefer t)) t))).
Proof.
  exists [Emit_started; Emit_state State.up].
  unfold fired, started_fired, stopped_fired, module_states_fired, mstate,
    DepsTree.find.
  splits; auto; simpl; intros; auto; congruence.
Qed.

Lemma told_down (t : DepsTree.t) :
  told t (DepsTree.record Emit_stopped
            (DepsTree._changeState State.down
               (DepsTree.with_deinitDefer
                  (DepsTree.resolve (DepsTree._deinitDefer t)) t))).
Proof.
  exists [Emit_stopped; Emit_state State.down].
  unfold fired, started_fired, stopped_fired, module_states_fired, mstate,
    DepsTree.find.
  splits; auto; simpl; intros; auto; congruence.
Qed.

Lemma told_down_from_off (t : DepsTree.t) :
  DepsTree.state t = State.off ->
  told t (DepsTree._changeState State.down t).
Proof.
  intros E. exists [Emit_state State.down].
  unfold fired, started_fired, stopped_fired, module_states_fired, mstate,
    DepsTree.find.
  splits; auto; simpl; intros; auto; congruence.
Qed.

Lemma told_deinit (t : DepsTree.t) : told t (snd (DepsTree.deinit t)).
Proof.
  unfold DepsTree.deinit.
  destruct (DepsTree.state t) eqn:E; cbn [snd DepsTree.defer];
    try apply told_refl; try now apply told_down_from_off.
  all: apply (module_level_loops _ (told_module_level t));
    (eapply told_trans; [apply (told_changeState State.deinitializing); tauto|]);
    eapply told_silent with (events := []); reflexivity.
Qed.

Lemma told_error (err : Error) (name : option string) (t : DepsTree.t) :
  told t (DepsTree._error err name t).
Proof.
  unfold DepsTree._error. eapply told_trans; [|apply told_deinit].
  destruct (DepsTree.errorListeners t);
    eapply told_silent with (events := [_]); reflexivity.
Qed.

Lemma told_moduleInited (name : string) (t : DepsTree.t) :
  told t (DepsTree._moduleInited name t).
Proof.
  pose proof (told_module_level t) as HM.
  unfold DepsTree._moduleInited.
  destruct (DepsTree.state t) eqn:E;
    try (eapply told_silent with (events := [_]); reflexivity);
    [|apply (module_level_deinitModule _ HM), told_refl].
  match goal with |- context [fold_left DepsTree.count_dependant ?l ?a] =>
    assert (H1 : told t (fold_left DepsTree.count_dependant l a))
      by (apply (module_level_loops _ HM);
          apply (module_level_changeModuleState _ HM), told_refl);
    set (t1 := fold_left DepsTree.count_dependant l a) in *
  end.
  assert (H2 : told t (DepsTree.with_modulesToLoad
                         (DepsTree._modulesToLoad t1 - 1) t1))
    by now apply (ml_modulesToLoad _ HM).
  cbv zeta.
  destruct (_ =? 0).
  - eapply told_trans; [exact H2|]. apply told_up.
  - now apply (module_level_loops _ HM).
Qed.

Lemma told_initModule_resume (name : string) (outcome : value + Error)
  (t : DepsTree.t) :
  told t (DepsTree._initModule_resume name outcome t).
Proof.
  pose proof (told_module_level t) as HM.
  unfold DepsTree._initModule_resume. destruct outcome as [v|err].
  - eapply told_trans; [|apply told_moduleInited].
    eapply told_silent with (events := []); [reflexivity..|].
    intros. now apply mstate_update.
  - eapply told_trans; [|apply told_error].
    eapply told_trans;
      [|eapply told_silent with (events := []); [reflexivity..|];
        intros; now apply mstate_update].
    apply (module_level_changeModuleState _ HM).
    apply (ml_modulesToUnload _ HM), told_refl.
Qed.

Lemma told_deinitModule_resume (name : string) (outcome : option Error)
  (t : DepsTree.t) :
  told t (DepsTree._deinitModule_resume name outcome t).
Proof.
  pose proof (told_module_level t) as HM.
  unfold DepsTree._deinitModule_resume.
  match goal with |- context [DepsTree.with_modulesToUnload _ ?a] =>
    assert (H1 : told t a);
    [|set (t1 := a) in *]
  end.
  { destruct outcome as [err|].
    - eapply told_trans; [|apply told_error].
      eapply told_trans;
        [|eapply told_silent with (events := []); [reflexivity..|];
          intros; now apply mstate_update].
      apply (module_level_changeModuleState _ HM), told_refl.
    - apply (module_level_changeModuleState _ HM), told_refl. }
  assert (H2 : told t (DepsTree.with_modulesToUnload
                         (DepsTree._modulesToUnload t1 - 1) t1))
    by now apply (ml_modulesToUnload _ HM).
  cbv zeta.
  destruct (_ <=? 0).
  - eapply told_trans; [exact H2|]. apply told_down.
  - now apply (module_level_loops _ HM).
Qed.

Lemma told_init (t : DepsTree.t) : told t (snd (DepsTree.init t)).
Proof.
  unfold DepsTree.init.
  destruct (DepsTree.state t) eqn:E; cbn [snd DepsTree.defer];
    try apply told_refl.
  eapply told_trans; [apply (told_changeState State.initializing); tauto|].
  eapply told_silent with (events := []); reflexivity.
Qed.

(** The claim as it was made fails on a tree that was never started:
    [deinit()] moves it from [off] to [down] and fires no ['stopped']. *)
Lemma stopped_not_fired_from_off :
  exists t t',
    started [("a", module_ [] true)] [] = Some t /\
    step call_deinit t = Some t' /\
    DepsTree.state t = State.off /\ DepsTree.state t' = State.down /\
    ~ announced t t'.
Proof.
  eexists. eexists. split; [vm_compute; reflexivity|].
  split; [vm_compute; reflexivity|].
  split; [reflexivity|]. split; [reflexivity|].
  intros (events & F & _ & D & _).
  unfold fired in F. simpl in F. rewrite app_nil_r in F. subst events.
  unfold stopped_fired in D. simpl in D.
  destruct D as [D|[]]; [discriminate | reflexivity | discriminate].
Qed.

(** C6, as amended.  Every transition of the tree state to [up] fires a
    ['started'] notification; every transition of the tree state to [down]
    from a state other than [off] fires a ['stopped'] notification; and
    every change of the state of a module fires a ['module-state']
    notification that carries the name of the module and its new state.
    [deinit()] on a tree that is [off] moves it to [down] and fires the
    ['state'] notification only. *)
Theorem notifications_fired (a : Action) (t t' : DepsTree.t) :
  step a t = Some t' ->
  told t t' /\
  (a = call_deinit -> DepsTree.state t = State.off ->
   DepsTree.state t' = State.down /\
   DepsTree.trace t' = Emit_state State.down :: DepsTree.trace t).
Proof.
  intros Hstep. split.
  - pose proof (told_module_level t) as HM.
    destruct a as [| | | |name outcome|name outcome]; simpl in Hstep.
    + injection Hstep as <-. apply told_init.
    + injection Hstep as <-. apply told_deinit.
    + injection Hstep as <-.
      eapply told_silent with (events := []); reflexivity.
    + destruct (DepsTree.initCallback t); [|discriminate].
      injection Hstep as <-. apply (module_level_init_callback _ HM).
      eapply told_silent with (events := []); reflexivity.
    + destruct (mem name _); [|discriminate]. injection Hstep as <-.
      eapply told_trans; [|apply told_initModule_resume].
      eapply told_silent with (events := [_]); reflexivity.
    + destruct (_ && _); [|discriminate]. injection Hstep as <-.
      eapply told_trans; [|apply told_deinitModule_resume].
      eapply told_silent with (events := [_]); reflexivity.
  - intros -> E. simpl in Hstep. injection Hstep as <-.
    unfold DepsTree.deinit. rewrite E. simpl. auto.
Qed.

Lemma notifications_fired_witness :
  exists t t',
    step (init_settles "D" (inl (VNumber 4))) t = Some t' /\
    told t t' /\
    (init_settles "D" (inl (VNumber 4)) = call_deinit ->
     DepsTree.state t = State.off ->
     DepsTree.state t' = State.down /\
     DepsTree.trace t' = Emit_state State.down :: DepsTree.trace t).
Proof.
  destruct (started diamond
              [call_init; run_init_callback;
               init_settles "A" (inl (VNumber 1));
               init_settles "B" (inl (VNumber 2));
               init_settles "C" (inl (VNumber 3))])
    as [t|] eqn:E; [|vm_compute in E; discriminate].
  destruct (step (init_settles "D" (inl (VNumber 4))) t) as [t'|] eqn:E'.
  2:{ vm_compute in E. injection E as <-. vm_compute in E'. discriminate. }
  exists t, t'. split; [exact E'|].
  exact (notifications_fired _ t t' E').
Defined.

(** ** An [init] that completes while the tree is shutting down *)




(** ** A failing [init] *)

Lemma stuck_step (a : Action) (t t' : DepsTree.t) :
  step a t = Some t' -> stuck_deinitializing t -> stuck_deinitializing t'.
Proof.
  intros Hstep (Hs & (Hi & Hd & Hc) & Hp).
  destruct a as [| | | |name outcome|name outcome]; simpl in Hstep.
  - injection Hstep as <-. unfold DepsTree.init. rewrite Hs. simpl.
    repeat split; assumption.
  - injection Hstep as <-. unfold DepsTree.deinit. rewrite Hs. simpl.
    repeat split; assumption.
  - injection Hstep as <-. repeat split; assumption.
  - rewrite Hc in Hstep. discriminate.
  - rewrite Hi in Hstep. discriminate.
  - rewrite Hd in Hstep. discriminate.
Qed.

(** C2 fails on the code.  A tree of one module whose [init] fails: the
    module ends in [error] and its error is in the error list, but the tree
    is left [deinitializing] with nothing in flight, and whatever happens
    next it stays [deinitializing]: it never reaches [down], and the promise
    of [deinit()] is never resolved. *)
Theorem single_failure_never_down :
  exists t,
    started single_example
      [call_init; run_init_callback;
       init_settles "a" (inr (OperationError "boom"))] = Some t /\
    mstate "a" t = Some State.error /\
    DepsTree.errors t = [OperationError "boom"] /\
    stuck_deinitializing t /\
    forall actions t',
      run actions t = Some t' ->
      DepsTree.state t' = State.deinitializing /\
      option_map resolved (DepsTree._deinitDefer t') = Some false.
Proof.
  eexists. split; [vm_compute; reflexivity|].
  split; [reflexivity|]. split; [reflexivity|].
  match goal with |- stuck_deinitializing ?t /\ _ =>
    assert (H0 : stuck_deinitializing t) by (repeat split; reflexivity)
  end.
  split; [exact H0|].
  intros actions t' Hrun.
  destruct (run_inv stuck_deinitializing stuck_step actions _ t' Hrun H0)
    as (Hs & _ & Hp).
  auto.
Qed.

(** ** Seed data *)

(** The claim as it was made fails on a seed that is falsy: the seed [0] is
    replaced by what [init] returns. *)
Lemma falsy_seed_replaced :
  exists t t',
    started seeded_example [call_init; run_init_callback] = Some t /\
    data_of "a" t = Some (VNumber 0) /\
    step (init_settles "a" (inl (VString "x"))) t = Some t' /\
    data_of "a" t' = Some (VString "x").
Proof.
  eexists. eexists. split; [vm_compute; reflexivity|].
  split; [reflexivity|]. split; [vm_compute; reflexivity|]. reflexivity.
Qed.

(** ** A failing [deinit] *)












(** ** Reading the modules of a tree *)

Lemma find_names (ms0 : Modules) (t : DepsTree.t) (n : string) :
  same_graph ms0 t -> In n (names ms0) -> exists m, DepsTree.find n t = Some m.
Proof.
  intros Hg Hn. apply find_module_In.
  now rewrite (erase_names _ _ _ Hg).
Qed.

Lemma same_graph_dependencies (ms0 : Modules) (t : DepsTree.t) (n : string) :
  same_graph ms0 t ->
  dependencies_of n (DepsTree.modules t) = dependencies_of n ms0.
Proof.
  intros Hg. apply skeleton_dependencies.
  apply (erase_skeleton shape); [reflexivity | exact Hg].
Qed.

Lemma same_graph_dependants (ms0 : Modules) (t : DepsTree.t) (n : string) :
  same_graph ms0 t ->
  dependants_of n (DepsTree.modules t) = dependants_of n ms0.
Proof.
  intros Hg. pose proof (erase_find shape _ _ n Hg) as H.
  unfold dependants_of.
  destruct (find_module n (DepsTree.modules t)) as [m|],
           (find_module n ms0) as [m0|]; simpl in H; try discriminate;
    [|reflexivity].
  assert (Hs : shape m = shape m0) by congruence.
  exact (f_equal Mod.dependants Hs).
Qed.

Lemma same_graph_needed (ms0 : Modules) (t : DepsTree.t) (n : string)
  (m : Mod.t) :
  same_graph ms0 t -> all_needed ms0 -> DepsTree.find n t = Some m ->
  Mod.needed m = true.
Proof.
  intros Hg Hall Hf. unfold DepsTree.find in Hf.
  destruct (erase_find_Some shape _ _ _ _ Hg Hf) as (m0 & Hf0 & Hs).
  rewrite <- (Hall n m0 Hf0). exact (f_equal Mod.needed Hs).
Qed.

Lemma counters_only_shape (f : Mod.t -> Mod.t) (m : Mod.t) :
  counters_only f -> shape (f m) = shape m.
Proof.
  intros H.
  change (shape (f m))
    with (Mod.with_state State.off
            (Mod.with_data VUndefined
               (Mod.with_error None
                  (Mod.with_dependenciesToLoad 0
                     (Mod.with_dependantsToUnload 0 (f m)))))).
  now rewrite H.
Qed.

Lemma same_graph_tree_level (ms0 : Modules) : tree_level (same_graph ms0).
Proof.
  unfold tree_level, module_level, unload_level, same_graph.
  splits; intros; simpl; try assumption;
    rewrite erase_update; try assumption; try reflexivity.
  intros m. now apply counters_only_shape.
Qed.

Lemma same_graph_module_level (ms0 : Modules) : module_level (same_graph ms0).
Proof. apply same_graph_tree_level. Qed.

Lemma same_graph_step (ms0 : Modules) (a : Action) (t t' : DepsTree.t) :
  step a t = Some t' -> same_graph ms0 t -> same_graph ms0 t'.
Proof.
  apply (tree_level_step _ (same_graph_tree_level ms0)).
  intros t1 H. unfold DepsTree.init, same_graph in *.
  destruct (DepsTree.state t1); exact H.
Qed.

(** The accessors after the assignments of the class. *)
Lemma state_of_changeModuleState (x n : string) (st : State.t)
  (t : DepsTree.t) :
  DepsTree.find x t <> None ->
  state_of (DepsTree._changeModuleState x st t) n
  = if (n =? x)%string then st else state_of t n.
Proof.
  intros Hx. unfold state_of, DepsTree.find, DepsTree._changeModuleState in *.
  simpl. rewrite find_update.
  destruct (String.eqb_spec n x) as [->|Hne]; [|reflexivity].
  destruct (find_module x (DepsTree.modules t)); [reflexivity | contradiction].
Qed.

Lemma state_of_update (x n : string) (f : Mod.t -> Mod.t) (t : DepsTree.t) :
  (forall m, Mod.state (f m) = Mod.state m) ->
  state_of (DepsTree.update x f t) n = state_of t n.
Proof.
  intros Hf. unfold state_of, DepsTree.find, DepsTree.update. simpl.
  rewrite find_update. destruct (n =? x)%string; [|reflexivity].
  destruct (find_module n (DepsTree.modules t)); simpl; [apply Hf|reflexivity].
Qed.

Lemma toLoad_update (x n : string) (f : Mod.t -> Mod.t) (t : DepsTree.t) :
  (forall m, Mod.dependenciesToLoad (f m) = Mod.dependenciesToLoad m) ->
  toLoad (DepsTree.update x f t) n = toLoad t n.
Proof.
  intros Hf. unfold toLoad, DepsTree.find, DepsTree.update. simpl.
  rewrite find_update. destruct (n =? x)%string; [|reflexivity].
  destruct (find_module n (DepsTree.modules t)); simpl; [apply Hf|reflexivity].
Qed.

Lemma datum_update (x n : string) (f : Mod.t -> Mod.t) (t : DepsTree.t) :
  (forall m, Mod.data (f m) = Mod.data m) ->
  datum (DepsTree.update x f t) n = datum t n.
Proof.
  intros Hf. unfold datum, DepsTree.find, DepsTree.update. simpl.
  rewrite find_update. destruct (n =? x)%string; [|reflexivity].
  destruct (find_module n (DepsTree.modules t)); simpl; [apply Hf|reflexivity].
Qed.

Lemma toLoad_decrement (x n : string) (t : DepsTree.t) :
  DepsTree.find x t <> None ->
  toLoad
    (DepsTree.update x
       (fun m => Mod.with_dependenciesToLoad (Mod.dependenciesToLoad m - 1) m)
       t) n
  = if (n =? x)%string then toLoad t n - 1 else toLoad t n.
Proof.
  intros Hx. unfold toLoad, DepsTree.find, DepsTree.update in *. simpl.
  rewrite find_update. destruct (String.eqb_spec n x) as [->|Hne];
    [|reflexivity].
  destruct (find_module x (DepsTree.modules t)); [reflexivity | contradiction].
Qed.

(** Two trees with the same modules up wait for the same dependencies. *)
Lemma waiting_ext (t t' : DepsTree.t) (l : list string) :
  (forall d, is_up t' d = is_up t d) -> waiting t' l = waiting t l.
Proof.
  intros H. unfold waiting. f_equal. f_equal.
  apply filter_ext. intros d. now rewrite H.
Qed.

(** When [n] comes up, every list of dependencies waits for as many
    dependencies less as it lists [n]. *)
Lemma waiting_up (t t' : DepsTree.t) (n : string) (l : list string) :
  is_up t n = false ->
  (forall d, is_up t' d = if (d =? n)%string then true else is_up t d) ->
  waiting t l = waiting t' l + Z.of_nat (occurrences l n).
Proof.
  intros Hn H. unfold waiting, occurrences.
  rewrite <- Nat2Z.inj_add. f_equal.
  induction l as [|d l IH]; simpl; [reflexivity|].
  rewrite H. destruct (string_dec d n) as [->|Hne].
  - rewrite String.eqb_refl, Hn. simpl. rewrite IH. lia.
  - destruct (String.eqb_spec d n); [contradiction|].
    destruct (is_up t d); simpl; rewrite IH; lia.
Qed.

Lemma waiting_nonneg (t : DepsTree.t) (l : list string) : 0 <= waiting t l.
Proof. unfold waiting. lia. Qed.

Lemma waiting_zero (t : DepsTree.t) (l : list string) (d : string) :
  waiting t l = 0 -> In d l -> state_of t d = State.up.
Proof.
  unfold waiting. intros H Hd.
  assert (Hf : filter (fun d => negb (is_up t d)) l = []).
  { destruct (filter _ l); [reflexivity | simpl in H; lia]. }
  destruct (is_up t d) eqn:E.
  - unfold is_up in E. now destruct (state_of t d).
  - assert (Hin : In d (filter (fun d => negb (is_up t d)) l))
      by (apply filter_In; split; [exact Hd | now rewrite E]).
    rewrite Hf in Hin. contradiction.
Qed.

(** Completion stays true as the trace grows. *)
Lemma completed_cons (d : string) (e : Event) (past : list Event) :
  completed d past -> completed d (e :: past).
Proof.
  intros [H1 (v & H2)]. split; [now right|]. exists v. now right.
Qed.

Lemma NoDup_snoc (l : list string) (x : string) :
  NoDup l -> ~ In x l -> NoDup (l ++ [x]).
Proof.
  induction l as [|y l IH]; simpl; intros Hnd Hx.
  - constructor; [tauto | constructor].
  - inversion Hnd as [|? ? Hy Hnd']; subst. constructor.
    + intros H. apply in_app_or in H as [H|[H|[]]]; [contradiction|].
      apply Hx. now left.
    + apply IH; tauto.
Qed.

Lemma state_of_found (ms0 : Modules) (t : DepsTree.t) (n : string) :
  same_graph ms0 t -> state_of t n <> State.off -> In n (names ms0).
Proof.
  intros Hg H. unfold state_of, DepsTree.find in H.
  destruct (find_module n (DepsTree.modules t)) eqn:E; [|contradiction].
  rewrite <- (erase_names _ _ _ Hg).
  destruct (in_dec string_dec n (names (DepsTree.modules t))) as [Hin|Hin];
    [exact Hin|].
  apply find_module_None in Hin. congruence.
Qed.

(** ** [_initModule] keeps the invariant of the start-up *)

Lemma initModule_reads (x : string) (t : DepsTree.t) :
  DepsTree.find x t <> None ->
  (forall n, state_of (DepsTree._initModule x t) n
             = if (n =? x)%string then State.initializing else state_of t n) /\
  (forall n, toLoad (DepsTree._initModule x t) n = toLoad t n) /\
  (forall n, datum (DepsTree._initModule x t) n = datum t n) /\
  DepsTree.pendingInit (DepsTree._initModule x t)
  = (DepsTree.pendingInit t ++ [x])%list /\
  exists o,
    DepsTree.trace (DepsTree._initModule x t)
    = Invoke_init x o :: Emit_module_state x State.initializing
        :: DepsTree.trace t.
Proof.
  intros Hx. splits.
  - intros n.
    change (state_of (DepsTree._initModule x t) n)
      with (state_of (DepsTree._changeModuleState x State.initializing t) n).
    now apply state_of_changeModuleState.
  - intros n.
    change (toLoad (DepsTree._initModule x t) n)
      with (toLoad (DepsTree.update x (Mod.with_state State.initializing) t) n).
    now apply toLoad_update.
  - intros n.
    change (datum (DepsTree._initModule x t) n)
      with (datum (DepsTree.update x (Mod.with_state State.initializing) t) n).
    now apply datum_update.
  - reflexivity.
  - eexists. reflexivity.
Qed.

Lemma loading_initModule (ms0 : Modules) (extra : string -> nat)
  (t : DepsTree.t) (x : string) :
  same_graph ms0 t -> loading ms0 extra t -> In x (names ms0) ->
  state_of t x = State.off -> toLoad t x = 0 ->
  loading ms0 extra (DepsTree._initModule x t) /\
  steady t (DepsTree._initModule x t).
Proof.
  intros Hg (Hnd & Hsub & Hord & Hmod) Hx Hoff Hzero.
  destruct (find_names ms0 t x Hg Hx) as (mx & Hfx).
  assert (Hfound : DepsTree.find x t <> None) by congruence.
  destruct (initModule_reads x t Hfound) as (Hst & Hto & Hda & Hpe & o & Htr).
  assert (Hup : forall d, is_up (DepsTree._initModule x t) d = is_up t d).
  { intros d. unfold is_up. rewrite Hst.
    destruct (String.eqb_spec d x) as [->|]; [now rewrite Hoff | reflexivity]. }
  destruct (Hmod x Hx) as (_ & Hcount & _ & Hpend & Hinv & _ & Hseed).
  pose proof (waiting_nonneg t (dependencies_of x ms0)) as Hw.
  assert (Hwait : waiting t (dependencies_of x ms0) = 0) by lia.
  split; [|split; [exact Hup | reflexivity]].
  unfold loading. rewrite Hpe, Htr. splits.
  - apply NoDup_snoc; [exact Hnd|]. intros Hin. apply Hpend in Hin. congruence.
  - intros n Hin. apply in_app_or in Hin as [Hin|[<-|[]]]; auto.
  - cbn [init_after_deps]. splits; auto.
    intros d Hd. apply completed_cons.
    pose proof (waiting_zero t _ d Hwait Hd) as Hdup.
    assert (Hdn : In d (names ms0))
      by (apply (state_of_found ms0 t); [exact Hg | congruence]).
    now apply (Hmod d Hdn).
  - intros n Hn.
    destruct (Hmod n Hn) as (H1 & H2 & H3 & H4 & H5 & H6 & H7).
    rewrite Hst, Hto, Hda, (waiting_ext _ _ _ Hup).
    destruct (String.eqb_spec n x) as [->|Hne].
    + split; [auto|]. split; [exact H2|]. split; [intros _; exact Hzero|].
      split; [split; [intros _; apply in_or_app; right; now left
                     | reflexivity]|].
      split; [cbn [invoked]; rewrite String.eqb_refl, H5, Hoff; reflexivity|].
      split; [discriminate|].
      intros _. apply H7. congruence.
    + split; [exact H1|]. split; [exact H2|]. split; [exact H3|].
      split.
      { rewrite H4. split; [intros H; apply in_or_app; now left|].
        intros H. apply in_app_or in H as [H|[H|[]]]; [exact H|].
        congruence. }
      split.
      { cbn [invoked]. destruct (String.eqb_spec x n); [congruence|].
        exact H5. }
      split; [|exact H7].
      intros H. apply completed_cons, completed_cons. auto.
Qed.

(** ** The loop over the dependants keeps the invariant of the start-up *)

Lemma update_missing (x : string) (f : Mod.t -> Mod.t) (ms : Modules) :
  find_module x ms = None -> update_module x f ms = ms.
Proof.
  induction ms as [|[n m] ms IH]; simpl; [reflexivity|].
  destruct (n =? x)%string; [discriminate|].
  intros H. now rewrite IH.
Qed.

Lemma occurrences_cons (x : string) (l : list string) (n : string) :
  occurrences (x :: l) n
  = ((if (n =? x)%string then 1 else 0) + occurrences l n)%nat.
Proof.
  unfold occurrences. simpl.
  destruct (string_dec x n) as [->|Hne].
  - now rewrite String.eqb_refl.
  - destruct (String.eqb_spec n x); [congruence | reflexivity].
Qed.

Lemma same_graph_update (ms0 : Modules) (t : DepsTree.t) (x : string)
  (f : Mod.t -> Mod.t) :
  counters_only f -> same_graph ms0 t -> same_graph ms0 (DepsTree.update x f t).
Proof. apply (same_graph_tree_level ms0). Qed.

Lemma loading_load_dependant (ms0 : Modules) (l : list string)
  (t : DepsTree.t) (x : string) :
  same_graph ms0 t -> loading ms0 (occurrences (x :: l)) t ->
  loading ms0 (occurrences l) (DepsTree.load_dependant t x) /\
  steady t (DepsTree.load_dependant t x).
Proof.
  intros Hg Hl. unfold DepsTree.load_dependant.
  set (f := fun m => Mod.with_dependenciesToLoad
                       (Mod.dependenciesToLoad m - 1) m).
  destruct (DepsTree.find x t) as [mx|] eqn:Hfx.
  - (* [x] is a module: it is off, and its counter is decremented *)
    assert (Hx : In x (names ms0)).
    { rewrite <- (erase_names _ _ _ Hg).
      destruct (in_dec string_dec x (names (DepsTree.modules t))) as [H|H];
        [exact H|].
      apply find_module_None in H. unfold DepsTree.find in Hfx. congruence. }
    assert (Hfound : DepsTree.find x t <> None) by congruence.
    destruct Hl as (Hnd & Hsub & Hord & Hmod).
    destruct (Hmod x Hx) as (Hx1 & Hx2 & Hx3 & _).
    rewrite occurrences_cons, String.eqb_refl in Hx2.
    pose proof (waiting_nonneg t (dependencies_of x ms0)) as Hw.
    assert (Hoff : state_of t x = State.off).
    { destruct (State.eqb (state_of t x) State.off) eqn:E.
      - now destruct (state_of t x).
      - assert (toLoad t x = 0); [|lia].
        apply Hx3. intros E'. now rewrite E' in E. }
    set (t1 := DepsTree.update x f t).
    assert (Hst : forall n, state_of t1 n = state_of t n)
      by (intros n; now apply state_of_update).
    assert (Hda : forall n, datum t1 n = datum t n)
      by (intros n; now apply datum_update).
    assert (Hto : forall n, toLoad t1 n
                            = if (n =? x)%string then toLoad t n - 1
                              else toLoad t n)
      by (intros n; now apply toLoad_decrement).
    assert (Hup : forall d, is_up t1 d = is_up t d)
      by (intros d; unfold is_up; now rewrite Hst).
    assert (Hg1 : same_graph ms0 t1)
      by (apply same_graph_update; [intros m; reflexivity | exact Hg]).
    assert (Hl1 : loading ms0 (occurrences l) t1).
    { unfold loading.
      change (DepsTree.pendingInit t1) with (DepsTree.pendingInit t).
      change (DepsTree.trace t1) with (DepsTree.trace t).
      split; [exact Hnd|]. split; [exact Hsub|]. split; [exact Hord|].
      intros n Hn.
      destruct (Hmod n Hn) as (H1 & H2 & H3 & H4 & H5 & H6 & H7).
      rewrite occurrences_cons in H2.
      rewrite Hst, Hda, Hto, (waiting_ext _ _ _ Hup).
      destruct (String.eqb_spec n x) as [->|Hne].
      - split; [exact H1|]. split; [lia|].
        split; [intros H; congruence|]. auto.
      - split; [exact H1|]. split; [exact H2|]. auto. }
    assert (Hs1 : steady t t1) by (split; [exact Hup | reflexivity]).
    destruct (DepsTree.find x t1) as [m1|] eqn:Hf1; [|now split].
    destruct (Mod.dependenciesToLoad m1 =? 0) eqn:Ez; [|now split].
    destruct (loading_initModule ms0 (occurrences l) t1 x) as [Hl2 [Hu2 Hm2]];
      auto.
    + now rewrite Hst.
    + unfold toLoad. rewrite Hf1. now apply Z.eqb_eq.
    + split; [exact Hl2|]. split; [|exact Hm2].
      intros d. now rewrite Hu2, Hup.
  - (* [x] is no module: nothing happens *)
    assert (E : DepsTree.update x f t = t).
    { unfold DepsTree.update. rewrite update_missing by exact Hfx.
      now destruct t. }
    rewrite E, Hfx. split; [|now split].
    assert (Hx : ~ In x (names ms0)).
    { rewrite <- (erase_names _ _ _ Hg). now apply find_module_None. }
    destruct Hl as (Hnd & Hsub & Hord & Hmod).
    split; [exact Hnd|]. split; [exact Hsub|]. split; [exact Hord|].
    intros n Hn. specialize (Hmod n Hn).
    rewrite occurrences_cons in Hmod.
    destruct (String.eqb_spec n x) as [Heq|Hne];
      [rewrite Heq in Hn; contradiction|].
    exact Hmod.
Qed.

Lemma same_graph_load_dependant (ms0 : Modules) (t : DepsTree.t) (x : string) :
  same_graph ms0 t -> same_graph ms0 (DepsTree.load_dependant t x).
Proof.
  apply module_level_load_dependant, (same_graph_tree_level ms0).
Qed.

Lemma loading_load_dependants (ms0 : Modules) (l : list string)
  (t : DepsTree.t) :
  same_graph ms0 t -> loading ms0 (occurrences l) t ->
  loading ms0 none (fold_left DepsTree.load_dependant l t) /\
  steady t (fold_left DepsTree.load_dependant l t).
Proof.
  revert t. induction l as [|x l IH]; intros t Hg Hl; simpl.
  - split; [exact Hl | now split].
  - destruct (loading_load_dependant ms0 l t x Hg Hl) as [Hl1 [Hu1 Hm1]].
    destruct (IH (DepsTree.load_dependant t x)) as [Hl2 [Hu2 Hm2]]; auto.
    + now apply same_graph_load_dependant.
    + split; [exact Hl2|]. split; [|congruence].
      intros d. now rewrite Hu2, Hu1.
Qed.

(** ** The queued callback of [init()] keeps the invariant of the start-up *)

Lemma loading_init_module_if_ready (ms0 : Modules) (t : DepsTree.t)
  (x : string) :
  same_graph ms0 t -> loading ms0 none t -> In x (names ms0) ->
  state_of t x = State.off ->
  loading ms0 none (DepsTree.init_module_if_ready t x) /\
  (forall n, n <> x ->
     state_of (DepsTree.init_module_if_ready t x) n = state_of t n) /\
  (forall d, is_up (DepsTree.init_module_if_ready t x) d = is_up t d) /\
  (all_needed ms0 ->
   DepsTree._modulesToLoad (DepsTree.init_module_if_ready t x)
   = DepsTree._modulesToLoad t + 1).
Proof.
  intros Hg Hl Hx Hoff. unfold DepsTree.init_module_if_ready.
  destruct (find_names ms0 t x Hg Hx) as (m & Hf). rewrite Hf.
  destruct (Mod.needed m) eqn:En.
  - set (t1 := DepsTree.with_modulesToLoad (DepsTree._modulesToLoad t + 1) t).
    assert (Hl1 : loading ms0 none t1) by exact Hl.
    assert (Hg1 : same_graph ms0 t1) by exact Hg.
    destruct (Mod.dependenciesToLoad m =? 0) eqn:Ez.
    + destruct (loading_initModule ms0 none t1 x Hg1 Hl1 Hx) as [Hl2 [Hu2 Hm2]].
      * exact Hoff.
      * change (toLoad t1 x) with (toLoad t x). unfold toLoad. rewrite Hf.
        now apply Z.eqb_eq.
      * split; [exact Hl2|]. split; [|split; [exact Hu2|]].
        -- intros n Hn.
           assert (Hfound : DepsTree.find x t1 <> None)
             by (change (DepsTree.find x t1) with (DepsTree.find x t);
                 congruence).
           destruct (initModule_reads x t1 Hfound) as (Hst & _).
           rewrite Hst. destruct (String.eqb_spec n x); [contradiction|].
           reflexivity.
        -- intros _. exact Hm2.
    + split; [exact Hl1|]. split; [reflexivity|]. split; [reflexivity|].
      reflexivity.
  - split; [exact Hl|]. split; [reflexivity|]. split; [reflexivity|].
    intros Hall. pose proof (same_graph_needed ms0 t x m Hg Hall Hf).
    congruence.
Qed.

Lemma same_graph_init_module_if_ready (ms0 : Modules) (t : DepsTree.t)
  (x : string) :
  same_graph ms0 t -> same_graph ms0 (DepsTree.init_module_if_ready t x).
Proof.
  apply module_level_init_module_if_ready, (same_graph_tree_level ms0).
Qed.

Lemma loading_init_callback_loop (ms0 : Modules) (l : list string)
  (t : DepsTree.t) :
  same_graph ms0 t -> loading ms0 none t -> NoDup l ->
  (forall n, In n l -> In n (names ms0) /\ state_of t n = State.off) ->
  loading ms0 none (fold_left DepsTree.init_module_if_ready l t) /\
  (forall d, is_up (fold_left DepsTree.init_module_if_ready l t) d
             = is_up t d) /\
  (all_needed ms0 ->
   DepsTree._modulesToLoad (fold_left DepsTree.init_module_if_ready l t)
   = DepsTree._modulesToLoad t + Z.of_nat (List.length l)).
Proof.
  revert t. induction l as [|x l IH]; intros t Hg Hl Hnd Hoff; simpl fold_left.
  - split; [exact Hl|]. split; [reflexivity|]. intros _. simpl. lia.
  - inversion Hnd as [|? ? Hx Hnd']; subst.
    destruct (Hoff x (or_introl eq_refl)) as [Hxn Hxo].
    destruct (loading_init_module_if_ready ms0 t x Hg Hl Hxn Hxo)
      as (Hl1 & Hs1 & Hu1 & Hm1).
    destruct (IH (DepsTree.init_module_if_ready t x)) as (Hl2 & Hu2 & Hm2);
      auto.
    + now apply same_graph_init_module_if_ready.
    + intros n Hn. destruct (Hoff n (or_intror Hn)) as [Hnn Hno].
      split; [exact Hnn|]. rewrite Hs1; [exact Hno|].
      intros ->. contradiction.
    + split; [exact Hl2|]. split.
      * intros d. now rewrite Hu2, Hu1.
      * intros Hall. rewrite (Hm2 Hall), (Hm1 Hall).
        change (List.length (x :: l)) with (S (List.length l)). lia.
Qed.

(** ** An [init] that returns during the start-up *)

Lemma In_remove_first (n m : string) (l : list string) :
  NoDup l -> In m (remove_first n l) <-> In m l /\ m <> n.
Proof.
  induction l as [|x l IH]; simpl; intros Hnd; [tauto|].
  inversion Hnd as [|? ? Hx Hnd']; subst.
  destruct (String.eqb_spec x n) as [->|Hne].
  - split.
    + intros H. split; [now right|]. intros ->. contradiction.
    + intros [[<-|H] Hm]; [congruence | exact H].
  - simpl. rewrite (IH Hnd'). split.
    + intros [<-|[H Hm]]; [split; [now left | exact Hne] | tauto].
    + intros [[<-|H] Hm]; [now left | tauto].
Qed.

Lemma NoDup_remove_first (n : string) (l : list string) :
  NoDup l -> NoDup (remove_first n l).
Proof.
  induction l as [|x l IH]; simpl; intros Hnd; [constructor|].
  inversion Hnd as [|? ? Hx Hnd']; subst.
  destruct (x =? n)%string; [exact Hnd'|].
  constructor; [|now apply IH].
  intros H. apply In_remove_first in H; tauto.
Qed.

(** The first loop of [_moduleInited] assigns [dependantsToUnload] only. *)
Lemma count_dependants_reads (l : list string) (t : DepsTree.t) :
  let t' := fold_left DepsTree.count_dependant l t in
  (forall n, state_of t' n = state_of t n) /\
  (forall n, toLoad t' n = toLoad t n) /\
  (forall n, datum t' n = datum t n) /\
  DepsTree.pendingInit t' = DepsTree.pendingInit t /\
  DepsTree.trace t' = DepsTree.trace t /\
  DepsTree._modulesToLoad t' = DepsTree._modulesToLoad t /\
  control t' = control t.
Proof.
  apply (fold_left_inv _
           (fun t' =>
              (forall n, state_of t' n = state_of t n) /\
              (forall n, toLoad t' n = toLoad t n) /\
              (forall n, datum t' n = datum t n) /\
              DepsTree.pendingInit t' = DepsTree.pendingInit t /\
              DepsTree.trace t' = DepsTree.trace t /\
              DepsTree._modulesToLoad t' = DepsTree._modulesToLoad t /\
              control t' = control t)).
  - splits; reflexivity.
  - intros a x _ (H1 & H2 & H3 & H4 & H5 & H6 & H7).
    unfold DepsTree.count_dependant. splits; auto.
    + intros n. now rewrite state_of_update.
    + intros n. now rewrite toLoad_update.
    + intros n. now rewrite datum_update.
Qed.

Lemma datum_set (x n : string) (v : value) (t : DepsTree.t) :
  DepsTree.find x t <> None ->
  datum
    (DepsTree.update x
       (fun module => Mod.with_data (js_or (Mod.data module) v) module) t) n
  = if (n =? x)%string then js_or (datum t n) v else datum t n.
Proof.
  intros Hx. unfold datum, DepsTree.find, DepsTree.update in *. simpl.
  rewrite find_update. destruct (String.eqb_spec n x) as [->|Hne];
    [|reflexivity].
  destruct (find_module x (DepsTree.modules t)); [reflexivity | contradiction].
Qed.

Lemma occurrences_NoDup (l : list string) (n : string) :
  NoDup l -> In n l -> occurrences l n = 1%nat.
Proof.
  intros Hnd Hin. unfold occurrences.
  pose proof (proj1 (NoDup_count_occ string_dec l) Hnd n) as Hle.
  pose proof (proj1 (count_occ_In string_dec l n) Hin) as Hge. lia.
Qed.

Lemma loading_inited (ms0 : Modules) (t : DepsTree.t) (n : string)
  (v : value) :
  fresh ms0 -> same_graph ms0 t -> loading ms0 none t ->
  In n (DepsTree.pendingInit t) ->
  loading ms0 (occurrences (dependants_of n ms0)) (inited n v t) /\
  is_up t n = false /\
  (forall d, is_up (inited n v t) d
             = if (d =? n)%string then true else is_up t d) /\
  DepsTree._modulesToLoad (inited n v t) = DepsTree._modulesToLoad t - 1 /\
  same_graph ms0 (inited n v t) /\
  control (inited n v t) = control t /\
  datum (inited n v t) n = js_or (seed ms0 n) v.
Proof.
  intros (Hnames & Hinverse & _) Hg (Hnd & Hsub & Hord & Hmod) Hpend.
  pose proof (Hsub n Hpend) as Hn.
  destruct (find_names ms0 t n Hg Hn) as (mn & Hfn).
  destruct (Hmod n Hn) as (_ & _ & Hn3 & Hn4 & Hn5 & _ & Hn7).
  assert (Hinit : state_of t n = State.initializing) by now apply Hn4.
  unfold inited.
  set (t0 := DepsTree.update n _ _).
  set (ta := DepsTree._changeModuleState n State.up t0).
  set (tb := fold_left DepsTree.count_dependant _ ta).
  assert (Hf0 : DepsTree.find n t0 <> None).
  { unfold t0, DepsTree.find, DepsTree.update. simpl.
    rewrite find_update_same. unfold DepsTree.find in Hfn. now rewrite Hfn. }
  assert (Hf : DepsTree.find n t <> None) by congruence.
  destruct (count_dependants_reads
              (dependencies_of n (DepsTree.modules t0)) ta)
    as (Bs & Bt & Bd & Bp & Br & Bm & Bc).
  fold tb in Bs, Bt, Bd, Bp, Br, Bm, Bc.
  assert (Hst : forall m, state_of tb m
                          = if (m =? n)%string then State.up else state_of t m).
  { intros m. rewrite Bs. unfold ta.
    rewrite state_of_changeModuleState by exact Hf0.
    destruct (m =? n)%string; [reflexivity|].
    unfold t0. now rewrite state_of_update. }
  assert (Hto : forall m, toLoad tb m = toLoad t m).
  { intros m. rewrite Bt. unfold ta, DepsTree._changeModuleState.
    change (toLoad (DepsTree.record _ ?x) m) with (toLoad x m).
    rewrite toLoad_update by reflexivity.
    unfold t0. now rewrite toLoad_update. }
  assert (Hda : forall m, datum tb m
                          = if (m =? n)%string then js_or (datum t m) v
                            else datum t m).
  { intros m. rewrite Bd. unfold ta, DepsTree._changeModuleState.
    change (datum (DepsTree.record _ ?x) m) with (datum x m).
    rewrite datum_update by reflexivity.
    unfold t0. now rewrite datum_set. }
  assert (Hpe : DepsTree.pendingInit tb
                = remove_first n (DepsTree.pendingInit t))
    by (rewrite Bp; reflexivity).
  assert (Htr : DepsTree.trace tb
                = Emit_module_state n State.up :: Init_returned n v
                    :: DepsTree.trace t)
    by (rewrite Br; reflexivity).
  assert (Hnotup : is_up t n = false) by (unfold is_up; now rewrite Hinit).
  assert (Hup : forall d, is_up tb d
                          = if (d =? n)%string then true else is_up t d).
  { intros d. unfold is_up. rewrite Hst. now destruct (d =? n)%string. }
  assert (Hgb : same_graph ms0 tb).
  { unfold tb. apply (module_level_loops _ (same_graph_module_level ms0)).
    unfold ta.
    apply (module_level_changeModuleState _ (same_graph_module_level ms0)).
    unfold t0. apply (tl_data _ (same_graph_tree_level ms0)). exact Hg. }
  split; [|split; [exact Hnotup|]; split; [exact Hup|]; split;
           [simpl; rewrite Bm; reflexivity|]; split; [exact Hgb|]; split;
           [exact Bc|]].
  2:{ change (datum (DepsTree.with_modulesToLoad _ tb) n) with (datum tb n).
      rewrite Hda, String.eqb_refl. f_equal. apply Hn7. congruence. }
  unfold loading.
  change (DepsTree.pendingInit (DepsTree.with_modulesToLoad _ tb))
    with (DepsTree.pendingInit tb).
  change (DepsTree.trace (DepsTree.with_modulesToLoad _ tb))
    with (DepsTree.trace tb).
  rewrite Hpe, Htr.
  split; [now apply NoDup_remove_first|].
  split; [intros m Hm; apply In_remove_first in Hm; [apply Hsub; tauto | auto]|].
  split; [cbn [init_after_deps]; auto|].
  intros m Hm.
  destruct (Hmod m Hm) as (H1 & H2 & H3 & H4 & H5 & H6 & H7).
  change (state_of (DepsTree.with_modulesToLoad _ tb) m) with (state_of tb m).
  change (toLoad (DepsTree.with_modulesToLoad _ tb) m) with (toLoad tb m).
  change (datum (DepsTree.with_modulesToLoad _ tb) m) with (datum tb m).
  change (waiting (DepsTree.with_modulesToLoad _ tb) ?l) with (waiting tb l).
  rewrite Hst, Hto, Hda, In_remove_first by exact Hnd.
  assert (Hcount : toLoad t m
                   = waiting tb (dependencies_of m ms0)
                     + Z.of_nat (occurrences (dependants_of n ms0) m)).
  { rewrite H2. unfold none. rewrite Z.add_0_r.
    rewrite (waiting_up t tb n _ Hnotup Hup). f_equal. f_equal.
    unfold occurrences. now rewrite Hinverse. }
  destruct (String.eqb_spec m n) as [->|Hne].
  - split; [auto|]. split; [exact Hcount|].
    split; [intros _; apply Hn3; congruence|].
    split; [split; [discriminate | tauto]|].
    split; [cbn [invoked]; rewrite H5, Hinit; reflexivity|].
    split; [|congruence].
    intros _. split; [now left|]. exists v. right. now left.
  - split; [exact H1|]. split; [exact Hcount|]. split; [exact H3|].
    split; [rewrite H4; tauto|].
    split; [exact H5|]. split; [|exact H7].
    intros H. apply completed_cons, completed_cons. auto.
Qed.

(** ** What the shutdown keeps *)

Section ShutdownLevel.

Variable P : DepsTree.t -> Prop.
Hypothesis HP : shutdown_level P.

Lemma shutdown_level_unload : unload_level P.
Proof. apply HP. Qed.

Lemma sl_record (e : Event) (t : DepsTree.t) :
  ~ is_invoke_init e -> P t -> P (DepsTree.record e t).
Proof. apply HP. Qed.

Lemma sl_state (st : State.t) (t : DepsTree.t) :
  P t -> P (DepsTree.with_state st t).
Proof. apply HP. Qed.

Lemma sl_errors (l : list Error) (t : DepsTree.t) :
  P t -> P (DepsTree.with_errors l t).
Proof. apply HP. Qed.

Lemma sl_deinitDefer (d : option Deferred) (t : DepsTree.t) :
  P t -> P (DepsTree.with_deinitDefer d t).
Proof. apply HP. Qed.

Lemma sl_defers (n : nat) (t : DepsTree.t) :
  P t -> P (DepsTree.with_defers n t).
Proof. apply HP. Qed.

Lemma sl_modulesToUnload (z : Z) (t : DepsTree.t) :
  P t -> P (DepsTree.with_modulesToUnload z t).
Proof. apply HP. Qed.

Lemma sl_error (name : string) (e : option Error) (t : DepsTree.t) :
  P t -> P (DepsTree.update name (Mod.with_error e) t).
Proof. apply HP. Qed.

Lemma sl_changeState (st : State.t) (t : DepsTree.t) :
  P t -> P (DepsTree._changeState st t).
Proof.
  intros H. unfold DepsTree._changeState.
  apply sl_record; [simpl; tauto|]. now apply sl_state.
Qed.

Lemma shutdown_level_deinit (t : DepsTree.t) :
  P t -> P (snd (DepsTree.deinit t)).
Proof.
  intros H. unfold DepsTree.deinit.
  destruct (DepsTree.state t) eqn:E; cbn [snd DepsTree.defer]; auto;
    try (now apply sl_changeState);
    apply (unload_level_loops _ shutdown_level_unload);
    apply sl_deinitDefer; apply sl_defers; now apply sl_changeState.
Qed.

Lemma shutdown_level_error (err : Error) (name : option string)
  (t : DepsTree.t) :
  P t -> P (DepsTree._error err name t).
Proof.
  intros H. unfold DepsTree._error. apply shutdown_level_deinit.
  apply sl_errors.
  destruct (DepsTree.errorListeners t); apply sl_record; auto; simpl; tauto.
Qed.

Lemma shutdown_level_deinitModule_resume (name : string)
  (outcome : option Error) (t : DepsTree.t) :
  P t -> P (DepsTree._deinitModule_resume name outcome t).
Proof.
  intros H. unfold DepsTree._deinitModule_resume.
  match goal with |- context [DepsTree.with_modulesToUnload _ ?a] =>
    assert (H1 : P a);
    [|set (t1 := a) in *]
  end.
  { destruct outcome as [err|].
    - apply shutdown_level_error. apply sl_error.
      now apply (ul_changeModuleState _ shutdown_level_unload).
    - now apply (ul_changeModuleState _ shutdown_level_unload). }
  assert (H2 : P (DepsTree.with_modulesToUnload
                    (DepsTree._modulesToUnload t1 - 1) t1))
    by now apply sl_modulesToUnload.
  cbv zeta.
  destruct (_ <=? 0).
  - apply sl_record; [simpl; tauto|].
    apply sl_changeState. now apply sl_deinitDefer.
  - now apply (unload_level_loops _ shutdown_level_unload).
Qed.

Lemma shutdown_level_moduleInited (name : string) (t : DepsTree.t) :
  DepsTree.state t <> State.initializing ->
  P t -> P (DepsTree._moduleInited name t).
Proof.
  intros Hs H. unfold DepsTree._moduleInited.
  destruct (DepsTree.state t) eqn:E; try contradiction;
    try (apply sl_record; [simpl; tauto | exact H]).
  now apply (unload_level_deinitModule _ shutdown_level_unload).
Qed.

End ShutdownLevel.

Lemma no_init_refl (t : DepsTree.t) : no_init t t.
Proof. unfold no_init. splits; auto. Qed.

Lemma no_init_trans (a b c : DepsTree.t) :
  no_init a b -> no_init b c -> no_init a c.
Proof.
  intros (A1 & A2 & A3 & A4 & A5) (B1 & B2 & B3 & B4 & B5).
  unfold no_init. splits; try congruence; auto;
    intros n; (now rewrite B2) || (now rewrite B3).
Qed.

(** One more event that is no invocation of [init], and no change to the
    start-up. *)
Lemma no_init_record (e : Event) (t : DepsTree.t) :
  ~ is_invoke_init e -> no_init t (DepsTree.record e t).
Proof.
  intros He. unfold no_init. splits; auto.
  - intros n. destruct e; simpl in *; tauto.
  - intros deps_of H. simpl. split; [|exact H].
    destruct e; simpl in *; tauto.
Qed.

Lemma no_init_same (t t' : DepsTree.t) :
  DepsTree.pendingInit t' = DepsTree.pendingInit t ->
  (forall n, datum t' n = datum t n) ->
  DepsTree.trace t' = DepsTree.trace t ->
  DepsTree._initDefer t' = DepsTree._initDefer t ->
  no_init t t'.
Proof.
  intros H1 H2 H3 H4. unfold no_init. rewrite H3. splits; auto.
Qed.

Lemma no_init_shutdown_level (t0 : DepsTree.t) : shutdown_level (no_init t0).
Proof.
  unfold shutdown_level, unload_level.
  splits; intros; (eapply no_init_trans; [eassumption|]);
    try (apply no_init_record; assumption);
    try (apply no_init_record; simpl; tauto);
    try (apply no_init_same; try reflexivity; intros;
         apply datum_update; intros;
         try reflexivity; now apply counters_only_data).
  unfold DepsTree._changeModuleState.
  eapply no_init_trans; [|apply no_init_record; simpl; tauto].
  apply no_init_same; try reflexivity. intros. now apply datum_update.
Qed.

(** ** The phases of a run keep their states *)

Lemma started_up_step (a : Action) (t t' : DepsTree.t) :
  DepsTree.state t <> State.error -> deinit_in_shutdown t ->
  step a t = Some t' -> started_up t -> started_up t'.
Proof.
  intros Hne Hd Hstep [Hup|Hs]; [|right; now apply (shutting_down_step a t)].
  destruct a as [| | | |name outcome|name outcome]; simpl in Hstep.
  - injection Hstep as <-. left. unfold DepsTree.init. now rewrite Hup.
  - injection Hstep as <-. right. now apply shutting_down_deinit.
  - injection Hstep as <-. left. exact Hup.
  - destruct (DepsTree.initCallback t); [|discriminate].
    injection Hstep as <-. left. unfold DepsTree.init_callback.
    rewrite (proj2 (proj2 (proj2 (proj2 (state_loops _ _))))). exact Hup.
  - destruct (mem name _); [|discriminate]. injection Hstep as <-.
    unfold DepsTree._initModule_resume. destruct outcome as [v|err].
    + left. unfold DepsTree._moduleInited.
      cbn [DepsTree.state DepsTree.update DepsTree.record
           DepsTree.with_trace DepsTree.with_modules
           DepsTree.with_pendingInit].
      rewrite Hup. exact Hup.
    + right. unfold DepsTree._error. apply shutting_down_deinit.
      destruct (DepsTree.errorListeners _); exact Hne.
  - destruct Hd as [Hp|Hs]; [rewrite Hp in Hstep; discriminate|].
    destruct Hs as [E|E]; congruence.
Qed.

(** ** From phase to phase *)

Lemma waiting_none_up (t : DepsTree.t) (l : list string) :
  (forall d, state_of t d = State.off) ->
  waiting t l = Z.of_nat (List.length l).
Proof.
  intros H. unfold waiting. f_equal.
  induction l as [|d l IH]; simpl; [reflexivity|].
  unfold is_up at 1. rewrite H. simpl. now rewrite IH.
Qed.

Lemma untouched_loading (ms0 : Modules) (t : DepsTree.t) :
  untouched ms0 t -> loading ms0 none t.
Proof.
  intros (Hmod & Hpi & _ & Hinv & Hord & _).
  unfold loading. rewrite Hpi.
  split; [constructor|]. split; [intros n []|]. split; [exact Hord|].
  intros n Hn. destruct (Hmod n) as (Hoff & Hrest).
  destruct (Hrest Hn) as (Hto & Hda).
  rewrite Hoff, Hto, Hinv, waiting_none_up by (intros d; apply Hmod).
  split; [now left|]. split; [unfold none; lia|].
  split; [congruence|]. split; [split; [discriminate | intros []]|].
  split; [reflexivity|]. split; [discriminate|]. intros _. exact Hda.
Qed.

Lemma loading_loaded (ms0 : Modules) (t : DepsTree.t) :
  loading ms0 none t -> ~ init_resolved t -> loaded ms0 t.
Proof.
  intros (Hnd & Hsub & Hord & Hmod) Hres. unfold loaded.
  split; [exact Hnd|]. split; [exact Hsub|]. split; [exact Hord|].
  split; [|intros _ H; contradiction].
  intros n Hn. destruct (Hmod n (Hsub n Hn)) as (_ & _ & _ & H4 & _ & _ & H7).
  apply H7. apply H4 in Hn. congruence.
Qed.

Lemma loaded_no_init (ms0 : Modules) (t t' : DepsTree.t) :
  no_init t t' -> loaded ms0 t -> loaded ms0 t'.
Proof.
  intros (F1 & F2 & F3 & F4 & F5) (Hnd & Hsub & Hord & Hda & Hres).
  unfold loaded, init_resolved in *. rewrite F1, F5.
  split; [exact Hnd|]. split; [exact Hsub|]. split; [auto|].
  split; [intros n Hn; rewrite F2; auto|].
  intros Hall Hr n Hn. rewrite F3. auto.
Qed.

(** An [init] that settles after the start-up: the function is not
    suspended any more, and its module alone may have got its [data]. *)
Lemma loaded_settled (ms0 : Modules) (t t' : DepsTree.t) (n : string) :
  loaded ms0 t ->
  DepsTree.pendingInit t' = remove_first n (DepsTree.pendingInit t) ->
  (forall m, m <> n -> datum t' m = datum t m) ->
  (forall m, invoked m (DepsTree.trace t') = invoked m (DepsTree.trace t)) ->
  (forall deps_of,
     init_after_deps deps_of (DepsTree.trace t) ->
     init_after_deps deps_of (DepsTree.trace t')) ->
  DepsTree._initDefer t' = DepsTree._initDefer t ->
  loaded ms0 t'.
Proof.
  intros (Hnd & Hsub & Hord & Hda & Hres) F1 F2 F3 F4 F5.
  unfold loaded, init_resolved in *. rewrite F1, F5.
  split; [now apply NoDup_remove_first|].
  split; [intros m Hm; apply In_remove_first in Hm; [apply Hsub; tauto|auto]|].
  split; [auto|].
  split.
  - intros m Hm. apply In_remove_first in Hm; [|exact Hnd].
    destruct Hm as [Hm Hne]. rewrite F2; auto.
  - intros Hall Hr m Hm. rewrite F3. auto.
Qed.

Lemma callback_done_tree_level : tree_level callback_done.
Proof.
  unfold tree_level, module_level, unload_level, callback_done.
  splits; intros; simpl; try tauto.
  match goal with H : assigned_state _ |- _ => unfold assigned_state in H end.
  split; [|tauto]. intros E. subst. intuition discriminate.
Qed.

Lemma callback_done_step (a : Action) (t t' : DepsTree.t) :
  step a t = Some t' -> callback_done t -> callback_done t'.
Proof.
  apply (tree_level_step _ callback_done_tree_level).
  intros t1 [H1 H2]. unfold DepsTree.init.
  destruct (DepsTree.state t1) eqn:E; simpl; try (split; congruence).
Qed.

Lemma init_not_off (t : DepsTree.t) :
  DepsTree.state t <> State.off -> snd (DepsTree.init t) = t.
Proof.
  intros H. unfold DepsTree.init.
  destruct (DepsTree.state t); try reflexivity. contradiction.
Qed.

Lemma started_up_not_off (t : DepsTree.t) :
  started_up t -> DepsTree.state t <> State.off.
Proof. intros [E|[E|E]]; congruence. Qed.

Lemma started_up_not_initializing (t : DepsTree.t) :
  started_up t -> DepsTree.state t <> State.initializing.
Proof. intros [E|[E|E]]; congruence. Qed.

(** An [init] that fails, during the start-up or after it: the module is
    marked and the shutdown begins. *)
Lemma loaded_init_failed (ms0 : Modules) (t : DepsTree.t) (n : string)
  (err : Error) :
  loaded ms0 t ->
  loaded ms0
    (DepsTree._initModule_resume n (inr err)
       (DepsTree.record (Init_failed n err)
          (DepsTree.with_pendingInit
             (remove_first n (DepsTree.pendingInit t)) t))).
Proof.
  intros Hl. unfold DepsTree._initModule_resume.
  match goal with |- loaded _ (DepsTree._error _ _ ?x) =>
    apply (loaded_no_init ms0 x);
      [apply (shutdown_level_error _ (no_init_shutdown_level x)),
         no_init_refl|]
  end.
  apply (loaded_settled ms0 t _ n Hl); try reflexivity.
  - intros m _. rewrite datum_update by reflexivity.
    unfold DepsTree._changeModuleState.
    change (datum (DepsTree.record _ ?x) m) with (datum x m).
    now rewrite datum_update.
  - intros deps_of H. simpl. auto.
Qed.

(** An [init] that returns after the start-up. *)
Lemma loaded_init_returned (ms0 : Modules) (t : DepsTree.t) (n : string)
  (v : value) :
  DepsTree.state t <> State.initializing ->
  loaded ms0 t ->
  loaded ms0
    (DepsTree._initModule_resume n (inl v)
       (DepsTree.record (Init_returned n v)
          (DepsTree.with_pendingInit
             (remove_first n (DepsTree.pendingInit t)) t))).
Proof.
  intros Hs Hl. unfold DepsTree._initModule_resume.
  match goal with |- loaded _ (DepsTree._moduleInited _ ?x) =>
    apply (loaded_no_init ms0 x);
      [apply (shutdown_level_moduleInited _ (no_init_shutdown_level x));
         [exact Hs | apply no_init_refl]|]
  end.
  apply (loaded_settled ms0 t _ n Hl); try reflexivity.
  - intros m Hm. unfold datum, DepsTree.find, DepsTree.update. simpl.
    rewrite find_update. destruct (String.eqb_spec m n); [contradiction|].
    reflexivity.
  - intros deps_of H. simpl. auto.
Qed.

Lemma phase_loaded_step (ms0 : Modules) (a : Action) (t t' : DepsTree.t) :
  DepsTree.state t <> State.error -> deinit_in_shutdown t ->
  started_up t -> DepsTree.initCallback t = false -> loaded ms0 t ->
  step a t = Some t' ->
  started_up t' /\ DepsTree.initCallback t' = false /\ loaded ms0 t'.
Proof.
  intros Hne Hd Hs Hc Hl Hstep.
  split; [now apply (started_up_step a t)|].
  split.
  { apply (callback_done_step a t t' Hstep).
    split; [now apply started_up_not_off | exact Hc]. }
  destruct a as [| | | |name outcome|name outcome]; simpl in Hstep.
  - injection Hstep as <-.
    rewrite init_not_off; [exact Hl | now apply started_up_not_off].
  - injection Hstep as <-.
    apply (loaded_no_init ms0 t); [|exact Hl].
    apply (shutdown_level_deinit _ (no_init_shutdown_level t)), no_init_refl.
  - injection Hstep as <-. exact Hl.
  - rewrite Hc in Hstep. discriminate.
  - destruct (mem name _); [|discriminate]. injection Hstep as <-.
    destruct outcome as [v|err].
    + apply loaded_init_returned; [|exact Hl].
      now apply started_up_not_initializing.
    + now apply loaded_init_failed.
  - destruct (_ && _); [|discriminate]. injection Hstep as <-.
    match goal with |- loaded _ (DepsTree._deinitModule_resume _ _ ?x) =>
      apply (loaded_no_init ms0 x);
        [apply (shutdown_level_deinitModule_resume _
                  (no_init_shutdown_level x)), no_init_refl|]
    end.
    apply (loaded_no_init ms0 t); [|exact Hl].
    apply (no_init_trans _ (DepsTree.with_pendingDeinit
                              (remove_first name (DepsTree.pendingDeinit t)) t)).
    + now apply no_init_same.
    + apply no_init_record. destruct outcome; simpl; tauto.
Qed.

(** [_initModule] resumed with a value, in a tree that is [initializing]. *)
Lemma initModule_resume_returned (n : string) (v : value) (t : DepsTree.t) :
  DepsTree.state t = State.initializing ->
  DepsTree._initModule_resume n (inl v)
    (DepsTree.record (Init_returned n v)
       (DepsTree.with_pendingInit (remove_first n (DepsTree.pendingInit t)) t))
  = if DepsTree._modulesToLoad (inited n v t) =? 0
    then DepsTree.record Emit_started
           (DepsTree._changeState State.up
              (DepsTree.with_initDefer
                 (DepsTree.resolve (DepsTree._initDefer (inited n v t)))
                 (inited n v t)))
    else fold_left DepsTree.load_dependant
           (dependants_of n (DepsTree.modules t)) (inited n v t).
Proof.
  intros E. unfold DepsTree._initModule_resume, DepsTree._moduleInited.
  cbn [DepsTree.state DepsTree.update DepsTree.record DepsTree.with_trace
       DepsTree.with_modules DepsTree.with_pendingInit].
  rewrite E. cbv zeta.
  replace (dependants_of n (DepsTree.modules t))
    with (dependants_of n
            (DepsTree.modules
               (DepsTree.update n
                  (fun module =>
                     Mod.with_data (js_or (Mod.data module) v) module)
                  (DepsTree.record (Init_returned n v)
                     (DepsTree.with_pendingInit
                        (remove_first n (DepsTree.pendingInit t)) t))))).
  - reflexivity.
  - unfold dependants_of, DepsTree.update. simpl.
    rewrite find_update_same.
    now destruct (find_module n (DepsTree.modules t)).
Qed.

Lemma not_up_names (ms0 : Modules) (t : DepsTree.t) :
  same_graph ms0 t -> not_up t = waiting t (names ms0).
Proof.
  intros Hg. unfold not_up. now rewrite (erase_names _ _ _ Hg).
Qed.

Lemma phase_starting_step (ms0 : Modules) (a : Action) (t t' : DepsTree.t) :
  fresh ms0 -> DepsTree.state t <> State.error -> same_graph ms0 t ->
  DepsTree.state t = State.initializing ->
  DepsTree.initCallback t = false -> starting ms0 t ->
  step a t = Some t' -> phases ms0 t' /\ up_resolved t'.
Proof.
  intros Hfresh Hne Hg Hs Hc Hstart Hstep.
  pose proof Hstart as (Hl & Hres & Hpd & Hcount & Hsome).
  unfold up_resolved.
  pose proof (loading_loaded ms0 t Hl Hres) as Hloaded.
  assert (Hdone : callback_done t') .
  { apply (callback_done_step a t t' Hstep). split; congruence. }
  destruct a as [| | | |name outcome|name outcome]; simpl in Hstep.
  - (* init(): the same promise *)
    injection Hstep as <-. rewrite init_not_off by congruence.
    split; [|congruence].
    right. left. split; [exact Hs|]. split; [exact Hc|]. exact Hstart.
  - (* deinit(): the shutdown begins *)
    injection Hstep as <-.
    pose proof (shutting_down_deinit t Hne) as Hsd.
    split; [|intros E; destruct Hsd; congruence].
    right. right.
    split; [right; exact Hsd|].
    split; [apply Hdone|].
    apply (loaded_no_init ms0 t); [|exact Hloaded].
    apply (shutdown_level_deinit _ (no_init_shutdown_level t)), no_init_refl.
  - injection Hstep as <-. split; [|simpl; congruence]. right. left.
    split; [exact Hs|]. split; [exact Hc|]. exact Hstart.
  - rewrite Hc in Hstep. discriminate.
  - destruct (mem name (DepsTree.pendingInit t)) eqn:Hmem; [|discriminate].
    apply mem_In in Hmem. injection Hstep as Hstep.
    destruct outcome as [v|err].
    + (* the init of [name] returned *)
      rewrite initModule_resume_returned in Hstep by exact Hs.
      destruct (loading_inited ms0 t name v Hfresh Hg Hl Hmem)
        as (Hli & Hnu & Hup & Hml & Hgi & Hci & _).
      set (tc := inited name v t) in *.
      assert (Hnot : all_needed ms0 -> DepsTree._modulesToLoad tc = not_up tc).
      { intros Hall. rewrite Hml, (Hcount Hall).
        rewrite (not_up_names ms0 t Hg), (not_up_names ms0 tc Hgi).
        rewrite (waiting_up t tc name _ Hnu Hup).
        rewrite occurrences_NoDup; [lia | apply Hfresh|].
        destruct Hl as (_ & Hsub & _). now apply Hsub. }
      assert (Hpdc : DepsTree.pendingDeinit tc = []).
      { unfold tc, inited.
        cbn [DepsTree.pendingDeinit DepsTree.with_modulesToLoad].
        rewrite (proj1 (pendingDeinit_init_loops _ _)). exact Hpd. }
      clearbody tc.
      unfold control in Hci. injection Hci as Hc1 Hc2 Hc3 Hc4 Hc5 Hc6 Hc7.
      destruct (DepsTree._modulesToLoad tc =? 0) eqn:Ez.
      * (* it was the last one: the tree is up *)
        apply Z.eqb_eq in Ez. subst t'.
        split.
        2:{ intros _. unfold init_resolved. simpl. rewrite Hc3.
            destruct (DepsTree._initDefer t); [reflexivity | contradiction]. }
        right. right.
        split; [now left|]. split; [simpl; congruence|].
        destruct Hli as (Hnd & Hsub & Hord & Hmod).
        unfold loaded. simpl.
        split; [exact Hnd|]. split; [exact Hsub|]. split; [auto|].
        split.
        -- intros m Hm.
           change (datum (DepsTree.record _ ?x) m) with (datum x m).
           change (datum (DepsTree._changeState _ ?x) m) with (datum x m).
           change (datum (DepsTree.with_initDefer _ ?x) m) with (datum x m).
           destruct (Hmod m (Hsub m Hm)) as (_ & _ & _ & H4 & _ & _ & H7).
           apply H7. apply H4 in Hm. congruence.
        -- intros Hall _ m Hm.
           destruct (Hmod m Hm) as (_ & _ & _ & _ & H5 & _).
           rewrite H5.
           assert (Hzero : waiting tc (names ms0) = 0).
           { rewrite <- (not_up_names ms0 tc Hgi), <- (Hnot Hall). exact Ez. }
           now rewrite (waiting_zero tc _ m Hzero Hm).
      * (* others are still to come up: the dependants are counted down *)
        apply Z.eqb_neq in Ez.
        rewrite (same_graph_dependants ms0 t name Hg) in Hstep.
        destruct (loading_load_dependants ms0 _ tc Hgi Hli) as (Hl' & Hu' & Hm').
        rewrite Hstep in Hl', Hu', Hm'.
        pose proof (module_level_loops _ (control_module_level (control tc))
                      (dependants_of name ms0) tc eq_refl)
          as (_ & _ & _ & Hctl & _).
        rewrite Hstep in Hctl. unfold control in Hctl.
        injection Hctl as Hd1 Hd2 Hd3 Hd4 Hd5 Hd6 Hd7.
        split; [|congruence].
        right. left. split; [congruence|]. split; [congruence|].
        split; [exact Hl'|].
        split; [unfold init_resolved in *; congruence|].
        split; [|split; [|congruence]].
        -- rewrite <- Hstep.
           rewrite (proj1 (proj2 (pendingDeinit_init_loops _ _))).
           exact Hpdc.
        -- intros Hall. unfold counted. rewrite Hm', (Hnot Hall).
           assert (Hg' : same_graph ms0 t').
           { rewrite <- Hstep.
             now apply (module_level_loops _ (same_graph_module_level ms0)). }
           rewrite (not_up_names ms0 tc Hgi), (not_up_names ms0 t' Hg').
           symmetry. now apply waiting_ext.
    + (* the init of [name] failed: the shutdown begins *)
      subst t'.
      assert (Hsd : shutting_down
                      (DepsTree._initModule_resume name (inr err)
                         (DepsTree.record (Init_failed name err)
                            (DepsTree.with_pendingInit
                               (remove_first name (DepsTree.pendingInit t))
                               t)))).
      { unfold DepsTree._initModule_resume, DepsTree._error.
        apply shutting_down_deinit.
        destruct (DepsTree.errorListeners _); exact Hne. }
      split; [|intros E; destruct Hsd; congruence].
      right. right.
      split; [right; exact Hsd|].
      split; [apply Hdone|]. now apply loaded_init_failed.
  - rewrite Hpd in Hstep. discriminate.
Qed.

Lemma resolved_for_good_tree_level : tree_level resolved_for_good.
Proof.
  unfold tree_level, module_level, unload_level, resolved_for_good,
    init_resolved.
  splits; intros; simpl; try tauto.
  - match goal with H : assigned_state _ |- _ =>
      unfold assigned_state in H
    end.
    split; [|tauto]. intros E. subst. intuition discriminate.
  - match goal with t : DepsTree.t |- _ =>
      destruct (DepsTree._initDefer t); simpl in *; tauto
    end.
Qed.

Lemma resolved_for_good_step (a : Action) (t t' : DepsTree.t) :
  step a t = Some t' -> resolved_for_good t -> resolved_for_good t'.
Proof.
  apply (tree_level_step _ resolved_for_good_tree_level).
  intros t1 [H1 H2]. now rewrite init_not_off.
Qed.

(** ** Before the callback of [init()] *)

Lemma deinit_loop_untouched (l : list string) (t : DepsTree.t) :
  (forall n, state_of t n = State.off) ->
  fold_left DepsTree.deinit_module_if_free l t = t.
Proof.
  intros H. induction l as [|x l IH]; simpl; [reflexivity|].
  assert (E : DepsTree.deinit_module_if_free t x = t).
  { unfold DepsTree.deinit_module_if_free.
    pose proof (H x) as Hx. unfold state_of in Hx.
    destruct (DepsTree.find x t) as [m|]; [|reflexivity].
    now rewrite Hx. }
  now rewrite E.
Qed.

Lemma untouched_event (ms0 : Modules) (t t' : DepsTree.t) :
  untouched ms0 t ->
  DepsTree.modules t' = DepsTree.modules t ->
  DepsTree.pendingInit t' = DepsTree.pendingInit t ->
  DepsTree.pendingDeinit t' = DepsTree.pendingDeinit t ->
  (DepsTree.trace t' = DepsTree.trace t \/
   exists st, DepsTree.trace t' = Emit_state st :: DepsTree.trace t) ->
  ~ init_resolved t' ->
  (DepsTree.initCallback t' = true ->
   DepsTree._modulesToLoad t' = 0 /\
   (DepsTree.state t' = State.initializing \/
    DepsTree.state t' = State.deinitializing) /\
   DepsTree._initDefer t' <> None) ->
  untouched ms0 t'.
Proof.
  intros (Hmod & Hpi & Hpd & Hinv & Hord & _) Em Ei Ed Et Hres Hcb.
  unfold untouched, state_of, toLoad, datum, DepsTree.find in *.
  rewrite Em, Ei, Ed.
  split; [exact Hmod|]. split; [exact Hpi|]. split; [exact Hpd|].
  destruct Et as [Et|(st & Et)]; rewrite Et; simpl; auto.
Qed.

Lemma phase_untouched_step (ms0 : Modules) (a : Action) (t t' : DepsTree.t) :
  fresh ms0 -> DepsTree.state t <> State.error -> same_graph ms0 t ->
  DepsTree.state t = State.off \/ DepsTree.initCallback t = true ->
  untouched ms0 t ->
  step a t = Some t' -> phases ms0 t' /\ DepsTree.state t' <> State.up.
Proof.
  intros Hfresh Hne Hg Hph Hu Hstep.
  pose proof Hu as (Hmod & Hpi & Hpd & Hinv & Hord & Hres & Hcb).
  assert (Hnotup : DepsTree.state t <> State.up).
  { destruct Hph as [E|E]; [congruence|].
    destruct (Hcb E) as (_ & [E'|E'] & _); congruence. }
  split.
  2:{ destruct a as [| | | |name outcome|name outcome]; simpl in Hstep.
      - injection Hstep as <-. unfold DepsTree.init.
        destruct (DepsTree.state t) eqn:E; simpl; congruence.
      - injection Hstep as <-.
        destruct (shutting_down_deinit t Hne); congruence.
      - injection Hstep as <-. exact Hnotup.
      - destruct (DepsTree.initCallback t); [|discriminate].
        injection Hstep as <-. unfold DepsTree.init_callback.
        rewrite (proj2 (proj2 (proj2 (proj2 (state_loops _ _))))).
        exact Hnotup.
      - rewrite Hpi in Hstep. discriminate.
      - rewrite Hpd in Hstep. discriminate. }
  destruct a as [| | | |name outcome|name outcome]; simpl in Hstep.
  - (* init() *)
    injection Hstep as <-. unfold DepsTree.init.
    destruct (DepsTree.state t) eqn:Es; cbn [snd DepsTree.defer];
      try (left; split;
           [destruct Hph as [H|H]; [left; congruence | right; exact H]
           | exact Hu]).
    left. split; [right; reflexivity|].
    apply (untouched_event ms0 t); auto.
    + right. eexists. reflexivity.
    + unfold init_resolved. simpl. discriminate.
    + intros _. simpl. split; [reflexivity|]. split; [now left|].
      discriminate.
  - (* deinit() *)
    injection Hstep as <-. unfold DepsTree.deinit.
    destruct (DepsTree.state t) eqn:Es; cbn [snd DepsTree.defer];
      try (left; split;
           [destruct Hph as [H|H]; [left; congruence | right; exact H]
           | exact Hu]);
      try (rewrite deinit_loop_untouched by exact (fun n => proj1 (Hmod n));
           destruct Hph as [Hph|Hph]; [discriminate|];
           left; split; [right; exact Hph|];
           apply (untouched_event ms0 t); auto;
           [right; eexists; reflexivity
           |intros _; split; [now apply Hcb|]; split;
              [right; reflexivity | now apply Hcb]]).
    (* from off *)
    assert (Hc : DepsTree.initCallback t = false).
    { destruct (DepsTree.initCallback t); [|reflexivity].
      destruct Hcb as (_ & [E|E] & _); [reflexivity | discriminate..]. }
    right. right. split; [right; right; reflexivity|]. split; [exact Hc|].
    apply (loaded_no_init ms0 t).
    + apply (sl_changeState _ (no_init_shutdown_level t)), no_init_refl.
    + apply loading_loaded; [now apply untouched_loading | exact Hres].
  - (* an 'error' listener *)
    injection Hstep as <-. left. split; [exact Hph|]. exact Hu.
  - (* the callback *)
    destruct (DepsTree.initCallback t) eqn:Hc; [|discriminate].
    injection Hstep as <-.
    destruct (Hcb eq_refl) as (Hzero & Hoff & Hsome).
    set (t1 := DepsTree.with_initCallback false t).
    assert (Hl1 : loading ms0 none t1) by now apply untouched_loading.
    assert (Hg1 : same_graph ms0 t1) by exact Hg.
    unfold DepsTree.init_callback.
    replace (names (DepsTree.modules t1)) with (names ms0)
      by (symmetry; exact (erase_names _ _ _ Hg)).
    destruct (loading_init_callback_loop ms0 (names ms0) t1 Hg1 Hl1)
      as (Hl' & Hu' & Hm').
    { apply Hfresh. }
    { intros n Hn. split; [exact Hn | apply Hmod]. }
    set (t' := fold_left DepsTree.init_module_if_ready (names ms0) t1) in *.
    pose proof (module_level_loops _ (control_module_level (control t1))
                  (names ms0) t1 eq_refl) as (_ & _ & _ & _ & Hctl).
    fold t' in Hctl. unfold control in Hctl.
    injection Hctl as Hd1 Hd2 Hd3 Hd4 Hd5 Hd6 Hd7.
    assert (Hres' : ~ init_resolved t')
      by (unfold init_resolved in *; rewrite Hd3; exact Hres).
    simpl in Hd1, Hd7.
    destruct (State.eqb (DepsTree.state t) State.initializing) eqn:Ei.
    + right. left.
      split; [rewrite Hd1; now destruct (DepsTree.state t)|].
      split; [exact Hd7|]. split; [exact Hl'|]. split; [exact Hres'|].
      split.
      * unfold t'.
        rewrite (proj2 (proj2 (pendingDeinit_init_loops _ _))). exact Hpd.
      * split; [|congruence].
        intros Hall. unfold counted. rewrite (Hm' Hall).
        assert (Hg' : same_graph ms0 t')
          by now apply (module_level_loops _ (same_graph_module_level ms0)).
        rewrite (not_up_names ms0 t' Hg'), (waiting_ext _ _ _ Hu').
        rewrite waiting_none_up by (intros d; apply Hmod).
        simpl. rewrite Hzero. unfold names. rewrite length_map. lia.
    + right. right.
      split.
      { unfold started_up, shutting_down. rewrite Hd1.
        destruct Hoff as [E|E]; rewrite E in *; [discriminate | tauto]. }
      split; [exact Hd7|]. now apply loading_loaded.
  - rewrite Hpi in Hstep. discriminate.
  - rewrite Hpd in Hstep. discriminate.
Qed.

(** ** The invariant of a run *)

Lemma invariant_step (ms0 : Modules) (a : Action) (t t' : DepsTree.t) :
  fresh ms0 -> step a t = Some t' -> invariant ms0 t -> invariant ms0 t'.
Proof.
  intros Hfresh Hstep (Hn & Hd & Hg & Hp & Hur).
  assert (Hne : DepsTree.state t <> State.error).
  { destruct Hn as [[E|E] _]; [congruence|].
    unfold assigned_state in E. intros E'. rewrite E' in E.
    intuition discriminate. }
  split; [now apply (never_error_step a t)|].
  split; [now apply (deinit_in_shutdown_step a t)|].
  split; [now apply (same_graph_step ms0 a t)|].
  destruct Hp as [[Hph Hu]|[(Hs & Hc & Hst)|(Hs & Hc & Hl)]].
  - destruct (phase_untouched_step ms0 a t t') as [Hp' Hnu]; auto.
    split; [exact Hp'|]. intros E. contradiction.
  - now apply (phase_starting_step ms0 a t).
  - split; [right; right; now apply (phase_loaded_step ms0 a t)|].
    intros E. destruct Hs as [Hup|Hsd].
    + apply (resolved_for_good_step a t t' Hstep).
      split; [congruence | now apply Hur].
    + destruct (shutting_down_step a t t' Hstep Hsd); congruence.
Qed.

Lemma invariant_constructed
  (descriptions : list (string * ModuleDescription)) (t : DepsTree.t) :
  distinct_names descriptions ->
  DepsTree.constructor descriptions = Normal t ->
  invariant (DepsTree.modules t) t.
Proof.
  intros Hnd Hc.
  destruct (constructor_fresh descriptions t Hnd Hc) as ((_ & _ & Hf) & _).
  apply constructor_Normal in Hc
    as (_ & Hst & _ & _ & Hid & _ & Hcb & Hpi & Hpd & Htr).
  unfold invariant. splits.
  5:{ unfold up_resolved. congruence. }
  - split; [now left|]. rewrite Htr. constructor.
  - now left.
  - reflexivity.
  - left. split; [now left|]. unfold untouched.
    rewrite Hpi, Hpd, Htr, Hcb. splits; auto.
    + intros n. unfold state_of, toLoad, datum, seed, DepsTree.find.
      destruct (find_module n (DepsTree.modules t)) as [m|] eqn:Ef.
      * destruct (Hf n m Ef) as [H1 H2]. split; [exact H1|].
        intros _. split; [|reflexivity].
        rewrite H2. unfold dependencies_of. now rewrite Ef.
      * split; [reflexivity|]. intros Hn.
        apply find_module_None in Ef. contradiction.
    + simpl. exact I.
    + unfold init_resolved. rewrite Hid. discriminate.
    + discriminate.
Qed.

Lemma invariant_reachable
  (descriptions : list (string * ModuleDescription)) (t0 t : DepsTree.t)
  (actions : list Action) :
  distinct_names descriptions ->
  DepsTree.constructor descriptions = Normal t0 ->
  run actions t0 = Some t ->
  invariant (DepsTree.modules t0) t.
Proof.
  intros Hnd Hc Hrun.
  destruct (constructor_fresh descriptions t0 Hnd Hc) as (Hfresh & _).
  apply (run_inv (invariant (DepsTree.modules t0))
           (fun a t1 t2 => invariant_step _ a t1 t2 Hfresh)
           actions t0 t Hrun).
  now apply (invariant_constructed descriptions).
Qed.

(** In every phase the invocations of [init] are in order, and once the
    promise of [init()] is resolved every module had its [init] invoked
    once. *)
Lemma phases_order (ms0 : Modules) (t : DepsTree.t) :
  phases ms0 t ->
  init_after_deps (fun n => dependencies_of n ms0) (DepsTree.trace t) /\
  (all_needed ms0 -> init_resolved t ->
   forall n, In n (names ms0) -> invoked n (DepsTree.trace t) = 1%nat).
Proof.
  intros [[_ Hu]|[(_ & _ & Hst)|(_ & _ & Hl)]].
  - destruct Hu as (_ & _ & _ & _ & Hord & Hres & _).
    split; [exact Hord|]. intros _ H; contradiction.
  - destruct Hst as ((_ & _ & Hord & _) & Hres & _).
    split; [exact Hord|]. intros _ H; contradiction.
  - destruct Hl as (_ & _ & Hord & _ & Hres).
    split; [exact Hord|]. exact Hres.
Qed.

Lemma init_after_deps_ext (f g : string -> list string) (tr : list Event) :
  (forall n, f n = g n) -> init_after_deps f tr -> init_after_deps g tr.
Proof.
  intros Hfg. induction tr as [|e tr IH]; simpl; [auto|].
  intros [He Htr]. split; [|auto].
  destruct e; auto. intros d Hd. apply He. now rewrite Hfg.
Qed.

(** C1.  In a tree in which every module is needed (acyclic or not),
    whatever the user and the operations do: every invocation of an [init]
    operation comes after the [init] operation of each declared dependency of
    its module has returned and the dependency has reported [up]; and
    whenever the promise [init()] returned is resolved, or the tree is [up]
    (so that [init()] returns a resolved promise), the [init] operation of
    every module has been invoked exactly once. *)
Theorem init_after_dependencies
  (descriptions : list (string * ModuleDescription)) (t0 t : DepsTree.t)
  (actions : list Action) :
  distinct_names descriptions ->
  DepsTree.constructor descriptions = Normal t0 ->
  all_needed (DepsTree.modules t0) ->
  run actions t0 = Some t ->
  init_after_deps (deps_in descriptions) (DepsTree.trace t) /\
  (init_resolved t \/ DepsTree.state t = State.up ->
   forall n, In n (map fst descriptions) ->
             invoked n (DepsTree.trace t) = 1%nat).
Proof.
  intros Hnd Hc Hall Hrun.
  destruct (constructor_fresh descriptions t0 Hnd Hc) as (_ & Hn & Hd & _).
  destruct (invariant_reachable descriptions t0 t actions Hnd Hc Hrun)
    as (_ & _ & _ & Hp & Hur).
  destruct (phases_order _ t Hp) as [Hord Hres].
  split.
  - apply (init_after_deps_ext _ _ _ Hd Hord).
  - intros H n Hin. apply (Hres Hall).
    + destruct H as [H|H]; [exact H | now apply Hur].
    + now rewrite Hn.
Qed.

Lemma diamond_distinct : distinct_names diamond.
Proof.
  unfold distinct_names. simpl.
  repeat constructor; simpl; intuition discriminate.
Qed.

Lemma init_after_dependencies_witness :
  exists t0 t,
    distinct_names diamond /\
    DepsTree.constructor diamond = Normal t0 /\
    all_needed (DepsTree.modules t0) /\
    run [call_init; run_init_callback;
         init_settles "A" (inl (VNumber 1)); init_settles "C" (inl VNull);
         init_settles "B" (inl (VString "b")); init_settles "D" (inl VNull)]
      t0 = Some t /\
    init_resolved t /\
    init_after_deps (deps_in diamond) (DepsTree.trace t) /\
    (init_resolved t \/ DepsTree.state t = State.up ->
     forall n, In n (map fst diamond) -> invoked n (DepsTree.trace t) = 1%nat).
Proof.
  destruct (DepsTree.constructor diamond) as [t0| |] eqn:E0;
    try (vm_compute in E0; discriminate).
  assert (Hall : all_needed (DepsTree.modules t0)).
  { vm_compute in E0. injection E0 as <-. intros n m H.
    apply find_module_Some_In in H. simpl in H.
    repeat (destruct H as [H|H]; [injection H as _ <-; reflexivity|]).
    contradiction. }
  destruct (run [call_init; run_init_callback;
                 init_settles "A" (inl (VNumber 1));
                 init_settles "C" (inl VNull);
                 init_settles "B" (inl (VString "b"));
                 init_settles "D" (inl VNull)] t0) as [t|] eqn:E.
  2:{ vm_compute in E0. injection E0 as <-. vm_compute in E. discriminate. }
  assert (Hres : init_resolved t).
  { vm_compute in E0. injection E0 as <-. vm_compute in E.
    injection E as <-. reflexivity. }
  exists t0, t. split; [exact diamond_distinct|]. split; [reflexivity|].
  split; [exact Hall|]. split; [exact E|]. split; [exact Hres|].
  exact (init_after_dependencies diamond t0 t _ diamond_distinct E0 Hall E).
Defined.

(** ** Seed data *)

Lemma datum_module_level (n : string) (v : value) :
  module_level (fun t => datum t n = v).
Proof.
  unfold module_level, unload_level. splits; intros; try assumption.
  - rewrite datum_update; [assumption|].
    intros m. now apply counters_only_data.
  - unfold DepsTree._changeModuleState.
    change (datum (DepsTree.record _ ?x) n) with (datum x n).
    now rewrite datum_update.
Qed.

Lemma datum_moduleInited (name n : string) (t : DepsTree.t) :
  datum (DepsTree._moduleInited name t) n = datum t n.
Proof.
  pose proof (datum_module_level n (datum t n)) as HM.
  unfold DepsTree._moduleInited.
  destruct (DepsTree.state t) eqn:E; try reflexivity.
  - match goal with |- context [fold_left DepsTree.count_dependant ?l ?a] =>
      assert (H1 : datum (fold_left DepsTree.count_dependant l a) n
                   = datum t n)
        by (apply (module_level_loops _ HM);
            now apply (module_level_changeModuleState _ HM));
      set (t1 := fold_left DepsTree.count_dependant l a) in *
    end.
    cbv zeta. destruct (_ =? 0); [exact H1|].
    now apply (module_level_loops _ HM).
  - now apply (module_level_deinitModule _ HM).
Qed.

(** C4, as amended.  When the [init] operation of a module returns, the
    value it returns is stored into the [data] of the module only if the
    seed given at construction is absent or falsy ([undefined], [null],
    [false], [0], the empty string); a truthy seed is kept. *)
Theorem data_after_init
  (descriptions : list (string * ModuleDescription)) (t0 t t' : DepsTree.t)
  (actions : list Action) (name : string) (v : value) :
  distinct_names descriptions ->
  DepsTree.constructor descriptions = Normal t0 ->
  run actions t0 = Some t ->
  step (init_settles name (inl v)) t = Some t' ->
  data_of name t'
  = Some (if truthy (seed_in descriptions name)
          then seed_in descriptions name else v).
Proof.
  intros Hnd Hc Hrun Hstep.
  destruct (constructor_fresh descriptions t0 Hnd Hc) as (Hfresh & _ & _ & Hseed).
  destruct (invariant_reachable descriptions t0 t actions Hnd Hc Hrun)
    as (_ & _ & Hg & Hp & _).
  set (ms0 := DepsTree.modules t0) in *.
  simpl in Hstep.
  destruct (mem name (DepsTree.pendingInit t)) eqn:Hmem; [|discriminate].
  apply mem_In in Hmem. injection Hstep as <-.
  (* the module is in flight: it is a module, and its data is its seed *)
  assert (Hin : In name (names ms0) /\ datum t name = seed ms0 name).
  { destruct Hp as [[_ Hu]|[(_ & _ & Hst)|(_ & _ & Hl)]].
    - destruct Hu as (_ & Hpi & _). rewrite Hpi in Hmem. contradiction.
    - destruct Hst as ((_ & Hsub & _ & Hmod) & _).
      split; [now apply Hsub|].
      destruct (Hmod name (Hsub name Hmem)) as (_ & _ & _ & H4 & _ & _ & H7).
      apply H7. apply H4 in Hmem. congruence.
    - destruct Hl as (_ & Hsub & _ & Hda & _). split; auto. }
  destruct Hin as [Hin Hda].
  destruct (find_names ms0 t name Hg Hin) as (m & Hf).
  unfold DepsTree._initModule_resume.
  assert (Hd : datum
                 (DepsTree._moduleInited name
                    (DepsTree.update name
                       (fun module =>
                          Mod.with_data (js_or (Mod.data module) v) module)
                       (DepsTree.record (Init_returned name v)
                          (DepsTree.with_pendingInit
                             (remove_first name (DepsTree.pendingInit t)) t))))
                 name
               = js_or (seed ms0 name) v).
  { rewrite datum_moduleInited, datum_set, String.eqb_refl.
    - change (datum (DepsTree.record _ ?x) name) with (datum x name).
      change (datum (DepsTree.with_pendingInit _ ?x) name)
        with (datum x name).
      now rewrite Hda.
    - change (DepsTree.find name (DepsTree.record _ ?x))
        with (DepsTree.find name x).
      change (DepsTree.find name (DepsTree.with_pendingInit _ ?x))
        with (DepsTree.find name x).
      congruence. }
  match goal with |- data_of name ?x = _ => set (t' := x) in * end.
  assert (Hg' : same_graph ms0 t').
  { apply (same_graph_step ms0 (init_settles name (inl v)) t); [|exact Hg].
    simpl. apply mem_In in Hmem. now rewrite Hmem. }
  destruct (find_names ms0 t' name Hg' Hin) as (m' & Hf').
  unfold data_of. unfold datum in Hd. rewrite Hf' in *. simpl.
  rewrite Hd, Hseed. reflexivity.
Qed.

Lemma data_after_init_witness :
  exists t0 t t',
    distinct_names seeded_example /\
    DepsTree.constructor seeded_example = Normal t0 /\
    run [call_init; run_init_callback] t0 = Some t /\
    step (init_settles "a" (inl (VString "x"))) t = Some t' /\
    data_of "a" t'
    = Some (if truthy (seed_in seeded_example "a")
            then seed_in seeded_example "a" else VString "x").
Proof.
  assert (Hnd : distinct_names seeded_example).
  { unfold distinct_names. simpl.
    repeat constructor; simpl; intuition discriminate. }
  destruct (DepsTree.constructor seeded_example) as [t0| |] eqn:E0;
    try (vm_compute in E0; discriminate).
  destruct (run [call_init; run_init_callback] t0) as [t|] eqn:E.
  2:{ vm_compute in E0. injection E0 as <-. vm_compute in E. discriminate. }
  destruct (step (init_settles "a" (inl (VString "x"))) t) as [t'|] eqn:E'.
  2:{ vm_compute in E0. injection E0 as <-. vm_compute in E.
      injection E as <-. vm_compute in E'. discriminate. }
  exists t0, t, t'. split; [exact Hnd|]. split; [reflexivity|].
  split; [exact E|]. split; [exact E'|].
  exact (data_after_init seeded_example t0 t t' _ "a" (VString "x")
           Hnd E0 E E').
Defined.

(** * Further properties of the code *)

(** ** The constructor *)





(** X2.  In the tree the constructor returns, [dependants] is the inverse
    of the declared dependencies, with multiplicity: module [x] is listed
    among the dependants of [d] exactly as often as [x] lists [d] in its
    [deps]. *)
Theorem dependants_inverse_of_deps
  (descriptions : list (string * ModuleDescription)) (t : DepsTree.t)
  (d x : string) :
  distinct_names descriptions ->
  DepsTree.constructor descriptions = Normal t ->
  count_occ string_dec (dependants_of d (DepsTree.modules t)) x
  = count_occ string_dec (deps_in descriptions x) d.
Proof.
  intros Hnd Hc.
  destruct (constructor_fresh descriptions t Hnd Hc)
    as ((_ & Hcount & _) & _ & Hd & _).
  now rewrite Hcount, Hd.
Qed.

Lemma dependants_inverse_of_deps_witness :
  exists t,
    distinct_names diamond /\
    DepsTree.constructor diamond = Normal t /\
    count_occ string_dec (dependants_of "A" (DepsTree.modules t)) "B"
    = count_occ string_dec (deps_in diamond "B") "A".
Proof.
  destruct (DepsTree.constructor diamond) as [t| |] eqn:E;
    try (vm_compute in E; discriminate).
  exists t. split; [exact diamond_distinct|]. split; [reflexivity|].
  exact (dependants_inverse_of_deps diamond t "A" "B" diamond_distinct E).
Defined.

Lemma constructor_module
  (descriptions : list (string * ModuleDescription)) (t : DepsTree.t)
  (n : string) (d : ModuleDescription) :
  distinct_names descriptions ->
  DepsTree.constructor descriptions = Normal t ->
  In (n, d) descriptions ->
  exists m,
    DepsTree.find n t = Some m /\
    no_dependants (no_needed m) = no_dependants (no_needed (new_module d)).
Proof.
  intros Hnd Hc Hin.
  destruct (constructor_fresh descriptions t Hnd Hc) as (_ & Hn & _).
  apply constructor_Normal in Hc as (Hb & _).
  destruct (build_modules_result descriptions Hnd)
    as [(_ & dep & E & _)|(_ & ms1 & ms2 & E1 & E2 & He1 & He2 & _)];
    [congruence|].
  rewrite Hb in E2. injection E2 as <-.
  assert (Hnames : In n (names (DepsTree.modules t))).
  { rewrite Hn. change n with (fst (n, d)). now apply in_map. }
  destruct (find_module_In _ _ Hnames) as (m & Hf).
  exists m. split; [exact Hf|].
  destruct (erase_find_Some _ _ _ _ _ He2 Hf) as (m1 & Hf1 & Hm1).
  destruct (erase_find_Some _ _ _ _ _ He1 Hf1) as (m0 & Hf0 & Hm0).
  destruct (find_new_modules_inv _ _ _ Hf0) as (d' & Hin' & ->).
  assert (d' = d) as ->.
  { unfold distinct_names in Hnd. clear -Hnd Hin Hin'.
    induction descriptions as [|[n0 d0] rest IH]; [contradiction|].
    simpl in Hnd. inversion Hnd as [|? ? Hn0 Hnd']; subst.
    destruct Hin as [H|H], Hin' as [H'|H'].
    - congruence.
    - injection H as -> ->. exfalso. apply Hn0.
      change n with (fst (n, d')). now apply in_map.
    - injection H' as -> ->. exfalso. apply Hn0.
      change n with (fst (n, d)). now apply in_map.
    - now apply IH. }
  apply (f_equal no_dependants) in Hm1.
  apply (f_equal no_needed) in Hm0.
  unfold no_dependants, no_needed, Mod.with_dependants, Mod.with_needed in *.
  destruct m, m1. simpl in *. congruence.
Qed.

(** X3.  The second and the third loop of the constructor assign nothing
    but [dependants] and [needed]: every module of the input is in the tree
    with the dependencies it declared (none when [deps] is absent), a
    counter [dependenciesToLoad] that is their number, state [off], no
    dependant to unload, its seed as [data], its [init] operation, and its
    [deinit] operation or the default that does nothing; and the tree has no
    other modules. *)
Theorem constructor_keeps_description
  (descriptions : list (string * ModuleDescription)) (t : DepsTree.t) :
  distinct_names descriptions ->
  DepsTree.constructor descriptions = Normal t ->
  (forall n d,
     In (n, d) descriptions ->
     exists m,
       DepsTree.find n t = Some m /\
       Mod.dependencies m = declared_deps d /\
       Mod.dependenciesToLoad m = Z.of_nat (List.length (declared_deps d)) /\
       Mod.state m = State.off /\ Mod.dependantsToUnload m = 0 /\
       Mod.data m = data d /\ Mod.init m = init d /\
       Mod.deinit m = match deinit d with Some op => op | None => Noop end /\
       Mod.error m = None) /\
  (forall n, ~ In n (map fst descriptions) -> DepsTree.find n t = None).
Proof.
  intros Hnd Hc. split.
  - intros n d Hin.
    destruct (constructor_module descriptions t n d Hnd Hc Hin)
      as (m & Hf & Hm).
    exists m. split; [exact Hf|].
    unfold no_dependants, no_needed, Mod.with_dependants, Mod.with_needed,
      new_module, declared_deps in *.
    destruct m. simpl in *. injection Hm as -> -> -> -> -> -> -> ->.
    splits; reflexivity.
  - intros n Hn.
    destruct (constructor_fresh descriptions t Hnd Hc) as (_ & Hnames & _).
    unfold DepsTree.find.
    destruct (find_module n (DepsTree.modules t)) as [m|] eqn:Hf;
      [|reflexivity].
    exfalso. apply Hn. rewrite <- Hnames.
    apply find_module_Some_In in Hf.
    change n with (fst (n, m)). now apply in_map.
Qed.

Lemma constructor_keeps_description_witness :
  exists t,
    distinct_names seeded_example /\
    DepsTree.constructor seeded_example = Normal t /\
    (forall n d,
       In (n, d) seeded_example ->
       exists m,
         DepsTree.find n t = Some m /\
         Mod.dependencies m = declared_deps d /\
         Mod.dependenciesToLoad m
         = Z.of_nat (List.length (declared_deps d)) /\
         Mod.state m = State.off /\ Mod.dependantsToUnload m = 0 /\
         Mod.data m = data d /\ Mod.init m = init d /\
         Mod.deinit m
         = match deinit d with Some op => op | None => Noop end /\
         Mod.error m = None) /\
    (forall n, ~ In n (map fst seeded_example) -> DepsTree.find n t = None).
Proof.
  assert (Hnd : distinct_names seeded_example).
  { unfold distinct_names. simpl.
    repeat constructor; simpl; intuition discriminate. }
  destruct (DepsTree.constructor seeded_example) as [t| |] eqn:E;
    try (vm_compute in E; discriminate).
  exists t. split; [exact Hnd|]. split; [reflexivity|].
  exact (constructor_keeps_description seeded_example t Hnd E).
Defined.

(** ** The outline of a turn *)

Lemma outline_module_level
  (c : State.t * list Error * option Deferred * option Deferred * bool * nat
       * bool * list Event) :
  module_level (fun t => outline t = c).
Proof. unfold module_level, unload_level. splits; intros; assumption. Qed.

Lemma outline_loops (l : list string) (t : DepsTree.t) :
  outline (fold_left DepsTree.deinit_module_if_free l t) = outline t /\
  outline (fold_left DepsTree.unload_dependency l t) = outline t /\
  outline (fold_left DepsTree.count_dependant l t) = outline t /\
  outline (fold_left DepsTree.load_dependant l t) = outline t /\
  outline (fold_left DepsTree.init_module_if_ready l t) = outline t.
Proof.
  exact (module_level_loops _ (outline_module_level (outline t)) l t eq_refl).
Qed.

Lemma outline_deinitModule (name : string) (t : DepsTree.t) :
  outline (DepsTree._deinitModule name t) = outline t.
Proof. reflexivity. Qed.

Lemma outline_deinit (t : DepsTree.t) :
  outline (snd (DepsTree.deinit t)) = outline (deinit_head t).
Proof.
  unfold DepsTree.deinit, deinit_head.
  destruct (DepsTree.state t); try reflexivity;
    cbn [snd DepsTree.defer];
    now rewrite (proj1 (outline_loops _ _)).
Qed.

Lemma outline_error (err : Error) (name : option string) (t : DepsTree.t) :
  outline (DepsTree._error err name t) = outline (error_head err name t).
Proof. unfold DepsTree._error, error_head. apply outline_deinit. Qed.

Lemma outline_deinit_head (a b : DepsTree.t) :
  outline a = outline b -> outline (deinit_head a) = outline (deinit_head b).
Proof.
  unfold outline, control, deinit_head. intros H.
  injection H as Hs ? ? ? ? ? ? ?. rewrite Hs.
  destruct (DepsTree.state b) eqn:E; simpl; congruence.
Qed.

Lemma outline_error_head (err : Error) (name : option string)
  (a b : DepsTree.t) :
  outline a = outline b ->
  outline (error_head err name a) = outline (error_head err name b).
Proof.
  intros H. unfold error_head. apply outline_deinit_head.
  unfold outline, control in *.
  injection H as ? ? ? ? Hl ? ? ?. rewrite Hl.
  destruct (DepsTree.errorListeners b) eqn:E; simpl; congruence.
Qed.

Lemma outline_stopped_head (a b : DepsTree.t) :
  outline a = outline b -> outline (stopped_head a) = outline (stopped_head b).
Proof.
  unfold outline, control, stopped_head. intros H.
  injection H as ? ? ? ? ? ? ? ?. simpl. congruence.
Qed.

Lemma outline_started_head (a b : DepsTree.t) :
  outline a = outline b -> outline (started_head a) = outline (started_head b).
Proof.
  unfold outline, control, started_head. intros H.
  injection H as ? ? ? ? ? ? ? ?. simpl. congruence.
Qed.

Lemma outline_console (e : Error) (a b : DepsTree.t) :
  outline a = outline b ->
  outline (DepsTree.record (Console_error e) a)
  = outline (DepsTree.record (Console_error e) b).
Proof.
  unfold outline, control. intros H.
  injection H as ? ? ? ? ? ? ? ?. simpl. congruence.
Qed.

Lemma outline_moduleInited (name : string) (t : DepsTree.t) :
  match DepsTree.state t with
  | State.initializing =>
      outline (DepsTree._moduleInited name t) = outline t \/
      outline (DepsTree._moduleInited name t) = outline (started_head t)
  | State.deinitializing => outline (DepsTree._moduleInited name t) = outline t
  | _ =>
      DepsTree._moduleInited name t
      = DepsTree.record (Console_error StateError) t
  end.
Proof.
  unfold DepsTree._moduleInited.
  destruct (DepsTree.state t) eqn:E; try reflexivity.
  match goal with |- context [fold_left DepsTree.count_dependant ?l ?a] =>
    assert (H1 : outline (fold_left DepsTree.count_dependant l a) = outline t)
      by (rewrite (proj1 (proj2 (proj2 (outline_loops _ _)))); reflexivity);
    set (t1 := fold_left DepsTree.count_dependant l a) in *
  end.
  cbv zeta. destruct (_ =? 0).
  - right. unfold started_head, outline, control in *. simpl.
    injection H1 as ? ? ? ? ? ? ? ?. congruence.
  - left. now rewrite (proj1 (proj2 (proj2 (proj2 (outline_loops _ _))))).
Qed.

Lemma outline_moduleInited_returned (name : string) (t1 a : DepsTree.t) :
  outline a = outline t1 ->
  match DepsTree.state a with
  | State.initializing =>
      outline (DepsTree._moduleInited name a) = outline t1 \/
      outline (DepsTree._moduleInited name a) = outline (started_head t1)
  | State.deinitializing =>
      outline (DepsTree._moduleInited name a) = outline t1
  | _ =>
      outline (DepsTree._moduleInited name a)
      = outline (DepsTree.record (Console_error StateError) t1)
  end.
Proof.
  intros H1. pose proof (outline_moduleInited name a) as H.
  destruct (DepsTree.state a).
  1, 3, 5, 6: rewrite H; now apply outline_console.
  - destruct H as [H|H]; [left | right]; rewrite H;
      [exact H1 | now apply outline_started_head].
  - now rewrite H.
Qed.

Lemma outline_deinitModule_resume (name : string) (outcome : option Error)
  (t : DepsTree.t) :
  let t1 :=
    match outcome with
    | None => t
    | Some err => error_head err (Some name) t
    end in
  outline (DepsTree._deinitModule_resume name outcome t) = outline t1 \/
  outline (DepsTree._deinitModule_resume name outcome t)
  = outline (stopped_head t1).
Proof.
  cbv zeta. unfold DepsTree._deinitModule_resume.
  match goal with |- context [DepsTree.with_modulesToUnload _ ?a] =>
    assert (H1 : outline a
                 = outline match outcome with
                           | None => t
                           | Some err => error_head err (Some name) t
                           end);
      [|set (t1 := a) in *]
  end.
  { destruct outcome as [err|]; [|reflexivity].
    rewrite outline_error. now apply outline_error_head. }
  cbv zeta. destruct (_ <=? 0).
  - right. unfold stopped_head, outline, control in *. simpl.
    injection H1 as ? ? ? ? ? ? ? ?. congruence.
  - left. now rewrite (proj1 (proj2 (outline_loops _ _))).
Qed.

Lemma Some_inj {A : Type} (a b : A) : Some a = Some b -> a = b.
Proof. now intros [= ->]. Qed.

Lemma step_init_settles (name : string) (outcome : value + Error)
  (t : DepsTree.t) :
  step (init_settles name outcome) t
  = if mem name (DepsTree.pendingInit t)
    then Some (DepsTree._initModule_resume name outcome
                 (DepsTree.record
                    match outcome with
                    | inl data => Init_returned name data
                    | inr err => Init_failed name err
                    end
                    (DepsTree.with_pendingInit
                       (remove_first name (DepsTree.pendingInit t)) t)))
    else None.
Proof. reflexivity. Qed.

Lemma step_deinit_settles (name : string) (outcome : option Error)
  (t : DepsTree.t) :
  step (deinit_settles name outcome) t
  = if mem name (DepsTree.pendingDeinit t)
       && match outcome with Some _ => can_fail name t | None => true end
    then Some (DepsTree._deinitModule_resume name outcome
                 (DepsTree.record
                    match outcome with
                    | None => Deinit_returned name
                    | Some err => Deinit_failed name err
                    end
                    (DepsTree.with_pendingDeinit
                       (remove_first name (DepsTree.pendingDeinit t)) t)))
    else None.
Proof. reflexivity. Qed.

Lemma step_run_init_callback (t : DepsTree.t) :
  step run_init_callback t
  = if DepsTree.initCallback t
    then Some (DepsTree.init_callback (DepsTree.with_initCallback false t))
    else None.
Proof. reflexivity. Qed.

Lemma step_outline_callback (t t' : DepsTree.t) :
  step run_init_callback t = Some t' -> outline_step run_init_callback t t'.
Proof.
  rewrite step_run_init_callback. unfold outline_step.
  destruct (DepsTree.initCallback t); [|discriminate].
  intros H%Some_inj. subst t'. split; [reflexivity|].
  unfold DepsTree.init_callback.
  now rewrite (proj2 (proj2 (proj2 (proj2 (outline_loops _ _))))).
Qed.

Lemma step_outline_returned (name : string) (v : value) (t t' : DepsTree.t) :
  step (init_settles name (inl v)) t = Some t' ->
  outline_step (init_settles name (inl v)) t t'.
Proof.
  rewrite step_init_settles. unfold outline_step.
  destruct (mem name _) eqn:Hm; [|discriminate].
  intros H%Some_inj. subst t'. split; [now apply mem_In|].
  unfold DepsTree._initModule_resume.
  match goal with |- context [DepsTree._moduleInited name ?a] =>
    exact (outline_moduleInited_returned name
             (DepsTree.record (Init_returned name v) t) a eq_refl)
  end.
Qed.

Lemma outline_initModule_resume_failed (name : string) (err : Error)
  (a b : DepsTree.t) :
  outline a = outline b ->
  outline (DepsTree._initModule_resume name (inr err) a)
  = outline (error_head err (Some name) b).
Proof.
  intros H. unfold DepsTree._initModule_resume. rewrite outline_error.
  apply outline_error_head. exact H.
Qed.

Lemma step_outline_failed (name : string) (err : Error) (t t' : DepsTree.t) :
  step (init_settles name (inr err)) t = Some t' ->
  outline_step (init_settles name (inr err)) t t'.
Proof.
  rewrite step_init_settles. unfold outline_step.
  destruct (mem name _) eqn:Hm; [|discriminate].
  intros H%Some_inj. subst t'. split; [now apply mem_In|].
  now apply outline_initModule_resume_failed.
Qed.

Lemma step_outline_deinit (name : string) (outcome : option Error)
  (t t' : DepsTree.t) :
  step (deinit_settles name outcome) t = Some t' ->
  outline_step (deinit_settles name outcome) t t'.
Proof.
  rewrite step_deinit_settles. unfold outline_step.
  destruct (mem name _) eqn:Hm; [|discriminate]. cbn [andb].
  destruct (match outcome with Some _ => _ | None => _ end);
    [|discriminate].
  intros H%Some_inj. subst t'. split; [now apply mem_In|].
  match goal with
    |- context [DepsTree._deinitModule_resume name outcome ?a] =>
      pose proof (outline_deinitModule_resume name outcome a) as H
  end.
  cbv zeta in H |- *. destruct outcome as [err|]; [|exact H].
  assert (He : outline
                 (error_head err (Some name)
                    (DepsTree.record (Deinit_failed name err)
                       (DepsTree.with_pendingDeinit
                          (remove_first name (DepsTree.pendingDeinit t)) t)))
               = outline
                   (error_head err (Some name)
                      (DepsTree.record (Deinit_failed name err) t)))
    by now apply outline_error_head.
  destruct H as [H|H]; [left | right]; rewrite H; [exact He|].
  now apply outline_stopped_head.
Qed.

Lemma step_outline (a : Action) (t t' : DepsTree.t) :
  step a t = Some t' -> outline_step a t t'.
Proof.
  destruct a as [| | | |name [v|err]|name outcome].
  - intros [= <-]. reflexivity.
  - intros [= <-]. apply outline_deinit.
  - intros [= <-]. reflexivity.
  - apply step_outline_callback.
  - apply step_outline_returned.
  - apply step_outline_failed.
  - apply step_outline_deinit.
Qed.

(** ** The state of the tree *)

Lemma outline_fields (a b : DepsTree.t) :
  outline a = outline b ->
  DepsTree.state a = DepsTree.state b /\
  DepsTree.errors a = DepsTree.errors b /\
  DepsTree._initDefer a = DepsTree._initDefer b /\
  DepsTree._deinitDefer a = DepsTree._deinitDefer b /\
  DepsTree.errorListeners a = DepsTree.errorListeners b /\
  DepsTree.defers a = DepsTree.defers b /\
  DepsTree.initCallback a = DepsTree.initCallback b /\
  filter tree_event (DepsTree.trace a) = filter tree_event (DepsTree.trace b).
Proof.
  unfold outline, control. intros H.
  injection H as ? ? ? ? ? ? ? ?. splits; assumption.
Qed.



Lemma shutting_down_deinit_head (t : DepsTree.t) :
  shutting_down t -> deinit_head t = t.
Proof. intros [E|E]; unfold deinit_head; now rewrite E. Qed.

Lemma reachable_step (descriptions : list (string * ModuleDescription))
  (a : Action) (t t' : DepsTree.t) :
  reachable descriptions t -> step a t = Some t' ->
  reachable descriptions t'.
Proof.
  intros (actions & Hrun) Hstep. exists (actions ++ [a])%list.
  unfold started in *.
  destruct (DepsTree.constructor descriptions) as [t0| |]; try discriminate.
  revert t0 Hrun. induction actions as [|b actions IH]; intros t0; simpl.
  - intros H%Some_inj. subst t0. now rewrite Hstep.
  - destruct (step b t0) as [t1|]; [|discriminate]. apply IH.
Qed.

Lemma reachable_run (descriptions : list (string * ModuleDescription))
  (actions : list Action) (t t' : DepsTree.t) :
  reachable descriptions t -> run actions t = Some t' ->
  reachable descriptions t'.
Proof.
  intros H Hrun.
  apply (run_inv (reachable descriptions)) with (actions := actions) (t := t);
    auto.
  intros a t1 t2 Hstep Hr. now apply (reachable_step descriptions a t1).
Qed.



Lemma down_step (a : Action) (t t' : DepsTree.t) :
  step a t = Some t' -> DepsTree.state t = State.down ->
  DepsTree.state t' = State.down.
Proof.
  intros Hstep E. apply step_outline in Hstep.
  assert (Hh : deinit_head t = t) by (unfold deinit_head; now rewrite E).
  destruct a as [| | | |name [v|err]|name outcome]; unfold outline_step in Hstep.
  - subst t'. unfold DepsTree.init. now rewrite E.
  - apply outline_fields in Hstep as (-> & _). now rewrite Hh.
  - now subst t'.
  - destruct Hstep as (_ & H). now apply outline_fields in H as (-> & _).
  - destruct Hstep as (_ & H). rewrite E in H.
    now apply outline_fields in H as (-> & _).
  - destruct Hstep as (_ & H). apply outline_fields in H as (-> & _).
    unfold error_head. rewrite shutting_down_deinit_head.
    + now destruct (DepsTree.errorListeners _).
    + right. now destruct (DepsTree.errorListeners _).
  - destruct Hstep as (_ & H). cbv zeta in H.
    destruct H as [H|H]; apply outline_fields in H as (-> & _);
      [|reflexivity].
    destruct outcome as [err|]; [|exact E].
    unfold error_head. rewrite shutting_down_deinit_head.
    + now destruct (DepsTree.errorListeners _).
    + right. now destruct (DepsTree.errorListeners _).
Qed.

(** X5.  A shutdown is final.  Once a tree is [deinitializing] or [down],
    whatever happens next it stays [deinitializing] or [down], a tree that
    is [down] stays [down], and [init()] throws and changes nothing: a tree
    cannot be started a second time. *)
Theorem shutdown_is_final (actions : list Action) (t t' : DepsTree.t) :
  shutting_down t -> run actions t = Some t' ->
  shutting_down t' /\
  (DepsTree.state t = State.down -> DepsTree.state t' = State.down) /\
  DepsTree.init t' = (Throw InvalidStateError, t').
Proof.
  intros Hs Hrun.
  assert (Hs' : shutting_down t').
  { apply (run_inv shutting_down shutting_down_step actions t t' Hrun Hs). }
  splits.
  - exact Hs'.
  - intros E.
    apply (run_inv (fun x => DepsTree.state x = State.down))
      with (actions := actions) (t := t); auto.
    intros a t1 t2. apply down_step.
  - unfold DepsTree.init. destruct Hs' as [E|E]; now rewrite E.
Qed.

Lemma shutdown_is_final_witness :
  exists t t',
    shutting_down t /\
    run [init_settles "A" (inl VNull); deinit_settles "A" None; call_init] t
    = Some t' /\
    shutting_down t' /\
    (DepsTree.state t = State.down -> DepsTree.state t' = State.down) /\
    DepsTree.init t' = (Throw InvalidStateError, t').
Proof.
  destruct (started diamond [call_init; run_init_callback; call_deinit])
    as [t|] eqn:E; [|vm_compute in E; discriminate].
  assert (Hs : shutting_down t).
  { vm_compute in E. injection E as <-. now left. }
  destruct (run [init_settles "A" (inl VNull); deinit_settles "A" None;
                 call_init] t) as [t'|] eqn:E'.
  2:{ vm_compute in E. injection E as <-. vm_compute in E'. discriminate. }
  exists t, t'. split; [exact Hs|]. split; [exact E'|].
  exact (shutdown_is_final _ t t' Hs E').
Defined.

(** ** The state table of [deinit()] *)





(** ** Notifications and promises *)

Lemma reachable_inv (descriptions : list (string * ModuleDescription))
  (P : DepsTree.t -> Prop) :
  (forall t, DepsTree.constructor descriptions = Normal t -> P t) ->
  (forall a t t', step a t = Some t' -> P t -> P t') ->
  forall t, reachable descriptions t -> P t.
Proof.
  intros H0 Hstep t (actions & Hrun). unfold started in Hrun.
  destruct (DepsTree.constructor descriptions) as [t0| |] eqn:Ec;
    try discriminate.
  apply (run_inv P Hstep actions t0 t Hrun). now apply H0.
Qed.

Lemma filter_filter_stronger {A : Type} (p q : A -> bool) (l : list A) :
  (forall x, p x = true -> q x = true) ->
  filter p (filter q l) = filter p l.
Proof.
  intros Hpq. induction l as [|x l IH]; simpl; [reflexivity|].
  destruct (q x) eqn:Eq; simpl.
  - now rewrite IH.
  - destruct (p x) eqn:Ep; [|exact IH].
    apply Hpq in Ep. congruence.
Qed.

Lemma started_count_outline (a b : DepsTree.t) :
  outline a = outline b -> started_count a = started_count b.
Proof.
  intros H. apply outline_fields in H as (_ & _ & _ & _ & _ & _ & _ & H).
  unfold started_count, count_events.
  rewrite <- (filter_filter_stronger is_started tree_event (DepsTree.trace a)),
    <- (filter_filter_stronger is_started tree_event (DepsTree.trace b)).
  - now rewrite H.
  - now intros [].
  - now intros [].
Qed.

Lemma started_once_outline (a b : DepsTree.t) :
  outline a = outline b -> started_once a -> started_once b.
Proof.
  intros H. pose proof (started_count_outline a b H) as Hc.
  apply outline_fields in H as (Hs & _ & Hi & _).
  unfold started_once, init_resolved. now rewrite Hs, Hi, Hc.
Qed.

(** A change that leaves the start-up alone. *)
Lemma started_once_quiet (t t' : DepsTree.t) :
  DepsTree._initDefer t' = DepsTree._initDefer t ->
  started_count t' = started_count t ->
  (DepsTree.state t' = State.off \/ DepsTree.state t' = State.initializing \/
   DepsTree.state t' = State.up ->
   DepsTree.state t' = DepsTree.state t) ->
  started_once t -> started_once t'.
Proof.
  intros Hi Hc Hs (H1 & H2 & H3 & H4 & H5).
  unfold started_once, init_resolved in *. rewrite Hi, Hc.
  splits; auto.
  - intros E. apply H1. rewrite <- Hs; auto.
  - intros E. apply H2. rewrite <- Hs; tauto.
  - intros E. apply H3. rewrite <- Hs; auto.
Qed.

Lemma started_once_deinit_head (t : DepsTree.t) :
  started_once t -> started_once (deinit_head t).
Proof.
  apply started_once_quiet; unfold deinit_head;
    destruct (DepsTree.state t) eqn:E; simpl; try reflexivity;
      intuition discriminate.
Qed.

Lemma started_once_error_head (err : Error) (name : option string)
  (t : DepsTree.t) :
  started_once t -> started_once (error_head err name t).
Proof.
  intros H. unfold error_head. apply started_once_deinit_head.
  revert H. apply started_once_quiet;
    destruct (DepsTree.errorListeners t); simpl; auto.
Qed.

Lemma started_once_record (e : Event) (t : DepsTree.t) :
  is_started e = false -> started_once t ->
  started_once (DepsTree.record e t).
Proof.
  intros He. apply started_once_quiet; simpl; auto.
  unfold started_count, count_events. simpl. now rewrite He.
Qed.

Lemma started_once_started_head (t : DepsTree.t) :
  DepsTree.state t = State.initializing ->
  started_once t -> started_once (started_head t).
Proof.
  intros E (H1 & H2 & _). specialize (H1 E).
  assert (Hc : started_count t = O) by (apply H2; now right).
  assert (Hr : init_resolved (started_head t)).
  { unfold init_resolved, started_head. simpl.
    destruct (DepsTree._initDefer t); [reflexivity | contradiction]. }
  unfold started_once. splits; try (simpl; discriminate); auto.
  - intros [E'|E']; simpl in E'; discriminate.
  - intros _. unfold started_count, count_events in *. simpl. now rewrite Hc.
  - intros Hn. contradiction.
Qed.

Lemma started_once_stopped_head (t : DepsTree.t) :
  started_once t -> started_once (stopped_head t).
Proof.
  apply started_once_quiet; simpl; auto; intuition discriminate.
Qed.

Lemma started_once_step (a : Action) (t t' : DepsTree.t) :
  step a t = Some t' -> started_once t -> started_once t'.
Proof.
  intros Hstep H. apply step_outline in Hstep.
  destruct a as [| | | |name [v|err]|name outcome]; unfold outline_step in Hstep.
  - subst t'. unfold DepsTree.init.
    destruct (DepsTree.state t) eqn:E; try exact H.
    destruct H as (H1 & H2 & H3 & H4 & H5).
    assert (Hc : started_count t = O) by (apply H2; now left).
    unfold started_once, init_resolved. simpl.
    splits; try discriminate; auto.
  - apply (started_once_outline _ _ (eq_sym Hstep)).
    now apply started_once_deinit_head.
  - subst t'. revert H. apply started_once_quiet; auto.
  - destruct Hstep as (_ & Ho).
    apply (started_once_outline _ _ (eq_sym Ho)).
    revert H. apply started_once_quiet; auto.
  - destruct Hstep as (_ & Ho). cbv zeta in Ho.
    assert (H1 : started_once (DepsTree.record (Init_returned name v) t))
      by now apply started_once_record.
    destruct (DepsTree.state t) eqn:E;
      try (apply (started_once_outline _ _ (eq_sym Ho));
           try apply started_once_record; auto).
    destruct Ho as [Ho|Ho]; apply (started_once_outline _ _ (eq_sym Ho));
      [exact H1|].
    now apply started_once_started_head.
  - destruct Hstep as (_ & Ho).
    apply (started_once_outline _ _ (eq_sym Ho)).
    apply started_once_error_head. now apply started_once_record.
  - destruct Hstep as (_ & Ho). cbv zeta in Ho.
    match type of Ho with outline _ = outline ?x \/ _ =>
      assert (H1 : started_once x)
    end.
    { destruct outcome as [err|].
      - apply started_once_error_head. now apply started_once_record.
      - now apply started_once_record. }
    destruct Ho as [Ho|Ho]; apply (started_once_outline _ _ (eq_sym Ho));
      [exact H1|].
    now apply started_once_stopped_head.
Qed.

Lemma started_once_reachable
  (descriptions : list (string * ModuleDescription)) (t : DepsTree.t) :
  reachable descriptions t -> started_once t.
Proof.
  apply reachable_inv.
  - intros t0 Hc.
    apply constructor_Normal in Hc
      as (_ & Hs & _ & _ & Hi & _ & _ & _ & _ & Htr).
    unfold started_once, init_resolved, started_count. rewrite Hs, Hi, Htr.
    splits; try discriminate; auto.
  - apply started_once_step.
Qed.

(** X7.  ['started'] is fired at most once in the life of a tree, and it
    has been fired exactly when the promise [init()] returned is resolved;
    a tree that is [up] has fired it. *)
Theorem started_fired_once
  (descriptions : list (string * ModuleDescription)) (t : DepsTree.t) :
  reachable descriptions t ->
  (started_count t <= 1)%nat /\
  (started_count t = 1%nat <-> init_resolved t) /\
  (DepsTree.state t = State.up -> started_count t = 1%nat).
Proof.
  intros Hr.
  destruct (started_once_reachable descriptions t Hr)
    as (_ & _ & H3 & H4 & H5).
  assert (Hdec : init_resolved t \/ ~ init_resolved t).
  { unfold init_resolved.
    destruct (option_map resolved (DepsTree._initDefer t)) as [[|]|];
      [left; reflexivity | right; discriminate | right; discriminate]. }
  splits.
  - destruct Hdec as [H|H]; [rewrite (H4 H) | rewrite (H5 H)]; lia.
  - split; [|exact H4]. intros E.
    destruct Hdec as [H|H]; [exact H|]. rewrite (H5 H) in E. discriminate.
  - intros E. auto.
Qed.

Lemma started_fired_once_witness :
  exists t,
    reachable diamond t /\ DepsTree.state t = State.up /\
    (started_count t <= 1)%nat /\
    (started_count t = 1%nat <-> init_resolved t) /\
    (DepsTree.state t = State.up -> started_count t = 1%nat).
Proof.
  destruct (started diamond
              [call_init; run_init_callback;
               init_settles "A" (inl VNull); init_settles "B" (inl VNull);
               init_settles "C" (inl VNull); init_settles "D" (inl VNull)])
    as [t|] eqn:E; [|vm_compute in E; discriminate].
  assert (Hr : reachable diamond t) by (eexists; exact E).
  assert (Hs : DepsTree.state t = State.up).
  { vm_compute in E. injection E as <-. reflexivity. }
  exists t. split; [exact Hr|]. split; [exact Hs|].
  exact (started_fired_once diamond t Hr).
Defined.

(** *** The promise of [deinit()] *)

Lemma deinitDefer_deinit_head (t : DepsTree.t) :
  DepsTree._deinitDefer t <> None ->
  DepsTree._deinitDefer (deinit_head t) <> None.
Proof.
  unfold deinit_head. destruct (DepsTree.state t); simpl; auto; discriminate.
Qed.

Lemma deinitDefer_error_head_kept (err : Error) (name : option string)
  (t : DepsTree.t) :
  DepsTree._deinitDefer t <> None ->
  DepsTree._deinitDefer (error_head err name t) <> None.
Proof.
  intros H. unfold error_head. apply deinitDefer_deinit_head.
  now destruct (DepsTree.errorListeners t).
Qed.

Lemma promise_made_deinit (t : DepsTree.t) :
  promise_made t -> promise_made (snd (DepsTree.deinit t)).
Proof.
  intros H Hd.
  pose proof (outline_deinit t) as Ho.
  apply outline_fields in Ho as (Hs & _ & _ & Hdd & _).
  rewrite Hdd in Hd.
  assert (Hn : DepsTree._deinitDefer t = None).
  { destruct (DepsTree._deinitDefer t) eqn:E; [|reflexivity].
    exfalso. apply (deinitDefer_deinit_head t); [congruence | exact Hd]. }
  destruct (H Hn) as [Hp Hne]. clear Hs Hdd.
  unfold DepsTree.deinit. unfold deinit_head in Hd.
  destruct (DepsTree.state t) eqn:E; cbn [snd].
  - split; [exact Hp | simpl; discriminate].
  - discriminate.
  - discriminate.
  - contradiction.
  - split; [exact Hp | rewrite E; discriminate].
  - split; [exact Hp | rewrite E; discriminate].
Qed.

Lemma promise_made_step (a : Action) (t t' : DepsTree.t) :
  step a t = Some t' -> promise_made t -> promise_made t'.
Proof.
  intros Hstep H.
  destruct a as [| | | |name [v|err]|name outcome].
  - apply Some_inj in Hstep. subst t'. unfold DepsTree.init.
    destruct (DepsTree.state t) eqn:E; try exact H.
    intros Hd. destruct (H Hd) as [Hp _]. split; [exact Hp | discriminate].
  - apply Some_inj in Hstep. subst t'. now apply promise_made_deinit.
  - apply Some_inj in Hstep. subst t'. exact H.
  - pose proof (step_outline _ _ _ Hstep) as (_ & Ho).
    apply outline_fields in Ho as (Hs & _ & _ & Hdd & _).
    rewrite step_run_init_callback in Hstep.
    destruct (DepsTree.initCallback t); [|discriminate].
    apply Some_inj in Hstep. subst t'. intros Hd. rewrite Hdd in Hd.
    destruct (H Hd) as [Hp Hne]. rewrite Hs. split; [|exact Hne].
    unfold DepsTree.init_callback.
    now rewrite (proj2 (proj2 (pendingDeinit_init_loops _ _))).
  - pose proof (step_outline _ _ _ Hstep) as (_ & Ho). cbv zeta in Ho.
    rewrite step_init_settles in Hstep.
    destruct (mem name _); [|discriminate].
    apply Some_inj in Hstep. subst t'. intros Hd.
    unfold DepsTree._initModule_resume in *.
    match goal with |- context [DepsTree._moduleInited name ?x] =>
      set (a := x) in *
    end.
    assert (Ha : DepsTree.state a = DepsTree.state t) by reflexivity.
    assert (Hpa : DepsTree.pendingDeinit a = DepsTree.pendingDeinit t)
      by reflexivity.
    assert (Hda : DepsTree._deinitDefer (DepsTree._moduleInited name a)
                  = DepsTree._deinitDefer t).
    { destruct (DepsTree.state t);
        try (now apply outline_fields in Ho as (_ & _ & _ & -> & _)).
      now destruct Ho as [Ho|Ho];
        apply outline_fields in Ho as (_ & _ & _ & -> & _). }
    rewrite Hda in Hd. destruct (H Hd) as [Hp Hne].
    destruct (DepsTree.state t) eqn:E; try contradiction.
    + unfold DepsTree._moduleInited. rewrite Ha. simpl. split; congruence.
    + rewrite pendingDeinit_moduleInited by exact Ha. split; [congruence|].
      destruct Ho as [Ho|Ho]; apply outline_fields in Ho as (-> & _);
        simpl; congruence.
    + unfold DepsTree._moduleInited. rewrite Ha. simpl. split; congruence.
    + unfold DepsTree._moduleInited. rewrite Ha. simpl. split; congruence.
    + unfold DepsTree._moduleInited. rewrite Ha. simpl. split; congruence.
  - rewrite step_init_settles in Hstep.
    destruct (mem name _); [|discriminate].
    apply Some_inj in Hstep. subst t'.
    unfold DepsTree._initModule_resume, DepsTree._error.
    apply promise_made_deinit.
    destruct (DepsTree.errorListeners _); exact H.
  - pose proof (step_outline _ _ _ Hstep) as (Hin & Ho). cbv zeta in Ho.
    intros Hd. exfalso.
    assert (Hne : DepsTree._deinitDefer t <> None).
    { intros Hn. destruct (H Hn) as [Hp _]. rewrite Hp in Hin.
      contradiction. }
    match type of Ho with outline _ = outline ?x \/ _ =>
      assert (H1 : DepsTree._deinitDefer x <> None)
    end.
    { destruct outcome as [err|]; [|exact Hne].
      now apply deinitDefer_error_head_kept. }
    destruct Ho as [Ho|Ho];
      apply outline_fields in Ho as (_ & _ & _ & Hdd & _);
      rewrite Hdd in Hd; [contradiction|].
    simpl in Hd.
    match type of Hd with DepsTree.resolve ?d = None =>
      destruct d; [discriminate | contradiction]
    end.
Qed.

Lemma promise_made_reachable
  (descriptions : list (string * ModuleDescription)) (t : DepsTree.t) :
  reachable descriptions t -> promise_made t.
Proof.
  apply reachable_inv.
  - intros t0 Hc.
    apply constructor_Normal in Hc
      as (_ & Hs & _ & _ & _ & _ & _ & _ & Hp & _).
    intros _. rewrite Hs. split; [exact Hp | discriminate].
  - apply promise_made_step.
Qed.

(** X8.  [init()] and [deinit()] never read the promise off a holder that
    was not made: on a tree the program can be in, [deinit()] returns a
    promise, and [init()] returns a promise unless the tree is shutting
    down or has shut down, when it throws its state error. *)
Theorem promises_are_made
  (descriptions : list (string * ModuleDescription)) (t : DepsTree.t) :
  reachable descriptions t ->
  (exists p, fst (DepsTree.deinit t) = Normal p) /\
  ((exists p, fst (DepsTree.init t) = Normal p) \/
   shutting_down t /\ fst (DepsTree.init t) = Throw InvalidStateError).
Proof.
  intros Hr.
  pose proof (promise_made_reachable descriptions t Hr) as Hm.
  destruct (started_once_reachable descriptions t Hr) as (Hi & _).
  assert (Hne : DepsTree.state t <> State.error).
  { destruct Hr as (actions & Hrun). unfold started in Hrun.
    destruct (DepsTree.constructor descriptions) as [t0| |] eqn:Ec;
      try discriminate.
    apply constructor_Normal in Ec
      as (_ & Hs & _ & _ & _ & _ & _ & _ & _ & Htr).
    assert (H0 : never_error t0).
    { split; [now left|]. rewrite Htr. constructor. }
    destruct (run_inv never_error never_error_step actions t0 t Hrun H0)
      as [[E|E] _]; [congruence|].
    unfold assigned_state in E. intros E'. rewrite E' in E.
    intuition discriminate. }
  split.
  - unfold DepsTree.deinit.
    destruct (DepsTree.state t) eqn:E; try (simpl; eauto).
    + cbn [DepsTree.defer].
      match goal with |- context [fold_left ?f ?l ?a] =>
        pose proof (proj1 (outline_loops l a)) as Ho
      end.
      apply outline_fields in Ho as (_ & _ & _ & Hdd & _).
      cbn [fst]. rewrite Hdd. simpl. eauto.
    + cbn [DepsTree.defer].
      match goal with |- context [fold_left ?f ?l ?a] =>
        pose proof (proj1 (outline_loops l a)) as Ho
      end.
      apply outline_fields in Ho as (_ & _ & _ & Hdd & _).
      cbn [fst]. rewrite Hdd. simpl. eauto.
    + destruct (DepsTree._deinitDefer t) as [d|] eqn:Ed; simpl; eauto.
      destruct (Hm Ed) as [_ Hc]. contradiction.
  - unfold DepsTree.init, shutting_down.
    destruct (DepsTree.state t) eqn:E; simpl; eauto; try contradiction.
    left. destruct (DepsTree._initDefer t) as [d|] eqn:Ed; simpl; eauto.
    exfalso. now apply Hi.
Qed.

Lemma promises_are_made_witness :
  exists t,
    reachable single_example t /\
    DepsTree.state t = State.deinitializing /\
    (exists p, fst (DepsTree.deinit t) = Normal p) /\
    ((exists p, fst (DepsTree.init t) = Normal p) \/
     shutting_down t /\ fst (DepsTree.init t) = Throw InvalidStateError).
Proof.
  destruct (started single_example
              [call_init; run_init_callback;
               init_settles "a" (inr (OperationError "boom"))])
    as [t|] eqn:E; [|vm_compute in E; discriminate].
  assert (Hr : reachable single_example t) by (eexists; exact E).
  assert (Hs : DepsTree.state t = State.deinitializing).
  { vm_compute in E. injection E as <-. reflexivity. }
  exists t. split; [exact Hr|]. split; [exact Hs|].
  exact (promises_are_made single_example t Hr).
Defined.

(** *** ['stopped'] *)










(** *** The error list *)







(** ** Every [init] at most once *)

Lemma loading_at_most_once (ms0 : Modules) (extra : string -> nat)
  (t : DepsTree.t) :
  loading ms0 extra t -> at_most_once ms0 t.
Proof.
  intros (_ & _ & _ & Hmod) n Hn.
  destruct (Hmod n Hn) as (_ & _ & _ & _ & H5 & _). rewrite H5.
  destruct (State.eqb _ _); lia.
Qed.

Lemma at_most_once_same (ms0 : Modules) (t t' : DepsTree.t) :
  (forall n, invoked n (DepsTree.trace t') = invoked n (DepsTree.trace t)) ->
  at_most_once ms0 t -> at_most_once ms0 t'.
Proof. intros E H n Hn. rewrite E. now apply H. Qed.

Lemma no_init_invoked (t t' : DepsTree.t) :
  no_init t t' ->
  forall n, invoked n (DepsTree.trace t') = invoked n (DepsTree.trace t).
Proof. intros (_ & _ & H & _). exact H. Qed.

Lemma at_most_once_step (ms0 : Modules) (a : Action) (t t' : DepsTree.t) :
  fresh ms0 -> invariant ms0 t -> at_most_once ms0 t ->
  step a t = Some t' -> at_most_once ms0 t'.
Proof.
  intros Hfresh (Hn & Hd & Hg & Hp & Hur) Hamo Hstep.
  destruct a as [| | | |name [v|err]|name outcome].
  - apply Some_inj in Hstep. subst t'.
    apply (at_most_once_same ms0 t); [|exact Hamo].
    intros n. unfold DepsTree.init. now destruct (DepsTree.state t).
  - apply Some_inj in Hstep. subst t'.
    apply (at_most_once_same ms0 t); [|exact Hamo].
    apply no_init_invoked.
    apply (shutdown_level_deinit _ (no_init_shutdown_level t)), no_init_refl.
  - apply Some_inj in Hstep. subst t'. exact Hamo.
  - rewrite step_run_init_callback in Hstep.
    destruct (DepsTree.initCallback t) eqn:Ec; [|discriminate].
    apply Some_inj in Hstep. subst t'.
    destruct Hp as [[_ Hu]|[(_ & Hc & _)|(_ & Hc & _)]]; try congruence.
    pose proof (untouched_loading ms0 t Hu) as Hl.
    destruct Hu as (Hmod & _).
    apply (loading_at_most_once ms0 none). unfold DepsTree.init_callback.
    apply (loading_init_callback_loop ms0 _
             (DepsTree.with_initCallback false t)).
    + exact Hg.
    + exact Hl.
    + change (DepsTree.modules (DepsTree.with_initCallback false t))
        with (DepsTree.modules t).
      rewrite (erase_names _ _ _ Hg). apply Hfresh.
    + intros n Hin.
      change (DepsTree.modules (DepsTree.with_initCallback false t))
        with (DepsTree.modules t) in Hin.
      rewrite (erase_names _ _ _ Hg) in Hin. split; [exact Hin|].
      apply (Hmod n).
  - rewrite step_init_settles in Hstep.
    destruct (mem name _) eqn:Hm; [|discriminate].
    apply Some_inj in Hstep. subst t'. apply mem_In in Hm.
    destruct (State.eqb (DepsTree.state t) State.initializing) eqn:E.
    + assert (Hs : DepsTree.state t = State.initializing)
        by (destruct (DepsTree.state t); try discriminate; reflexivity).
      destruct Hp as [[_ Hu]|[(_ & _ & Hst)|(Hsu & _)]].
      * destruct Hu as (_ & Hpi & _). rewrite Hpi in Hm. contradiction.
      * destruct Hst as (Hl & _).
        rewrite initModule_resume_returned by exact Hs.
        destruct (loading_inited ms0 t name v Hfresh Hg Hl Hm)
          as (Hli & _ & _ & _ & Hgi & _).
        destruct (_ =? 0).
        -- apply (at_most_once_same ms0 (inited name v t));
             [reflexivity|].
           now apply (loading_at_most_once ms0 _ _ Hli).
        -- apply (loading_at_most_once ms0 none).
           apply loading_load_dependants; [exact Hgi|].
           now rewrite (same_graph_dependants ms0 t name Hg).
      * exfalso. now apply (started_up_not_initializing t).
    + assert (Hs : DepsTree.state t <> State.initializing)
        by (intros E'; rewrite E' in E; discriminate).
      unfold DepsTree._initModule_resume.
      match goal with |- at_most_once _ (DepsTree._moduleInited _ ?x) =>
        apply (at_most_once_same ms0 x);
          [apply no_init_invoked;
           apply (shutdown_level_moduleInited _ (no_init_shutdown_level x));
             [exact Hs | apply no_init_refl]|]
      end.
      apply (at_most_once_same ms0 t); [reflexivity | exact Hamo].
  - rewrite step_init_settles in Hstep.
    destruct (mem name _) eqn:Hm; [|discriminate].
    apply Some_inj in Hstep. subst t'.
    unfold DepsTree._initModule_resume.
    match goal with |- at_most_once _ (DepsTree._error _ _ ?x) =>
      apply (at_most_once_same ms0 x);
        [apply no_init_invoked;
         apply (shutdown_level_error _ (no_init_shutdown_level x)),
           no_init_refl|]
    end.
    apply (at_most_once_same ms0 t); [reflexivity | exact Hamo].
  - rewrite step_deinit_settles in Hstep.
    destruct (_ && _); [|discriminate].
    apply Some_inj in Hstep. subst t'.
    match goal with
      |- at_most_once _ (DepsTree._deinitModule_resume _ _ ?x) =>
        apply (at_most_once_same ms0 x);
          [apply no_init_invoked;
           apply (shutdown_level_deinitModule_resume _
                    (no_init_shutdown_level x)), no_init_refl|]
    end.
    apply (at_most_once_same ms0 t); [|exact Hamo].
    intros n. now destruct outcome.
Qed.

Lemma reachable_invariant
  (descriptions : list (string * ModuleDescription)) (t : DepsTree.t) :
  distinct_names descriptions -> reachable descriptions t ->
  exists t0,
    DepsTree.constructor descriptions = Normal t0 /\
    invariant (DepsTree.modules t0) t /\
    at_most_once (DepsTree.modules t0) t.
Proof.
  intros Hnd (actions & Hrun). unfold started in Hrun.
  destruct (DepsTree.constructor descriptions) as [t0| |] eqn:Ec;
    try discriminate.
  exists t0. split; [reflexivity|].
  destruct (constructor_fresh descriptions t0 Hnd Ec) as (Hfresh & _).
  apply (run_inv (fun x => invariant (DepsTree.modules t0) x /\
                           at_most_once (DepsTree.modules t0) x))
    with (actions := actions) (t := t0); auto.
  - intros a t1 t2 Hstep [Hi Ha]. split.
    + now apply (invariant_step _ a t1).
    + now apply (at_most_once_step _ a t1).
  - split; [now apply (invariant_constructed descriptions)|].
    intros n _. apply constructor_Normal in Ec.
    destruct Ec as (_ & _ & _ & _ & _ & _ & _ & _ & _ & Htr).
    rewrite Htr. simpl. lia.
Qed.

(** X11.  Whatever happens to a tree (modules that are not needed,
    failures, a shutdown in the middle of the start-up), the [init]
    operation of a module is never invoked a second time. *)
Theorem init_invoked_at_most_once
  (descriptions : list (string * ModuleDescription)) (t : DepsTree.t)
  (n : string) :
  distinct_names descriptions -> reachable descriptions t ->
  In n (map fst descriptions) ->
  (invoked n (DepsTree.trace t) <= 1)%nat.
Proof.
  intros Hnd Hr Hn.
  destruct (reachable_invariant descriptions t Hnd Hr) as (t0 & Hc & _ & Ha).
  apply Ha.
  destruct (constructor_fresh descriptions t0 Hnd Hc) as (_ & Hnames & _).
  now rewrite Hnames.
Qed.

Lemma init_invoked_at_most_once_witness :
  exists t,
    distinct_names chain_example /\ reachable chain_example t /\
    In "D" (map fst chain_example) /\
    invoked "D" (DepsTree.trace t) = 1%nat /\
    (invoked "D" (DepsTree.trace t) <= 1)%nat.
Proof.
  assert (Hnd : distinct_names chain_example).
  { unfold distinct_names. simpl.
    repeat constructor; simpl; intuition discriminate. }
  destruct (started chain_example
              [call_init; run_init_callback; init_settles "A" (inl VNull);
               call_deinit])
    as [t|] eqn:E; [|vm_compute in E; discriminate].
  assert (Hr : reachable chain_example t) by (eexists; exact E).
  assert (Hi : invoked "D" (DepsTree.trace t) = 1%nat).
  { vm_compute in E. injection E as <-. reflexivity. }
  assert (Hin : In "D" (map fst chain_example)) by (simpl; tauto).
  exists t. split; [exact Hnd|]. split; [exact Hr|]. split; [exact Hin|].
  split; [exact Hi|].
  exact (init_invoked_at_most_once chain_example t "D" Hnd Hr Hin).
Defined.

(** ** A tree that is up *)

Lemma invariant_not_error (ms0 : Modules) (t : DepsTree.t) :
  invariant ms0 t -> DepsTree.state t <> State.error.
Proof.
  intros ((Hn & _) & _). destruct Hn as [E|E]; [congruence|].
  unfold assigned_state in E. intros E'. rewrite E' in E.
  intuition discriminate.
Qed.

Lemma control_state (a b : DepsTree.t) :
  control a = control b -> DepsTree.state a = DepsTree.state b.
Proof. unfold control. now intros [= -> _]. Qed.

Lemma moduleInited_up (name : string) (t : DepsTree.t) :
  DepsTree.state t = State.up ->
  DepsTree._moduleInited name t
  = DepsTree.record (Console_error StateError) t.
Proof. intros E. unfold DepsTree._moduleInited. now rewrite E. Qed.

Lemma shutting_down_init_failed (name : string) (err : Error)
  (t : DepsTree.t) :
  DepsTree.state t <> State.error ->
  shutting_down (DepsTree._initModule_resume name (inr err) t).
Proof.
  intros Hne. unfold DepsTree._initModule_resume, DepsTree._error.
  apply shutting_down_deinit. now destruct (DepsTree.errorListeners _).
Qed.

Lemma state_of_started (x : DepsTree.t) (d : option Deferred) (n : string) :
  state_of
    (DepsTree.record Emit_started
       (DepsTree._changeState State.up (DepsTree.with_initDefer d x))) n
  = state_of x n.
Proof. reflexivity. Qed.

Lemma all_up_step (ms0 : Modules) (a : Action) (t t' : DepsTree.t) :
  fresh ms0 -> all_needed ms0 -> invariant ms0 t -> all_up ms0 t ->
  step a t = Some t' -> all_up ms0 t'.
Proof.
  intros Hfresh Hall Hinv Hau Hstep Hup'.
  pose proof (invariant_not_error ms0 t Hinv) as Hne.
  destruct Hinv as (Hn & Hd & Hg & Hp & Hur).
  destruct a as [| | | |name [v|err]|name outcome].
  - apply Some_inj in Hstep. subst t'. unfold DepsTree.init in *.
    destruct (DepsTree.state t) eqn:E; simpl in Hup'; try discriminate;
      try congruence.
    apply Hau. exact E.
  - apply Some_inj in Hstep. subst t'.
    destruct (shutting_down_deinit t Hne); congruence.
  - apply Some_inj in Hstep. subst t'. apply Hau. exact Hup'.
  - destruct Hp as [[Hph Hu]|[(_ & Hc & _)|(_ & Hc & _)]].
    + destruct (phase_untouched_step ms0 _ t t' Hfresh Hne Hg Hph Hu Hstep)
        as [_ H]. contradiction.
    + rewrite step_run_init_callback, Hc in Hstep. discriminate.
    + rewrite step_run_init_callback, Hc in Hstep. discriminate.
  - pose proof (step_outline _ _ _ Hstep) as (_ & Ho). cbv zeta in Ho.
    rewrite step_init_settles in Hstep.
    destruct (mem name _) eqn:Hm; [|discriminate].
    apply Some_inj in Hstep. apply mem_In in Hm.
    destruct (DepsTree.state t) eqn:Hs;
      try (apply outline_fields in Ho as (Ho & _); simpl in Ho;
           rewrite Hs in Ho; congruence).
    + (* the last module of the start-up *)
      destruct Hp as [[_ Hu]|[(_ & _ & Hst)|(Hsu & _)]].
      * destruct Hu as (_ & Hpi & _). rewrite Hpi in Hm. contradiction.
      * destruct Hst as (Hl & _ & _ & Hcount & _).
        rewrite initModule_resume_returned in Hstep by exact Hs.
        destruct (loading_inited ms0 t name v Hfresh Hg Hl Hm)
          as (Hli & Hnu & Hup & Hml & Hgi & Hci & _).
        set (tc := inited name v t) in *.
        assert (Hnot : DepsTree._modulesToLoad tc = not_up tc).
        { rewrite Hml, (Hcount Hall).
          rewrite (not_up_names ms0 t Hg), (not_up_names ms0 tc Hgi).
          rewrite (waiting_up t tc name _ Hnu Hup).
          rewrite occurrences_NoDup; [lia | apply Hfresh|].
          destruct Hl as (_ & Hsub & _). now apply Hsub. }
        apply control_state in Hci. clearbody tc. clear Ho.
        destruct (DepsTree._modulesToLoad tc =? 0) eqn:Ez.
        -- apply Z.eqb_eq in Ez. subst t'. intros n Hin.
           rewrite state_of_started.
           apply (waiting_zero tc (names ms0)); [|exact Hin].
           rewrite <- (not_up_names ms0 tc Hgi). lia.
        -- exfalso. subst t'.
           rewrite (proj1 (proj2 (proj2 (proj2 (state_loops _ _))))) in Hup'.
           congruence.
      * exfalso. now apply (started_up_not_initializing t).
    + (* an [init] that returns to a tree that is up *)
      subst t'. unfold DepsTree._initModule_resume.
      rewrite moduleInited_up by exact Hs. intros n Hin.
      match goal with
        |- state_of (DepsTree.record _ (DepsTree.update ?x ?f ?y)) n = _ =>
          change (state_of (DepsTree.update x f y) n = State.up);
          rewrite (state_of_update x n f y) by reflexivity
      end.
      now apply Hau.
  - rewrite step_init_settles in Hstep.
    destruct (mem name _); [|discriminate].
    apply Some_inj in Hstep. subst t'.
    match type of Hup' with
      DepsTree.state (DepsTree._initModule_resume _ _ ?x) = _ =>
        destruct (shutting_down_init_failed name err x Hne); congruence
    end.
  - pose proof (step_outline _ _ _ Hstep) as (Hin & _).
    destruct Hd as [Hd|Hd]; [rewrite Hd in Hin; contradiction|].
    destruct (shutting_down_step _ t t' Hstep Hd); congruence.
Qed.

(** X12.  In a tree in which every module is needed, the tree is [up]
    only when every module is [up]: the promise of [init()] is not resolved
    while a module is still initializing. *)
Theorem up_means_all_modules_up
  (descriptions : list (string * ModuleDescription)) (t0 t : DepsTree.t)
  (actions : list Action) (n : string) :
  distinct_names descriptions ->
  DepsTree.constructor descriptions = Normal t0 ->
  all_needed (DepsTree.modules t0) ->
  run actions t0 = Some t ->
  DepsTree.state t = State.up ->
  In n (map fst descriptions) ->
  mstate n t = Some State.up.
Proof.
  intros Hnd Hc Hall Hrun Hup Hn.
  destruct (constructor_fresh descriptions t0 Hnd Hc) as (Hfresh & Hnames & _).
  assert (H : invariant (DepsTree.modules t0) t /\
              all_up (DepsTree.modules t0) t).
  { apply (run_inv (fun x => invariant (DepsTree.modules t0) x /\
                             all_up (DepsTree.modules t0) x))
      with (actions := actions) (t := t0); auto.
    - intros a t1 t2 Hstep [Hi Ha]. split.
      + now apply (invariant_step _ a t1).
      + now apply (all_up_step _ a t1).
    - split; [now apply (invariant_constructed descriptions)|].
      intros E. apply constructor_Normal in Hc.
      destruct Hc as (_ & Hs & _). congruence. }
  destruct H as ((_ & _ & Hg & _) & Hau).
  rewrite <- Hnames in Hn. specialize (Hau Hup n Hn).
  destruct (find_names _ t n Hg Hn) as (m & Hf).
  unfold mstate, state_of in *. rewrite Hf in *. simpl. now rewrite Hau.
Qed.

Lemma up_means_all_modules_up_witness :
  exists t0 t,
    distinct_names diamond /\
    DepsTree.constructor diamond = Normal t0 /\
    all_needed (DepsTree.modules t0) /\
    run [call_init; run_init_callback;
         init_settles "A" (inl VNull); init_settles "B" (inl VNull);
         init_settles "C" (inl VNull); init_settles "D" (inl VNull)] t0
    = Some t /\
    DepsTree.state t = State.up /\ In "D" (map fst diamond) /\
    mstate "D" t = Some State.up.
Proof.
  destruct (DepsTree.constructor diamond) as [t0| |] eqn:E0;
    try (vm_compute in E0; discriminate).
  assert (Hall : all_needed (DepsTree.modules t0)).
  { vm_compute in E0. injection E0 as <-. intros n m H.
    apply find_module_Some_In in H. simpl in H.
    repeat (destruct H as [H|H]; [injection H as _ <-; reflexivity|]).
    contradiction. }
  destruct (run [call_init; run_init_callback;
                 init_settles "A" (inl VNull); init_settles "B" (inl VNull);
                 init_settles "C" (inl VNull); init_settles "D" (inl VNull)]
              t0) as [t|] eqn:E.
  2:{ vm_compute in E0. injection E0 as <-. vm_compute in E. discriminate. }
  assert (Hup : DepsTree.state t = State.up).
  { vm_compute in E0. injection E0 as <-. vm_compute in E.
    injection E as <-. reflexivity. }
  assert (Hin : In "D" (map fst diamond)) by (simpl; tauto).
  exists t0, t. split; [exact diamond_distinct|]. split; [reflexivity|].
  split; [exact Hall|]. split; [exact E|]. split; [exact Hup|].
  split; [exact Hin|].
  exact (up_means_all_modules_up diamond t0 t _ "D" diamond_distinct E0 Hall
           E Hup Hin).
Defined.

(** ** A failing [init] *)







(** ** A tree in which nothing is needed *)

Lemma init_callback_nothing (l : list string) (t : DepsTree.t) :
  (forall n m, DepsTree.find n t = Some m -> Mod.needed m = false) ->
  fold_left DepsTree.init_module_if_ready l t = t.
Proof.
  intros H. induction l as [|x l IH]; simpl; [reflexivity|].
  assert (E : DepsTree.init_module_if_ready t x = t).
  { unfold DepsTree.init_module_if_ready.
    destruct (DepsTree.find x t) as [m|] eqn:Ef; [|reflexivity].
    now rewrite (H x m Ef). }
  now rewrite E.
Qed.

Lemma idle_step (ms0 : Modules) (a : Action) (t t' : DepsTree.t) :
  (forall n m, find_module n ms0 = Some m ->
               Mod.state m = State.off /\ Mod.needed m = false) ->
  step a t = Some t' -> idle ms0 t -> idle ms0 t'.
Proof.
  intros Hms Hstep (Hm & Hpi & Hpd & Htr & Hres & Hup).
  destruct a as [| | | |name outcome|name outcome].
  - apply Some_inj in Hstep. subst t'. unfold DepsTree.init.
    destruct (DepsTree.state t) eqn:E; simpl;
      try (unfold idle; splits; (assumption || congruence)).
    unfold idle, init_resolved. simpl. splits; auto; try discriminate.
    constructor; [exact I | exact Htr].
  - apply Some_inj in Hstep. subst t'.
    assert (Hoff : forall x n, DepsTree.modules x = ms0 ->
                               state_of x n = State.off).
    { intros x n Hx. unfold state_of, DepsTree.find. rewrite Hx.
      destruct (find_module n ms0) as [m|] eqn:Ef; [|reflexivity].
      now destruct (Hms n m Ef). }
    unfold DepsTree.deinit.
    destruct (DepsTree.state t) eqn:E; cbn [snd DepsTree.defer];
      try (unfold idle; splits; (assumption || congruence)); try contradiction.
    + unfold idle, init_resolved. simpl.
      splits; auto; try discriminate.
      constructor; [exact I | exact Htr].
    + rewrite deinit_loop_untouched
        by (intros n; apply Hoff; exact Hm).
      unfold idle, init_resolved. simpl.
      splits; auto; try discriminate.
      constructor; [exact I | exact Htr].
  - apply Some_inj in Hstep. subst t'. unfold idle. splits; assumption.
  - rewrite step_run_init_callback in Hstep.
    destruct (DepsTree.initCallback t); [|discriminate].
    apply Some_inj in Hstep. subst t'. unfold DepsTree.init_callback.
    rewrite init_callback_nothing.
    + unfold idle. splits; assumption.
    + intros n m Hf. unfold DepsTree.find in Hf. simpl in Hf.
      rewrite Hm in Hf. now destruct (Hms n m Hf).
  - rewrite step_init_settles, Hpi in Hstep. discriminate.
  - rewrite step_deinit_settles, Hpd in Hstep. discriminate.
Qed.

Lemma required_marked_needed
  (descriptions : list (string * ModuleDescription)) (n : string) :
  required descriptions n ->
  exists m d, In (m, d) descriptions /\ marked_needed d = true.
Proof. induction 1; eauto. Qed.

Lemma idle_invoked (ms0 : Modules) (t : DepsTree.t) (n : string) :
  idle ms0 t ->
  invoked n (DepsTree.trace t) = O /\ ~ In Emit_started (DepsTree.trace t).
Proof.
  intros (_ & _ & _ & Htr & _).
  induction Htr as [|e tr He _ [IH1 IH2]]; [split; [reflexivity | tauto]|].
  destruct e; try contradiction. simpl. split; [exact IH1|].
  intros [H|H]; [discriminate | contradiction].
Qed.

(** X14.  When no module of the input is marked needed (in particular
    when the input is empty), nothing ever starts: the callback of [init()]
    finds nothing to initialise, no operation is ever invoked, the tree is
    never [up], ['started'] is never fired and the promise [init()] returned
    stays pending for ever. *)
Theorem nothing_needed_never_starts
  (descriptions : list (string * ModuleDescription)) (t : DepsTree.t) :
  distinct_names descriptions -> nothing_needed descriptions ->
  reachable descriptions t ->
  DepsTree.state t <> State.up /\ ~ init_resolved t /\
  ~ In Emit_started (DepsTree.trace t) /\
  (forall n, invoked n (DepsTree.trace t) = O) /\
  DepsTree.pendingInit t = [] /\ DepsTree.pendingDeinit t = [].
Proof.
  intros Hnd Hnone (actions & Hrun). unfold started in Hrun.
  destruct (DepsTree.constructor descriptions) as [t0| |] eqn:Ec;
    try discriminate.
  destruct (constructor_fresh descriptions t0 Hnd Ec) as ((_ & _ & Hf) & _).
  assert (Hms : forall n m,
             find_module n (DepsTree.modules t0) = Some m ->
             Mod.state m = State.off /\ Mod.needed m = false).
  { intros n m Hfm. split; [now destruct (Hf n m Hfm)|].
    destruct (Mod.needed m) eqn:En; [|reflexivity]. exfalso.
    pose proof Ec as Hb. apply constructor_Normal in Hb as (Hb & _).
    destruct (build_modules_result descriptions Hnd)
      as [(_ & dep & E & _)|(_ & ms1 & ms2 & _ & E2 & _ & _ & _ & Hreq)];
      [congruence|].
    rewrite Hb in E2. injection E2 as <-.
    assert (Hr : required descriptions n).
    { apply Hreq. unfold is_needed. now rewrite Hfm. }
    destruct (required_marked_needed _ _ Hr) as (x & d & Hin & Hd).
    rewrite (Hnone x d Hin) in Hd. discriminate. }
  assert (H0 : idle (DepsTree.modules t0) t0).
  { apply constructor_Normal in Ec
      as (_ & Hs & _ & _ & Hi & _ & _ & Hpi & Hpd & Htr).
    unfold idle, init_resolved. rewrite Hs, Hi, Htr.
    splits; auto; try discriminate. }
  assert (H : idle (DepsTree.modules t0) t).
  { apply (run_inv (idle (DepsTree.modules t0)))
      with (actions := actions) (t := t0); auto.
    intros a t1 t2. now apply idle_step. }
  pose proof H as (_ & Hpi & Hpd & _ & Hres & Hup).
  splits; auto.
  - exact (proj2 (idle_invoked _ t "" H)).
  - intros n. exact (proj1 (idle_invoked _ t n H)).
Qed.

Lemma nothing_needed_never_starts_witness :
  exists t,
    distinct_names optional_example /\ nothing_needed optional_example /\
    reachable optional_example t /\
    DepsTree.state t = State.initializing /\
    DepsTree.state t <> State.up /\ ~ init_resolved t /\
    ~ In Emit_started (DepsTree.trace t) /\
    (forall n, invoked n (DepsTree.trace t) = O) /\
    DepsTree.pendingInit t = [] /\ DepsTree.pendingDeinit t = [].
Proof.
  assert (Hnd : distinct_names optional_example).
  { unfold distinct_names. simpl.
    repeat constructor; simpl; intuition discriminate. }
  assert (Hnone : nothing_needed optional_example).
  { intros n d Hin. simpl in Hin.
    destruct Hin as [[= <- <-]|[[= <- <-]|[[= <- <-]|[]]]]; reflexivity. }
  destruct (started optional_example [call_init; run_init_callback])
    as [t|] eqn:E; [|vm_compute in E; discriminate].
  assert (Hr : reachable optional_example t) by (eexists; exact E).
  assert (Hs : DepsTree.state t = State.initializing).
  { vm_compute in E. injection E as <-. reflexivity. }
  exists t. split; [exact Hnd|]. split; [exact Hnone|]. split; [exact Hr|].
  split; [exact Hs|].
  exact (nothing_needed_never_starts optional_example t Hnd Hnone Hr).
Defined.

(** ** No module waits without need *)

Lemma load_dependant_reads (x : string) (t : DepsTree.t) :
  (forall n, n <> x ->
     state_of (DepsTree.load_dependant t x) n = state_of t n /\
     toLoad (DepsTree.load_dependant t x) n = toLoad t n) /\
  (DepsTree.find x t <> None ->
   toLoad (DepsTree.load_dependant t x) x = toLoad t x - 1 /\
   (toLoad t x - 1 = 0 ->
    state_of (DepsTree.load_dependant t x) x = State.initializing) /\
   (toLoad t x - 1 <> 0 ->
    state_of (DepsTree.load_dependant t x) x = state_of t x)).
Proof.
  unfold DepsTree.load_dependant.
  set (f := fun m => Mod.with_dependenciesToLoad
                       (Mod.dependenciesToLoad m - 1) m).
  set (t1 := DepsTree.update x f t).
  assert (Hs1 : forall n, state_of t1 n = state_of t n)
    by (intros n; now apply state_of_update).
  assert (Ht1 : forall n, n <> x -> toLoad t1 n = toLoad t n).
  { intros n Hn. unfold toLoad, t1, DepsTree.find, DepsTree.update. simpl.
    rewrite find_update. now destruct (String.eqb_spec n x). }
  assert (Hf1 : DepsTree.find x t1 = option_map f (DepsTree.find x t)).
  { unfold t1, DepsTree.find, DepsTree.update. simpl.
    apply find_update_same. }
  destruct (DepsTree.find x t) as [m|] eqn:Hf.
  - rewrite Hf1. cbn [option_map].
    assert (Hfound : DepsTree.find x t1 <> None) by (rewrite Hf1; discriminate).
    assert (Hto : toLoad t1 x = toLoad t x - 1).
    { unfold t1, f. rewrite toLoad_decrement by congruence.
      now rewrite String.eqb_refl. }
    assert (Hd : Mod.dependenciesToLoad (f m) = toLoad t x - 1).
    { unfold toLoad. now rewrite Hf. }
    destruct (initModule_reads x t1 Hfound) as (Is & It & _).
    destruct (Mod.dependenciesToLoad (f m) =? 0) eqn:Ez.
    + apply Z.eqb_eq in Ez. split.
      * intros n Hn. rewrite Is, It.
        destruct (String.eqb_spec n x); [contradiction|]. auto.
      * intros _. rewrite Is, It, String.eqb_refl.
        splits; [exact Hto | reflexivity | intros H; lia].
    + apply Z.eqb_neq in Ez. split.
      * intros n Hn. auto.
      * intros _. splits; [exact Hto | intros H; lia | intros _; apply Hs1].
  - rewrite Hf1. cbn [option_map]. split; [auto|]. intros H. contradiction.
Qed.

Lemma init_module_if_ready_reads (x : string) (t : DepsTree.t) (m : Mod.t) :
  DepsTree.find x t = Some m ->
  (forall n, n <> x ->
     state_of (DepsTree.init_module_if_ready t x) n = state_of t n) /\
  (forall n, toLoad (DepsTree.init_module_if_ready t x) n = toLoad t n) /\
  state_of (DepsTree.init_module_if_ready t x) x
  = if Mod.needed m && (Mod.dependenciesToLoad m =? 0)
    then State.initializing else state_of t x.
Proof.
  intros Hf. unfold DepsTree.init_module_if_ready. rewrite Hf.
  destruct (Mod.needed m); [|splits; auto].
  set (t1 := DepsTree.with_modulesToLoad (DepsTree._modulesToLoad t + 1) t).
  assert (Hfound : DepsTree.find x t1 <> None)
    by (change (DepsTree.find x t <> None); congruence).
  destruct (initModule_reads x t1 Hfound) as (Is & It & _).
  cbn [andb]. destruct (Mod.dependenciesToLoad m =? 0).
  - splits.
    + intros n Hn. rewrite Is. now destruct (String.eqb_spec n x).
    + intros n. now rewrite It.
    + now rewrite Is, String.eqb_refl.
  - splits; auto.
Qed.

Lemma inited_reads (n : string) (v : value) (t : DepsTree.t) :
  DepsTree.find n t <> None ->
  (forall m, state_of (inited n v t) m
             = if (m =? n)%string then State.up else state_of t m) /\
  (forall m, toLoad (inited n v t) m = toLoad t m).
Proof.
  intros Hf. unfold inited.
  set (t0 := DepsTree.update n _ _).
  set (ta := DepsTree._changeModuleState n State.up t0).
  destruct (count_dependants_reads
              (dependencies_of n (DepsTree.modules t0)) ta)
    as (Bs & Bt & _).
  assert (Hf0 : DepsTree.find n t0 <> None).
  { unfold t0, DepsTree.find, DepsTree.update in *. simpl.
    rewrite find_update_same.
    destruct (find_module n (DepsTree.modules t)); [discriminate|].
    contradiction. }
  split; intros m.
  - change (state_of (fold_left DepsTree.count_dependant
                        (dependencies_of n (DepsTree.modules t0)) ta) m
            = if (m =? n)%string then State.up else state_of t m).
    rewrite Bs. unfold ta. rewrite state_of_changeModuleState by exact Hf0.
    destruct (m =? n)%string; [reflexivity|].
    unfold t0. now rewrite state_of_update.
  - change (toLoad (fold_left DepsTree.count_dependant
                      (dependencies_of n (DepsTree.modules t0)) ta) m
            = toLoad t m).
    rewrite Bt. unfold ta.
    change (toLoad (DepsTree.update n (Mod.with_state State.up) t0) m
            = toLoad t m).
    rewrite toLoad_update by reflexivity.
    unfold t0. now rewrite toLoad_update.
Qed.

Lemma same_graph_is_needed (ms0 : Modules) (t : DepsTree.t) (n : string)
  (m : Mod.t) :
  same_graph ms0 t -> DepsTree.find n t = Some m ->
  is_needed ms0 n = Mod.needed m.
Proof.
  intros Hg Hf. unfold DepsTree.find in Hf.
  destruct (erase_find_Some shape _ _ _ _ Hg Hf) as (m0 & Hf0 & Hs).
  unfold is_needed. rewrite Hf0. symmetry. exact (f_equal Mod.needed Hs).
Qed.

(** The callback of [init()] leaves [off] only what must wait. *)
Lemma prompt_callback (ms0 : Modules) (l : list string) :
  forall t,
    same_graph ms0 t -> NoDup l ->
    (forall n, In n l ->
       In n (names ms0) /\ state_of t n = State.off /\
       toLoad t n = Z.of_nat (List.length (dependencies_of n ms0))) ->
    (forall n, In n (names ms0) -> ~ In n l -> prompt_at ms0 t n) ->
    prompt ms0 (fold_left DepsTree.init_module_if_ready l t).
Proof.
  induction l as [|x l IH]; intros t Hg Hnd Hnew Hold; simpl.
  - intros n Hn. apply Hold; auto.
  - inversion Hnd as [|? ? Hx Hnd']; subst.
    destruct (Hnew x (or_introl eq_refl)) as (Hxn & Hxo & Hxt).
    destruct (find_names ms0 t x Hg Hxn) as (m & Hf).
    destruct (init_module_if_ready_reads x t m Hf) as (Rs & Rt & Rx).
    apply IH.
    + now apply same_graph_init_module_if_ready.
    + exact Hnd'.
    + intros n Hn. destruct (Hnew n (or_intror Hn)) as (H1 & H2 & H3).
      rewrite Rs, Rt by (intros ->; contradiction). auto.
    + intros n Hn Hnl. unfold prompt_at. rewrite Rt.
      destruct (string_dec n x) as [->|Hne].
      * rewrite Rx, Hxt. intros Hoff.
        assert (Hm : Mod.dependenciesToLoad m = toLoad t x)
          by (unfold toLoad; now rewrite Hf).
        rewrite (same_graph_is_needed ms0 t x m Hg Hf).
        destruct (dependencies_of x ms0) as [|d ds] eqn:Ed.
        -- right. split; [|reflexivity].
           rewrite Hm, Hxt in Hoff. simpl in Hoff.
           destruct (Mod.needed m); [discriminate | reflexivity].
        -- left. simpl List.length. lia.
      * rewrite Rs by exact Hne. apply Hold; [exact Hn|].
        intros [H|H]; [congruence | contradiction].
Qed.

Lemma loading_toLoad_nonneg (ms0 : Modules) (extra : string -> nat)
  (t : DepsTree.t) (n : string) :
  loading ms0 extra t -> In n (names ms0) -> 0 <= toLoad t n.
Proof.
  intros (_ & _ & _ & Hmod) Hn.
  destruct (Hmod n Hn) as (_ & H2 & _). rewrite H2.
  pose proof (waiting_nonneg t (dependencies_of n ms0)). lia.
Qed.

Lemma prompt_load_dependants (ms0 : Modules) (l : list string) :
  forall t,
    same_graph ms0 t -> loading ms0 (occurrences l) t -> prompt ms0 t ->
    prompt ms0 (fold_left DepsTree.load_dependant l t).
Proof.
  induction l as [|x l IH]; intros t Hg Hl Hp; simpl; [exact Hp|].
  destruct (loading_load_dependant ms0 l t x Hg Hl) as [Hl1 _].
  apply IH; [now apply same_graph_load_dependant | exact Hl1|].
  destruct (load_dependant_reads x t) as (Ro & Rx).
  intros n Hn. unfold prompt_at.
  destruct (string_dec n x) as [->|Hne].
  - destruct (find_names ms0 t x Hg Hn) as (m & Hf).
    destruct Rx as (R1 & R2 & R3); [congruence|].
    pose proof (loading_toLoad_nonneg ms0 _ _ x Hl1 Hn) as Hge.
    intros Hoff. left.
    destruct (Z.eq_dec (toLoad t x - 1) 0) as [Ez|Ez].
    + rewrite (R2 Ez) in Hoff. discriminate.
    + lia.
  - destruct (Ro n Hne) as [-> ->]. now apply Hp.
Qed.

Lemma under_way_step (ms0 : Modules) (a : Action) (t t' : DepsTree.t) :
  fresh ms0 -> invariant ms0 t -> under_way ms0 t ->
  step a t = Some t' -> under_way ms0 t'.
Proof.
  intros Hfresh Hinv Hq Hstep Hs' Hc'.
  pose proof (invariant_not_error ms0 t Hinv) as Hne.
  destruct Hinv as (Hn & Hd & Hg & Hp & Hur).
  destruct a as [| | | |name [v|err]|name outcome].
  - apply Some_inj in Hstep. subst t'. unfold DepsTree.init in *.
    destruct (DepsTree.state t) eqn:E; simpl in Hs', Hc';
      try discriminate; try congruence.
    apply Hq; [exact E | exact Hc'].
  - apply Some_inj in Hstep. subst t'.
    destruct (shutting_down_deinit t Hne); congruence.
  - apply Some_inj in Hstep. subst t'. apply Hq; [exact Hs' | exact Hc'].
  - rewrite step_run_init_callback in Hstep.
    destruct (DepsTree.initCallback t) eqn:Ec; [|discriminate].
    apply Some_inj in Hstep. subst t'.
    destruct Hp as [[_ Hu]|[(_ & Hc & _)|(_ & Hc & _)]]; try congruence.
    pose proof (untouched_loading ms0 t Hu) as Hl.
    destruct Hu as (Hmod & _ & _ & _ & _ & _ & Hcb).
    destruct (Hcb Ec) as (Hzero & _).
    assert (Hnames : names (DepsTree.modules t) = names ms0)
      by apply (erase_names _ _ _ Hg).
    unfold DepsTree.init_callback.
    change (DepsTree.modules (DepsTree.with_initCallback false t))
      with (DepsTree.modules t).
    rewrite Hnames. split.
    + apply prompt_callback.
      * exact Hg.
      * apply Hfresh.
      * intros n Hin. split; [exact Hin|].
        destruct (Hmod n) as (Hoff & Hrest).
        destruct (Hrest Hin) as (Hto & _). split; [exact Hoff | exact Hto].
      * intros n Hin Hnot. contradiction.
    + intros Hall Hne0.
      destruct (loading_init_callback_loop ms0 (names ms0)
                  (DepsTree.with_initCallback false t))
        as (_ & _ & Hm); auto.
      * apply Hfresh.
      * intros n Hin. split; [exact Hin|]. apply (Hmod n).
      * rewrite (Hm Hall).
        change (DepsTree._modulesToLoad (DepsTree.with_initCallback false t))
          with (DepsTree._modulesToLoad t).
        rewrite Hzero. unfold names.
        destruct ms0; [contradiction | simpl; lia].
  - pose proof (step_outline _ _ _ Hstep) as (_ & Ho). cbv zeta in Ho.
    rewrite step_init_settles in Hstep.
    destruct (mem name _) eqn:Hm; [|discriminate].
    apply Some_inj in Hstep. apply mem_In in Hm.
    destruct (DepsTree.state t) eqn:Hs;
      try (apply outline_fields in Ho as (Ho & _); simpl in Ho;
           rewrite Hs in Ho; congruence).
    assert (Hc : DepsTree.initCallback t = false).
    { destruct Ho as [Ho|Ho];
        apply outline_fields in Ho as (_ & _ & _ & _ & _ & _ & Ho & _);
        simpl in Ho; congruence. }
    clear Ho. destruct (Hq Hs Hc) as [Hpr Hbusy].
    destruct Hp as [[_ Hu]|[(_ & _ & Hst)|(Hsu & _)]].
    + destruct Hu as (_ & Hpi & _). rewrite Hpi in Hm. contradiction.
    + destruct Hst as (Hl & _).
      rewrite initModule_resume_returned in Hstep by exact Hs.
      destruct (loading_inited ms0 t name v Hfresh Hg Hl Hm)
        as (Hli & _ & _ & Hml & Hgi & Hci & _).
      assert (Hmod : In name (names ms0))
        by (destruct Hl as (_ & Hsub & _); now apply Hsub).
      destruct (find_names ms0 t name Hg Hmod) as (m & Hf).
      destruct (inited_reads name v t) as (Is & It); [congruence|].
      assert (Hpi : prompt ms0 (inited name v t)).
      { intros n Hin. unfold prompt_at. rewrite Is, It.
        destruct (n =? name)%string; [discriminate|]. now apply Hpr. }
      apply control_state in Hci.
      set (tc := inited name v t) in *. clearbody tc.
      destruct (DepsTree._modulesToLoad tc =? 0) eqn:Ez.
      * subst t'. simpl in Hs'. discriminate.
      * apply Z.eqb_neq in Ez. subst t'.
        rewrite (same_graph_dependants ms0 t name Hg).
        destruct (loading_load_dependants ms0 _ tc Hgi Hli) as (_ & _ & Hsm).
        split.
        -- now apply prompt_load_dependants.
        -- intros Hall Hne0. rewrite Hsm. specialize (Hbusy Hall Hne0). lia.
    + exfalso. now apply (started_up_not_initializing t).
  - rewrite step_init_settles in Hstep.
    destruct (mem name _); [|discriminate].
    apply Some_inj in Hstep. subst t'.
    match type of Hs' with
      DepsTree.state (DepsTree._initModule_resume _ _ ?x) = _ =>
        destruct (shutting_down_init_failed name err x Hne); congruence
    end.
  - pose proof (step_outline _ _ _ Hstep) as (Hin & _).
    destruct Hd as [Hd|Hd]; [rewrite Hd in Hin; contradiction|].
    destruct (shutting_down_step _ t t' Hstep Hd); congruence.
Qed.

Lemma under_way_reachable
  (descriptions : list (string * ModuleDescription)) (t0 t : DepsTree.t)
  (actions : list Action) :
  distinct_names descriptions ->
  DepsTree.constructor descriptions = Normal t0 ->
  run actions t0 = Some t ->
  invariant (DepsTree.modules t0) t /\ under_way (DepsTree.modules t0) t.
Proof.
  intros Hnd Hc Hrun.
  destruct (constructor_fresh descriptions t0 Hnd Hc) as (Hfresh & _).
  apply (run_inv (fun x => invariant (DepsTree.modules t0) x /\
                           under_way (DepsTree.modules t0) x))
    with (actions := actions) (t := t0); auto.
  - intros a t1 t2 Hstep [Hi Hu]. split.
    + now apply (invariant_step _ a t1).
    + now apply (under_way_step _ a t1).
  - split; [now apply (invariant_constructed descriptions)|].
    intros E. apply constructor_Normal in Hc.
    destruct Hc as (_ & Hs & _). congruence.
Qed.


Lemma constructor_needed
  (descriptions : list (string * ModuleDescription)) (t0 : DepsTree.t) :
  distinct_names descriptions ->
  DepsTree.constructor descriptions = Normal t0 ->
  deps_closed (DepsTree.modules t0) /\
  forall n, is_needed (DepsTree.modules t0) n = true
            <-> required descriptions n.
Proof.
  intros Hnd Hc. apply constructor_Normal in Hc as (Hb & _).
  destruct (build_modules_result descriptions Hnd)
    as [(_ & dep & E & _)|(_ & ms1 & ms2 & _ & E2 & _ & _ & Hcl & Hreq)];
    [congruence|].
  rewrite Hb in E2. injection E2 as <-. split; assumption.
Qed.

Lemma waiting_all_up (t : DepsTree.t) (l : list string) :
  (forall d, In d l -> state_of t d = State.up) -> waiting t l = 0.
Proof.
  intros H. unfold waiting.
  induction l as [|d l IH]; [reflexivity|]. simpl.
  unfold is_up at 1. rewrite (H d (or_introl eq_refl)). simpl.
  apply IH. intros x Hx. apply H. now right.
Qed.

Lemma mstate_state_of (t : DepsTree.t) (n : string) (st : State.t) :
  mstate n t = Some st -> state_of t n = st.
Proof.
  unfold mstate, state_of. destruct (DepsTree.find n t); simpl; congruence.
Qed.

(** X15.  The start-up never holds a module back.  While the tree is
    [initializing], once the callback of [init()] has run: every module that
    is needed, or that has a dependency, and whose dependencies are all
    [up], has had its [init] operation invoked. *)
Theorem init_is_prompt
  (descriptions : list (string * ModuleDescription)) (t0 t : DepsTree.t)
  (actions : list Action) (n : string) :
  distinct_names descriptions ->
  DepsTree.constructor descriptions = Normal t0 ->
  run actions t0 = Some t ->
  DepsTree.state t = State.initializing ->
  DepsTree.initCallback t = false ->
  In n (map fst descriptions) ->
  required descriptions n \/ deps_in descriptions n <> [] ->
  (forall d, In d (deps_in descriptions n) -> mstate d t = Some State.up) ->
  invoked n (DepsTree.trace t) = 1%nat.
Proof.
  intros Hnd Hc Hrun Hs Hcb Hn Hwhy Hdeps.
  destruct (under_way_reachable descriptions t0 t actions Hnd Hc Hrun)
    as ((_ & _ & Hg & Hp & _) & Hu).
  destruct (constructor_fresh descriptions t0 Hnd Hc)
    as (_ & Hnames & Hd & _).
  destruct (constructor_needed descriptions t0 Hnd Hc) as (_ & Hreq).
  destruct (Hu Hs Hcb) as [Hpr _].
  rewrite <- Hnames in Hn.
  destruct Hp as [[Hph _]|[(_ & _ & Hst)|(Hsu & _)]].
  - destruct Hph; congruence.
  - destruct Hst as ((_ & _ & _ & Hmod) & _).
    destruct (Hmod n Hn) as (_ & H2 & _ & _ & H5 & _).
    rewrite H5.
    destruct (State.eqb (state_of t n) State.off) eqn:E; [|reflexivity].
    exfalso.
    assert (Hoff : state_of t n = State.off)
      by (destruct (state_of t n); try discriminate; reflexivity).
    assert (Hz : toLoad t n = 0).
    { rewrite H2, waiting_all_up; [reflexivity|].
      intros d Hin. apply mstate_state_of, Hdeps. now rewrite <- Hd. }
    destruct (Hpr n Hn Hoff) as [H|[H1 H2']]; [lia|].
    destruct Hwhy as [Hr|Hne].
    + apply Hreq in Hr. congruence.
    + apply Hne. now rewrite <- Hd.
  - exfalso. now apply (started_up_not_initializing t).
Qed.

Lemma init_is_prompt_witness :
  exists t0 t,
    distinct_names chain_example /\
    DepsTree.constructor chain_example = Normal t0 /\
    run [call_init; run_init_callback; init_settles "A" (inl VNull)] t0
    = Some t /\
    DepsTree.state t = State.initializing /\
    DepsTree.initCallback t = false /\
    In "D" (map fst chain_example) /\
    (required chain_example "D" \/ deps_in chain_example "D" <> []) /\
    (forall d, In d (deps_in chain_example "D") ->
               mstate d t = Some State.up) /\
    invoked "D" (DepsTree.trace t) = 1%nat.
Proof.
  assert (Hnd : distinct_names chain_example).
  { unfold distinct_names. simpl.
    repeat constructor; simpl; intuition discriminate. }
  destruct (DepsTree.constructor chain_example) as [t0| |] eqn:E0;
    try (vm_compute in E0; discriminate).
  destruct (run [call_init; run_init_callback; init_settles "A" (inl VNull)]
              t0) as [t|] eqn:E.
  2:{ vm_compute in E0. injection E0 as <-. vm_compute in E. discriminate. }
  assert (Hs : DepsTree.state t = State.initializing).
  { vm_compute in E0. injection E0 as <-. vm_compute in E.
    injection E as <-. reflexivity. }
  assert (Hcb : DepsTree.initCallback t = false).
  { vm_compute in E0. injection E0 as <-. vm_compute in E.
    injection E as <-. reflexivity. }
  assert (Hin : In "D" (map fst chain_example)) by (simpl; tauto).
  assert (Hwhy : required chain_example "D" \/
                 deps_in chain_example "D" <> [])
    by (right; discriminate).
  assert (Hdeps : forall d, In d (deps_in chain_example "D") ->
                            mstate d t = Some State.up).
  { vm_compute in E0. injection E0 as <-. vm_compute in E.
    injection E as <-. intros d [<-|[]]. reflexivity. }
  exists t0, t. split; [exact Hnd|]. split; [reflexivity|].
  split; [exact E|]. split; [exact Hs|]. split; [exact Hcb|].
  split; [exact Hin|]. split; [exact Hwhy|]. split; [exact Hdeps|].
  exact (init_is_prompt chain_example t0 t _ "D" Hnd E0 E Hs Hcb Hin Hwhy
           Hdeps).
Defined.

(** ** The start-up cannot stall *)







(** ** Cycles of dependencies *)

Lemma blocked_dependency (descriptions : list (string * ModuleDescription))
  (n : string) :
  blocked descriptions n ->
  exists d, depends descriptions n d /\ blocked descriptions d.
Proof.
  intros (c & [->|Hnc] & Hcc).
  - inversion Hcc as [m d Hd|m d e Hd Hr]; subst.
    + exists c. split; [exact Hd|]. exists c. auto.
    + exists d. split; [exact Hd|]. exists c. auto.
  - inversion Hnc as [m d Hd|m d e Hd Hr]; subst.
    + exists c. split; [exact Hd|]. exists c. auto.
    + exists d. split; [exact Hd|]. exists c. auto.
Qed.

Lemma invoked_app_le (d : string) (events tr : list Event) :
  (invoked d tr <= invoked d (events ++ tr))%nat.
Proof.
  induction events as [|e events IH]; simpl; [lia|].
  destruct e; try exact IH. lia.
Qed.

Lemma returns_after_invoke_In (tr : list Event) (d : string) (v : value) :
  returns_after_invoke tr -> In (Init_returned d v) tr ->
  (1 <= invoked d tr)%nat.
Proof.
  induction tr as [|e past IH]; simpl; [tauto|].
  intros [He Hpast] [->|Hin].
  - exact He.
  - specialize (IH Hpast Hin). destruct e; try exact IH. lia.
Qed.

Lemma returns_after_invoke_app (events tr : list Event) :
  returns_after_invoke tr ->
  (forall d v, In (Init_returned d v) events -> (1 <= invoked d tr)%nat) ->
  returns_after_invoke (events ++ tr).
Proof.
  intros Htr. induction events as [|e events IH]; intros H; simpl;
    [exact Htr|].
  split.
  - destruct e as [? ?|?| | |? ?|?|? ?|?|x w|? ?|?|? ?]; try exact I.
    pose proof (H x w (or_introl eq_refl)).
    pose proof (invoked_app_le x events tr). lia.
  - apply IH. intros d v Hin. apply (H d v). now right.
Qed.

(** The [init] operation of a blocked module cannot have been invoked: one
    of its dependencies is blocked too, and would have had to return
    before. *)
Lemma blocked_never (descriptions : list (string * ModuleDescription))
  (tr : list Event) :
  init_after_deps (deps_in descriptions) tr -> returns_after_invoke tr ->
  forall n, blocked descriptions n -> invoked n tr = O.
Proof.
  induction tr as [|e past IH]; simpl; [reflexivity|].
  intros [He Hord] [_ Hrai] n Hb.
  specialize (IH Hord Hrai).
  destruct e; try (now apply IH).
  rewrite (IH n Hb).
  destruct (String.eqb_spec name n) as [->|Hne]; [|reflexivity].
  exfalso.
  destruct (blocked_dependency descriptions n Hb) as (d & Hd & Hbd).
  destruct (He d Hd) as (_ & v & Hin).
  pose proof (returns_after_invoke_In past d v Hrai Hin) as H.
  rewrite (IH d Hbd) in H. lia.
Qed.

(** *** What a turn adds to the trace *)

Lemma extends_step (a : Action) (t t' : DepsTree.t) :
  step a t = Some t' -> extends t t'.
Proof.
  assert (Ht : forall x y, told x y -> extends x y).
  { intros x y (events & H & _). now exists events. }
  destruct a as [| | | |name outcome|name outcome].
  - intros H%Some_inj. subst t'. apply Ht, told_init.
  - intros H%Some_inj. subst t'. apply Ht, told_deinit.
  - intros H%Some_inj. subst t'. now exists [].
  - rewrite step_run_init_callback.
    destruct (DepsTree.initCallback t); [|discriminate].
    intros H%Some_inj. subst t'.
    apply (module_level_init_callback _ (extends_module_level t)).
    now exists [].
  - rewrite step_init_settles. destruct (mem name _); [|discriminate].
    intros H%Some_inj. subst t'.
    eapply extends_trans; [|apply Ht, told_initModule_resume].
    apply extends_record. now exists [].
  - rewrite step_deinit_settles. destruct (_ && _); [|discriminate].
    intros H%Some_inj. subst t'.
    eapply extends_trans; [|apply Ht, told_deinitModule_resume].
    apply extends_record. now exists [].
Qed.

Lemma returned_outline (a b : DepsTree.t) :
  outline a = outline b -> returned a = returned b.
Proof.
  intros H. apply outline_fields in H as (_ & _ & _ & _ & _ & _ & _ & H).
  unfold returned.
  rewrite <- (filter_filter_stronger is_returned tree_event (DepsTree.trace a)),
    <- (filter_filter_stronger is_returned tree_event (DepsTree.trace b)).
  - now rewrite H.
  - now intros [].
  - now intros [].
Qed.

Lemma returned_deinit_head (t : DepsTree.t) :
  returned (deinit_head t) = returned t.
Proof. unfold deinit_head. now destruct (DepsTree.state t). Qed.

Lemma returned_error_head (err : Error) (name : option string)
  (t : DepsTree.t) :
  returned (error_head err name t) = returned t.
Proof.
  unfold error_head. rewrite returned_deinit_head.
  now destruct (DepsTree.errorListeners t).
Qed.

(** The returns a turn records: its own, when it is the return of an
    [init] operation, and no other. *)
Lemma returned_step (a : Action) (t t' : DepsTree.t) :
  step a t = Some t' ->
  returned t' = returned t \/
  exists name v,
    a = init_settles name (inl v) /\ In name (DepsTree.pendingInit t) /\
    returned t' = Init_returned name v :: returned t.
Proof.
  intros Hstep. apply step_outline in Hstep.
  destruct a as [| | | |name [v|err]|name outcome]; unfold outline_step in Hstep.
  - left. subst t'. unfold DepsTree.init. now destruct (DepsTree.state t).
  - left. rewrite (returned_outline _ _ Hstep). apply returned_deinit_head.
  - left. now subst t'.
  - left. destruct Hstep as (_ & Ho). now rewrite (returned_outline _ _ Ho).
  - right. exists name, v. destruct Hstep as (Hin & Ho). cbv zeta in Ho.
    split; [reflexivity|]. split; [exact Hin|].
    destruct (DepsTree.state t);
      try (now rewrite (returned_outline _ _ Ho)).
    now destruct Ho as [Ho|Ho]; rewrite (returned_outline _ _ Ho).
  - left. destruct Hstep as (_ & Ho). rewrite (returned_outline _ _ Ho).
    now rewrite returned_error_head.
  - left. destruct Hstep as (_ & Ho). cbv zeta in Ho.
    assert (H1 : returned
                   match outcome with
                   | None => DepsTree.record (Deinit_returned name) t
                   | Some err =>
                       error_head err (Some name)
                         (DepsTree.record (Deinit_failed name err) t)
                   end = returned t).
    { destruct outcome as [err|]; [|reflexivity].
      now rewrite returned_error_head. }
    destruct Ho as [Ho|Ho]; rewrite (returned_outline _ _ Ho);
      [exact H1|].
    unfold stopped_head, returned in *. simpl. exact H1.
Qed.

Lemma returns_after_invoke_step (a : Action) (t t' : DepsTree.t) :
  step a t = Some t' -> pending_invoked t ->
  returns_after_invoke (DepsTree.trace t) ->
  returns_after_invoke (DepsTree.trace t').
Proof.
  intros Hstep Hp Hrai.
  destruct (extends_step a t t' Hstep) as (events & Hev).
  unfold fired in Hev. rewrite Hev.
  apply returns_after_invoke_app; [exact Hrai|].
  intros d v Hin.
  assert (Hf : In (Init_returned d v) (filter is_returned events))
    by (apply filter_In; split; [exact Hin | reflexivity]).
  assert (Hr : returned t' = (filter is_returned events ++ returned t)%list)
    by (unfold returned; now rewrite Hev, filter_app).
  destruct (returned_step a t t' Hstep) as [E|(name & v0 & _ & Hpend & E)];
    rewrite Hr in E.
  - apply (app_inv_tail (returned t) (filter is_returned events) []) in E.
    rewrite E in Hf. contradiction.
  - apply (app_inv_tail (returned t) (filter is_returned events)
             [Init_returned name v0]) in E.
    rewrite E in Hf. destruct Hf as [Hf|[]]. injection Hf as -> _.
    now apply Hp.
Qed.

(** *** What is in flight was invoked *)

Lemma loading_pending_invoked (ms0 : Modules) (extra : string -> nat)
  (t : DepsTree.t) :
  loading ms0 extra t -> pending_invoked t.
Proof.
  intros (_ & Hsub & _ & Hmod) n Hn.
  destruct (Hmod n (Hsub n Hn)) as (_ & _ & _ & H4 & H5 & _).
  apply H4 in Hn. rewrite H5, Hn. simpl. lia.
Qed.

Lemma remove_first_subset (n m : string) (l : list string) :
  In m (remove_first n l) -> In m l.
Proof.
  induction l as [|x l IH]; simpl; [tauto|].
  destruct (x =? n)%string; [tauto|]. simpl. tauto.
Qed.

Lemma pending_invoked_same (t t' : DepsTree.t) :
  (forall n, In n (DepsTree.pendingInit t') -> In n (DepsTree.pendingInit t)) ->
  (forall n, invoked n (DepsTree.trace t') = invoked n (DepsTree.trace t)) ->
  pending_invoked t -> pending_invoked t'.
Proof. intros Hp Hi H n Hn. rewrite Hi. apply H. now apply Hp. Qed.

Lemma pending_invoked_no_init (t x t' : DepsTree.t) :
  no_init x t' ->
  (forall n, In n (DepsTree.pendingInit x) -> In n (DepsTree.pendingInit t)) ->
  (forall n, invoked n (DepsTree.trace x) = invoked n (DepsTree.trace t)) ->
  pending_invoked t -> pending_invoked t'.
Proof.
  intros (F1 & _ & F3 & _) Hp Hi. apply pending_invoked_same.
  - intros n. rewrite F1. apply Hp.
  - intros n. now rewrite F3.
Qed.

Lemma pending_invoked_step (ms0 : Modules) (a : Action) (t t' : DepsTree.t) :
  fresh ms0 -> invariant ms0 t -> pending_invoked t ->
  step a t = Some t' -> pending_invoked t'.
Proof.
  intros Hfresh (Hn & Hd & Hg & Hp & Hur) Hpi Hstep.
  destruct a as [| | | |name [v|err]|name outcome].
  - apply Some_inj in Hstep. subst t'. revert Hpi.
    apply pending_invoked_same; intros n; unfold DepsTree.init;
      now destruct (DepsTree.state t).
  - apply Some_inj in Hstep. subst t'.
    apply (pending_invoked_no_init t t); auto.
    apply (shutdown_level_deinit _ (no_init_shutdown_level t)), no_init_refl.
  - apply Some_inj in Hstep. subst t'. exact Hpi.
  - rewrite step_run_init_callback in Hstep.
    destruct (DepsTree.initCallback t) eqn:Ec; [|discriminate].
    apply Some_inj in Hstep. subst t'.
    destruct Hp as [[_ Hu]|[(_ & Hc & _)|(_ & Hc & _)]]; try congruence.
    pose proof (untouched_loading ms0 t Hu) as Hl.
    destruct Hu as (Hmod & _).
    apply (loading_pending_invoked ms0 none). unfold DepsTree.init_callback.
    apply (loading_init_callback_loop ms0 _
             (DepsTree.with_initCallback false t)).
    + exact Hg.
    + exact Hl.
    + change (DepsTree.modules (DepsTree.with_initCallback false t))
        with (DepsTree.modules t).
      rewrite (erase_names _ _ _ Hg). apply Hfresh.
    + intros n Hin.
      change (DepsTree.modules (DepsTree.with_initCallback false t))
        with (DepsTree.modules t) in Hin.
      rewrite (erase_names _ _ _ Hg) in Hin. split; [exact Hin|].
      apply (Hmod n).
  - rewrite step_init_settles in Hstep.
    destruct (mem name _) eqn:Hm; [|discriminate].
    apply Some_inj in Hstep. subst t'. apply mem_In in Hm.
    destruct (State.eqb (DepsTree.state t) State.initializing) eqn:E.
    + assert (Hs : DepsTree.state t = State.initializing)
        by (destruct (DepsTree.state t); try discriminate; reflexivity).
      destruct Hp as [[_ Hu]|[(_ & _ & Hst)|(Hsu & _)]].
      * destruct Hu as (_ & Hp0 & _). rewrite Hp0 in Hm. contradiction.
      * destruct Hst as (Hl & _).
        rewrite initModule_resume_returned by exact Hs.
        destruct (loading_inited ms0 t name v Hfresh Hg Hl Hm)
          as (Hli & _ & _ & _ & Hgi & _).
        destruct (_ =? 0).
        -- apply (pending_invoked_same (inited name v t));
             [auto | reflexivity|].
           now apply (loading_pending_invoked ms0 _ _ Hli).
        -- apply (loading_pending_invoked ms0 none).
           apply loading_load_dependants; [exact Hgi|].
           now rewrite (same_graph_dependants ms0 t name Hg).
      * exfalso. now apply (started_up_not_initializing t).
    + assert (Hs : DepsTree.state t <> State.initializing)
        by (intros E'; rewrite E' in E; discriminate).
      unfold DepsTree._initModule_resume.
      match goal with |- pending_invoked (DepsTree._moduleInited _ ?x) =>
        apply (pending_invoked_no_init t x);
          [apply (shutdown_level_moduleInited _ (no_init_shutdown_level x));
             [exact Hs | apply no_init_refl]
          |intros n; apply remove_first_subset
          |reflexivity
          |exact Hpi]
      end.
  - rewrite step_init_settles in Hstep.
    destruct (mem name _) eqn:Hm; [|discriminate].
    apply Some_inj in Hstep. subst t'.
    unfold DepsTree._initModule_resume.
    match goal with |- pending_invoked (DepsTree._error _ _ ?x) =>
      apply (pending_invoked_no_init t x);
        [apply (shutdown_level_error _ (no_init_shutdown_level x)),
           no_init_refl
        |intros n; apply remove_first_subset
        |reflexivity
        |exact Hpi]
    end.
  - rewrite step_deinit_settles in Hstep.
    destruct (_ && _); [|discriminate].
    apply Some_inj in Hstep. subst t'.
    match goal with
      |- pending_invoked (DepsTree._deinitModule_resume _ _ ?x) =>
        apply (pending_invoked_no_init t x);
          [apply (shutdown_level_deinitModule_resume _
                    (no_init_shutdown_level x)), no_init_refl
          |auto
          |intros n; now destruct outcome
          |exact Hpi]
    end.
Qed.

Lemma returns_after_invoke_reachable
  (descriptions : list (string * ModuleDescription)) (t0 t : DepsTree.t)
  (actions : list Action) :
  distinct_names descriptions ->
  DepsTree.constructor descriptions = Normal t0 ->
  run actions t0 = Some t ->
  invariant (DepsTree.modules t0) t /\
  returns_after_invoke (DepsTree.trace t).
Proof.
  intros Hnd Hc Hrun.
  destruct (constructor_fresh descriptions t0 Hnd Hc) as (Hfresh & _).
  assert (H : invariant (DepsTree.modules t0) t /\ pending_invoked t /\
              returns_after_invoke (DepsTree.trace t)).
  { apply (run_inv (fun x => invariant (DepsTree.modules t0) x /\
                             pending_invoked x /\
                             returns_after_invoke (DepsTree.trace x)))
      with (actions := actions) (t := t0); auto.
    - intros a t1 t2 Hstep (Hi & Hp & Hr). splits.
      + now apply (invariant_step _ a t1).
      + now apply (pending_invoked_step (DepsTree.modules t0) a t1).
      + now apply (returns_after_invoke_step a t1).
    - split; [now apply (invariant_constructed descriptions)|].
      apply constructor_Normal in Hc.
      destruct Hc as (_ & _ & _ & _ & _ & _ & _ & Hpi & _ & Htr).
      split.
      + intros n Hn. rewrite Hpi in Hn. contradiction.
      + rewrite Htr. exact I. }
  tauto.
Qed.

Lemma depends_is_module (descriptions : list (string * ModuleDescription))
  (n d : string) :
  depends descriptions n d -> In n (map fst descriptions).
Proof.
  unfold depends, deps_in.
  induction descriptions as [|[x dx] rest IH]; simpl; [tauto|].
  destruct (String.eqb_spec x n) as [->|Hne]; [now left|].
  intros H. right. now apply IH.
Qed.

(** X17.  The constructor accepts dependencies that form a cycle, but the
    [init] operation of a module on a cycle, or of a module that depends on
    one, is never invoked; and when every module is needed, such a tree never
    comes [up] and the promise of [init()] is never resolved. *)
Theorem blocked_modules_never_start
  (descriptions : list (string * ModuleDescription)) (t0 t : DepsTree.t)
  (actions : list Action) (n : string) :
  distinct_names descriptions ->
  DepsTree.constructor descriptions = Normal t0 ->
  run actions t0 = Some t ->
  blocked descriptions n ->
  invoked n (DepsTree.trace t) = O /\
  (all_needed (DepsTree.modules t0) ->
   ~ init_resolved t /\ DepsTree.state t <> State.up).
Proof.
  intros Hnd Hc Hrun Hb.
  destruct (returns_after_invoke_reachable descriptions t0 t actions
              Hnd Hc Hrun) as ((_ & _ & _ & Hp & Hur) & Hrai).
  destruct (constructor_fresh descriptions t0 Hnd Hc) as (_ & Hnames & Hd & _).
  destruct (phases_order _ t Hp) as [Hord Hres].
  assert (Hz : invoked n (DepsTree.trace t) = O).
  { apply (blocked_never descriptions); auto.
    apply (init_after_deps_ext _ _ _ Hd Hord). }
  split; [exact Hz|].
  intros Hall.
  assert (Hnr : ~ init_resolved t).
  { intros Hr.
    destruct (blocked_dependency descriptions n Hb) as (d & Hdep & _).
    pose proof (depends_is_module descriptions n d Hdep) as Hn.
    rewrite <- Hnames in Hn. rewrite (Hres Hall Hr n Hn) in Hz.
    discriminate. }
  split; [exact Hnr|]. intros E. apply Hnr. now apply Hur.
Qed.

Lemma blocked_modules_never_start_witness :
  exists t0 t,
    distinct_names blocked_example /\
    DepsTree.constructor blocked_example = Normal t0 /\
    run [call_init; run_init_callback] t0 = Some t /\
    blocked blocked_example "C" /\
    invoked "C" (DepsTree.trace t) = O /\
    (all_needed (DepsTree.modules t0) ->
     ~ init_resolved t /\ DepsTree.state t <> State.up).
Proof.
  assert (Hnd : distinct_names blocked_example).
  { unfold distinct_names. simpl.
    repeat constructor; simpl; intuition discriminate. }
  assert (Hb : blocked blocked_example "C").
  { exists "A". split.
    - right. apply reaches_step. simpl. now left.
    - apply reaches_more with (d := "B"); [simpl; now left|].
      apply reaches_step. simpl. now left. }
  destruct (DepsTree.constructor blocked_example) as [t0| |] eqn:E0;
    try (vm_compute in E0; discriminate).
  destruct (run [call_init; run_init_callback] t0) as [t|] eqn:E.
  2:{ vm_compute in E0. injection E0 as <-. vm_compute in E. discriminate. }
  exists t0, t. split; [exact Hnd|]. split; [reflexivity|].
  split; [exact E|]. split; [exact Hb|].
  exact (blocked_modules_never_start blocked_example t0 t _ "C" Hnd E0 E Hb).
Defined.

(** ** The object handed to [init] *)


Lemma entry_ok_cons (seed_of : string -> value) (e : Event)
  (past : list Event) (entry : string * value) :
  entry_ok seed_of past entry -> entry_ok seed_of (e :: past) entry.
Proof. intros (v & H1 & H2). exists v. split; [now right | exact H2]. Qed.







Lemma inited_trace (n : string) (v : value) (t : DepsTree.t) :
  DepsTree.trace (inited n v t)
  = Emit_module_state n State.up :: Init_returned n v :: DepsTree.trace t.
Proof.
  unfold inited.
  match goal with |- context [fold_left DepsTree.count_dependant ?l ?a] =>
    destruct (count_dependants_reads l a) as (_ & _ & _ & _ & Br & _)
  end.
  cbn [DepsTree.trace DepsTree.with_modulesToLoad]. rewrite Br. reflexivity.
Qed.




Lemma state_moduleInited_other (name : string) (t : DepsTree.t) :
  DepsTree.state t <> State.initializing ->
  DepsTree.state (DepsTree._moduleInited name t) = DepsTree.state t.
Proof.
  intros Hs. unfold DepsTree._moduleInited.
  destruct (DepsTree.state t) eqn:E; try reflexivity; try exact E.
  contradiction.
Qed.




(** * The counters of the shutdown during the start-up *)

Lemma toUnload_update (x n : string) (f : Mod.t -> Mod.t) (t : DepsTree.t) :
  (forall m, Mod.dependantsToUnload (f m) = Mod.dependantsToUnload m) ->
  toUnload (DepsTree.update x f t) n = toUnload t n.
Proof.
  intros Hf. unfold toUnload, DepsTree.find, DepsTree.update. simpl.
  rewrite find_update. destruct (n =? x)%string; [|reflexivity].
  destruct (find_module n (DepsTree.modules t)); simpl; [apply Hf|reflexivity].
Qed.

Lemma toUnload_add (x n : string) (k : Z) (t : DepsTree.t) :
  DepsTree.find x t <> None ->
  toUnload
    (DepsTree.update x
       (fun m => Mod.with_dependantsToUnload (Mod.dependantsToUnload m + k) m)
       t) n
  = if (n =? x)%string then toUnload t n + k else toUnload t n.
Proof.
  intros Hx. unfold toUnload, DepsTree.find, DepsTree.update in *. simpl.
  rewrite find_update. destruct (String.eqb_spec n x) as [->|Hne];
    [|reflexivity].
  destruct (find_module x (DepsTree.modules t)); [reflexivity | contradiction].
Qed.

Lemma tally_ext (f g : string -> bool) (l : list string) :
  (forall d, In d l -> f d = g d) -> tally f l = tally g l.
Proof.
  intros H. unfold tally. f_equal. f_equal.
  induction l as [|d l IH]; simpl; [reflexivity|].
  rewrite (H d) by now left.
  rewrite IH by (intros; apply H; now right). reflexivity.
Qed.

(** When [f] becomes true at [x], the tally grows as often as [x] is
    listed. *)
Lemma tally_on (f g : string -> bool) (x : string) (l : list string) :
  f x = false ->
  (forall d, g d = if (d =? x)%string then true else f d) ->
  tally g l = tally f l + Z.of_nat (occurrences l x).
Proof.
  intros Hx H. unfold tally, occurrences.
  rewrite <- Nat2Z.inj_add. f_equal.
  induction l as [|d l IH]; simpl; [reflexivity|].
  rewrite H. destruct (string_dec d x) as [->|Hne].
  - rewrite String.eqb_refl, Hx. simpl. rewrite IH. lia.
  - destruct (String.eqb_spec d x); [contradiction|].
    destruct (f d); simpl; rewrite IH; lia.
Qed.

(** When [f] becomes false at [x], the tally shrinks as often as [x] is
    listed. *)
Lemma tally_off (f g : string -> bool) (x : string) (l : list string) :
  f x = true ->
  (forall d, g d = if (d =? x)%string then false else f d) ->
  tally f l = tally g l + Z.of_nat (occurrences l x).
Proof.
  intros Hx H. unfold tally, occurrences.
  rewrite <- Nat2Z.inj_add. f_equal.
  induction l as [|d l IH]; simpl; [reflexivity|].
  rewrite H. destruct (string_dec d x) as [->|Hne].
  - rewrite String.eqb_refl, Hx. simpl. rewrite IH. lia.
  - destruct (String.eqb_spec d x); [contradiction|].
    destruct (f d); simpl; rewrite IH; lia.
Qed.

Lemma tally_nonneg (f : string -> bool) (l : list string) : 0 <= tally f l.
Proof. unfold tally. lia. Qed.

Lemma tally_all (f : string -> bool) (l : list string) :
  (forall d, In d l -> f d = true) -> tally f l = Z.of_nat (List.length l).
Proof.
  intros H. unfold tally. f_equal.
  induction l as [|d l IH]; simpl; [reflexivity|].
  rewrite (H d) by now left. simpl. f_equal.
  apply IH. intros. apply H. now right.
Qed.

Lemma tally_zero (f : string -> bool) (l : list string) (d : string) :
  tally f l = 0 -> In d l -> f d = false.
Proof.
  unfold tally. intros H Hd.
  destruct (filter f l) as [|y r] eqn:E; [|simpl in H; lia].
  destruct (f d) eqn:Ef; [|reflexivity].
  assert (Hin : In d (filter f l)) by (apply filter_In; now split).
  rewrite E in Hin. contradiction.
Qed.

(** The dependants a module records are modules. *)
Lemma dependants_are_modules (ms0 : Modules) (d x : string) :
  fresh ms0 -> In x (dependants_of d ms0) -> In x (names ms0).
Proof.
  intros (_ & Hinverse & _) Hin.
  apply (count_occ_In string_dec) in Hin. rewrite Hinverse in Hin.
  destruct (in_dec string_dec x (names ms0)) as [H|H]; [exact H|].
  apply find_module_None in H. unfold dependencies_of in Hin.
  rewrite H in Hin. simpl in Hin. lia.
Qed.

(** ** [_initModule] *)

Lemma initModule_counters (x : string) (t : DepsTree.t) :
  (forall n, toUnload (DepsTree._initModule x t) n = toUnload t n) /\
  DepsTree._modulesToUnload (DepsTree._initModule x t)
  = DepsTree._modulesToUnload t + 1 /\
  DepsTree.pendingDeinit (DepsTree._initModule x t)
  = DepsTree.pendingDeinit t /\
  deinit_invocations (DepsTree.trace (DepsTree._initModule x t))
  = deinit_invocations (DepsTree.trace t).
Proof.
  splits; try reflexivity.
  intros n.
  change (toUnload (DepsTree._initModule x t) n)
    with (toUnload (DepsTree.update x (Mod.with_state State.initializing) t) n).
  now apply toUnload_update.
Qed.

Lemma counting_initModule (ms0 : Modules) (t : DepsTree.t) (x : string) :
  NoDup (names ms0) -> same_graph ms0 t -> counting ms0 t ->
  In x (names ms0) -> state_of t x = State.off ->
  counting ms0 (DepsTree._initModule x t).
Proof.
  intros Hnd Hg (Hto & Hmu & Hpd & Hdi) Hx Hoff.
  destruct (find_names ms0 t x Hg Hx) as (mx & Hfx).
  assert (Hfound : DepsTree.find x t <> None) by congruence.
  destruct (initModule_reads x t Hfound) as (Hst & _).
  destruct (initModule_counters x t) as (Cto & Cmu & Cpd & Cdi).
  unfold counting. rewrite Cmu, Cpd, Cdi. splits; auto.
  - intros n Hn. rewrite Cto, (Hto n Hn). apply tally_ext.
    intros d _. unfold is_up. rewrite Hst.
    destruct (String.eqb_spec d x) as [->|]; [now rewrite Hoff | reflexivity].
  - rewrite Hmu.
    rewrite (tally_on (has_begun t) (has_begun (DepsTree._initModule x t)) x).
    + rewrite occurrences_NoDup by assumption. lia.
    + unfold has_begun. now rewrite Hoff.
    + intros d. unfold has_begun. rewrite Hst.
      now destruct (String.eqb_spec d x).
Qed.

(** A tree that reads the same keeps the counters. *)
Lemma counting_same (ms0 : Modules) (t t' : DepsTree.t) :
  (forall n, state_of t' n = state_of t n) ->
  (forall n, toUnload t' n = toUnload t n) ->
  DepsTree._modulesToUnload t' = DepsTree._modulesToUnload t ->
  DepsTree.pendingDeinit t' = DepsTree.pendingDeinit t ->
  deinit_invocations (DepsTree.trace t')
  = deinit_invocations (DepsTree.trace t) ->
  counting ms0 t -> counting ms0 t'.
Proof.
  intros Hs Hu Hm Hp Hd (Hto & Hmu & Hpd & Hdi).
  unfold counting. rewrite Hm, Hp, Hd. splits; auto.
  - intros n Hn. rewrite Hu, (Hto n Hn). apply tally_ext.
    intros d _. unfold is_up. now rewrite Hs.
  - rewrite Hmu. apply tally_ext. intros d _. unfold has_begun.
    now rewrite Hs.
Qed.

(** ** The loops of the start-up *)

Lemma counting_load_dependant (ms0 : Modules) (l : list string)
  (t : DepsTree.t) (x : string) :
  NoDup (names ms0) -> same_graph ms0 t ->
  loading ms0 (occurrences (x :: l)) t -> counting ms0 t ->
  counting ms0 (DepsTree.load_dependant t x).
Proof.
  intros Hnd Hg Hl Hc. unfold DepsTree.load_dependant.
  set (f := fun m => Mod.with_dependenciesToLoad
                       (Mod.dependenciesToLoad m - 1) m).
  assert (Hc1 : counting ms0 (DepsTree.update x f t)).
  { apply (counting_same ms0 t); auto.
    - intros n. now apply state_of_update.
    - intros n. now apply toUnload_update. }
  destruct (DepsTree.find x (DepsTree.update x f t)) as [mx|] eqn:Hfx;
    [|exact Hc1].
  destruct (Mod.dependenciesToLoad mx =? 0); [|exact Hc1].
  assert (Hx : In x (names ms0)).
  { rewrite <- (erase_names _ _ _ Hg).
    destruct (in_dec string_dec x (names (DepsTree.modules t))) as [H|H];
      [exact H|].
    apply find_module_None in H.
    unfold DepsTree.find, DepsTree.update in Hfx. simpl in Hfx.
    rewrite find_update_same, H in Hfx. discriminate. }
  apply counting_initModule; auto.
  - apply same_graph_update; [|exact Hg]. now intros m.
  - rewrite state_of_update by reflexivity.
    destruct Hl as (_ & _ & _ & Hmod).
    destruct (Hmod x Hx) as (_ & H2 & H3 & _).
    destruct (State.eqb (state_of t x) State.off) eqn:E.
    + now destruct (state_of t x).
    + exfalso.
      assert (Hne : state_of t x <> State.off)
        by (intros E'; rewrite E' in E; discriminate).
      specialize (H3 Hne). rewrite H3 in H2.
      pose proof (waiting_nonneg t (dependencies_of x ms0)).
      rewrite occurrences_cons, String.eqb_refl in H2. lia.
Qed.

Lemma counting_load_dependants (ms0 : Modules) (l : list string)
  (t : DepsTree.t) :
  NoDup (names ms0) -> same_graph ms0 t ->
  loading ms0 (occurrences l) t -> counting ms0 t ->
  counting ms0 (fold_left DepsTree.load_dependant l t).
Proof.
  intros Hnd. revert t. induction l as [|x l IH]; intros t Hg Hl Hc; simpl;
    [exact Hc|].
  destruct (loading_load_dependant ms0 l t x Hg Hl) as [Hl1 _].
  apply IH; [now apply same_graph_load_dependant | exact Hl1|].
  now apply (counting_load_dependant ms0 l).
Qed.

Lemma counting_init_module_if_ready (ms0 : Modules) (t : DepsTree.t)
  (x : string) :
  NoDup (names ms0) -> same_graph ms0 t -> counting ms0 t ->
  In x (names ms0) -> state_of t x = State.off ->
  counting ms0 (DepsTree.init_module_if_ready t x).
Proof.
  intros Hnd Hg Hc Hx Hoff. unfold DepsTree.init_module_if_ready.
  destruct (DepsTree.find x t) as [m|]; [|exact Hc].
  destruct (Mod.needed m); [|exact Hc].
  destruct (Mod.dependenciesToLoad m =? 0); [|exact Hc].
  now apply counting_initModule.
Qed.

Lemma counting_init_callback_loop (ms0 : Modules) (l : list string)
  (t : DepsTree.t) :
  NoDup (names ms0) -> same_graph ms0 t -> counting ms0 t -> NoDup l ->
  (forall n, In n l -> In n (names ms0) /\ state_of t n = State.off) ->
  counting ms0 (fold_left DepsTree.init_module_if_ready l t).
Proof.
  intros Hnd0. revert t.
  induction l as [|x l IH]; intros t Hg Hc Hnd Hoff; simpl fold_left;
    [exact Hc|].
  inversion Hnd as [|? ? Hx Hnd']; subst.
  destruct (Hoff x (or_introl eq_refl)) as [Hxn Hxo].
  destruct (find_names ms0 t x Hg Hxn) as (m & Hf).
  destruct (init_module_if_ready_reads x t m Hf) as (Hs1 & _).
  apply IH; auto.
  - now apply same_graph_init_module_if_ready.
  - now apply counting_init_module_if_ready.
  - intros n Hn. destruct (Hoff n (or_intror Hn)) as [Hnn Hno].
    split; [exact Hnn|]. rewrite Hs1; [exact Hno|].
    intros ->. contradiction.
Qed.

(** ** An [init] that returns during the start-up *)

Lemma count_dependants_toUnload (l : list string) (t : DepsTree.t)
  (n : string) :
  DepsTree.find n t <> None ->
  toUnload (fold_left DepsTree.count_dependant l t) n
  = toUnload t n + Z.of_nat (occurrences l n) /\
  DepsTree._modulesToUnload (fold_left DepsTree.count_dependant l t)
  = DepsTree._modulesToUnload t /\
  DepsTree.pendingDeinit (fold_left DepsTree.count_dependant l t)
  = DepsTree.pendingDeinit t.
Proof.
  revert t. induction l as [|x l IH]; intros t Hn; simpl fold_left.
  - unfold occurrences. simpl. splits; try reflexivity. lia.
  - assert (Hn1 : DepsTree.find n (DepsTree.count_dependant t x) <> None).
    { unfold DepsTree.count_dependant, DepsTree.find, DepsTree.update in *.
      simpl. rewrite find_update.
      destruct (n =? x)%string; [|exact Hn].
      destruct (find_module n (DepsTree.modules t)); [discriminate|].
      contradiction. }
    destruct (IH _ Hn1) as (H1 & H2 & H3). rewrite H1, H2, H3.
    splits; try reflexivity.
    rewrite occurrences_cons. unfold DepsTree.count_dependant.
    destruct (String.eqb_spec n x) as [->|Hne].
    + rewrite toUnload_add by exact Hn. rewrite String.eqb_refl. lia.
    + unfold toUnload at 1, DepsTree.find, DepsTree.update. simpl.
      rewrite find_update_other by exact Hne.
      unfold toUnload, DepsTree.find. lia.
Qed.

Lemma find_update_found (x d : string) (f : Mod.t -> Mod.t) (t : DepsTree.t) :
  DepsTree.find d t <> None -> DepsTree.find d (DepsTree.update x f t) <> None.
Proof.
  unfold DepsTree.find, DepsTree.update. simpl. rewrite find_update.
  intros H. destruct (d =? x)%string; [|exact H].
  destruct (find_module d (DepsTree.modules t)); [discriminate|contradiction].
Qed.

Lemma inited_counters (n : string) (v : value) (t : DepsTree.t) (d : string) :
  DepsTree.find d t <> None ->
  toUnload (inited n v t) d
  = toUnload t d
    + Z.of_nat (occurrences (dependencies_of n (DepsTree.modules t)) d) /\
  DepsTree._modulesToUnload (inited n v t) = DepsTree._modulesToUnload t /\
  DepsTree.pendingDeinit (inited n v t) = DepsTree.pendingDeinit t.
Proof.
  intros Hd. unfold inited.
  set (t0 := DepsTree.update n _ _).
  set (ta := DepsTree._changeModuleState n State.up t0).
  assert (Hdeps : dependencies_of n (DepsTree.modules t0)
                  = dependencies_of n (DepsTree.modules t)).
  { unfold t0, dependencies_of, DepsTree.update. simpl.
    rewrite find_update_same.
    now destruct (find_module n (DepsTree.modules t)). }
  rewrite Hdeps.
  assert (Hda : DepsTree.find d ta <> None).
  { unfold ta, DepsTree._changeModuleState.
    change (DepsTree.find d (DepsTree.record ?e ?x))
      with (DepsTree.find d x).
    apply find_update_found. unfold t0. apply find_update_found.
    exact Hd. }
  destruct (count_dependants_toUnload
              (dependencies_of n (DepsTree.modules t)) ta d Hda)
    as (H1 & H2 & H3).
  splits.
  - change (toUnload (DepsTree.with_modulesToLoad ?z ?x) d)
      with (toUnload x d).
    rewrite H1. f_equal. unfold ta, DepsTree._changeModuleState.
    change (toUnload (DepsTree.record ?e ?x) d) with (toUnload x d).
    rewrite toUnload_update by reflexivity.
    unfold t0. now rewrite toUnload_update.
  - cbn [DepsTree._modulesToUnload DepsTree.with_modulesToLoad].
    rewrite H2. reflexivity.
  - cbn [DepsTree.pendingDeinit DepsTree.with_modulesToLoad].
    rewrite H3. reflexivity.
Qed.

Lemma counting_inited (ms0 : Modules) (t : DepsTree.t) (n : string)
  (v : value) :
  fresh ms0 -> same_graph ms0 t -> loading ms0 none t -> counting ms0 t ->
  In n (DepsTree.pendingInit t) -> counting ms0 (inited n v t).
Proof.
  intros Hfresh Hg Hl (Hto & Hmu & Hpd & Hdi) Hpend.
  destruct (loading_inited ms0 t n v Hfresh Hg Hl Hpend)
    as (_ & Hnu & Hup & _).
  destruct Hfresh as (Hnames & Hinverse & _).
  destruct Hl as (_ & Hsub & _ & Hmod).
  pose proof (Hsub n Hpend) as Hn.
  destruct (find_names ms0 t n Hg Hn) as (mn & Hfn).
  assert (Hf : DepsTree.find n t <> None) by congruence.
  destruct (inited_reads n v t Hf) as (Is & _).
  assert (Hinit : state_of t n = State.initializing)
    by now apply (Hmod n Hn).
  unfold counting. rewrite inited_trace. splits.
  - intros d Hdn.
    destruct (find_names ms0 t d Hg Hdn) as (md & Hfd).
    assert (Hd : DepsTree.find d t <> None) by congruence.
    destruct (inited_counters n v t d Hd) as (H1 & _).
    rewrite H1, (Hto d Hdn), (same_graph_dependencies ms0 t n Hg).
    rewrite (tally_on (is_up t) (is_up (inited n v t)) n) by assumption.
    f_equal. f_equal. unfold occurrences. now rewrite Hinverse.
  - destruct (inited_counters n v t n Hf) as (_ & H2 & _).
    rewrite H2, Hmu. apply tally_ext. intros d _. unfold has_begun.
    rewrite Is. destruct (String.eqb_spec d n) as [->|]; [|reflexivity].
    now rewrite Hinit.
  - destruct (inited_counters n v t n Hf) as (_ & _ & H3).
    now rewrite H3.
  - exact Hdi.
Qed.

(** ** A tree that is up is at rest *)

Lemma counting_settled (ms0 : Modules) (t : DepsTree.t) :
  fresh ms0 -> counting ms0 t ->
  (forall n, In n (names ms0) -> state_of t n = State.up) ->
  DepsTree.pendingInit t = [] -> settled ms0 t.
Proof.
  intros Hfresh (Hto & Hmu & Hpd & Hdi) Hup Hpi.
  unfold settled. splits; auto.
  - intros n Hn. split; [now apply Hup|].
    rewrite (Hto n Hn). apply tally_all. intros d Hd.
    unfold is_up. rewrite Hup; [reflexivity|].
    now apply (dependants_are_modules ms0 n).
  - rewrite Hmu. unfold names.
    rewrite <- (length_map fst ms0). apply tally_all.
    intros d Hd. unfold has_begun. now rewrite (Hup d Hd).
Qed.

Lemma settled_started (ms0 : Modules) (x : DepsTree.t) (d : option Deferred) :
  settled ms0 x ->
  settled ms0
    (DepsTree.record Emit_started
       (DepsTree._changeState State.up (DepsTree.with_initDefer d x))).
Proof. intros H. exact H. Qed.

Lemma counting_event (ms0 : Modules) (t t' : DepsTree.t) :
  DepsTree.modules t' = DepsTree.modules t ->
  DepsTree._modulesToUnload t' = DepsTree._modulesToUnload t ->
  DepsTree.pendingDeinit t' = DepsTree.pendingDeinit t ->
  deinit_invocations (DepsTree.trace t')
  = deinit_invocations (DepsTree.trace t) ->
  counting ms0 t -> counting ms0 t'.
Proof.
  intros Hm. apply counting_same; intros n.
  - unfold state_of, DepsTree.find. now rewrite Hm.
  - unfold toUnload, DepsTree.find. now rewrite Hm.
Qed.

Lemma tallied_step (ms0 : Modules) (a : Action) (t t' : DepsTree.t) :
  fresh ms0 -> all_needed ms0 -> invariant ms0 t -> invariant ms0 t' ->
  all_up ms0 t' -> tallied ms0 t -> step a t = Some t' -> tallied ms0 t'.
Proof.
  intros Hfresh Hall Hinv Hinv' Hau' [Hk Hset] Hstep.
  pose proof (invariant_not_error ms0 t Hinv) as Hne.
  destruct Hinv as (_ & Hd & Hg & Hp & _).
  destruct Hinv' as (_ & _ & _ & Hp' & _).
  pose proof Hfresh as (Hnames & _).
  (* a tree whose callback has run is, one step later, starting or started *)
  assert (Hleft : callback_done t ->
                  DepsTree.state t' <> State.initializing ->
                  after_start_up t').
  { intros Hcd Hs'. pose proof (callback_done_step a t t' Hstep Hcd) as [H1 H2].
    destruct Hp' as [[[E|E] _]|[(Hs & _)|(Hs & Hc & _)]]; try congruence.
    now split. }
  assert (Hcount : ~ callback_done t -> counting ms0 t).
  { intros Hn. destruct Hk as [[Hsu Hc]|Hk]; [|exact Hk].
    exfalso. apply Hn. split; [now apply started_up_not_off | exact Hc]. }
  assert (Hcases : (DepsTree.state t = State.off \/
                    DepsTree.initCallback t = true) /\ untouched ms0 t /\
                   counting ms0 t \/ callback_done t).
  { destruct Hp as [[Hph Hu]|[(Hs & Hc & _)|(Hs & Hc & _)]].
    - left. split; [exact Hph|]. split; [exact Hu|]. apply Hcount.
      intros [H1 H2]. destruct Hph; congruence.
    - right. split; congruence.
    - right. split; [now apply started_up_not_off | exact Hc]. }
  destruct a as [| | | |name [v|err]|name outcome].
  - (* init() *)
    apply Some_inj in Hstep. subst t'. unfold DepsTree.init in *.
    destruct (DepsTree.state t) eqn:E; cbn [snd DepsTree.defer] in *;
      try (split; [exact Hk
                  | intros E'; first [apply Hset; reflexivity | congruence]]).
    split; [|discriminate]. right.
    apply (counting_event ms0 t); try reflexivity.
    apply Hcount. intros [H _]. congruence.
  - (* deinit() *)
    apply Some_inj in Hstep. subst t'.
    pose proof (shutting_down_deinit t Hne) as Hsd.
    split; [|intros E; destruct Hsd; congruence].
    destruct Hcases as [(Hph & Hu & Hc)|Hcd].
    + right. destruct Hu as (Hmod & _).
      clear Hau' Hp' Hleft Hsd. unfold DepsTree.deinit.
      destruct (DepsTree.state t) eqn:E; cbn [snd DepsTree.defer];
        try exact Hc.
      all: rewrite deinit_loop_untouched by (intros n; apply Hmod).
      all: exact Hc.
    + left. apply Hleft; [exact Hcd|]. destruct Hsd; congruence.
  - (* on('error') *)
    apply Some_inj in Hstep. subst t'. split; [exact Hk | exact Hset].
  - (* the queued callback *)
    rewrite step_run_init_callback in Hstep.
    destruct (DepsTree.initCallback t) eqn:Ec; [|discriminate].
    apply Some_inj in Hstep. subst t'.
    destruct Hcases as [(Hph & Hu & Hc)|[_ Hcd]]; [|congruence].
    destruct Hu as (Hmod & _ & _ & _ & _ & _ & Hcb).
    split.
    + right. unfold DepsTree.init_callback.
      change (DepsTree.modules (DepsTree.with_initCallback false t))
        with (DepsTree.modules t).
      rewrite (erase_names _ _ _ Hg).
      apply counting_init_callback_loop; auto.
      intros n Hin. split; [exact Hin|]. apply (Hmod n).
    + intros E. exfalso. unfold DepsTree.init_callback in E.
      rewrite (proj2 (proj2 (proj2 (proj2 (state_loops _ _))))) in E.
      cbn [DepsTree.state DepsTree.with_initCallback] in E.
      destruct (Hcb Ec) as (_ & [E'|E'] & _); congruence.
  - (* an init that returns *)
    rewrite step_init_settles in Hstep.
    destruct (mem name _) eqn:Hm; [|discriminate].
    apply Some_inj in Hstep. apply mem_In in Hm.
    destruct Hcases as [(_ & Hu & _)|Hcd].
    { destruct Hu as (_ & Hpi & _). rewrite Hpi in Hm. contradiction. }
    destruct (State.eqb (DepsTree.state t) State.initializing) eqn:E.
    + assert (Hs : DepsTree.state t = State.initializing)
        by (destruct (DepsTree.state t); try discriminate; reflexivity).
      destruct Hp as [[_ Hu]|[(_ & _ & Hst)|(Hsu & _)]].
      * destruct Hu as (_ & Hpi & _). rewrite Hpi in Hm. contradiction.
      * destruct Hst as (Hl & _).
        assert (Hc : counting ms0 t).
        { destruct Hk as [[Hsu _]|Hk]; [|exact Hk].
          exfalso. now apply (started_up_not_initializing t). }
        rewrite initModule_resume_returned in Hstep by exact Hs.
        destruct (loading_inited ms0 t name v Hfresh Hg Hl Hm)
          as (Hli & _ & _ & _ & Hgi & Hci & _).
        pose proof (counting_inited ms0 t name v Hfresh Hg Hl Hc Hm) as Hcc.
        rewrite (same_graph_dependants ms0 t name Hg) in Hstep.
        apply control_state in Hci.
        set (tc := inited name v t) in *. clearbody tc.
        destruct (DepsTree._modulesToLoad tc =? 0).
        -- subst t'.
           split; [left; apply Hleft; [exact Hcd | simpl; discriminate]|].
           intros _. apply settled_started.
           assert (Hallup : forall n, In n (names ms0) ->
                                      state_of tc n = State.up).
           { intros n Hin. rewrite <- (state_of_started tc
                                         (DepsTree.resolve
                                            (DepsTree._initDefer tc)) n).
             now apply Hau'. }
           apply counting_settled; auto.
           destruct Hli as (_ & Hsub & _ & Hmod).
           destruct (DepsTree.pendingInit tc) as [|y r] eqn:Ep;
             [reflexivity|].
           exfalso.
           assert (Hy : In y (names ms0)) by (apply Hsub; now left).
           destruct (Hmod y Hy) as (_ & _ & _ & H4 & _).
           assert (Hi : state_of tc y = State.initializing)
             by (apply H4; now left).
           rewrite (Hallup y Hy) in Hi. discriminate.
        -- subst t'. split.
           ++ right. now apply counting_load_dependants.
           ++ intros E'. exfalso.
              rewrite (proj1 (proj2 (proj2 (proj2 (state_loops _ _)))))
                in E'.
              congruence.
      * exfalso. now apply (started_up_not_initializing t).
    + assert (Hs : DepsTree.state t <> State.initializing)
        by (intros E'; rewrite E' in E; discriminate).
      assert (Hs' : DepsTree.state t' = DepsTree.state t).
      { subst t'. unfold DepsTree._initModule_resume.
        now rewrite state_moduleInited_other. }
      split.
      * left. apply Hleft; [exact Hcd | congruence].
      * intros E'. exfalso. rewrite Hs' in E'.
        destruct (Hset E') as (_ & _ & Hpi & _).
        rewrite Hpi in Hm. contradiction.
  - (* an init that fails *)
    rewrite step_init_settles in Hstep.
    destruct (mem name _) eqn:Hm; [|discriminate].
    apply Some_inj in Hstep. apply mem_In in Hm.
    destruct Hcases as [(_ & Hu & _)|Hcd].
    { destruct Hu as (_ & Hpi & _). rewrite Hpi in Hm. contradiction. }
    assert (Hsd : shutting_down t').
    { subst t'. now apply shutting_down_init_failed. }
    split.
    + left. apply Hleft; [exact Hcd|]. destruct Hsd; congruence.
    + intros E'. destruct Hsd; congruence.
  - (* a deinit that settles *)
    pose proof (step_outline _ _ _ Hstep) as (Hin & _).
    assert (Hsd : shutting_down t)
      by (destruct Hd as [Hd|Hd]; [rewrite Hd in Hin; contradiction|exact Hd]).
    pose proof (shutting_down_step _ t t' Hstep Hsd) as Hsd'.
    destruct Hcases as [(_ & Hu & _)|Hcd].
    { destruct Hu as (_ & _ & Hpd & _). rewrite Hpd in Hin. contradiction. }
    split.
    + left. apply Hleft; [exact Hcd|]. destruct Hsd'; congruence.
    + intros E'. destruct Hsd'; congruence.
Qed.

(** * The order of a shutdown that begins when the tree is up *)

Lemma deinit_completed_cons (d : string) (e : Event) (past : list Event) :
  deinit_completed d past -> deinit_completed d (e :: past).
Proof.
  intros [H|(err & H)]; [left | right; exists err]; now right.
Qed.

Lemma still_loaded_done (t : DepsTree.t) (d : string) :
  still_loaded t d = false <-> is_done t d = true.
Proof. unfold still_loaded. now destruct (is_done t d). Qed.

(** ** [_deinitModule] *)

Lemma deinitModule_reads (x : string) (t : DepsTree.t) :
  DepsTree.find x t <> None ->
  (forall n, state_of (DepsTree._deinitModule x t) n
             = if (n =? x)%string then State.deinitializing
               else state_of t n) /\
  (forall n, toUnload (DepsTree._deinitModule x t) n = toUnload t n) /\
  DepsTree.pendingDeinit (DepsTree._deinitModule x t)
  = (DepsTree.pendingDeinit t ++ [x])%list /\
  DepsTree.trace (DepsTree._deinitModule x t)
  = Invoke_deinit x :: Emit_module_state x State.deinitializing
      :: DepsTree.trace t /\
  DepsTree._modulesToUnload (DepsTree._deinitModule x t)
  = DepsTree._modulesToUnload t /\
  DepsTree.pendingInit (DepsTree._deinitModule x t) = DepsTree.pendingInit t.
Proof.
  intros Hx. splits; try reflexivity.
  - intros n.
    change (state_of (DepsTree._deinitModule x t) n)
      with (state_of (DepsTree._changeModuleState x State.deinitializing t) n).
    now apply state_of_changeModuleState.
  - intros n.
    change (toUnload (DepsTree._deinitModule x t) n)
      with (toUnload
              (DepsTree.update x (Mod.with_state State.deinitializing) t) n).
    now apply toUnload_update.
Qed.

Lemma unloading_deinitModule (ms0 : Modules) (extra : string -> nat)
  (t : DepsTree.t) (x : string) :
  fresh ms0 -> same_graph ms0 t -> unloading ms0 extra t ->
  In x (names ms0) -> state_of t x = State.up -> toUnload t x = 0 ->
  unloading ms0 extra (DepsTree._deinitModule x t) /\
  unwinding t (DepsTree._deinitModule x t).
Proof.
  intros Hfresh Hg (Hnd & Hsub & Hord & Hmod) Hx Hup Hzero.
  destruct (find_names ms0 t x Hg Hx) as (mx & Hfx).
  assert (Hfound : DepsTree.find x t <> None) by congruence.
  destruct (deinitModule_reads x t Hfound)
    as (Hst & Hto & Hpe & Htr & Hmu & Hpi).
  assert (Hsl : forall d, still_loaded (DepsTree._deinitModule x t) d
                          = still_loaded t d).
  { intros d. unfold still_loaded, is_done. rewrite Hst.
    destruct (String.eqb_spec d x) as [->|]; [now rewrite Hup | reflexivity]. }
  destruct (Hmod x Hx) as (_ & Hcount & _ & Hpend & Hinv & _).
  pose proof (tally_nonneg (still_loaded t) (dependants_of x ms0)) as Hw.
  assert (Hwait : tally (still_loaded t) (dependants_of x ms0) = 0) by lia.
  split; [|split; [exact Hsl | split; assumption]].
  unfold unloading. rewrite Hpe, Htr. splits.
  - apply NoDup_snoc; [exact Hnd|]. intros Hin. apply Hpend in Hin. congruence.
  - intros n Hin. apply in_app_or in Hin as [Hin|[<-|[]]]; auto.
  - cbn [deinit_after_dependants]. splits; auto.
    intros d Hd. apply deinit_completed_cons.
    pose proof (tally_zero _ _ d Hwait Hd) as Hdone.
    apply still_loaded_done in Hdone.
    apply (Hmod d); [|exact Hdone].
    now apply (dependants_are_modules ms0 x).
  - intros n Hn.
    destruct (Hmod n Hn) as (H1 & H2 & H3 & H4 & H5 & H6).
    rewrite Hst, Hto, (tally_ext _ _ _ (fun d _ => Hsl d)).
    unfold is_done. rewrite Hst. unfold deinit_invoked in *.
    cbn [deinit_invocations count_occ].
    destruct (String.eqb_spec n x) as [->|Hne].
    + split; [auto|]. split; [exact H2|]. split; [intros _; exact Hzero|].
      split; [split; [intros _; apply in_or_app; right; now left
                     | reflexivity]|].
      split; [|discriminate].
      destruct (string_dec x x); [|contradiction].
      rewrite H5, Hup. reflexivity.
    + split; [exact H1|]. split; [exact H2|]. split; [exact H3|].
      split.
      { rewrite H4. split; [intros H; apply in_or_app; now left|].
        intros H. apply in_app_or in H as [H|[H|[]]]; [exact H|].
        congruence. }
      split.
      { destruct (string_dec x n); [congruence|]. exact H5. }
      intros H. apply deinit_completed_cons, deinit_completed_cons. auto.
Qed.

Lemma same_graph_deinitModule (ms0 : Modules) (t : DepsTree.t) (x : string) :
  same_graph ms0 t -> same_graph ms0 (DepsTree._deinitModule x t).
Proof.
  apply module_level_deinitModule, (same_graph_module_level ms0).
Qed.

Lemma unwinding_refl (t : DepsTree.t) : unwinding t t.
Proof. now split. Qed.

Lemma unwinding_trans (a b c : DepsTree.t) :
  unwinding a b -> unwinding b c -> unwinding a c.
Proof.
  intros (H1 & H2 & H3) (K1 & K2 & K3). split; [|split; congruence].
  intros d. now rewrite K1, H1.
Qed.

(** ** The loop of [deinit()] *)

Lemma unloading_nonneg (ms0 : Modules) (t : DepsTree.t) (n : string) :
  unloading ms0 none t -> In n (names ms0) -> 0 <= toUnload t n.
Proof.
  intros (_ & _ & _ & Hmod) Hn.
  destruct (Hmod n Hn) as (_ & H2 & _). rewrite H2.
  pose proof (tally_nonneg (still_loaded t) (dependants_of n ms0)).
  unfold none. lia.
Qed.

Lemma unloading_deinit_module_if_free (ms0 : Modules) (t : DepsTree.t)
  (x : string) :
  fresh ms0 -> same_graph ms0 t -> unloading ms0 none t ->
  In x (names ms0) ->
  unloading ms0 none (DepsTree.deinit_module_if_free t x) /\
  unwinding t (DepsTree.deinit_module_if_free t x) /\
  same_graph ms0 (DepsTree.deinit_module_if_free t x) /\
  held (DepsTree.deinit_module_if_free t x) x /\
  forall n, held t n -> held (DepsTree.deinit_module_if_free t x) n.
Proof.
  intros Hfresh Hg Hl Hx. unfold DepsTree.deinit_module_if_free.
  destruct (find_names ms0 t x Hg Hx) as (m & Hf). rewrite Hf.
  pose proof (unloading_nonneg ms0 t x Hl Hx) as Hge.
  assert (Hsx : state_of t x = Mod.state m)
    by (unfold state_of; now rewrite Hf).
  assert (Htx : toUnload t x = Mod.dependantsToUnload m)
    by (unfold toUnload; now rewrite Hf).
  destruct (State.eqb (Mod.state m) State.up) eqn:Es; simpl.
  - assert (Hup : state_of t x = State.up)
      by (rewrite Hsx; destruct (Mod.state m); try discriminate; reflexivity).
    destruct (Mod.dependantsToUnload m =? 0) eqn:Ez.
    + apply Z.eqb_eq in Ez.
      assert (Hzero : toUnload t x = 0) by congruence.
      destruct (unloading_deinitModule ms0 none t x Hfresh Hg Hl Hx Hup Hzero)
        as [Hl1 Hu1].
      assert (Hfound : DepsTree.find x t <> None) by congruence.
      destruct (deinitModule_reads x t Hfound) as (Hst & Hto & _).
      split; [exact Hl1|]. split; [exact Hu1|].
      split; [now apply same_graph_deinitModule|]. split.
      * unfold held. rewrite Hst, String.eqb_refl. discriminate.
      * intros n Hn. unfold held in *. rewrite Hst, Hto.
        destruct (n =? x)%string; [discriminate | exact Hn].
    + apply Z.eqb_neq in Ez.
      split; [exact Hl|]. split; [apply unwinding_refl|].
      split; [exact Hg|]. split; [|auto].
      intros _. lia.
  - split; [exact Hl|]. split; [apply unwinding_refl|].
    split; [exact Hg|]. split; [|auto].
    intros E. rewrite Hsx in E. rewrite E in Es. discriminate.
Qed.

Lemma unloading_deinit_loop (ms0 : Modules) (l : list string)
  (t : DepsTree.t) :
  fresh ms0 -> same_graph ms0 t -> unloading ms0 none t ->
  (forall n, In n l -> In n (names ms0)) ->
  unloading ms0 none (fold_left DepsTree.deinit_module_if_free l t) /\
  unwinding t (fold_left DepsTree.deinit_module_if_free l t) /\
  forall n, In n l \/ held t n ->
            held (fold_left DepsTree.deinit_module_if_free l t) n.
Proof.
  intros Hfresh. revert t.
  induction l as [|x l IH]; intros t Hg Hl Hsub; simpl fold_left.
  - split; [exact Hl|]. split; [apply unwinding_refl|].
    intros n [[]|H]. exact H.
  - destruct (unloading_deinit_module_if_free ms0 t x Hfresh Hg Hl)
      as (Hl1 & Hu1 & Hg1 & Hx1 & Hk1); [apply Hsub; now left|].
    destruct (IH _ Hg1 Hl1) as (Hl2 & Hu2 & Hk2);
      [intros n Hn; apply Hsub; now right|].
    split; [exact Hl2|]. split; [now apply (unwinding_trans _ _ _ Hu1)|].
    intros n [[<-|Hin]|Hn]; apply Hk2; auto.
Qed.

(** A tree at rest unloads nothing yet. *)
Lemma settled_unloading (ms0 : Modules) (t : DepsTree.t) :
  fresh ms0 -> settled ms0 t ->
  unloading ms0 none t /\
  DepsTree._modulesToUnload t = tally (still_loaded t) (names ms0).
Proof.
  intros Hfresh (Hmod & Hmu & Hpi & Hpd & Hdi).
  assert (Hsl : forall d, In d (names ms0) -> still_loaded t d = true).
  { intros d Hd. unfold still_loaded, is_done.
    now rewrite (proj1 (Hmod d Hd)). }
  split.
  - unfold unloading. rewrite Hpd. splits.
    + constructor.
    + intros n [].
    + clear - Hdi. induction (DepsTree.trace t) as [|e tr IH]; simpl; [exact I|].
      destruct e; simpl in Hdi; try discriminate; split; auto.
    + intros n Hn. destruct (Hmod n Hn) as [Hup Hto].
      rewrite Hup, Hto. splits; auto.
      * unfold none. rewrite Z.add_0_r. symmetry. apply tally_all.
        intros d Hd. apply Hsl.
        now apply (dependants_are_modules ms0 n).
      * congruence.
      * split; [discriminate | intros []].
      * unfold deinit_invoked. now rewrite Hdi.
      * unfold is_done. rewrite Hup. discriminate.
  - rewrite Hmu. unfold names. rewrite <- (length_map fst ms0).
    symmetry. now apply tally_all.
Qed.

(** ** The loop of [_deinitModule] *)

Lemma unloading_unload_dependency (ms0 : Modules) (l : list string)
  (t : DepsTree.t) (d : string) :
  fresh ms0 -> same_graph ms0 t -> unloading ms0 (occurrences (d :: l)) t ->
  unloading ms0 (occurrences l) (DepsTree.unload_dependency t d) /\
  unwinding t (DepsTree.unload_dependency t d) /\
  same_graph ms0 (DepsTree.unload_dependency t d) /\
  forall n, held t n \/ n = d -> held (DepsTree.unload_dependency t d) n.
Proof.
  intros Hfresh Hg Hl. unfold DepsTree.unload_dependency.
  set (f := fun m => Mod.with_dependantsToUnload
                       (Mod.dependantsToUnload m - 1) m).
  destruct (DepsTree.find d t) as [md|] eqn:Hfd.
  - (* [d] is a module: it is up, and its counter is decremented *)
    assert (Hd : In d (names ms0)).
    { rewrite <- (erase_names _ _ _ Hg).
      destruct (in_dec string_dec d (names (DepsTree.modules t))) as [H|H];
        [exact H|].
      apply find_module_None in H. unfold DepsTree.find in Hfd. congruence. }
    assert (Hfound : DepsTree.find d t <> None) by congruence.
    destruct Hl as (Hnd & Hsub & Hord & Hmod).
    destruct (Hmod d Hd) as (Hd1 & Hd2 & Hd3 & _).
    rewrite occurrences_cons, String.eqb_refl in Hd2.
    pose proof (tally_nonneg (still_loaded t) (dependants_of d ms0)) as Hw.
    assert (Hup : state_of t d = State.up).
    { destruct (State.eqb (state_of t d) State.up) eqn:E.
      - now destruct (state_of t d).
      - assert (toUnload t d = 0); [|lia].
        apply Hd3. intros E'. now rewrite E' in E. }
    set (t1 := DepsTree.update d f t).
    assert (Hst : forall n, state_of t1 n = state_of t n)
      by (intros n; now apply state_of_update).
    assert (Hto : forall n, toUnload t1 n
                            = if (n =? d)%string then toUnload t n + -1
                              else toUnload t n)
      by (intros n; now apply (toUnload_add d n (-1))).
    assert (Hsl : forall x, still_loaded t1 x = still_loaded t x)
      by (intros x; unfold still_loaded, is_done; now rewrite Hst).
    assert (Hg1 : same_graph ms0 t1)
      by (apply same_graph_update; [intros m; reflexivity | exact Hg]).
    assert (Hl1 : unloading ms0 (occurrences l) t1).
    { unfold unloading.
      change (DepsTree.pendingDeinit t1) with (DepsTree.pendingDeinit t).
      change (DepsTree.trace t1) with (DepsTree.trace t).
      split; [exact Hnd|]. split; [exact Hsub|]. split; [exact Hord|].
      intros n Hn.
      destruct (Hmod n Hn) as (H1 & H2 & H3 & H4 & H5 & H6).
      rewrite occurrences_cons in H2.
      unfold is_done. rewrite Hst, Hto, (tally_ext _ _ _ (fun x _ => Hsl x)).
      destruct (String.eqb_spec n d) as [->|Hne].
      - split; [exact H1|]. split; [lia|].
        split; [intros H; congruence|]. auto.
      - split; [exact H1|]. split; [exact H2|]. auto. }
    assert (Hu1 : unwinding t t1) by (split; [exact Hsl | now split]).
    assert (Hk1 : forall n, n <> d -> held t n -> held t1 n).
    { intros n Hne Hn. unfold held. rewrite Hst, Hto.
      destruct (String.eqb_spec n d); [contradiction | exact Hn]. }
    destruct (DepsTree.find d t1) as [m1|] eqn:Hf1.
    2:{ exfalso. apply (find_update_found d d f t Hfound). exact Hf1. }
    assert (Ht1 : toUnload t1 d = Mod.dependantsToUnload m1)
      by (unfold toUnload; now rewrite Hf1).
    assert (Hge : 0 <= toUnload t1 d).
    { rewrite Hto, String.eqb_refl. lia. }
    destruct (Mod.dependantsToUnload m1 <=? 0) eqn:Ez.
    + apply Z.leb_le in Ez.
      assert (Hzero : toUnload t1 d = 0) by lia.
      destruct (unloading_deinitModule ms0 (occurrences l) t1 d)
        as [Hl2 Hu2]; auto.
      { now rewrite Hst. }
      assert (Hfound1 : DepsTree.find d t1 <> None) by congruence.
      destruct (deinitModule_reads d t1 Hfound1) as (Hst2 & Hto2 & _).
      split; [exact Hl2|]. split; [now apply (unwinding_trans _ _ _ Hu1)|].
      split; [now apply same_graph_deinitModule|].
      intros n Hn. unfold held. rewrite Hst2, Hto2.
      destruct (String.eqb_spec n d) as [->|Hne]; [discriminate|].
      destruct Hn as [Hn|Hn]; [|contradiction].
      now apply Hk1.
    + apply Z.leb_gt in Ez.
      split; [exact Hl1|]. split; [exact Hu1|]. split; [exact Hg1|].
      intros n Hn. destruct (string_dec n d) as [->|Hne].
      * intros _. lia.
      * destruct Hn as [Hn|Hn]; [|contradiction]. now apply Hk1.
  - (* [d] is no module: nothing happens *)
    assert (E : DepsTree.update d f t = t).
    { unfold DepsTree.update. rewrite update_missing by exact Hfd.
      now destruct t. }
    rewrite E, Hfd. split; [|split; [apply unwinding_refl|]; split;
                              [exact Hg|]].
    + assert (Hd : ~ In d (names ms0)).
      { rewrite <- (erase_names _ _ _ Hg). now apply find_module_None. }
      destruct Hl as (Hnd & Hsub & Hord & Hmod).
      split; [exact Hnd|]. split; [exact Hsub|]. split; [exact Hord|].
      intros n Hn. specialize (Hmod n Hn).
      rewrite occurrences_cons in Hmod.
      destruct (String.eqb_spec n d) as [Heq|Hne];
        [rewrite Heq in Hn; contradiction|].
      exact Hmod.
    + intros n [Hn| ->]; [exact Hn|].
      unfold held, state_of. rewrite Hfd. discriminate.
Qed.

Lemma unloading_unload_loop (ms0 : Modules) (l : list string)
  (t : DepsTree.t) :
  fresh ms0 -> same_graph ms0 t -> unloading ms0 (occurrences l) t ->
  unloading ms0 none (fold_left DepsTree.unload_dependency l t) /\
  unwinding t (fold_left DepsTree.unload_dependency l t) /\
  forall n, held t n \/ In n l ->
            held (fold_left DepsTree.unload_dependency l t) n.
Proof.
  intros Hfresh. revert t.
  induction l as [|x l IH]; intros t Hg Hl; simpl fold_left.
  - split; [exact Hl|]. split; [apply unwinding_refl|].
    intros n [H|[]]. exact H.
  - destruct (unloading_unload_dependency ms0 l t x Hfresh Hg Hl)
      as (Hl1 & Hu1 & Hg1 & Hk1).
    destruct (IH _ Hg1 Hl1) as (Hl2 & Hu2 & Hk2).
    split; [exact Hl2|]. split; [now apply (unwinding_trans _ _ _ Hu1)|].
    intros n [Hn|[<-|Hin]]; apply Hk2; auto.
Qed.

(** ** A [deinit] that settles *)

Lemma error_shutting_down (err : Error) (n : string) (t : DepsTree.t) :
  shutting_down t ->
  DepsTree._error err (Some n) t
  = let t1 :=
      if DepsTree.errorListeners t
      then DepsTree.record (Emit_error err n) t
      else DepsTree.record (Console_error err) t in
    DepsTree.with_errors (DepsTree.errors t1 ++ [err]) t1.
Proof.
  intros Hs. unfold DepsTree._error. apply deinit_shutting_down.
  destruct (DepsTree.errorListeners t); exact Hs.
Qed.

Lemma deinitModule_resume_marked (n : string) (outcome : option Error)
  (t : DepsTree.t) :
  shutting_down t ->
  DepsTree._deinitModule_resume n outcome
    (DepsTree.record
       match outcome with
       | None => Deinit_returned n
       | Some err => Deinit_failed n err
       end
       (DepsTree.with_pendingDeinit
          (remove_first n (DepsTree.pendingDeinit t)) t))
  = if DepsTree._modulesToUnload (marked n outcome t) <=? 0
    then stopped_head (marked n outcome t)
    else fold_left DepsTree.unload_dependency
           (dependencies_of n (DepsTree.modules (marked n outcome t)))
           (marked n outcome t).
Proof.
  intros Hs. unfold DepsTree._deinitModule_resume, marked.
  destruct outcome as [err|]; [|reflexivity].
  rewrite error_shutting_down by exact Hs. reflexivity.
Qed.

Lemma marked_failed (n : string) (err : Error) (t : DepsTree.t) :
  marked n (Some err) t
  = DepsTree.with_modulesToUnload (DepsTree._modulesToUnload t - 1)
      (DepsTree.with_errors (DepsTree.errors t ++ [err])
         (DepsTree.record
            (if DepsTree.errorListeners t
             then Emit_error err n else Console_error err)
            (DepsTree.update n (Mod.with_error (Some err))
               (DepsTree._changeModuleState n State.error
                  (DepsTree.record (Deinit_failed n err)
                     (DepsTree.with_pendingDeinit
                        (remove_first n (DepsTree.pendingDeinit t)) t)))))).
Proof.
  unfold marked. cbv zeta.
  change (DepsTree.errorListeners
            (DepsTree.update n (Mod.with_error (Some err))
               (DepsTree._changeModuleState n State.error
                  (DepsTree.record (Deinit_failed n err)
                     (DepsTree.with_pendingDeinit
                        (remove_first n (DepsTree.pendingDeinit t)) t)))))
    with (DepsTree.errorListeners t).
  destruct (DepsTree.errorListeners t); reflexivity.
Qed.

Lemma marked_reads (n : string) (outcome : option Error) (t : DepsTree.t) :
  DepsTree.find n t <> None ->
  (forall m, state_of (marked n outcome t) m
             = if (m =? n)%string
               then match outcome with
                    | None => State.down
                    | Some _ => State.error
                    end
               else state_of t m) /\
  (forall m, toUnload (marked n outcome t) m = toUnload t m) /\
  DepsTree.pendingDeinit (marked n outcome t)
  = remove_first n (DepsTree.pendingDeinit t) /\
  DepsTree._modulesToUnload (marked n outcome t)
  = DepsTree._modulesToUnload t - 1 /\
  DepsTree.pendingInit (marked n outcome t) = DepsTree.pendingInit t /\
  DepsTree.state (marked n outcome t) = DepsTree.state t /\
  DepsTree.trace (marked n outcome t)
  = (match outcome with
     | None => [Emit_module_state n State.down; Deinit_returned n]
     | Some err =>
         [if DepsTree.errorListeners t
          then Emit_error err n else Console_error err;
          Emit_module_state n State.error; Deinit_failed n err]
     end ++ DepsTree.trace t)%list.
Proof.
  intros Hf. destruct outcome as [err|].
  - rewrite marked_failed. splits; try reflexivity.
    + intros m.
      match goal with
        |- state_of ?x m = _ =>
          change (state_of x m)
            with (state_of
                    (DepsTree.update n (Mod.with_error (Some err))
                       (DepsTree._changeModuleState n State.error t)) m)
      end.
      rewrite state_of_update by reflexivity.
      now apply state_of_changeModuleState.
    + intros m.
      match goal with
        |- toUnload ?x m = _ =>
          change (toUnload x m)
            with (toUnload
                    (DepsTree.update n (Mod.with_error (Some err))
                       (DepsTree.update n (Mod.with_state State.error) t)) m)
      end.
      rewrite toUnload_update by reflexivity.
      now apply toUnload_update.
  - splits; try reflexivity.
    + intros m.
      change (state_of (marked n None t) m)
        with (state_of (DepsTree._changeModuleState n State.down t) m).
      now apply state_of_changeModuleState.
    + intros m.
      change (toUnload (marked n None t) m)
        with (toUnload (DepsTree.update n (Mod.with_state State.down) t) m).
      now apply toUnload_update.
Qed.

Lemma same_graph_marked (ms0 : Modules) (n : string) (outcome : option Error)
  (t : DepsTree.t) :
  same_graph ms0 t -> same_graph ms0 (marked n outcome t).
Proof.
  intros Hg. destruct outcome as [err|].
  - rewrite marked_failed.
    change (same_graph ms0
              (DepsTree.update n (Mod.with_error (Some err))
                 (DepsTree._changeModuleState n State.error t))).
    apply (tl_error _ (same_graph_tree_level ms0)).
    now apply (module_level_changeModuleState _ (same_graph_module_level ms0)).
  - change (same_graph ms0 (DepsTree._changeModuleState n State.down t)).
    now apply (module_level_changeModuleState _ (same_graph_module_level ms0)).
Qed.

Lemma unloading_marked (ms0 : Modules) (t : DepsTree.t) (n : string)
  (outcome : option Error) :
  fresh ms0 -> same_graph ms0 t -> unloading ms0 none t ->
  In n (DepsTree.pendingDeinit t) ->
  unloading ms0 (occurrences (dependencies_of n ms0)) (marked n outcome t) /\
  still_loaded t n = true /\
  (forall d, still_loaded (marked n outcome t) d
             = if (d =? n)%string then false else still_loaded t d) /\
  forall m, held t m -> held (marked n outcome t) m.
Proof.
  intros (Hnames & Hinverse & _) Hg (Hnd & Hsub & Hord & Hmod) Hpend.
  pose proof (Hsub n Hpend) as Hn.
  destruct (find_names ms0 t n Hg Hn) as (mn & Hfn).
  assert (Hf : DepsTree.find n t <> None) by congruence.
  destruct (Hmod n Hn) as (_ & _ & _ & Hn4 & _).
  assert (Hst0 : state_of t n = State.deinitializing) by now apply Hn4.
  destruct (marked_reads n outcome t Hf)
    as (Hst & Hto & Hpe & _ & _ & _ & Htr).
  assert (Hloaded : still_loaded t n = true)
    by (unfold still_loaded, is_done; now rewrite Hst0).
  assert (Hsl : forall d, still_loaded (marked n outcome t) d
                          = if (d =? n)%string then false
                            else still_loaded t d).
  { intros d. unfold still_loaded, is_done. rewrite Hst.
    destruct (d =? n)%string; [now destruct outcome | reflexivity]. }
  split; [|split; [exact Hloaded|]; split; [exact Hsl|]].
  2:{ intros m Hm. unfold held. rewrite Hst, Hto.
      destruct (m =? n)%string; [now destruct outcome | exact Hm]. }
  assert (Hcc : forall m, deinit_completed m (DepsTree.trace t) ->
                          deinit_completed m
                            (DepsTree.trace (marked n outcome t))).
  { intros m Hm. rewrite Htr.
    destruct outcome; simpl; repeat apply deinit_completed_cons; exact Hm. }
  assert (Hdi : deinit_invocations (DepsTree.trace (marked n outcome t))
                = deinit_invocations (DepsTree.trace t)).
  { rewrite Htr.
    destruct outcome; [destruct (DepsTree.errorListeners t)|]; reflexivity. }
  unfold unloading. rewrite Hpe. splits.
  - now apply NoDup_remove_first.
  - intros m Hm. apply In_remove_first in Hm; [apply Hsub; tauto | auto].
  - rewrite Htr.
    destruct outcome; [destruct (DepsTree.errorListeners t)|]; simpl; auto.
  - intros m Hm.
    destruct (Hmod m Hm) as (H1 & H2 & H3 & H4 & H5 & H6).
    unfold is_done, deinit_invoked. rewrite Hst, Hto, Hdi.
    rewrite In_remove_first by exact Hnd.
    assert (Hcount : toUnload t m
                     = tally (still_loaded (marked n outcome t))
                         (dependants_of m ms0)
                       + Z.of_nat (occurrences (dependencies_of n ms0) m)).
    { rewrite H2. unfold none. rewrite Z.add_0_r.
      rewrite (tally_off (still_loaded t)
                 (still_loaded (marked n outcome t)) n _ Hloaded Hsl).
      f_equal. f_equal. unfold occurrences. now rewrite Hinverse. }
    destruct (String.eqb_spec m n) as [->|Hne].
    + split; [destruct outcome; auto|]. split; [exact Hcount|].
      split; [intros _; apply H3; congruence|].
      split; [split; [destruct outcome; discriminate | tauto]|].
      split.
      { unfold deinit_invoked in H5. rewrite H5, Hst0.
        now destruct outcome. }
      intros _. rewrite Htr.
      destruct outcome as [err|]; simpl.
      * right. exists err. right. right. now left.
      * left. right. now left.
    + split; [exact H1|]. split; [exact Hcount|]. split; [exact H3|].
      split; [rewrite H4; tauto|].
      split; [exact H5|].
      intros H. apply Hcc. apply H6. exact H.
Qed.

Lemma unloaded_stopped (ms0 : Modules) (x : DepsTree.t) :
  unloading ms0 none x ->
  tally (still_loaded x) (names ms0) = 0 ->
  DepsTree.pendingInit x = [] ->
  unloaded ms0 (stopped_head x).
Proof.
  intros (_ & Hsub & Hord & Hmod) Hzero Hpi.
  assert (Hdone : forall n, In n (names ms0) -> is_done x n = true).
  { intros n Hn. apply still_loaded_done. now apply (tally_zero _ _ n Hzero). }
  unfold unloaded. splits.
  - intros n Hn. destruct (Hmod n Hn) as (_ & _ & _ & _ & H5 & H6).
    pose proof (Hdone n Hn) as Hd.
    split; [exact Hd|]. split.
    + change (deinit_invoked n (DepsTree.trace (stopped_head x)))
        with (deinit_invoked n (DepsTree.trace x)).
      rewrite H5. unfold is_done in Hd.
      destruct (state_of x n); try discriminate; reflexivity.
    + unfold stopped_head. simpl.
      apply deinit_completed_cons, deinit_completed_cons. auto.
  - unfold stopped_head. simpl. auto.
  - exact Hpi.
  - change (DepsTree.pendingDeinit (stopped_head x))
      with (DepsTree.pendingDeinit x).
    destruct (DepsTree.pendingDeinit x) as [|y r] eqn:Ep; [reflexivity|].
    exfalso.
    assert (Hy : In y (names ms0)) by (apply Hsub; now left).
    destruct (Hmod y Hy) as (_ & _ & _ & H4 & _).
    assert (Hi : state_of x y = State.deinitializing)
      by (apply H4; now left).
    pose proof (Hdone y Hy) as Hd. unfold is_done in Hd.
    rewrite Hi in Hd. discriminate.
Qed.

Lemma draining_deinit_settles (ms0 : Modules) (t : DepsTree.t) (n : string)
  (outcome : option Error) :
  fresh ms0 -> same_graph ms0 t ->
  DepsTree.state t = State.deinitializing -> draining ms0 t ->
  In n (DepsTree.pendingDeinit t) ->
  let t' :=
    DepsTree._deinitModule_resume n outcome
      (DepsTree.record
         match outcome with
         | None => Deinit_returned n
         | Some err => Deinit_failed n err
         end
         (DepsTree.with_pendingDeinit
            (remove_first n (DepsTree.pendingDeinit t)) t)) in
  (DepsTree.state t' = State.deinitializing /\ draining ms0 t') \/
  (DepsTree.state t' = State.down /\ unloaded ms0 t').
Proof.
  intros Hfresh Hg Hs (Hl & Hmu & Hheld & Hpi) Hpend. cbv zeta.
  rewrite deinitModule_resume_marked by (left; exact Hs).
  destruct (unloading_marked ms0 t n outcome Hfresh Hg Hl Hpend)
    as (Hlm & Hloaded & Hsl & Hkm).
  pose proof (same_graph_marked ms0 n outcome t Hg) as Hgm.
  assert (Hn : In n (names ms0))
    by (destruct Hl as (_ & Hsub & _); now apply Hsub).
  destruct (find_names ms0 t n Hg Hn) as (mn & Hfn).
  assert (Hf : DepsTree.find n t <> None) by congruence.
  destruct (marked_reads n outcome t Hf)
    as (_ & _ & _ & Hmm & Hpim & Hsm & _).
  rewrite (same_graph_dependencies ms0 _ n Hgm).
  assert (Hcount : DepsTree._modulesToUnload (marked n outcome t)
                   = tally (still_loaded (marked n outcome t)) (names ms0)).
  { rewrite Hmm, Hmu.
    rewrite (tally_off (still_loaded t)
               (still_loaded (marked n outcome t)) n _ Hloaded Hsl).
    rewrite occurrences_NoDup; [lia | apply Hfresh | exact Hn]. }
  assert (Hkm' : forall m, In m (names ms0) -> held (marked n outcome t) m)
    by (intros m Hm; apply Hkm; now apply Hheld).
  rewrite Hpi in Hpim. rewrite Hs in Hsm.
  clear Hkm Hsl Hloaded Hmm.
  set (tm := marked n outcome t) in *. clearbody tm.
  pose proof (tally_nonneg (still_loaded tm) (names ms0)) as Hge.
  destruct (DepsTree._modulesToUnload tm <=? 0) eqn:Ez.
  - apply Z.leb_le in Ez. right. split; [reflexivity|].
    apply unloaded_stopped; [|lia | exact Hpim].
    destruct Hlm as (H1 & H2 & H3 & H4).
    split; [exact H1|]. split; [exact H2|]. split; [exact H3|].
    intros m Hm. destruct (H4 m Hm) as (K1 & K2 & K3 & K4 & K5 & K6).
    split; [exact K1|]. split; [|auto].
    rewrite K3; [|].
    + assert (Hd : still_loaded tm m = false)
        by (apply (tally_zero _ (names ms0)); [lia | exact Hm]).
      unfold none. rewrite Z.add_0_r. symmetry.
      pose proof (tally_nonneg (still_loaded tm) (dependants_of m ms0)).
      pose proof (tally_nonneg (still_loaded tm) (names ms0)).
      assert (Hall : forall d, In d (dependants_of m ms0) ->
                               still_loaded tm d = false).
      { intros d Hdd. apply (tally_zero _ (names ms0)); [lia|].
        now apply (dependants_are_modules ms0 m). }
      unfold tally. clear - Hall.
      induction (dependants_of m ms0) as [|d l IH]; [reflexivity|].
      simpl. rewrite (Hall d) by now left.
      apply IH. intros x Hx. apply Hall. now right.
    + assert (Hd : still_loaded tm m = false)
        by (apply (tally_zero _ (names ms0)); [lia | exact Hm]).
      apply still_loaded_done in Hd. unfold is_done in Hd.
      intros E. rewrite E in Hd. discriminate.
  - apply Z.leb_gt in Ez. left.
    destruct (unloading_unload_loop ms0 (dependencies_of n ms0) tm
                Hfresh Hgm Hlm) as (Hl2 & (Hu1 & Hu2 & Hu3) & Hk2).
    split.
    + rewrite (proj1 (proj2 (state_loops _ _))). exact Hsm.
    + split; [exact Hl2|]. split.
      * rewrite Hu2, Hcount. apply tally_ext. intros d _. now rewrite Hu1.
      * split; [|congruence].
        intros m Hm. apply Hk2. left. now apply Hkm'.
Qed.

(** ** The invariant of an orderly shutdown *)

Lemma initDefer_deinit_head (t : DepsTree.t) :
  DepsTree._initDefer (deinit_head t) = DepsTree._initDefer t.
Proof. unfold deinit_head. now destruct (DepsTree.state t). Qed.

Lemma initDefer_error_head (err : Error) (name : option string)
  (t : DepsTree.t) :
  DepsTree._initDefer (error_head err name t) = DepsTree._initDefer t.
Proof.
  unfold error_head. rewrite initDefer_deinit_head.
  now destruct (DepsTree.errorListeners t).
Qed.

(** The promise of [init()] is resolved by the turn that brings the tree
    up, and by no other. *)
Lemma resolved_step (a : Action) (t t' : DepsTree.t) :
  step a t = Some t' -> init_resolved t' ->
  init_resolved t \/ DepsTree.state t' = State.up.
Proof.
  intros Hstep Hres. apply step_outline in Hstep.
  unfold init_resolved in *.
  destruct a as [| | | |name [v|err]|name outcome]; simpl in Hstep.
  - subst t'. unfold DepsTree.init in Hres.
    destruct (DepsTree.state t); simpl in Hres;
      try discriminate; now left.
  - apply outline_fields in Hstep as (_ & _ & Hi & _).
    rewrite initDefer_deinit_head in Hi. left. now rewrite <- Hi.
  - subst t'. now left.
  - destruct Hstep as [_ Ho].
    apply outline_fields in Ho as (_ & _ & Hi & _).
    left. simpl in Hi. now rewrite <- Hi.
  - destruct Hstep as [_ Ho].
    destruct (DepsTree.state t);
      try (apply outline_fields in Ho as (_ & _ & Hi & _);
           left; simpl in Hi; now rewrite <- Hi).
    destruct Ho as [Ho|Ho]; apply outline_fields in Ho as (Hs & _ & Hi & _).
    + left. simpl in Hi. now rewrite <- Hi.
    + right. exact Hs.
  - destruct Hstep as [_ Ho].
    apply outline_fields in Ho as (_ & _ & Hi & _).
    rewrite initDefer_error_head in Hi. left. simpl in Hi.
    now rewrite <- Hi.
  - destruct Hstep as [_ Ho].
    assert (Hi : DepsTree._initDefer t' = DepsTree._initDefer t).
    { destruct Ho as [Ho|Ho]; apply outline_fields in Ho as (_ & _ & Hi & _);
        rewrite Hi; destruct outcome; cbn [stopped_head DepsTree._initDefer
          DepsTree.record DepsTree._changeState DepsTree.with_trace
          DepsTree.with_state DepsTree.with_deinitDefer];
        try rewrite initDefer_error_head; reflexivity. }
    left. now rewrite <- Hi.
Qed.

Lemma resolved_after_start_up (ms0 : Modules) (t : DepsTree.t) :
  phases ms0 t -> init_resolved t -> after_start_up t.
Proof.
  intros [[_ Hu]|[(_ & _ & Hst)|(Hsu & Hc & _)]] Hres.
  - destruct Hu as (_ & _ & _ & _ & _ & Hn & _). contradiction.
  - destruct Hst as (_ & Hn & _). contradiction.
  - now split.
Qed.

(** [deinit()] on a tree at rest. *)
Lemma settled_deinit (ms0 : Modules) (t : DepsTree.t) :
  fresh ms0 -> same_graph ms0 t -> DepsTree.state t = State.up ->
  settled ms0 t ->
  DepsTree.state (snd (DepsTree.deinit t)) = State.deinitializing /\
  draining ms0 (snd (DepsTree.deinit t)).
Proof.
  intros Hfresh Hg Hs Hset.
  destruct (settled_unloading ms0 t Hfresh Hset) as [Hl Hmu].
  assert (Hpi : DepsTree.pendingInit t = []) by apply Hset.
  unfold DepsTree.deinit. rewrite Hs. cbn [snd DepsTree.defer].
  set (t1 := DepsTree.with_deinitDefer _ _).
  assert (Hl1 : unloading ms0 none t1).
  { destruct Hl as (H1 & H2 & H3 & H4).
    split; [exact H1|]. split; [exact H2|].
    split; [simpl; auto|].
    intros n Hn. destruct (H4 n Hn) as (K1 & K2 & K3 & K4 & K5 & K6).
    splits; auto.
    intros H. apply deinit_completed_cons. now apply K6. }
  assert (Hg1 : same_graph ms0 t1) by exact Hg.
  change (DepsTree.modules t1) with (DepsTree.modules t).
  rewrite (erase_names _ _ _ Hg).
  destruct (unloading_deinit_loop ms0 (names ms0) t1 Hfresh Hg1 Hl1)
    as (Hl2 & (Hu1 & Hu2 & Hu3) & Hk2); [auto|].
  split; [now rewrite (proj1 (state_loops _ _))|].
  split; [exact Hl2|]. split.
  - rewrite Hu2. change (DepsTree._modulesToUnload t1)
      with (DepsTree._modulesToUnload t).
    rewrite Hmu. apply tally_ext. intros d _. now rewrite Hu1.
  - split; [|now rewrite Hu3].
    intros n Hn. apply Hk2. now left.
Qed.

Lemma orderly_step (ms0 : Modules) (a : Action) (t t' : DepsTree.t) :
  fresh ms0 -> invariant ms0 t -> tallied ms0 t -> orderly ms0 t ->
  step a t = Some t' -> orderly ms0 t'.
Proof.
  intros Hfresh Hinv [_ Hset] Hord Hstep Hres'.
  destruct (resolved_step a t t' Hstep Hres') as [Hres|Hup'];
    [|split; intros E; congruence].
  destruct (Hord Hres) as [Hdr Hun].
  destruct Hinv as (_ & _ & Hg & Hp & _).
  destruct (resolved_after_start_up ms0 t Hp Hres) as [Hsu Hc].
  assert (Hpi : DepsTree.pendingInit t = []).
  { destruct Hsu as [E|[E|E]];
      [apply (Hset E) | apply (Hdr E) | apply (Hun E)]. }
  destruct a as [| | | |name outcome|name outcome].
  - apply Some_inj in Hstep. subst t'.
    rewrite init_not_off by now apply started_up_not_off.
    now split.
  - apply Some_inj in Hstep. subst t'.
    destruct Hsu as [E|Hsd].
    + destruct (settled_deinit ms0 t Hfresh Hg E (Hset E)) as [Hs' Hd'].
      split; [intros _; exact Hd' | intros E'; congruence].
    + rewrite deinit_shutting_down by exact Hsd. now split.
  - apply Some_inj in Hstep. subst t'. split; [exact Hdr | exact Hun].
  - rewrite step_run_init_callback, Hc in Hstep. discriminate.
  - rewrite step_init_settles, Hpi in Hstep. discriminate.
  - pose proof (step_outline _ _ _ Hstep) as (Hin & _).
    rewrite step_deinit_settles in Hstep.
    destruct (_ && _); [|discriminate].
    apply Some_inj in Hstep.
    destruct Hsu as [E|[E|E]].
    + destruct (Hset E) as (_ & _ & _ & Hpd & _).
      rewrite Hpd in Hin. contradiction.
    + destruct (draining_deinit_settles ms0 t name outcome Hfresh Hg E
                  (Hdr E) Hin) as [[Hs' Hd']|[Hs' Hd']];
        cbv zeta in Hs', Hd'; rewrite Hstep in Hs', Hd';
        split; intros E'; first [assumption | congruence].
    + destruct (Hun E) as (_ & _ & _ & Hpd).
      rewrite Hpd in Hin. contradiction.
Qed.

Lemma tally_none (f : string -> bool) (l : list string) :
  (forall d, f d = false) -> tally f l = 0.
Proof.
  intros H. unfold tally.
  induction l as [|d l IH]; simpl; [reflexivity|].
  now rewrite H.
Qed.

Lemma no_deinit_order (dependant : string -> string -> Prop)
  (tr : list Event) :
  deinit_invocations tr = [] -> deinit_after_dependants dependant tr.
Proof.
  intros H. induction tr as [|e tr IH]; simpl; [exact I|].
  destruct e; simpl in H; try discriminate; split; auto.
Qed.

Lemma deinit_after_dependants_weaken (P Q : string -> string -> Prop)
  (tr : list Event) :
  (forall x m, Q x m -> P x m) ->
  deinit_after_dependants P tr -> deinit_after_dependants Q tr.
Proof.
  intros H. induction tr as [|e tr IH]; simpl; [auto|].
  intros [H1 H2]. split; [|now apply IH].
  destruct e; auto.
Qed.

Lemma counting_constructed
  (descriptions : list (string * ModuleDescription)) (t0 : DepsTree.t) :
  distinct_names descriptions ->
  DepsTree.constructor descriptions = Normal t0 ->
  counting (DepsTree.modules t0) t0.
Proof.
  intros Hnd Hc.
  destruct (constructor_fresh descriptions t0 Hnd Hc)
    as ((_ & _ & Hoff) & Hnames & _).
  assert (Hstate : forall d, state_of t0 d = State.off).
  { intros d. unfold state_of, DepsTree.find.
    destruct (find_module d (DepsTree.modules t0)) as [m|] eqn:E;
      [|reflexivity].
    now apply (Hoff d m). }
  pose proof (constructor_Normal _ _ Hc)
    as (_ & _ & Hmu & _ & _ & _ & _ & _ & Hpd & Htr).
  unfold counting. rewrite Hmu, Hpd, Htr. splits; auto.
  - intros n Hn. rewrite tally_none
      by (intros d; unfold is_up; now rewrite Hstate).
    rewrite Hnames in Hn. apply in_map_iff in Hn as ([n' d] & <- & Hin).
    destruct (constructor_module descriptions t0 n' d Hnd Hc Hin)
      as (m & Hf & Hm).
    unfold toUnload. simpl. rewrite Hf.
    apply (f_equal Mod.dependantsToUnload) in Hm. exact Hm.
  - symmetry. apply tally_none. intros d. unfold has_begun.
    now rewrite Hstate.
Qed.

Lemma orderly_reachable
  (descriptions : list (string * ModuleDescription)) (t0 t : DepsTree.t)
  (actions : list Action) :
  distinct_names descriptions ->
  DepsTree.constructor descriptions = Normal t0 ->
  all_needed (DepsTree.modules t0) ->
  run actions t0 = Some t ->
  invariant (DepsTree.modules t0) t /\
  tallied (DepsTree.modules t0) t /\ orderly (DepsTree.modules t0) t.
Proof.
  intros Hnd Hc Hall Hrun.
  destruct (constructor_fresh descriptions t0 Hnd Hc) as (Hfresh & _).
  pose proof (constructor_Normal _ _ Hc) as (_ & Hs & _ & _ & Hi & _).
  set (ms := DepsTree.modules t0) in *.
  assert (H : (invariant ms t /\ all_up ms t) /\ tallied ms t /\ orderly ms t).
  { apply (run_inv (fun x => (invariant ms x /\ all_up ms x) /\
                             tallied ms x /\ orderly ms x))
      with (actions := actions) (t := t0); auto.
    - intros a t1 t2 Hstep ((Hi1 & Ha1) & Ht1 & Ho1).
      assert (Hi2 : invariant ms t2) by now apply (invariant_step _ a t1).
      assert (Ha2 : all_up ms t2) by now apply (all_up_step _ a t1).
      split; [now split|]. split.
      + now apply (tallied_step ms a t1).
      + now apply (orderly_step ms a t1).
    - split; [split|split].
      + now apply (invariant_constructed descriptions).
      + intros E. congruence.
      + split; [right; now apply (counting_constructed descriptions)|].
        intros E. congruence.
      + intros Hr. unfold init_resolved in Hr. rewrite Hi in Hr.
        discriminate. }
  destruct H as ((H1 & _) & H2 & H3). auto.
Qed.

(** X19.  In a tree in which every module is needed and that was up (the
    promise of [init()] is resolved), the shutdown is orderly: the [deinit]
    operation of a module is invoked only after the [deinit] operation of
    each module that depends on it has completed or failed, no [deinit]
    operation is invoked twice, no [init] operation is in flight, and when
    the tree is [down] the [deinit] operation of every module was invoked
    once and has completed or failed. *)
Theorem shutdown_after_dependants
  (descriptions : list (string * ModuleDescription)) (t0 t : DepsTree.t)
  (actions : list Action) :
  distinct_names descriptions ->
  DepsTree.constructor descriptions = Normal t0 ->
  all_needed (DepsTree.modules t0) ->
  run actions t0 = Some t ->
  init_resolved t ->
  deinit_after_dependants (depends descriptions) (DepsTree.trace t) /\
  (forall n, In n (map fst descriptions) ->
             (deinit_invoked n (DepsTree.trace t) <= 1)%nat) /\
  DepsTree.pendingInit t = [] /\
  (DepsTree.state t = State.down ->
   forall n, In n (map fst descriptions) ->
             deinit_invoked n (DepsTree.trace t) = 1%nat /\
             deinit_completed n (DepsTree.trace t)).
Proof.
  intros Hnd Hc Hall Hrun Hres.
  destruct (constructor_fresh descriptions t0 Hnd Hc)
    as (Hfresh & Hnames & Hdeps & _).
  destruct (orderly_reachable descriptions t0 t actions Hnd Hc Hall Hrun)
    as ((_ & _ & Hg & Hp & _) & [_ Hset] & Hord).
  destruct (Hord Hres) as [Hdr Hun].
  destruct (resolved_after_start_up _ t Hp Hres) as [Hsu _].
  rewrite <- Hnames.
  assert (Hweak : forall x m, depends descriptions x m ->
                              recorded_dependant (DepsTree.modules t0) x m).
  { intros x m Hd. unfold depends in Hd. rewrite <- Hdeps in Hd.
    unfold recorded_dependant. destruct Hfresh as (_ & Hinverse & _).
    apply (count_occ_In string_dec). rewrite Hinverse.
    now apply (count_occ_In string_dec). }
  destruct Hsu as [E|[E|E]].
  - destruct (Hset E) as (_ & _ & Hpi & _ & Hdi). splits.
    + now apply no_deinit_order.
    + intros n _. unfold deinit_invoked. rewrite Hdi. simpl. lia.
    + exact Hpi.
    + intros E'. congruence.
  - destruct (Hdr E) as ((_ & _ & Ho & Hmod) & _ & _ & Hpi). splits.
    + now apply (deinit_after_dependants_weaken _ _ _ Hweak).
    + intros n Hn. destruct (Hmod n Hn) as (_ & _ & _ & _ & H5 & _).
      rewrite H5. destruct (State.eqb _ _); lia.
    + exact Hpi.
    + intros E'. congruence.
  - destruct (Hun E) as (Hmod & Ho & Hpi & _). splits.
    + now apply (deinit_after_dependants_weaken _ _ _ Hweak).
    + intros n Hn. destruct (Hmod n Hn) as (_ & H2 & _). lia.
    + exact Hpi.
    + intros _ n Hn. destruct (Hmod n Hn) as (_ & H2 & H3). now split.
Qed.

Lemma shutdown_after_dependants_witness :
  exists t0 t,
    distinct_names diamond /\
    DepsTree.constructor diamond = Normal t0 /\
    all_needed (DepsTree.modules t0) /\
    run [call_init; run_init_callback;
         init_settles "A" (inl VNull); init_settles "B" (inl VNull);
         init_settles "C" (inl VNull); init_settles "D" (inl VNull);
         call_deinit; deinit_settles "D" None;
         deinit_settles "C" (Some (OperationError "c")); deinit_settles "B" None;
         deinit_settles "A" None] t0
    = Some t /\
    init_resolved t /\
    deinit_after_dependants (depends diamond) (DepsTree.trace t) /\
    (forall n, In n (map fst diamond) ->
               (deinit_invoked n (DepsTree.trace t) <= 1)%nat) /\
    DepsTree.pendingInit t = [] /\
    (DepsTree.state t = State.down ->
     forall n, In n (map fst diamond) ->
               deinit_invoked n (DepsTree.trace t) = 1%nat /\
               deinit_completed n (DepsTree.trace t)).
Proof.
  destruct (DepsTree.constructor diamond) as [t0| |] eqn:E0;
    try (vm_compute in E0; discriminate).
  assert (Hall : all_needed (DepsTree.modules t0)).
  { vm_compute in E0. injection E0 as <-. intros n m H.
    apply find_module_Some_In in H. simpl in H.
    repeat (destruct H as [H|H]; [injection H as _ <-; reflexivity|]).
    contradiction. }
  destruct (run [call_init; run_init_callback;
                 init_settles "A" (inl VNull); init_settles "B" (inl VNull);
                 init_settles "C" (inl VNull); init_settles "D" (inl VNull);
                 call_deinit; deinit_settles "D" None;
                 deinit_settles "C" (Some (OperationError "c"));
                 deinit_settles "B" None; deinit_settles "A" None]
              t0) as [t|] eqn:E.
  2:{ vm_compute in E0. injection E0 as <-. vm_compute in E. discriminate. }
  assert (Hres : init_resolved t).
  { vm_compute in E0. injection E0 as <-. vm_compute in E.
    injection E as <-. reflexivity. }
  exists t0, t. split; [exact diamond_distinct|]. split; [reflexivity|].
  split; [exact Hall|]. split; [exact E|]. split; [exact Hres|].
  exact (shutdown_after_dependants diamond t0 t _ diamond_distinct E0 Hall
           E Hres).
Defined.
